(* ===== verification/_CoqProject ===== *)
-Q . S2P
Prelude.v
GoStrings.v
GoNet.v
SqlGate.v
SqlGateSpec.v
Roles.v
RolesSpec.v
RolePool.v
RolePoolSpec.v
TopQueries.v
Http.v
GoHttp.v
Cache.v
Middleware.v
MiddlewareSpec.v
SampleWorld.v
Concurrency.v
ConcurrencySpec.v
GoJson.v
Executor.v
ExecutorSpec.v
GoCrypto.v
Auth.v
Jwt.v
AuthSpec.v
Config.v
ConfigSpec.v
Hardening.v
Footprint.v
Server.v
Endpoints.v
Routes.v
Startup.v
Lifecycle.v
Manager.v
ServerSpec.v
HealthSpec.v
RoutesSpec.v
HardeningSpec.v
StartupSpec.v
LifecycleSpec.v
IdentitySpec.v
Limits.v
LimitsSpec.v
LimitsRun.v
Answers.v
OuterChain.v
RootFootprint.v
ManagerSpec.v
RootSpec.v
RootSlots.v
UsersSpec.v
RootAnswers.v
RootMetrics.v
