(* ===== verification/Prelude.v ===== *)
(** * A verification of the PathQL server

    The server answers [POST /pathql]: a JSON request with one SQL statement and
    its parameters, which it checks, runs in a transaction as the caller's own
    database role, and returns as JSON. Around it are authentication, abuse
    protection, an admin API that keeps users and database roles in step, metrics,
    a health and a schema endpoint. This library models the program's Go code
    function by function and proves what the parts promise, alone and together.
    This file is the shared vocabulary; the parts are below, each with its model
    ([X.v]) and its theorems ([XSpec.v]; TopQueries holds both).

    ** How code becomes definitions

    A Go function is a function of the same name. [(T, error)] is [result]; a
    handler is a computation of the monad [Http.M]: it reads the response header
    and a world, and yields the calls it makes on its [http.ResponseWriter], the
    new world, and a value or a panic. [defer] is [finally] or [try_]; a wrapping
    writer is a fold over the calls of the handler it was given to. Strings are
    byte strings, machine integers are [Z] with [wrap_i64] and [wrap_u64] where
    the code can overflow, floats are [spec_float], maps are [gmap], and the order
    of a [range] over a map is an oracle ([MapOrder]). What is shared by reference
    and matters, the connection pools, is a heap of objects. What runs at the same
    time is a step relation whose steps are the code's atomic ones.

    Third-party code is a parameter: a class of operations ([PathSqlx], [JWTLib],
    [TQMemory], [Bcrypt], [Opener], [PqQuote], [Introspection], [ServeMux],
    [Environment] and the like), used where the code calls it. Where a theorem
    needs more it is the documented behaviour, a record of its own
    ([sql_documented], [tq_documented], [jwt_documented]), of which the witnesses
    give an instance. Of PostgreSQL, [sql_documented] assumes what it documents of
    transactions, and only for texts that are [confined]: one statement that neither
    ends its transaction nor writes outside it. Other texts, such as a stacked
    COMMIT, may do anything to the data; the theorems on the data say where they
    exclude them. Go's standard library is modelled as far as it is used: GoStrings,
    GoNet, GoHttp, GoJson, GoCrypto.

    ** The parts

    - SqlGate (internal/sqlgate): the tokenizer, [Check] for read-only service,
      [Classify] and [HasReturning] for writes.
    - Roles (internal/roles): the diff of users and role catalog ([Compute]), its
      DDL and its loader ([LoadAndCompute]).
    - RolePool (internal/db/rolepool.go): the manager of per-role pools: semaphore,
      critical sections and LRU, and all interleavings of [Acquire], release,
      [Evict] and [Close] as the relation [step] on [system]. Manager has the whole
      calls, as runs of that relation: the instance of [PoolManager].
    - Executor (internal/db/executor.go): [RunQuery] and [RunWrite].
    - TopQueries (pathql.go): the Space-Saving toplist behind two metrics.
    - Cache (internal/cache), Middleware (internal/middleware but concurrency.go)
      and Concurrency (concurrency.go: the caps as middlewares, [gstep] and [ustep]
      for their interleavings). Limits has the limiters of a chain as they run for
      many requests at a time, over the operations of the cache: [pstep].
    - Auth and Jwt (internal/auth): the chain, API keys, Basic, JWT with JWKS, the
      user store and the admin writes.
    - Config (internal/config), Hardening (internal/db/hardening.go).
    - Server, Endpoints, Routes, Startup (pathql.go, health.go, schema.go,
      admin.go, internal/db/db.go): [PathQlEndpoint] and the metrics; the other
      endpoints; the chain of each route, the router, the start-up checks; [main]
      up to the servers it runs.
    - Lifecycle (the end of [main]): the listening goroutines, the select, the
      shutdown and the deferred calls, as the relations [inside] and [outside].
    - Footprint, RootFootprint: what a computation may do to the world, as a
      preorder, through every combinator, middleware, endpoint and the router; the
      composition theorems rest on it, each at a preorder of its own. Answers: what
      a computation may send, in the same way. OuterChain: the middlewares around
      the metrics refuse a request or hand it on once.

    A request passes [rootHandler] (firewall, router), the chain of its route
    (recovery, headers, caps, rate limit, metrics, lockout, authentication,
    authorization) and an endpoint; [PathQlEndpoint] asks SqlGate, picks a pool
    through the interface [PoolManager] that RolePool implements, and runs the
    Executor. Endpoints are proved against these interfaces, the implementations
    in their own files.

    ** What is proved

    - The gate: tokenizing reads back rendered queries and always ends; [Check]
      and [Classify] decide a declarative policy; and the inputs on which the
      tokenizer and PostgreSQL disagree.
    - Roles: the sync converges or fails for one of three documented reasons, is
      idempotent, and names managed roles only. IdentitySpec joins it to the pools:
      a request logs in with exactly the role and password the sync provisioned.
    - Pools: role isolation, the backend ceiling and the LRU under every
      interleaving.
    - Execution: a run's events refine a grammar; writes of confined statements are
      all or nothing, and read-only runs of them change nothing, where a stacked
      COMMIT would; the estimate that overflows its ceiling.
    - Requests: ServerSpec gives [/pathql] an abstract run, at most one admitted
      statement on the caller's own pool, and derives when data can change;
      ManagerSpec composes it with the pools, down to the connection string;
      RoutesSpec, who reaches which endpoint and which rejections are counted.
    - Middlewares and caps: exact limits, containment of panics, XSRF; the global
      cap, quiescence and progress of the per-user cap, and when it is exceeded.
      LimitsSpec: the rate limit is exact under every interleaving, the lockout up
      to one failure for every slot; LimitsRun: the middlewares are runs of that
      system, and the schedules that reach its bounds.
    - The whole server: a read-only configuration keeps the data over any requests
      whose admitted queries stay within their transactions (RootSpec); no request
      keeps a pool slot (RootSlots); every route answers, and every error with a
      constant of a fixed list (RootAnswers); the metrics are an account of the
      answers, request by request (RootMetrics). Probes of /health ping the database
      at a bounded rate (HealthSpec, over the interleavings [hstep] of Endpoints).
    - Authentication: the gate, API keys exactly, and of a JWT no algorithm confusion
      and a key from the configured JWKS URL only. Users: the key issued is the
      user's, a deleted user is locked out (UsersSpec).
    - Configuration and start: validation equals a rule; a start gives the process
      the configuration describes or stops for a stated reason; when the hardening
      check aborts. Serving ends, and gracefully (LifecycleSpec).
    - The toplist's bounds.

    ** Fuel and bounds

    Recursion that is not structural runs on fuel that is shown or evidently
    enough: the tokenizer and [expandEnv] on the length of the text, every step
    taking a byte ([tokenize_terminates] states it without fuel); [ParseDuration]
    on the length likewise; the JSON parser on twice that ([json_fuel]), each of
    its calls consuming a byte or opening a value; SHA-256 on the number of words.
    Interleavings are unbounded: their theorems are over all reachable states.

    ** Not modelled

    Log lines and their text; the start-up look at the file's mode in [main];
    driver registration; [Ping] and the two [Close] functions that only call a
    library. Of the listeners it is modelled when they end and what they wait
    for, not what they send. A context is the deadline it carries; the
    cancellation of a client is only modelled where the code waits
    ([step_cancel]). The background update of an API key's last use runs at
    once. In Routes the semaphores are an interface ([Limiters]), and the
    theorems on the whole server serve one request after the other; what runs at
    the same time is in RolePool and Manager, Concurrency, Limits, and [hstep].
    tqmemory is taken at its word that an entry stays until it expires; what it
    does when its memory is full is not modelled. The matching of
    [net/http.ServeMux] patterns is a parameter. *)

From stdpp Require Export prelude strings gmap sorting fin_maps pretty.
From Stdlib Require Export ZArith Lia.

#[export] Set Warnings "-clear-no-such-hyp,-register-all".

(** ** Results of fallible Go functions

    A Go function returning [(T, error)] whose caller ignores the first
    component on failure is a [result]: [Ok v] is [(v, nil)], [Err e] is a
    non-nil error. *)

Inductive result (E A : Type) : Type :=
| Ok (a : A)
| Err (e : E).
Arguments Ok {E A} a.
Arguments Err {E A} e.

#[export] Instance result_ret {E} : MRet (result E) := fun A a => Ok a.
#[export] Instance result_bind {E} : MBind (result E) := fun A B f m =>
  match m with Ok a => f a | Err e => Err e end.
#[export] Instance result_fmap {E} : FMap (result E) := fun A B f m =>
  match m with Ok a => Ok (f a) | Err e => Err e end.

#[export] Instance result_eq_dec {E A} `{EqDecision E, EqDecision A} :
  EqDecision (result E A).
Proof. solve_decision. Defined.

Definition is_Ok {E A} (r : result E A) : bool :=
  match r with Ok _ => true | Err _ => false end.

Lemma result_bind_Ok {E A B} (f : A -> result E B) m b :
  (m ≫= f) = Ok b <-> exists a, m = Ok a /\ f a = Ok b.
Proof.
  split.
  - destruct m as [a|e]; simpl; [eauto|done].
  - by intros (a & -> & ?).
Qed.

(** ** Machine integers

    Go's [uint64] arithmetic wraps modulo [2^64]; [int64] is two's complement. *)

Definition u64_max : Z := 2 ^ 64 - 1.
Definition wrap_u64 (z : Z) : Z := z mod 2 ^ 64.
Definition wrap_i64 (z : Z) : Z := (z + 2 ^ 63) mod 2 ^ 64 - 2 ^ 63.
Definition is_u64 (z : Z) : Prop := (0 <= z <= u64_max)%Z.
Definition is_i64 (z : Z) : Prop := (- 2 ^ 63 <= z < 2 ^ 63)%Z.

Lemma wrap_u64_id z : is_u64 z -> wrap_u64 z = z.
Proof. unfold is_u64, u64_max, wrap_u64. intros. apply Z.mod_small. lia. Qed.

Lemma wrap_u64_range z : is_u64 (wrap_u64 z).
Proof.
  unfold is_u64, u64_max, wrap_u64.
  pose proof (Z.mod_pos_bound z (2 ^ 64) ltac:(lia)). lia.
Qed.

Lemma wrap_i64_id z : is_i64 z -> wrap_i64 z = z.
Proof. unfold is_i64, wrap_i64. intros. rewrite Z.mod_small; lia. Qed.

(** ** Tactics

    [crush_match] splits every [match]/[if] of the goal, simplifying equations
    as it goes; [deex] opens existentials and conjunctions. *)

Ltac deex :=
  repeat match goal with
  | H : exists x, _ |- _ => let y := fresh x in destruct H as [y H]
  | H : _ /\ _ |- _ => destruct H
  end.

Ltac crush_match :=
  repeat (simplify_eq/=; case_match; simplify_eq/=); try done.

(** Boolean tests of the code, turned into the propositions they decide. *)
Ltac breflect :=
  repeat match goal with
  | H : _ && _ = true |- _ => apply andb_true_iff in H; destruct H
  | H : _ || _ = false |- _ => apply orb_false_iff in H; destruct H
  | H : negb _ = true |- _ => apply negb_true_iff in H
  | H : negb _ = false |- _ => apply negb_false_iff in H
  | H : bool_decide _ = true |- _ => apply bool_decide_eq_true in H
  | H : bool_decide _ = false |- _ => apply bool_decide_eq_false in H
  | H : (_ <? _)%Z = true |- _ => apply Z.ltb_lt in H
  | H : (_ <? _)%Z = false |- _ => apply Z.ltb_ge in H
  | H : (_ <=? _)%Z = true |- _ => apply Z.leb_le in H
  | H : (_ <=? _)%Z = false |- _ => apply Z.leb_gt in H
  | H : (_ =? _)%Z = true |- _ => apply Z.eqb_eq in H
  | H : (_ =? _)%Z = false |- _ => apply Z.eqb_neq in H
  | H : String.eqb _ _ = true |- _ => apply String.eqb_eq in H
  | H : String.eqb _ _ = false |- _ => apply String.eqb_neq in H
  | H : Ascii.eqb _ _ = true |- _ => apply Ascii.eqb_eq in H
  | H : Ascii.eqb _ _ = false |- _ => apply Ascii.eqb_neq in H
  end.

Create HintDb pathql.

(** ** The iteration order of Go maps *)

(** One [range] over a map, numbered by its place in the code, visits every key
    once, in any order. *)
Class MapOrder := {
  iter : nat -> gset string -> list string;
  iter_perm k X : iter k X ≡ₚ elements X
}.

Lemma elem_of_iter `{MapOrder} k X name : name ∈ iter k X <-> name ∈ X.
Proof. rewrite iter_perm. apply elem_of_elements. Qed.

Lemma NoDup_iter `{MapOrder} k X : NoDup (iter k X).
Proof. rewrite iter_perm. apply NoDup_elements. Qed.

#[export] Hint Resolve NoDup_iter : pathql.

(** One such order, to compute with. *)
Definition elements_order : MapOrder :=
  {| iter _ X := elements X; iter_perm _ X := reflexivity _ |}.

(** ** Lists *)

Section lists.
Context {A : Type}.
Implicit Types l : list A.

Lemma Permutation_filter_split (P : A -> Prop) `{!forall x, Decision (P x)} l :
  l ≡ₚ filter P l ++ filter (fun x => ~ P x) l.
Proof.
  induction l as [|x l IH]; [done|].
  rewrite !filter_cons. destruct (decide (P x)) as [Hx|Hx].
  - rewrite decide_False by tauto. simpl. by f_equiv.
  - rewrite decide_True by done. rewrite <- Permutation_middle. by f_equiv.
Qed.
End lists.

(** ** Counting the entries of a map *)

Section counting.
Context {A : Type} (P : A -> bool).

Definition count_if (m : gmap nat A) : nat := size (filter (fun kx => P kx.2 = true) m).

Lemma count_if_insert m k x :
  Z.of_nat (count_if (<[k := x]> m)) =
  (Z.of_nat (count_if m) + (if P x then 1 else 0)
   - match m !! k with Some old => if P old then 1 else 0 | None => 0 end)%Z.
Proof.
  unfold count_if. set (Q := fun kx : nat * A => P kx.2 = true).
  assert (filter Q m !! k = m !! k ≫= (fun old => if P old then Some old else None)) as Hl.
  { rewrite map_lookup_filter. destruct (m !! k) as [old|]; [|done]. simpl. unfold Q. simpl.
    destruct (P old) eqn:E; simpl; by repeat case_guard. }
  assert (forall old, filter Q m !! k = Some old -> (0 < size (filter Q m))%nat) as Hpos.
  { intros old Ho. apply Nat.neq_0_lt_0. intros Hz. apply map_size_empty_inv in Hz.
    by rewrite Hz in Ho. }
  rewrite map_filter_insert. destruct (decide (Q (k, x))) as [E|E]; unfold Q in E; simpl in E.
  - rewrite E, map_size_insert, Hl.
    destruct (m !! k) as [old|]; simpl; [destruct (P old)|]; simpl; lia.
  - apply not_true_is_false in E. rewrite E, map_filter_delete, map_size_delete, Hl.
    destruct (m !! k) as [old|] eqn:Et; simpl; [destruct (P old) eqn:Eo|]; simpl; try lia.
    simpl in Hl. rewrite Eo in Hl. specialize (Hpos old Hl). lia.
Qed.

Lemma count_if_empty : count_if ∅ = 0.
Proof. unfold count_if. by rewrite map_filter_empty, map_size_empty. Qed.

Lemma count_if_0 m : count_if m = 0 <-> forall k x, m !! k = Some x -> P x = false.
Proof.
  unfold count_if. rewrite map_size_empty_iff, map_empty. split.
  - intros Hm k x Hk. specialize (Hm k). apply map_lookup_filter_None in Hm as [?|Hm]; [congruence|].
    by apply not_true_is_false, (Hm x).
  - intros Hm k. apply map_lookup_filter_None. right. intros x Hk. simpl. by rewrite (Hm k x).
Qed.
End counting.

(** ** Reachable states *)

(** An invariant of the steps holds in every state they reach. *)
Lemma rtc_invariant {A} (R : A -> A -> Prop) (P : A -> Prop) x y :
  P x -> (forall a b, R a b -> P a -> P b) -> rtc R x y -> P y.
Proof. intros Hx Hstep Hxy. apply (rtc_ind_r (R := R) P x); eauto. Qed.
