(* ===== verification/GoStrings.v ===== *)
(** * Go byte strings and the parts of [strings], [strconv], [unicode/utf8],
    [encoding/hex] and [regexp] that the server uses

    A Go string is a sequence of bytes, here a [string] of 8-bit [ascii].
    The only datum left abstract is the Unicode simple lower-case table
    ([unicode.ToLower]), a class whose law says what the table does on ASCII. *)

From S2P Require Import Prelude.
From Stdlib Require Import Ascii.

(** ** Bytes *)

Definition byte (c : ascii) : N := N_of_ascii c.
Definition in_range (lo hi : N) (c : ascii) : bool :=
  ((lo <=? byte c) && (byte c <=? hi))%N.

(** The double quote and the back-quote-to-double-quote renaming used to write
    JSON literals. *)
Definition dquote : ascii := "034"%char.
Fixpoint js (s : string) : string :=
  match s with
  | EmptyString => EmptyString
  | String c s => String (if Ascii.eqb c "`"%char then dquote else c) (js s)
  end.

Definition isLower (c : ascii) : bool := in_range 97 122 c.
Definition isUpper (c : ascii) : bool := in_range 65 90 c.
Definition isDigitByte (c : ascii) : bool := in_range 48 57 c.
Definition lower_byte (c : ascii) : ascii :=
  if isUpper c then ascii_of_N (byte c + 32) else c.
Definition upper_byte (c : ascii) : ascii :=
  if isLower c then ascii_of_N (byte c - 32) else c.
Definition is_ascii_byte (c : ascii) : bool := (byte c <? 128)%N.

(** ** Slicing and appending *)

Fixpoint str_forall (p : ascii -> bool) (s : string) : bool :=
  match s with EmptyString => true | String c s => p c && str_forall p s end.

Fixpoint str_exists (p : ascii -> bool) (s : string) : bool :=
  match s with EmptyString => false | String c s => p c || str_exists p s end.

Fixpoint str_map (f : ascii -> ascii) (s : string) : string :=
  match s with EmptyString => EmptyString | String c s => String (f c) (str_map f s) end.

(** [s[:n]] and [s[n:]] for [n] within bounds. *)
Fixpoint str_take (n : nat) (s : string) : string :=
  match n, s with S n, String c s => String c (str_take n s) | _, _ => EmptyString end.
Fixpoint str_drop (n : nat) (s : string) : string :=
  match n, s with S n, String _ s => str_drop n s | 0, s => s | _, EmptyString => EmptyString end.

Fixpoint str_concat (l : list string) : string :=
  match l with [] => EmptyString | s :: l => s +:+ str_concat l end.

(** [strings.Join]. *)
Fixpoint Join (l : list string) (sep : string) : string :=
  match l with
  | [] => EmptyString
  | [s] => s
  | s :: l => s +:+ sep +:+ Join l sep
  end.

(** [span p s] is the longest prefix of [p]-bytes and the rest. *)
Fixpoint span (p : ascii -> bool) (s : string) : string * string :=
  match s with
  | EmptyString => (EmptyString, EmptyString)
  | String c s' =>
      if p c then let '(a, b) := span p s' in (String c a, b) else (EmptyString, s)
  end.

(** [strip_prefix p s] is [Some s'] when [s = p ++ s']: [strings.HasPrefix] and
    the slice behind the prefix. *)
Fixpoint strip_prefix (p s : string) : option string :=
  match p, s with
  | EmptyString, _ => Some s
  | String a p, String b s => if Ascii.eqb a b then strip_prefix p s else None
  | _, EmptyString => None
  end.
Definition HasPrefix (s p : string) : bool :=
  match strip_prefix p s with Some _ => true | None => false end.

(** [strings.Index], as the text before and behind the first occurrence. *)
Fixpoint find_sub (sub s : string) : option (string * string) :=
  match strip_prefix sub s with
  | Some rest => Some (EmptyString, rest)
  | None =>
      match s with
      | EmptyString => None
      | String c s' => '(a, b) ← find_sub sub s'; Some (String c a, b)
      end
  end.

(** [strings.IndexByte] with the slices before and behind the byte, and the same
    for [strings.LastIndexByte]. *)
Fixpoint cut_byte (c : ascii) (s : string) : option (string * string) :=
  match s with
  | EmptyString => None
  | String d s' =>
      if Ascii.eqb c d then Some (EmptyString, s')
      else '(a, b) ← cut_byte c s'; Some (String d a, b)
  end.
Fixpoint cut_last_byte (c : ascii) (s : string) : option (string * string) :=
  match s with
  | EmptyString => None
  | String d s' =>
      match cut_last_byte c s' with
      | Some (a, b) => Some (String d a, b)
      | None => if Ascii.eqb c d then Some (EmptyString, s') else None
      end
  end.
Definition contains_byte (c : ascii) (s : string) : bool := str_exists (Ascii.eqb c) s.

(** ** UTF-8: [utf8.DecodeRuneInString] and [utf8.EncodeRune] *)

Definition rune_error : N := 65533.

(** The rune that starts with byte [c], where [s] follows it, and the rest; an
    invalid sequence is [rune_error] of width one. *)
Definition decode_rune (c : ascii) (s : string) : N * string :=
  let b := byte c in
  if (b <? 128)%N then (b, s)
  else if in_range 194 223 c then
    match s with
    | String c1 s1 =>
        if in_range 128 191 c1
        then ((b - 192) * 64 + (byte c1 - 128), s1)%N else (rune_error, s)
    | _ => (rune_error, s)
    end
  else if in_range 224 239 c then
    match s with
    | String c1 (String c2 s2) =>
        if in_range (if b =? 224 then 160 else 128)%N (if b =? 237 then 159 else 191)%N c1
           && in_range 128 191 c2
        then ((b - 224) * 4096 + (byte c1 - 128) * 64 + (byte c2 - 128), s2)%N
        else (rune_error, s)
    | _ => (rune_error, s)
    end
  else if in_range 240 244 c then
    match s with
    | String c1 (String c2 (String c3 s3)) =>
        if in_range (if b =? 240 then 144 else 128)%N (if b =? 244 then 143 else 191)%N c1
           && in_range 128 191 c2 && in_range 128 191 c3
        then ((b - 240) * 262144 + (byte c1 - 128) * 4096
              + (byte c2 - 128) * 64 + (byte c3 - 128), s3)%N
        else (rune_error, s)
    | _ => (rune_error, s)
    end
  else (rune_error, s).

Fixpoint runes_go (fuel : nat) (s : string) : list N :=
  match fuel, s with
  | S n, String c s' => let '(r, rest) := decode_rune c s' in r :: runes_go n rest
  | _, _ => []
  end.
(** The runes [for _, r := range s] yields: every step takes a byte at least, so
    the length is fuel enough. *)
Definition runes (s : string) : list N := runes_go (String.length s) s.

Definition encode_rune (r : N) : string :=
  let chr n := ascii_of_N n in
  (if r <? 128 then String (chr r) EmptyString
   else if r <? 2048 then
     String (chr (192 + r / 64)) (String (chr (128 + r mod 64)) EmptyString)
   else if ((55296 <=? r) && (r <=? 57343)) || (1114111 <? r) then
     String (chr 239) (String (chr 191) (String (chr 189) EmptyString))
   else if r <? 65536 then
     String (chr (224 + r / 4096)) (String (chr (128 + r / 64 mod 64))
       (String (chr (128 + r mod 64)) EmptyString))
   else
     String (chr (240 + r / 262144)) (String (chr (128 + r / 4096 mod 64))
       (String (chr (128 + r / 64 mod 64)) (String (chr (128 + r mod 64)) EmptyString))))%N.

(** ** Case: [strings.ToLower] and [strings.EqualFold] *)

(** [unicode.ToLower]: the simple lower-case mapping of the Unicode tables. *)
Class UnicodeTables := {
  rune_lower : N -> N;
  rune_lower_ascii : forall r, (r < 128)%N ->
    rune_lower r = if ((65 <=? r) && (r <=? 90))%N then (r + 32)%N else r
}.

Definition is_ascii (s : string) : bool := str_forall is_ascii_byte s.

(** [strings.ToLower]: the ASCII fast path, and [strings.Map] otherwise, where
    an invalid byte becomes the encoding of [rune_error]. *)
Definition ToLower `{UnicodeTables} (s : string) : string :=
  if is_ascii s then str_map lower_byte s
  else str_concat (map (fun r => encode_rune (rune_lower r)) (runes s)).

(** [strings.EqualFold s t] for an ASCII [t]: simple case folding puts besides
    the two cases of a letter only U+212A with [k] and U+017F with [s]. *)
Definition fold_rune (r : N) : N :=
  if (r =? 8490)%N then 107%N else if (r =? 383)%N then 115%N
  else if ((65 <=? r) && (r <=? 90))%N then (r + 32)%N else r.
Fixpoint bytes (s : string) : list N :=
  match s with EmptyString => [] | String c s => byte c :: bytes s end.
Definition EqualFold (s t : string) : bool :=
  bool_decide (map fold_rune (runes s) = map fold_rune (bytes t)).

(** ** [strings.TrimSpace]

    [unicode.IsSpace] holds of six ASCII bytes and of the code points whose
    encodings follow; [DecodeLastRune] meets such a code point at the end of a
    string exactly when its encoding is a suffix. *)
Definition enc (l : list N) : string :=
  str_concat (map (fun b => String (ascii_of_N b) EmptyString) l).
Definition space_encodings : list string :=
  map enc ([[9]; [10]; [11]; [12]; [13]; [32]; [194; 133]; [194; 160];
   [225; 154; 128]; [226; 128; 168]; [226; 128; 169]; [226; 128; 175];
   [226; 129; 159]; [227; 128; 128]]
  ++ map (fun n => [226; 128; n]) [128; 129; 130; 131; 132; 133; 134; 135; 136; 137; 138])%N.

Fixpoint strip_any (ps : list string) (s : string) : option string :=
  match ps with
  | [] => None
  | p :: ps => match strip_prefix p s with Some s' => Some s' | None => strip_any ps s end
  end.
Fixpoint trim_go (fuel : nat) (ps : list string) (s : string) : string :=
  match fuel with
  | 0 => s
  | S n => match strip_any ps s with Some s' => trim_go n ps s' | None => s end
  end.
Definition TrimLeftSpace (s : string) : string :=
  trim_go (String.length s) space_encodings s.
Definition TrimRightSpace (s : string) : string :=
  String.rev (trim_go (String.length s) (map String.rev space_encodings) (String.rev s)).
Definition TrimSpace (s : string) : string := TrimRightSpace (TrimLeftSpace s).

(** ** Numbers and hexadecimal *)

(** [strconv.FormatInt(z, 10)], [strconv.Itoa] and the verb [%d]. *)
Definition FormatInt (z : Z) : string := pretty z.

Fixpoint digits_value (acc : Z) (s : string) : option Z :=
  match s with
  | EmptyString => Some acc
  | String c s =>
      if isDigitByte c then digits_value (acc * 10 + (Z.of_N (byte c) - 48)) s else None
  end.
(** [strconv.ParseInt(s, 10, 64)]: [None] is a syntax or a range error. *)
Definition ParseInt (s : string) : option Z :=
  let '(neg, d) :=
    match s with
    | String c d =>
        if Ascii.eqb c "+" then (false, d)
        else if Ascii.eqb c "-" then (true, d) else (false, s)
    | EmptyString => (false, s)
    end in
  match d with
  | EmptyString => None
  | _ =>
      v ← digits_value 0 d;
      let z := if neg : bool then (- v)%Z else v in
      if (- 2 ^ 63 <=? z)%Z && (z <? 2 ^ 63)%Z then Some z else None
  end.

Definition hex_digit (n : N) : ascii :=
  ascii_of_N (if n <? 10 then 48 + n else 87 + n)%N.
(** [hex.EncodeToString]. *)
Fixpoint hex_encode (s : string) : string :=
  match s with
  | EmptyString => EmptyString
  | String c s =>
      String (hex_digit (byte c / 16)) (String (hex_digit (byte c mod 16)) (hex_encode s))
  end.

(** ** The identifier patterns *)

Definition ident_start (c : ascii) : bool := isUpper c || isLower c || Ascii.eqb c "_".
Definition ident_byte (c : ascii) : bool := ident_start c || isDigitByte c.
(** [^[A-Za-z_][A-Za-z0-9_]*$] *)
Definition match_ident (s : string) : bool :=
  match s with
  | EmptyString => false
  | String c s => ident_start c && str_forall ident_byte s
  end.
(** [^[a-z_][a-z0-9_]*$] *)
Definition match_lower_ident (s : string) : bool :=
  match s with
  | EmptyString => false
  | String c s =>
      (isLower c || Ascii.eqb c "_")
      && str_forall (fun c => isLower c || isDigitByte c || Ascii.eqb c "_") s
  end.

(** ** Lemmas on strings *)

Lemma app_String c s t : String c s +:+ t = String c (s +:+ t).
Proof. done. Qed.
Lemma app_empty_l s : EmptyString +:+ s = s.
Proof. done. Qed.
Lemma app_empty_r s : s +:+ EmptyString = s.
Proof. induction s as [|c s IH]; [done|]. by rewrite app_String, IH. Qed.
Lemma str_app_assoc s t u : (s +:+ t) +:+ u = s +:+ t +:+ u.
Proof. induction s as [|c s IH]; [done|]. by rewrite !app_String, IH. Qed.
Lemma str_length_app s t :
  String.length (s +:+ t) = String.length s + String.length t.
Proof. induction s as [|c s IH]; [done|]. rewrite app_String. simpl. by rewrite IH. Qed.

(** Induction on the length, for scanners that skip several bytes at once. *)
Lemma str_length_ind (P : string -> Prop) :
  (forall s, (forall t, String.length t < String.length s -> P t) -> P s) -> forall s, P s.
Proof.
  intros step s. remember (String.length s) as n eqn:Hn. revert s Hn.
  induction n as [n IH] using lt_wf_ind. intros s ->. apply step. intros t Ht. by eapply IH.
Qed.

Lemma str_app_inj_len s1 s2 t1 t2 :
  String.length s1 = String.length s2 -> s1 +:+ t1 = s2 +:+ t2 -> s1 = s2 /\ t1 = t2.
Proof.
  revert s2; induction s1 as [|c s1 IH]; intros [|d s2] Hl; try done.
  rewrite !app_String. intros [= -> H].
  destruct (IH s2) as [-> ->]; auto.
Qed.

Lemma str_app_inj_r s1 s2 t : s1 +:+ t = s2 +:+ t -> s1 = s2.
Proof.
  intros H. apply (str_app_inj_len s1 s2 t t); [|done].
  apply (f_equal String.length) in H. rewrite !str_length_app in H. lia.
Qed.

Lemma str_forall_app p s t : str_forall p (s +:+ t) = str_forall p s && str_forall p t.
Proof.
  induction s as [|c s IH]; [done|]. rewrite app_String. simpl.
  by rewrite IH, andb_assoc.
Qed.

Lemma str_take_drop n s : str_take n s +:+ str_drop n s = s.
Proof.
  revert s; induction n as [|n IH]; intros [|c s]; try done.
  simpl. by rewrite app_String, IH.
Qed.

Lemma str_take_app s t : str_take (String.length s) (s +:+ t) = s.
Proof.
  induction s as [|c s IH]; [by destruct t|]. rewrite app_String. simpl. by rewrite IH.
Qed.

Lemma str_take_length n s :
  String.length (str_take n s) = Nat.min n (String.length s).
Proof. revert s; induction n as [|n IH]; intros [|c s]; simpl; auto. Qed.

Lemma strip_prefix_app p s : strip_prefix p (p +:+ s) = Some s.
Proof.
  induction p as [|c p IH]; [done|]. rewrite app_String. simpl.
  by rewrite Ascii.eqb_refl.
Qed.

Lemma strip_prefix_Some p s t : strip_prefix p s = Some t <-> s = p +:+ t.
Proof.
  split; [|intros ->; apply strip_prefix_app].
  revert s; induction p as [|c p IH]; intros s; simpl; [by intros [= ->]|].
  destruct s as [|d s]; [done|].
  destruct (Ascii.eqb_spec c d) as [->|]; [|done].
  intros H. rewrite app_String. f_equal. auto.
Qed.

Lemma HasPrefix_spec s p : HasPrefix s p = true <-> exists t, s = p +:+ t.
Proof.
  unfold HasPrefix. split.
  - destruct (strip_prefix p s) as [t|] eqn:E; [|done].
    intros _. exists t. by apply strip_prefix_Some.
  - intros [t ->]. by rewrite strip_prefix_app.
Qed.

Lemma span_spec p s a b :
  span p s = (a, b) ->
  s = a +:+ b /\ str_forall p a = true /\
  match b with EmptyString => True | String c _ => p c = false end.
Proof.
  revert a b; induction s as [|c s IH]; intros a b; simpl.
  { by intros [= <- <-]. }
  destruct (p c) eqn:Hp.
  - destruct (span p s) as [a' b'] eqn:Hs. intros [= <- <-].
    destruct (IH a' b') as (-> & Ha & Hb); [done|].
    simpl. by rewrite Hp, Ha.
  - by intros [= <- <-].
Qed.

Lemma span_app p a b :
  str_forall p a = true ->
  match b with EmptyString => True | String c _ => p c = false end ->
  span p (a +:+ b) = (a, b).
Proof.
  intros Ha Hb. induction a as [|c a IH].
  - rewrite app_empty_l. destruct b as [|c b]; [done|]. simpl. by rewrite Hb.
  - simpl in Ha. breflect. rewrite app_String. simpl.
    rewrite IH by done. by destruct (p c).
Qed.

Lemma find_sub_Some sub s a b : find_sub sub s = Some (a, b) -> s = a +:+ sub +:+ b.
Proof.
  revert a b; induction s as [|c s IH]; intros a b; simpl.
  - destruct (strip_prefix sub "") eqn:E; [|done].
    intros [= <- <-]. by apply strip_prefix_Some in E.
  - destruct (strip_prefix sub (String c s)) eqn:E.
    + intros [= <- <-]. by apply strip_prefix_Some in E.
    + destruct (find_sub sub s) as [[a' b']|]; [|done]. simpl.
      intros [= <- <-]. rewrite app_String. f_equal. by apply IH.
Qed.

(** ** Lemmas on bytes and case *)

Lemma byte_bound c : (byte c < 256)%N.
Proof. by destruct c as [[][][][][][][][]]. Qed.
Lemma byte_ascii n : (n < 256)%N -> byte (ascii_of_N n) = n.
Proof. intros. unfold byte. by apply N_ascii_embedding. Qed.
Lemma ascii_byte c : ascii_of_N (byte c) = c.
Proof. apply ascii_N_embedding. Qed.

Lemma in_range_spec lo hi c : in_range lo hi c = true <-> (lo <= byte c <= hi)%N.
Proof. unfold in_range. rewrite andb_true_iff, !N.leb_le. done. Qed.
Lemma in_range_false lo hi c : in_range lo hi c = false <-> ~ (lo <= byte c <= hi)%N.
Proof. rewrite <- in_range_spec. by destruct (in_range lo hi c). Qed.

Lemma decode_rune_ascii c s :
  is_ascii_byte c = true -> decode_rune c s = (byte c, s).
Proof. unfold decode_rune, is_ascii_byte. by intros ->. Qed.

Lemma decode_rune_length c s :
  String.length (snd (decode_rune c s)) <= String.length s.
Proof. unfold decode_rune. repeat (case_match; simpl); lia. Qed.

Lemma runes_go_enough n m s :
  String.length s <= n -> String.length s <= m -> runes_go n s = runes_go m s.
Proof.
  revert m s; induction n as [|n IH]; intros m [|c s] Hn Hm; simpl in *; try lia.
  - by destruct m.
  - by destruct m.
  - destruct m as [|m]; [lia|]. simpl.
    pose proof (decode_rune_length c s).
    destruct (decode_rune c s) as [r rest]. f_equal. apply IH; simpl in *; lia.
Qed.

Lemma runes_cons c s :
  runes (String c s) = let '(r, rest) := decode_rune c s in r :: runes rest.
Proof.
  unfold runes. simpl. pose proof (decode_rune_length c s).
  destruct (decode_rune c s) as [r rest]. f_equal. apply runes_go_enough; simpl in *; lia.
Qed.

Lemma runes_ascii_app s t : is_ascii s = true -> runes (s +:+ t) = bytes s ++ runes t.
Proof.
  induction s as [|c s IH]; [done|]. intros Hs. unfold is_ascii in Hs. simpl in Hs. breflect.
  rewrite app_String, runes_cons, decode_rune_ascii by done. simpl. f_equal. by apply IH.
Qed.

Lemma runes_ascii s : is_ascii s = true -> runes s = bytes s.
Proof.
  intros H. rewrite <- (app_empty_r s) at 1. rewrite runes_ascii_app by done.
  apply app_nil_r.
Qed.

Lemma str_concat_app l1 l2 : str_concat (l1 ++ l2) = str_concat l1 +:+ str_concat l2.
Proof. induction l1 as [|s l1 IH]; [done|]. simpl. by rewrite IH, str_app_assoc. Qed.

Section lower.
Context `{UnicodeTables}.

Lemma lower_rune_ascii c :
  is_ascii_byte c = true ->
  encode_rune (rune_lower (byte c)) = String (lower_byte c) EmptyString.
Proof.
  unfold is_ascii_byte. intros Hc%N.ltb_lt.
  rewrite rune_lower_ascii by done. unfold lower_byte, isUpper, in_range.
  destruct ((65 <=? byte c) && (byte c <=? 90))%N eqn:E.
  - apply andb_true_iff in E as [? ?%N.leb_le]. unfold encode_rune.
    by rewrite (proj2 (N.ltb_lt _ _)) by lia.
  - unfold encode_rune. rewrite (proj2 (N.ltb_lt _ _)) by done. by rewrite ascii_byte.
Qed.

(** Both paths of [ToLower] compute the rune-wise mapping. *)
Lemma ToLower_runes s :
  ToLower s = str_concat (map (fun r => encode_rune (rune_lower r)) (runes s)).
Proof.
  unfold ToLower. destruct (is_ascii s) eqn:E; [|done].
  rewrite runes_ascii by done.
  induction s as [|c s IH]; [done|]. unfold is_ascii in *. simpl in *. breflect.
  rewrite lower_rune_ascii by done. rewrite app_String, app_empty_l. f_equal. auto.
Qed.

(** An ASCII prefix is lowered byte by byte, whatever follows. *)
Lemma ToLower_ascii_app s t :
  is_ascii s = true -> ToLower (s +:+ t) = str_map lower_byte s +:+ ToLower t.
Proof.
  intros Hs. rewrite !ToLower_runes, runes_ascii_app by done.
  rewrite map_app, str_concat_app. f_equal.
  rewrite <- runes_ascii by done. rewrite <- ToLower_runes. unfold ToLower. by rewrite Hs.
Qed.

Lemma ToLower_ascii s : is_ascii s = true -> ToLower s = str_map lower_byte s.
Proof. unfold ToLower. by intros ->. Qed.
End lower.

Lemma hex_encode_length s : String.length (hex_encode s) = 2 * String.length s.
Proof. induction s as [|c s IH]; simpl; [done|]. rewrite IH. lia. Qed.

Lemma FormatInt_inj z1 z2 : FormatInt z1 = FormatInt z2 -> z1 = z2.
Proof. apply (inj pretty). Qed.

(** Decimal digits: [k] of them are enough below [10 ^ k]. *)
Lemma pretty_N_go_spec k x s :
  (x < 10 ^ N.of_nat k)%N ->
  exists ds, pretty_N_go x s = ds +:+ s /\ str_forall isDigitByte ds = true
    /\ String.length ds <= k /\ ((0 < x)%N -> ds <> EmptyString).
Proof.
  revert x s; induction k as [|k IH]; intros x s Hx.
  - exists EmptyString. replace x with 0%N by (simpl in Hx; lia).
    rewrite pretty_N_go_0. split_and!; (done || lia).
  - destruct (decide (x = 0%N)) as [->|Hx0].
    { exists EmptyString. rewrite pretty_N_go_0. split_and!; (done || simpl; lia). }
    rewrite pretty_N_go_step by lia.
    destruct (IH (x `div` 10)%N (String (pretty_N_char (x `mod` 10)) s)) as (ds & -> & Hd & Hl & _).
    { rewrite Nat2N.inj_succ, N.pow_succ_r' in Hx.
      by apply N.Div0.div_lt_upper_bound. }
    exists (ds +:+ String (pretty_N_char (x `mod` 10)) EmptyString).
    rewrite str_app_assoc, str_forall_app, Hd, str_length_app. simpl. split_and!.
    + done.
    + unfold pretty_N_char. by repeat case_match.
    + lia.
    + intros _. by destruct ds.
Qed.

(** A rendered [int64] has at most 20 bytes. *)
Lemma FormatInt_spec z :
  is_i64 z ->
  exists ds, str_forall isDigitByte ds = true /\ ds <> EmptyString /\ String.length ds <= 19
    /\ FormatInt z = if (z <? 0)%Z then String "-" ds else ds.
Proof.
  intros Hz. unfold FormatInt, is_i64 in *. destruct z as [|p|p].
  - exists "0". by split_and!; [| |simpl; lia|].
  - destruct (pretty_N_go_spec 19 (N.pos p) EmptyString) as (ds & E & ? & ? & ?); [lia|].
    exists ds. rewrite app_empty_r in E. split_and!; auto with lia.
  - destruct (pretty_N_go_spec 19 (N.pos p) EmptyString) as (ds & E & ? & ? & ?); [lia|].
    exists ds. rewrite app_empty_r in E. split_and!; auto with lia.
    simpl. rewrite <- E. reflexivity.
Qed.

Lemma FormatInt_nonempty z : FormatInt z <> EmptyString.
Proof.
  destruct z as [|p|p]; try done.
  destruct (pretty_N_go_spec (N.to_nat (N.pos p)) (N.pos p) EmptyString) as (ds & E & _ & _ & Hne).
  { rewrite N2Nat.id. by apply N.pow_gt_lin_r. }
  unfold FormatInt. change (pretty (Z.pos p)) with (pretty_N_go (N.pos p) EmptyString).
  rewrite E, app_empty_r. by apply Hne.
Qed.

(** Reading back a decimal number. *)
Lemma pretty_N_char_value x :
  (x < 10)%N ->
  isDigitByte (pretty_N_char x) = true /\ (Z.of_N (byte (pretty_N_char x)) - 48 = Z.of_N x)%Z.
Proof.
  intros Hx. assert (x = 0 \/ x = 1 \/ x = 2 \/ x = 3 \/ x = 4 \/ x = 5 \/ x = 6 \/ x = 7
    \/ x = 8 \/ x = 9)%N as Hcases by lia.
  repeat destruct Hcases as [->|Hcases]; try done. by subst.
Qed.

Lemma pretty_N_go_value x : exists k, forall s acc,
  digits_value acc (pretty_N_go x s) = digits_value (acc * k + Z.of_N x) s.
Proof.
  induction (N.lt_wf_0 x) as [x _ IH].
  destruct (decide (x = 0%N)) as [->|Hx].
  { exists 1%Z. intros s acc. rewrite pretty_N_go_0. f_equal. lia. }
  destruct (IH (x `div` 10)%N) as [k Hk]; [apply N.div_lt; lia|].
  exists (10 * k)%Z. intros s acc. rewrite pretty_N_go_step, Hk by lia. simpl.
  destruct (pretty_N_char_value (x `mod` 10)) as [-> ->]; [apply N.mod_lt; lia|].
  f_equal. pose proof (N.div_mod x 10). rewrite N2Z.inj_div, N2Z.inj_mod.
  pose proof (Z.div_mod (Z.of_N x) 10). lia.
Qed.

Lemma digits_value_FormatInt z : (0 <= z)%Z -> digits_value 0 (FormatInt z) = Some z.
Proof.
  intros Hz. destruct z as [|p|p]; [done| |lia].
  destruct (pretty_N_go_value (N.pos p)) as [k Hk].
  unfold FormatInt. change (pretty (Z.pos p)) with (pretty_N_go (N.pos p) EmptyString).
  rewrite Hk. simpl. f_equal.
Qed.

Create Rewrite HintDb strings.
#[export] Hint Rewrite app_String app_empty_l app_empty_r str_app_assoc : strings.
#[export] Hint Resolve strip_prefix_app byte_bound : pathql.

(** Moves a concatenation to its canonical, right-nested form. *)
Ltac str_norm := autorewrite with strings.

(** The table restricted to ASCII and U+212A, U+0130: an instance to compute with. *)
Program Definition ascii_tables : UnicodeTables :=
  {| rune_lower r :=
       if ((65 <=? r) && (r <=? 90))%N then (r + 32)%N
       else if (r =? 8490)%N then 107%N
       else if (r =? 304)%N then 105%N else r |}.
Next Obligation.
  intros r Hr. simpl. case_match; [done|].
  rewrite !(proj2 (N.eqb_neq _ _)) by lia. done.
Qed.
