(* ===== verification/GoNet.v ===== *)
(** * The parts of Go's net package the server uses

    Addresses and networks as in net/netip and net: [SplitHostPort], [ParseIP],
    [ParseCIDR] and [IPNet.Contains]. An [IP] is a list of bytes, 4 or 16 of
    them; parsed addresses always have 16, IPv4 ones behind the ::ffff prefix. *)

From S2P Require Import Prelude GoStrings.
From Stdlib Require Import Ascii.

Record IPNet := { net_IP : list N; net_Mask : list N }.

(** ** host:port *)

(** [net.SplitHostPort]; the errors are not distinguished. *)
Definition SplitHostPort (hostport : string) : option (string * string) :=
  match cut_last_byte ":" hostport with
  | None => None
  | Some (before, port) =>
      match hostport with
      | String "[" _ =>
          match cut_byte "]" hostport with
          | None => None
          | Some (inside, after) =>
              (* the byte after ']' must be the last colon *)
              if String.eqb after (":" +:+ port) then
                let host := str_drop 1 inside in
                if contains_byte "[" (str_drop 1 hostport) || contains_byte "]" after
                then None else Some (host, port)
              else None
          end
      | _ =>
          if contains_byte ":" before then None
          else if contains_byte "[" hostport || contains_byte "]" hostport then None
          else Some (before, port)
      end
  end.

(** ** Textual addresses *)

Fixpoint split_byte (c : ascii) (s : string) : list string :=
  match s with
  | EmptyString => [EmptyString]
  | String d s =>
      if Ascii.eqb d c then EmptyString :: split_byte c s
      else match split_byte c s with
           | [] => [String d EmptyString]
           | x :: xs => String d x :: xs
           end
  end.

(** An IPv4 field: decimal, no leading zero, at most 255. *)
Definition parse_octet (s : string) : option N :=
  match s with
  | EmptyString => None
  | String "0" (String _ _) => None
  | _ =>
      if str_forall isDigitByte s then
        match digits_value 0 s with
        | Some z => if (z <=? 255)%Z then Some (Z.to_N z) else None
        | None => None
        end
      else None
  end.

(** [parseIPv4Fields]: four fields. *)
Definition parseIPv4 (s : string) : option (list N) :=
  match split_byte "." s with
  | [_; _; _; _] as fs => mapM parse_octet fs
  | _ => None
  end.

Definition hex_value (c : ascii) : option N :=
  if isDigitByte c then Some (byte c - 48)%N
  else if in_range 97 102 c then Some (byte c - 87)%N
  else if in_range 65 70 c then Some (byte c - 55)%N
  else None.

Fixpoint hex_number (acc : N) (s : string) : N :=
  match s with
  | EmptyString => acc
  | String c s => hex_number (16 * acc + default 0%N (hex_value c)) s
  end.

(** The bytes read so far, and how many of them precede the ellipsis. *)
Fixpoint parseIPv6_go (fuel : nat) (bytes : list N) (ellipsis : option nat) (s : string) :
    option (list N * option nat) :=
  match fuel with
  | O => None
  | S fuel =>
      if 16 <=? length bytes then
        (* loop exit: the whole string must be used *)
        match s with EmptyString => Some (bytes, ellipsis) | _ => None end
      else
        let '(digits, s') := span (fun c => match hex_value c with Some _ => true | None => false end) s in
        if (String.length digits =? 0) || (4 <? String.length digits) then None
        else
          match s' with
          | String "." _ =>
              if bool_decide (ellipsis = None) && negb (length bytes =? 12) then None
              else if 16 <? length bytes + 4 then None
              else match parseIPv4 s with
                   | Some v4 => Some (bytes ++ v4, ellipsis)
                   | None => None
                   end
          | _ =>
              let acc := hex_number 0 digits in
              let bytes := bytes ++ [N.div acc 256; N.modulo acc 256] in
              match s' with
              | EmptyString => Some (bytes, ellipsis)
              | String ":" EmptyString => None
              | String ":" (String ":" rest) =>
                  match ellipsis with
                  | Some _ => None
                  | None =>
                      match rest with
                      | EmptyString => Some (bytes, Some (length bytes))
                      | _ => parseIPv6_go fuel bytes (Some (length bytes)) rest
                      end
                  end
              | String ":" rest => parseIPv6_go fuel bytes ellipsis rest
              | _ => None
              end
          end
  end.

(** An IPv6 address without a zone. At most nine turns of the loop read the 16
    bytes and notice the end. *)
Definition parseIPv6 (s : string) : option (list N) :=
  let start :=
    match s with
    | String ":" (String ":" EmptyString) => Some ([], Some 0)
    | String ":" (String ":" rest) => parseIPv6_go 9 [] (Some 0) rest
    | _ => parseIPv6_go 9 [] None s
    end in
  match start with
  | None => None
  | Some (bytes, ellipsis) =>
      if length bytes <? 16 then
        match ellipsis with
        | None => None
        | Some e => Some (take e bytes ++ replicate (16 - length bytes) 0%N ++ drop e bytes)
        end
      else match ellipsis with Some _ => None | None => Some bytes end
  end.

Definition v4InV6Prefix : list N := [0;0;0;0;0;0;0;0;0;0;255;255]%N.

(** [netip.ParseAddr], refusing zones as [ParseIP] and [ParseCIDR] do: the bit
    length of the address and its 16 bytes. The first of [.], [:], [%] decides. *)
Fixpoint first_separator (s : string) : option ascii :=
  match s with
  | EmptyString => None
  | String c s =>
      if Ascii.eqb c "." || Ascii.eqb c ":" || Ascii.eqb c "%" then Some c
      else first_separator s
  end.
Definition ParseAddr (s : string) : option (nat * list N) :=
  match first_separator s with
  | Some "."%char => (fun v4 => (32, v4InV6Prefix ++ v4)) <$> parseIPv4 s
  | Some ":"%char =>
      if contains_byte "%" s then None else (fun b => (128, b)) <$> parseIPv6 s
  | _ => None
  end.
Definition ParseIP (s : string) : option (list N) := snd <$> ParseAddr s.

Definition To4 (ip : list N) : option (list N) :=
  if length ip =? 4 then Some ip
  else if (length ip =? 16) && bool_decide (take 12 ip = v4InV6Prefix) then Some (drop 12 ip)
  else None.

(** ** Networks *)

(** [net.CIDRMask(ones, bits)] for [ones <= bits]. *)
Fixpoint CIDRMask_bytes (ones : nat) (bytes : nat) : list N :=
  match bytes with
  | O => []
  | S b =>
      (if 8 <=? ones then 255%N else (255 - N.ones (8 - N.of_nat ones))%N)
        :: CIDRMask_bytes (ones - 8) b
  end.
Definition CIDRMask (ones bits : nat) : list N := CIDRMask_bytes ones (bits / 8).

Definition and_bytes (a b : list N) : list N := zip_with N.land a b.

(** [ip.Mask(m)] for a 16-byte [ip]. *)
Definition Mask (m ip : list N) : option (list N) :=
  let ip := if (length m =? 4) && (length ip =? 16) && bool_decide (take 12 ip = v4InV6Prefix)
            then drop 12 ip else ip in
  if length ip =? length m then Some (and_bytes ip m) else None.

(** The prefix length of a CIDR: digits only, below 0xFFFFFF. *)
Definition dtoi (s : string) : option nat :=
  match s with
  | EmptyString => None
  | _ => if str_forall isDigitByte s then
           match digits_value 0 s with
           | Some z => if (z <? 16777215)%Z then Some (Z.to_nat z) else None
           | None => None
           end
         else None
  end.

Definition ParseCIDR (s : string) : option IPNet :=
  match cut_byte "/" s with
  | None => None
  | Some (addr, mask) =>
      match ParseAddr addr, dtoi mask with
      | Some (bits, ip), Some n =>
          if bits <? n then None
          else
            let m := CIDRMask n bits in
            (fun ip => {| net_IP := ip; net_Mask := m |}) <$> Mask m ip
      | _, _ => None
      end
  end.

(** [networkNumberAndMask] and [Contains]. *)
Definition networkNumberAndMask (n : IPNet) : option (list N * list N) :=
  let ip := match To4 (net_IP n) with Some v4 => v4 | None => net_IP n end in
  if negb (length ip =? 4) && negb (length ip =? 16) then None
  else if length (net_Mask n) =? 4 then
    if length ip =? 4 then Some (ip, net_Mask n) else None
  else if length (net_Mask n) =? 16 then
    Some (ip, if length ip =? 4 then drop 12 (net_Mask n) else net_Mask n)
  else None.

Definition Contains (n : IPNet) (ip : list N) : bool :=
  match networkNumberAndMask n with
  | None => false
  | Some (nn, m) =>
      let ip := match To4 ip with Some v4 => v4 | None => ip end in
      (length ip =? length nn) && bool_decide (and_bytes nn m = and_bytes ip m)
  end.

Example ParseIP_v4 : ParseIP "10.1.2.3" = Some (v4InV6Prefix ++ [10;1;2;3]%N).
Proof. reflexivity. Qed.
Example ParseIP_v6 : ParseIP "2001:db8::1:2" = Some [32;1;13;184;0;0;0;0;0;0;0;0;0;1;0;2]%N.
Proof. reflexivity. Qed.
Example ParseIP_bad : ParseIP "10.1.2.03" = None /\ ParseIP "1::2::3" = None /\ ParseIP "fe80::1%eth0" = None.
Proof. by split_and!. Qed.
Example Contains_cidr :
  ((fun n => Contains n <$> ParseIP "10.1.255.3") <$> ParseCIDR "10.1.0.0/16") = Some (Some true).
Proof. reflexivity. Qed.
Example SplitHostPort_v6 : SplitHostPort "[::1]:80" = Some ("::1", "80")
  /\ SplitHostPort "::1" = None /\ SplitHostPort "10.0.0.1:8000" = Some ("10.0.0.1", "8000").
Proof. by split_and!. Qed.

(** ** Parsed addresses are 16 bytes *)

Definition is_bytes (l : list N) : Prop := Forall (fun b => b < 256)%N l.

Lemma digits_value_pos acc s z : (0 <= acc)%Z -> digits_value acc s = Some z -> (0 <= z)%Z.
Proof.
  revert acc; induction s as [|c s IH]; intros acc Hacc; simpl; [by intros [= <-]|].
  destruct (isDigitByte c) eqn:E; [|done]. apply IH.
  unfold isDigitByte in E. apply in_range_spec in E. lia.
Qed.

Lemma parse_octet_bound s b : parse_octet s = Some b -> (b < 256)%N.
Proof.
  intros Hp. assert (exists z, digits_value 0 s = Some z /\ (z <= 255)%Z /\ b = Z.to_N z) as (z & Hz & Hle & ->).
  { unfold parse_octet in Hp.
    repeat (case_match; try done); simplify_eq; breflect; eauto. }
  apply digits_value_pos in Hz; lia.
Qed.

Lemma parseIPv4_bytes s ip : parseIPv4 s = Some ip -> length ip = 4 /\ is_bytes ip.
Proof.
  unfold parseIPv4. destruct (split_byte "." s) as [|a [|b [|c [|d [|]]]]]; try done.
  intros Hm. apply mapM_Some_1 in Hm. split; [by apply Forall2_length in Hm|].
  unfold is_bytes. induction Hm as [|x y l k Hxy _ IH]; constructor; [by eapply parse_octet_bound|done].
Qed.

Lemma hex_value_bound c v : hex_value c = Some v -> (v < 16)%N.
Proof.
  unfold hex_value, isDigitByte. pose proof (in_range_spec 48 57 c). pose proof (in_range_spec 97 102 c).
  pose proof (in_range_spec 65 70 c).
  destruct (in_range 48 57 c), (in_range 97 102 c), (in_range 65 70 c); intros [= <-]; lia.
Qed.

Lemma hex_number_bound s acc k :
  (acc < k)%N -> (hex_number acc s < k * 16 ^ N.of_nat (String.length s))%N.
Proof.
  revert acc k; induction s as [|c s IH]; intros acc k Hk; [simpl; lia|].
  cbn [hex_number String.length].
  assert (default 0 (hex_value c) < 16)%N as Hc.
  { destruct (hex_value c) eqn:E; simpl; [by eapply hex_value_bound|lia]. }
  specialize (IH (16 * acc + default 0%N (hex_value c))%N (16 * k)%N ltac:(lia)).
  rewrite Nat2N.inj_succ, N.pow_succ_r'. lia.
Qed.

(** What the loop has read is well formed, and the ellipsis lies within it. *)
Definition v6_ok (bytes : list N) (e : option nat) : Prop :=
  is_bytes bytes /\ length bytes <= 16 /\ default 0 e <= length bytes.

Lemma v6_ok_app bytes e group :
  v6_ok bytes e -> is_bytes group -> length bytes + length group <= 16 ->
  v6_ok (bytes ++ group) e /\ v6_ok (bytes ++ group) (Some (length (bytes ++ group))).
Proof.
  unfold v6_ok. intros (Hb & Hl & He) Hg Hlen. rewrite length_app.
  assert (is_bytes (bytes ++ group)) by (by apply Forall_app). simpl. split_and!; auto; lia.
Qed.

Lemma hex_group_bytes digits :
  String.length digits <= 4 ->
  is_bytes [N.div (hex_number 0 digits) 256; N.modulo (hex_number 0 digits) 256].
Proof.
  intros Hd. pose proof (hex_number_bound digits 0 1 ltac:(lia)) as Hh. rewrite N.mul_1_l in Hh.
  assert (16 ^ N.of_nat (String.length digits) <= 16 ^ 4)%N by (apply N.pow_le_mono_r; lia).
  change (16 ^ 4)%N with 65536%N in *.
  repeat constructor; [apply N.Div0.div_lt_upper_bound; lia|apply N.mod_lt; lia].
Qed.

Lemma parseIPv6_go_bytes fuel bytes e s bytes' e' :
  parseIPv6_go fuel bytes e s = Some (bytes', e') ->
  v6_ok bytes e -> Nat.even (length bytes) = true -> v6_ok bytes' e'.
Proof.
  revert bytes e s; induction fuel as [|fuel IH]; intros bytes e s; [done|].
  cbn [parseIPv6_go]. destruct (Nat.leb_spec 16 (length bytes)) as [Hfull|Hfull].
  { destruct s; [|done]. by intros [= <- <-]. }
  destruct (span _ s) as [digits s'].
  destruct ((String.length digits =? 0) || (4 <? String.length digits)) eqn:Hd; [done|].
  apply orb_false_iff in Hd as [_ Hd%Nat.ltb_ge].
  pose proof (hex_group_bytes digits Hd) as Hg.
  set (group := [_; _]) in *. assert (length group = 2) as Hgl by done. clearbody group.
  intros Hgo Hok Hev.
  assert (length bytes <> 15) by (intros E; by rewrite E in Hev).
  assert (Nat.even (length (bytes ++ group)) = true) as Hev2.
  { rewrite length_app, Hgl, Nat.add_comm. done. }
  destruct (v6_ok_app bytes e group Hok Hg ltac:(lia)) as [Hok1 Hok2].
  assert (forall v4, parseIPv4 s = Some v4 -> (16 <? length bytes + 4) = false ->
    v6_ok (bytes ++ v4) e) as Hv4.
  { intros v4 [Hl4 Hb4]%parseIPv4_bytes Hlt%Nat.ltb_ge. apply v6_ok_app; [done..|lia]. }
  repeat (case_match; try done); simplify_eq; eauto.
Qed.

(** The three shapes of an address's beginning that [parseIPv6] tells apart. *)
Lemma double_colon_ind {A} (x : A) (f g : string -> A) s (P : A -> Prop) :
  P x -> (forall rest, P (f rest)) -> P (g s) ->
  P (match s with
     | String ":" (String ":" EmptyString) => x
     | String ":" (String ":" rest) => f rest
     | _ => g s
     end).
Proof.
  intros Hx Hf Hg. destruct s as [|[b0 b1 b2 b3 b4 b5 b6 b7] [|[c0 c1 c2 c3 c4 c5 c6 c7] s]].
  1, 2: repeat (done || case_match).
  destruct b0; [done|]; destruct b1; [|done]; destruct b2; [done|]; destruct b3; [|done];
    destruct b4; [|done]; destruct b5; [|done]; destruct b6; [done|]; destruct b7; [done|].
  destruct c0; [done|]; destruct c1; [|done]; destruct c2; [done|]; destruct c3; [|done];
    destruct c4; [|done]; destruct c5; [|done]; destruct c6; [done|]; destruct c7; [done|].
  by destruct s.
Qed.

Lemma ParseIP_bytes s ip : ParseIP s = Some ip -> length ip = 16 /\ is_bytes ip.
Proof.
  unfold ParseIP, ParseAddr. intros Hp.
  assert ((exists v4, parseIPv4 s = Some v4 /\ ip = v4InV6Prefix ++ v4) \/ parseIPv6 s = Some ip)
    as [(v4 & [Hl Hb]%parseIPv4_bytes & ->)|H6].
  { destruct (first_separator s) as [c|]; [|done].
    destruct (decide (c = "."%char)) as [->|]; [|destruct (decide (c = ":"%char)) as [->|]].
    - destruct (parseIPv4 s); [|done]. injection Hp as <-. eauto.
    - destruct (contains_byte "%" s); [done|]. destruct (parseIPv6 s); [|done].
      injection Hp as <-. eauto.
    - destruct c as [[][][][][][][][]]; done. }
  - rewrite length_app, Hl. split; [done|]. apply Forall_app. split; [|done].
    unfold v4InV6Prefix. repeat constructor; lia.
  - unfold parseIPv6 in H6.
    set (start := match s with String ":" (String ":" EmptyString) => _ | _ => _ end) in H6.
    destruct start as [[bytes e]|] eqn:Es; [|done].
    assert (v6_ok bytes e) as (Hb & Hl & He).
    { revert Es. unfold start.
      apply (double_colon_ind _ _ _ _ (fun o => o = Some (bytes, e) -> v6_ok bytes e));
        [intros [= <- <-]|intros rest Hgo; eapply parseIPv6_go_bytes; [exact Hgo| |done]
        |intros Hgo; eapply parseIPv6_go_bytes; [exact Hgo| |done]];
        unfold v6_ok, is_bytes; simpl; split_and!; auto with lia. }
    destruct (Nat.ltb_spec (length bytes) 16).
    + destruct e as [e|]; [|done]. injection H6 as <-.
      rewrite !length_app, length_take, length_drop, length_replicate. split; [simpl in He; lia|].
      repeat (apply Forall_app; split); [by apply Forall_take| |by apply Forall_drop].
      apply Forall_replicate. lia.
    + destruct e; [done|]. injection H6 as <-. split; [lia|done].
Qed.
