(* ===== verification/SqlGate.v ===== *)
(** * The SQL gate: [internal/sqlgate/sqlgate.go]

    The tokenizer, the gate's [Check], the writer's [Classify] and
    [HasReturning]. A cursor [i] into the query [s] is the suffix [s[i:]]; a
    scanner that returns an index returns the suffix it points to. *)

From S2P Require Import Prelude GoStrings.
From Stdlib Require Import Ascii.

(** ** Data *)

Inductive Mode := ModeOff | ModeOn | ModeOther (s : string).
#[export] Instance Mode_eq_dec : EqDecision Mode.
Proof. solve_decision. Defined.

(** The conversion [sqlgate.Mode(s)] of a configured string. *)
Definition to_Mode (s : string) : Mode :=
  if String.eqb s "off" then ModeOff else if String.eqb s "on" then ModeOn else ModeOther s.

Definition ValidMode (s : string) : bool :=
  match to_Mode s with ModeOff | ModeOn => true | ModeOther _ => false end.

Definition readStarters : list string := ["select"; "with"; "table"; "values"].
Definition writeStarters : list string := ["insert"; "update"; "delete"].
Definition is_read_starter (w : string) : bool := bool_decide (w ∈ readStarters).
Definition is_write_starter (w : string) : bool := bool_decide (w ∈ writeStarters).

Inductive gate_error := errEmpty | errNotRead | errMultiple | errCatalog | errNotAllowed.
#[export] Instance gate_error_eq_dec : EqDecision gate_error.
Proof. solve_decision. Defined.

Definition gate_error_text (e : gate_error) : string :=
  match e with
  | errEmpty => "query rejected: empty query"
  | errNotRead => "query rejected: only read-only SELECT queries are allowed"
  | errMultiple => "query rejected: multiple statements are not allowed"
  | errCatalog => "query rejected: access to system catalogs is not allowed"
  | errNotAllowed =>
      "query rejected: only a single read or write (INSERT/UPDATE/DELETE) statement is allowed"
  end.

Inductive Class := ClassRead | ClassWrite.
#[export] Instance Class_eq_dec : EqDecision Class.
Proof. solve_decision. Defined.

Inductive tokKind := tWord | tIdent | tPunct.
#[export] Instance tokKind_eq_dec : EqDecision tokKind.
Proof. solve_decision. Defined.

Record token := Tok { kind : tokKind; text : string }.
#[export] Instance token_eq_dec : EqDecision token.
Proof. solve_decision. Defined.

(** ** Byte classes *)

Definition isLetter (c : ascii) : bool := in_range 97 122 c || in_range 65 90 c.
Definition isDigit (c : ascii) : bool := in_range 48 57 c.
Definition isHigh (c : ascii) : bool := (128 <=? byte c)%N.
Definition isWordStart (c : ascii) : bool := isLetter c || Ascii.eqb c "_" || isHigh c.
Definition isWordByte (c : ascii) : bool :=
  isLetter c || isDigit c || Ascii.eqb c "_" || isHigh c.
(** The whitespace case of the tokenizer's switch. *)
Definition isSpace (c : ascii) : bool :=
  Ascii.eqb c " " || Ascii.eqb c "009" || Ascii.eqb c "013" || Ascii.eqb c "010"
  || Ascii.eqb c "012" || Ascii.eqb c "011".

Definition squote : ascii := "'"%char.
Definition newline : ascii := "010"%char.
Definition backslash : ascii := "\"%char.

(** ** Scanners *)

(** The loop of [skipBlockComment], at nesting [depth]. *)
Fixpoint skipBlockComment_go (depth : nat) (s : string) : string :=
  match depth with
  | 0 => s
  | S d =>
      match s with
      | EmptyString => EmptyString
      | String c s1 =>
          match s1 with
          | String c1 s2 =>
              if Ascii.eqb c "/" && Ascii.eqb c1 "*" then skipBlockComment_go (S depth) s2
              else if Ascii.eqb c "*" && Ascii.eqb c1 "/" then skipBlockComment_go d s2
              else skipBlockComment_go depth s1
          | EmptyString => skipBlockComment_go depth s1
          end
      end
  end.
(** [skipBlockComment] behind the opening delimiter. *)
Definition skipBlockComment (s : string) : string := skipBlockComment_go 1 s.

(** [skipString] behind the opening quote. *)
Fixpoint skipString (bs : bool) (s : string) : string :=
  match s with
  | EmptyString => EmptyString
  | String c s1 =>
      if bs && Ascii.eqb c backslash then
        match s1 with String _ s2 => skipString bs s2 | EmptyString => EmptyString end
      else if Ascii.eqb c squote then
        match s1 with
        | String c1 s2 => if Ascii.eqb c1 squote then skipString bs s2 else s1
        | EmptyString => s1
        end
      else skipString bs s1
  end.

(** [scanQuotedIdent] behind the opening quote: the suffix past the closing
    quote and the unescaped text. *)
Fixpoint scanQuotedIdent (s : string) : string * string :=
  match s with
  | EmptyString => (EmptyString, EmptyString)
  | String c s1 =>
      if Ascii.eqb c dquote then
        match s1 with
        | String c1 s2 =>
            if Ascii.eqb c1 dquote
            then let '(j, b) := scanQuotedIdent s2 in (j, String dquote b)
            else (s1, EmptyString)
        | EmptyString => (s1, EmptyString)
        end
      else let '(j, b) := scanQuotedIdent s1 in (j, String c b)
  end.

(** [dollarQuote] behind the opening dollar: the suffix past the literal, [None]
    when no dollar quote opens here. *)
Definition isTagByte (c : ascii) : bool := isLetter c || isDigit c || Ascii.eqb c "_".
Definition dollarQuote (s : string) : option string :=
  let '(tag, s1) :=
    match s with
    | String c s' =>
        if isLetter c || Ascii.eqb c "_"
        then let '(a, b) := span isTagByte s' in (String c a, b)
        else (EmptyString, s)
    | EmptyString => (EmptyString, s)
    end in
  match s1 with
  | String c rest =>
      if Ascii.eqb c "$" then
        match find_sub ("$" +:+ tag +:+ "$") rest with
        | Some (_, behind) => Some behind
        | None => Some EmptyString
        end
      else None
  | EmptyString => None
  end.

(** The line comment's inner loop: to the newline, not past it. *)
Definition skipLine (s : string) : string :=
  snd (span (fun c => negb (Ascii.eqb c newline)) s).

Section gate.
Context `{UnicodeTables}.

(** ** The tokenizer *)

(** One iteration of the loop of [tokenize] on a non-empty suffix: the tokens
    it appends and the suffix it leaves. *)
Definition tokenize_step (c : ascii) (s : string) : list token * string :=
  let next := match s with String c1 _ => Some c1 | EmptyString => None end in
  if isSpace c then ([], s)
  else if Ascii.eqb c "-" && bool_decide (next = Some "-"%char) then
    ([], skipLine (str_drop 1 s))
  else if Ascii.eqb c "/" && bool_decide (next = Some "*"%char) then
    ([], skipBlockComment (str_drop 1 s))
  else if Ascii.eqb c squote then ([], skipString false s)
  else if (Ascii.eqb c "e" || Ascii.eqb c "E") && bool_decide (next = Some squote) then
    ([], skipString true (str_drop 1 s))
  else if Ascii.eqb c dquote then
    let '(j, txt) := scanQuotedIdent s in ([Tok tIdent (ToLower txt)], j)
  else if Ascii.eqb c "$" then
    match dollarQuote s with
    | Some j => ([], j)
    | None => ([], snd (span isWordByte s))
    end
  else if isWordStart c then
    let '(w, j) := span isWordByte s in ([Tok tWord (ToLower (String c w))], j)
  else ([Tok tPunct (String c EmptyString)], s).

Fixpoint tokenize_go (fuel : nat) (s : string) : list token :=
  match fuel, s with
  | S n, String c s' =>
      let '(ts, rest) := tokenize_step c s' in ts ++ tokenize_go n rest
  | _, _ => []
  end.
(** Every iteration consumes a byte at least ([tokenize_step_length]), so the
    length is fuel enough. *)
Definition tokenize (s : string) : list token := tokenize_go (String.length s) s.

(** ** The gate *)

Definition isCatalogIdent (name : string) : bool :=
  String.eqb name "information_schema" || HasPrefix name "pg_".

Definition is_punct (p : string) (t : token) : bool :=
  bool_decide (kind t = tPunct) && String.eqb (text t) p.

(** [toks[first:]] for [first] behind the leading open parentheses. *)
Fixpoint skip_parens (toks : list token) : list token :=
  match toks with
  | t :: ts => if is_punct "(" t then skip_parens ts else toks
  | [] => []
  end.

(** The single-statement and no-catalog pass of [Check] and of [Classify]. *)
Fixpoint scan_rules (toks : list token) : option gate_error :=
  match toks with
  | [] => None
  | t :: ts =>
      if is_punct ";" t then
        match ts with [] => scan_rules ts | _ :: _ => Some errMultiple end
      else if bool_decide (kind t = tWord) || bool_decide (kind t = tIdent) then
        if isCatalogIdent (text t) then Some errCatalog else scan_rules ts
      else scan_rules ts
  end.

(** [Check]: [None] is a nil error. *)
Definition Check (query : string) (mode : Mode) : option gate_error :=
  if bool_decide (mode = ModeOff) then None
  else
    let toks := tokenize query in
    match skip_parens toks with
    | [] => Some errEmpty
    | ft :: _ =>
        if bool_decide (kind ft <> tWord) || negb (is_read_starter (text ft))
        then Some errNotRead
        else scan_rules toks
    end.

(** [Classify]: the class accompanying an error is always [ClassRead]. *)
Definition Classify (query : string) : result gate_error Class :=
  let toks := tokenize query in
  match skip_parens toks with
  | [] => Err errEmpty
  | ft :: _ =>
      if bool_decide (kind ft <> tWord) then Err errNotAllowed
      else
        class ← (if String.eqb (text ft) "with" || is_write_starter (text ft)
                 then Ok ClassWrite
                 else if is_read_starter (text ft) then Ok ClassRead
                 else Err errNotAllowed);
        match scan_rules toks with
        | Some e => Err e
        | None => Ok class
        end
  end.

Definition HasReturning (query : string) : bool :=
  existsb (fun t => bool_decide (kind t = tWord) && String.eqb (text t) "returning")
          (tokenize query).
End gate.

(** ** The scanners shrink their input *)

Lemma skipBlockComment_go_0 s : skipBlockComment_go 0 s = s.
Proof. by destruct s. Qed.

Lemma skipBlockComment_go_2 d c c1 s :
  skipBlockComment_go (S d) (String c (String c1 s)) =
  if Ascii.eqb c "/" && Ascii.eqb c1 "*" then skipBlockComment_go (S (S d)) s
  else if Ascii.eqb c "*" && Ascii.eqb c1 "/" then skipBlockComment_go d s
  else skipBlockComment_go (S d) (String c1 s).
Proof. done. Qed.

Lemma skipString_2 bs c c1 s :
  skipString bs (String c (String c1 s)) =
  if bs && Ascii.eqb c backslash then skipString bs s
  else if Ascii.eqb c squote then
    if Ascii.eqb c1 squote then skipString bs s else String c1 s
  else skipString bs (String c1 s).
Proof. done. Qed.

Lemma scanQuotedIdent_2 c c1 s :
  scanQuotedIdent (String c (String c1 s)) =
  if Ascii.eqb c dquote then
    if Ascii.eqb c1 dquote
    then let '(j, b) := scanQuotedIdent s in (j, String dquote b)
    else (String c1 s, EmptyString)
  else let '(j, b) := scanQuotedIdent (String c1 s) in (j, String c b).
Proof. done. Qed.

Lemma skipBlockComment_go_length d s :
  String.length (skipBlockComment_go d s) <= String.length s.
Proof.
  revert d; induction s as [s IH] using str_length_ind; intros d.
  destruct d as [|d]; [destruct s; simpl; lia|].
  destruct s as [|c [|c1 s]]; [simpl; lia|simpl; lia|].
  rewrite skipBlockComment_go_2.
  repeat case_match; (etrans; [apply IH; simpl; lia|simpl; lia]).
Qed.

Lemma skipString_length bs s : String.length (skipString bs s) <= String.length s.
Proof.
  induction s as [s IH] using str_length_ind. destruct s as [|c [|c1 s]].
  - done.
  - simpl. repeat case_match; simpl; lia.
  - pose proof (IH s ltac:(simpl; lia)) as IH2.
    pose proof (IH (String c1 s) ltac:(simpl; lia)) as IH1.
    rewrite skipString_2. repeat case_match; simpl String.length in *; lia.
Qed.

Lemma scanQuotedIdent_length s :
  String.length (fst (scanQuotedIdent s)) <= String.length s.
Proof.
  induction s as [s IH] using str_length_ind. destruct s as [|c [|c1 s]].
  - done.
  - simpl. repeat case_match; simpl in *; lia.
  - pose proof (IH s ltac:(simpl; lia)) as IH2.
    pose proof (IH (String c1 s) ltac:(simpl; lia)) as IH1.
    rewrite scanQuotedIdent_2.
    destruct (scanQuotedIdent s), (scanQuotedIdent (String c1 s)).
    repeat case_match; simpl in *; lia.
Qed.

Lemma span_length p s : String.length (snd (span p s)) <= String.length s.
Proof.
  destruct (span p s) as [a b] eqn:E. apply span_spec in E as (-> & _).
  rewrite str_length_app. simpl. lia.
Qed.

Lemma find_sub_length sub s a b :
  find_sub sub s = Some (a, b) -> String.length b <= String.length s.
Proof. intros ->%find_sub_Some. rewrite !str_length_app. lia. Qed.

Lemma dollarQuote_length s j :
  dollarQuote s = Some j -> String.length j <= String.length s.
Proof.
  unfold dollarQuote.
  destruct (match s with EmptyString => _ | String c s' => _ end) as [tag s1] eqn:E.
  assert (String.length s1 <= String.length s) as Hs1.
  { destruct s as [|c s']; [by inv E|]. case_match; [|by inv E].
    pose proof (span_length isTagByte s'). destruct (span isTagByte s'). inv E. simpl in *. lia. }
  destruct s1 as [|c rest]; [done|]. destruct (Ascii.eqb c "$"); [|done].
  destruct (find_sub _ rest) as [[a b]|] eqn:Hf; intros [= <-]; simpl; [|lia].
  apply find_sub_length in Hf. simpl in *. lia.
Qed.

Lemma str_drop_length n s : String.length (str_drop n s) <= String.length s.
Proof.
  revert s; induction n as [|n IH]; intros [|c s]; simpl; try lia.
  specialize (IH s). lia.
Qed.

#[local] Hint Resolve skipBlockComment_go_length skipString_length span_length
  str_drop_length dollarQuote_length : pathql.

Section tokenize_facts.
Context `{UnicodeTables}.

Lemma tokenize_step_length c s :
  String.length (snd (tokenize_step c s)) <= String.length s.
Proof.
  unfold tokenize_step, skipLine, skipBlockComment.
  pose proof (str_drop_length 1 s) as H1.
  pose proof (span_length (fun c => negb (Ascii.eqb c newline)) (str_drop 1 s)).
  pose proof (skipBlockComment_go_length 1 (str_drop 1 s)).
  pose proof (skipString_length true (str_drop 1 s)).
  pose proof (skipString_length false s).
  pose proof (scanQuotedIdent_length s). pose proof (span_length isWordByte s).
  pose proof (dollarQuote_length s).
  destruct (scanQuotedIdent s), (span isWordByte s), (dollarQuote s);
    repeat match goal with |- context [if ?b then _ else _] => destruct b end;
    cbn [fst snd] in *; try lia; auto.
Qed.

Lemma tokenize_go_enough n m s :
  String.length s <= n -> String.length s <= m -> tokenize_go n s = tokenize_go m s.
Proof.
  revert m s; induction n as [|n IH]; intros m [|c s] Hn Hm; simpl in *; try lia.
  - by destruct m.
  - by destruct m.
  - destruct m as [|m]; [lia|]. simpl. pose proof (tokenize_step_length c s).
    destruct (tokenize_step c s) as [ts rest]. f_equal. apply IH; simpl in *; lia.
Qed.

(** The loop equation of [tokenize], free of fuel. *)
Lemma tokenize_cons c s :
  tokenize (String c s) =
  let '(ts, rest) := tokenize_step c s in ts ++ tokenize rest.
Proof.
  unfold tokenize. simpl. pose proof (tokenize_step_length c s).
  destruct (tokenize_step c s) as [ts rest]. f_equal.
  apply tokenize_go_enough; simpl in *; lia.
Qed.
End tokenize_facts.

#[global] Arguments tokenize {_} s : simpl never.
#[global] Arguments tokenize_step {_} c s : simpl never.
