(* ===== verification/SqlGateSpec.v ===== *)
(** * What the SQL gate promises

    - a lexical grammar of queries ([lexeme]) with a renderer: [tokenize] reads
      back exactly the words, quoted identifiers and punctuation of a rendered
      query, whatever its comments and literals contain;
    - the policy [gate_policy] that [Check] decides, and how [Classify] relates
      to it;
    - two inputs on which the tokenizer and PostgreSQL's lexer disagree. *)

From S2P Require Import Prelude GoStrings SqlGate.
From Stdlib Require Import Ascii.

(** ** Lexemes and their rendering *)

(** The body of a block comment: characters and nested comments. *)
Inductive cbody :=
| CEnd
| CChar (c : ascii) (r : cbody)
| CNest (inner r : cbody).

Fixpoint render_cbody (b : cbody) : string :=
  match b with
  | CEnd => EmptyString
  | CChar c r => String c (render_cbody r)
  | CNest i r => "/*" +:+ render_cbody i +:+ "*/" +:+ render_cbody r
  end.

Definition next_is (c : ascii) (s : string) : bool :=
  match s with String d _ => Ascii.eqb d c | EmptyString => false end.

(** No character of the body forms a comment delimiter with its neighbour. *)
Fixpoint wf_cbody (b : cbody) : bool :=
  match b with
  | CEnd => true
  | CChar c r =>
      negb (Ascii.eqb c "/" && next_is "*" (render_cbody r +:+ "*/"))
      && negb (Ascii.eqb c "*" && next_is "/" (render_cbody r +:+ "*/"))
      && wf_cbody r
  | CNest i r => wf_cbody i && wf_cbody r
  end.

(** The items of an [E'...'] literal. *)
Inductive eitem := EPlain (c : ascii) | EQuote | EEscape (c : ascii).
Definition render_eitem (i : eitem) : string :=
  match i with
  | EPlain c => String c EmptyString
  | EQuote => String squote (String squote EmptyString)
  | EEscape c => String backslash (String c EmptyString)
  end.
Definition wf_eitem (i : eitem) : bool :=
  match i with
  | EPlain c => negb (Ascii.eqb c squote) && negb (Ascii.eqb c backslash)
  | _ => true
  end.

(** A literal's content with every occurrence of the quote doubled. *)
Fixpoint double (q : ascii) (s : string) : string :=
  match s with
  | EmptyString => EmptyString
  | String c s =>
      if Ascii.eqb c q then String c (String c (double q s)) else String c (double q s)
  end.

Inductive lexeme :=
| LSpace (c : ascii)
| LLine (body : string)
| LBlock (b : cbody)
| LStr (body : string)
| LEStr (upper : bool) (body : list eitem)
| LDollar (tag body : string)
| LParam (digits : string)
| LIdent (name : string)
| LWord (w : string)
| LPunct (c : ascii).

Definition quoted (q : ascii) (body : string) : string :=
  String q (double q body +:+ String q EmptyString).

Definition render (l : lexeme) : string :=
  match l with
  | LSpace c => String c EmptyString
  | LLine body => "--" +:+ body +:+ String newline EmptyString
  | LBlock b => "/*" +:+ render_cbody b +:+ "*/"
  | LStr body => quoted squote body
  | LEStr upper body =>
      String (if upper then "E" else "e")%char
        (String squote (str_concat (map render_eitem body) +:+ String squote EmptyString))
  | LDollar tag body => "$" +:+ tag +:+ "$" +:+ body +:+ "$" +:+ tag +:+ "$"
  | LParam d => "$" +:+ d
  | LIdent name => quoted dquote name
  | LWord w => w
  | LPunct c => String c EmptyString
  end.

Definition is_tag (tag : string) : bool :=
  match tag with
  | EmptyString => true
  | String c s => (isLetter c || Ascii.eqb c "_") && str_forall isTagByte s
  end.

Definition head_is (p : ascii -> bool) (s : string) : bool :=
  match s with String c _ => p c | EmptyString => false end.

(** Lexemes that are well formed by themselves. *)
Definition wf_lexeme (l : lexeme) : bool :=
  match l with
  | LSpace c => isSpace c
  | LLine body => str_forall (fun c => negb (Ascii.eqb c newline)) body
  | LBlock b => wf_cbody b
  | LStr _ | LIdent _ => true
  | LEStr _ body => forallb wf_eitem body
  | LDollar tag body =>
      let d := "$" +:+ tag +:+ "$" in
      is_tag tag && bool_decide (find_sub d (body +:+ d) = Some (body, EmptyString))
  | LParam d => head_is isDigit d && str_forall isWordByte d
  | LWord w => head_is isWordStart w && str_forall isWordByte w
  | LPunct c =>
      negb (isSpace c) && negb (Ascii.eqb c squote) && negb (Ascii.eqb c dquote)
      && negb (Ascii.eqb c "$") && negb (isWordStart c)
  end.

(** What may not follow a lexeme without changing how it is read. *)
Definition separated (l : lexeme) (rest : string) : bool :=
  match l with
  | LSpace _ | LLine _ | LBlock _ | LDollar _ _ => true
  | LStr _ | LEStr _ _ => negb (next_is squote rest)
  | LIdent _ => negb (next_is dquote rest)
  | LParam _ => negb (head_is isWordByte rest)
  | LWord w =>
      negb (head_is isWordByte rest)
      && negb (bool_decide (w ∈ ["e"; "E"]) && next_is squote rest)
  | LPunct c =>
      negb (Ascii.eqb c "-" && next_is "-" rest)
      && negb (Ascii.eqb c "/" && next_is "*" rest)
  end.

Fixpoint render_all (ls : list lexeme) : string :=
  match ls with [] => EmptyString | l :: ls => render l +:+ render_all ls end.
Fixpoint well_separated (ls : list lexeme) : bool :=
  match ls with
  | [] => true
  | l :: ls => wf_lexeme l && separated l (render_all ls) && well_separated ls
  end.

Section spec.
Context `{UnicodeTables}.

Definition lexeme_tokens (l : lexeme) : list token :=
  match l with
  | LWord w => [Tok tWord (ToLower w)]
  | LIdent n => [Tok tIdent (ToLower n)]
  | LPunct c => [Tok tPunct (String c EmptyString)]
  | _ => []
  end.

(** ** The policy *)

Definition open_paren : token := Tok tPunct "(".

Definition catalog_name (name : string) : Prop :=
  name = "information_schema" \/ exists rest, name = "pg_" +:+ rest.

(** A token that [scan_rules] rejects, given what follows it. *)
Definition violation (t : token) (rest : list token) (e : gate_error) : Prop :=
  (t = Tok tPunct ";" /\ rest <> [] /\ e = errMultiple)
  \/ (kind t <> tPunct /\ catalog_name (text t) /\ e = errCatalog).

Definition structural (toks : list token) : Prop :=
  forall pre t post e, toks = pre ++ t :: post -> ~ violation t post e.

(** [first_word toks w]: behind its open parentheses the query leads with the
    word [w]. *)
Definition first_word (toks : list token) (w : string) : Prop :=
  exists n rest, toks = replicate n open_paren ++ Tok tWord w :: rest.

Definition gate_policy (toks : list token) : Prop :=
  (exists w, first_word toks w /\ w ∈ readStarters) /\ structural toks.
End spec.

(** ** Reading back one lexeme *)

(** A word starts with none of the tokenizer's special bytes. *)
Lemma word_start_special c :
  isWordStart c = true ->
  isSpace c = false /\ Ascii.eqb c "-" = false /\ Ascii.eqb c "/" = false /\
  Ascii.eqb c squote = false /\ Ascii.eqb c dquote = false /\ Ascii.eqb c "$" = false.
Proof. by destruct c as [[][][][][][][][]]. Qed.

Lemma digit_no_tag c :
  isDigit c = true -> isLetter c || Ascii.eqb c "_" = false /\ Ascii.eqb c "$" = false.
Proof. by destruct c as [[][][][][][][][]]. Qed.

Lemma isSpace_cases c : isSpace c = true -> c ∈ [" "; "009"; "013"; "010"; "012"; "011"]%char.
Proof.
  unfold isSpace. intros H. repeat (apply orb_true_iff in H as [H|H]);
  apply Ascii.eqb_eq in H as ->; set_solver.
Qed.

Lemma next_is_cons c d s : next_is c (String d s) = Ascii.eqb d c.
Proof. done. Qed.

Lemma bool_decide_next (c : ascii) (s : string) :
  bool_decide (match s with String c1 _ => Some c1 | EmptyString => None end = Some c)
  = next_is c s.
Proof.
  destruct s as [|d s]; simpl; [done|].
  destruct (Ascii.eqb_spec d c) as [->|Hd].
  - by apply bool_decide_eq_true_2.
  - apply bool_decide_eq_false_2. congruence.
Qed.

Lemma head_is_cases p s :
  head_is p s = false <-> match s with EmptyString => True | String c _ => p c = false end.
Proof. by destruct s. Qed.

Lemma open_comment s : "/*" +:+ s = String "/" (String "*" s).
Proof. done. Qed.

Lemma skipBlockComment_body d b rest :
  wf_cbody b = true ->
  skipBlockComment_go (S d) (render_cbody b +:+ "*/" +:+ rest) = skipBlockComment_go d rest.
Proof.
  revert d rest. induction b as [|c r IH|i IHi r IHr]; intros d rest Hwf; simpl in Hwf.
  - done.
  - breflect. cbn [render_cbody]. rewrite (app_String c), <- str_app_assoc.
    destruct (render_cbody r +:+ "*/") as [|c1 s] eqn:E; [by destruct r|].
    rewrite app_String, skipBlockComment_go_2.
    rewrite !next_is_cons in *.
    repeat match goal with H : _ = false |- _ => rewrite H; clear H end.
    rewrite <- app_String, <- E, str_app_assoc. by apply IH.
  - breflect. cbn [render_cbody]. rewrite !str_app_assoc, open_comment.
    rewrite skipBlockComment_go_2. simpl. by rewrite IHi, IHr.
Qed.

Lemma skipString_double rest body :
  next_is squote rest = false ->
  skipString false (double squote body +:+ String squote rest) = rest.
Proof.
  intros Hrest. induction body as [|c body IH]; simpl.
  - destruct rest as [|d rest]; [done|]. simpl in *. by rewrite Hrest.
  - destruct (Ascii.eqb c squote) eqn:Hc; simpl; by rewrite ?Hc.
Qed.

Lemma skipString_eitems rest body :
  next_is squote rest = false -> forallb wf_eitem body = true ->
  skipString true (str_concat (map render_eitem body) +:+ String squote rest) = rest.
Proof.
  intros Hrest. induction body as [|i body IH]; intros Hwf; simpl in *.
  - destruct rest as [|d rest]; [done|]. simpl in *. by rewrite Hrest.
  - breflect. rewrite str_app_assoc. destruct i as [c| |c]; simpl in *; breflect; auto.
    rewrite !(proj2 (Ascii.eqb_neq _ _)) by done. auto.
Qed.

Lemma scanQuotedIdent_double rest body :
  next_is dquote rest = false ->
  scanQuotedIdent (double dquote body +:+ String dquote rest) = (rest, body).
Proof.
  intros Hrest. induction body as [|c body IH]; simpl.
  - destruct rest as [|d rest]; [done|]. simpl in *. by rewrite Hrest.
  - destruct (Ascii.eqb c dquote) eqn:Hc; simpl; rewrite ?Hc, IH; [|done].
    by apply Ascii.eqb_eq in Hc as ->.
Qed.

Lemma strip_prefix_longer p s t :
  String.length p <= String.length s -> strip_prefix p s = None ->
  strip_prefix p (s +:+ t) = None.
Proof.
  revert s; induction p as [|c p IH]; intros [|d s] Hl; simpl in *; try done; try lia.
  destruct (Ascii.eqb c d); [|done]. apply IH. lia.
Qed.

(** A first occurrence stays first when the text grows at its end. *)
Lemma find_sub_app sub s t a b :
  find_sub sub s = Some (a, b) -> find_sub sub (s +:+ t) = Some (a, b +:+ t).
Proof.
  revert a b; induction s as [|c s IH]; intros a b; simpl.
  - destruct sub; simpl; [|done]. intros [= <- <-]. by destruct t.
  - change (String c (s +:+ t)) with (String c s +:+ t).
    destruct (strip_prefix sub (String c s)) as [r|] eqn:E.
    + intros [= <- <-]. apply strip_prefix_Some in E.
      by rewrite E, str_app_assoc, strip_prefix_app.
    + destruct (find_sub sub s) as [[a' b']|] eqn:Hf; [|done]. simpl. intros [= <- <-].
      rewrite strip_prefix_longer; [by erewrite IH by done| |done].
      apply find_sub_Some in Hf as ->. simpl. rewrite !str_length_app. lia.
Qed.

Lemma dollarQuote_literal tag body rest :
  is_tag tag = true ->
  find_sub ("$" +:+ tag +:+ "$") (body +:+ "$" +:+ tag +:+ "$") = Some (body, EmptyString) ->
  dollarQuote (tag +:+ "$" +:+ body +:+ "$" +:+ tag +:+ "$" +:+ rest) = Some rest.
Proof.
  intros Htag Hf. unfold dollarQuote.
  assert (match tag +:+ "$" +:+ body +:+ "$" +:+ tag +:+ "$" +:+ rest with
          | String c s' =>
              if isLetter c || Ascii.eqb c "_"
              then let '(a, b) := span isTagByte s' in (String c a, b)
              else (EmptyString, tag +:+ "$" +:+ body +:+ "$" +:+ tag +:+ "$" +:+ rest)
          | EmptyString => (EmptyString, tag +:+ "$" +:+ body +:+ "$" +:+ tag +:+ "$" +:+ rest)
          end = (tag, String "$" (body +:+ "$" +:+ tag +:+ "$" +:+ rest))) as ->.
  { destruct tag as [|c tag]; [done|]. simpl in Htag. breflect. rewrite app_String.
    rewrite H. rewrite span_app; [by rewrite app_String, app_empty_l|done|done]. }
  rewrite Ascii.eqb_refl.
  apply (find_sub_app _ _ rest) in Hf. rewrite !str_app_assoc in Hf. by rewrite Hf.
Qed.

Section readback.
Context `{UnicodeTables}.

Lemma tokenize_space c rest :
  isSpace c = true -> tokenize (String c rest) = tokenize rest.
Proof. intros Hc. rewrite tokenize_cons. unfold tokenize_step. by rewrite Hc. Qed.

Lemma tokenize_word w rest :
  wf_lexeme (LWord w) = true -> separated (LWord w) rest = true ->
  tokenize (w +:+ rest) = Tok tWord (ToLower w) :: tokenize rest.
Proof.
  intros Hwf Hsep. simpl in *. breflect. destruct w as [|c w]; [done|].
  simpl in *. breflect. destruct (word_start_special c) as (Hs & Hm & Hsl & Hq & Hd & Hdl); [done|].
  rewrite app_String, tokenize_cons. unfold tokenize_step. rewrite Hs, Hm, Hsl, Hq, Hd, Hdl. simpl.
  rewrite !bool_decide_next.
  assert ((Ascii.eqb c "e" || Ascii.eqb c "E") && next_is squote (w +:+ rest) = false) as ->.
  { destruct w as [|c1 w]; simpl in *.
    - destruct (Ascii.eqb c "e") eqn:He; [apply Ascii.eqb_eq in He as ->|].
      { by rewrite bool_decide_eq_true_2 in H1 by set_solver. }
      destruct (Ascii.eqb c "E") eqn:HE; [apply Ascii.eqb_eq in HE as ->|done].
      by rewrite bool_decide_eq_true_2 in H1 by set_solver.
    - breflect. destruct (Ascii.eqb_spec c1 squote) as [->|]; [done|by rewrite andb_false_r]. }
  assert (isWordStart c = true) as -> by done.
  rewrite span_app; [done|by breflect|]. by apply head_is_cases.
Qed.

Lemma tokenize_punct c rest :
  wf_lexeme (LPunct c) = true -> separated (LPunct c) rest = true ->
  tokenize (String c rest) = Tok tPunct (String c EmptyString) :: tokenize rest.
Proof.
  intros Hwf Hsep. simpl in *. breflect.
  rewrite tokenize_cons. unfold tokenize_step. rewrite !bool_decide_next.
  assert (Ascii.eqb c "e" = false /\ Ascii.eqb c "E" = false) as [He HE].
  { split; apply Ascii.eqb_neq; by intros ->. }
  repeat match goal with H : _ = false |- _ => rewrite H; clear H end.
  repeat match goal with H : _ <> _ |- _ => apply Ascii.eqb_neq in H; rewrite H; clear H end.
  done.
Qed.

(** How each rendered lexeme starts, with the suffix behind its first byte. *)
Definition lexeme_tail (l : lexeme) (rest : string) : option (ascii * string) :=
  match l with
  | LLine body => Some ("-"%char, String "-" (body +:+ String newline rest))
  | LBlock b => Some ("/"%char, String "*" (render_cbody b +:+ "*/" +:+ rest))
  | LStr body => Some (squote, double squote body +:+ String squote rest)
  | LEStr up body =>
      Some (if up then "E" else "e",
            String squote (str_concat (map render_eitem body) +:+ String squote rest))%char
  | LDollar tag body =>
      Some ("$"%char, tag +:+ "$" +:+ body +:+ "$" +:+ tag +:+ "$" +:+ rest)
  | LParam d => Some ("$"%char, d +:+ rest)
  | LIdent name => Some (dquote, double dquote name +:+ String dquote rest)
  | _ => None
  end.

Lemma render_tail l rest c s :
  lexeme_tail l rest = Some (c, s) -> render l +:+ rest = String c s.
Proof.
  destruct l; intros [= <- <-]; simpl; unfold quoted;
    repeat (rewrite app_String || rewrite str_app_assoc); done.
Qed.

Lemma tokenize_lexeme_tail l rest c s :
  lexeme_tail l rest = Some (c, s) ->
  wf_lexeme l = true -> separated l rest = true ->
  tokenize_step c s =
    (lexeme_tokens l,
     match l with LLine _ => String newline rest | _ => rest end).
Proof.
  destruct l as [c'|body|b|body|up body|tag body|d|name|w|c']; intros [= <- <-] Hwf Hsep;
    simpl in Hwf, Hsep; breflect; unfold tokenize_step; simpl.
  - unfold skipLine. by rewrite span_app.
  - unfold skipBlockComment. by rewrite skipBlockComment_body, skipBlockComment_go_0.
  - by rewrite skipString_double.
  - destruct up; simpl; by rewrite skipString_eitems.
  - by rewrite dollarQuote_literal.
  - destruct d as [|c1 d]; [done|].
    assert (dollarQuote (String c1 d +:+ rest) = None) as ->.
    { rewrite app_String. unfold dollarQuote.
      by destruct (digit_no_tag c1) as [-> ->]. }
    rewrite span_app; [done|done|by apply head_is_cases].
  - by rewrite scanQuotedIdent_double.
Qed.

(** One lexeme yields its tokens and leaves the rest to be read as before. *)
Lemma tokenize_lexeme l rest :
  wf_lexeme l = true -> separated l rest = true ->
  tokenize (render l +:+ rest) = lexeme_tokens l ++ tokenize rest.
Proof.
  intros Hwf Hsep. destruct (lexeme_tail l rest) as [[c s]|] eqn:E.
  - rewrite (render_tail _ _ _ _ E), tokenize_cons.
    erewrite tokenize_lexeme_tail by done.
    by destruct l.
  - destruct l; try done.
    + by apply tokenize_space.
    + by apply tokenize_word.
    + by apply tokenize_punct.
Qed.
End readback.

(** ** The passes of the gate against the policy *)

Lemma isCatalogIdent_spec n : isCatalogIdent n = true <-> catalog_name n.
Proof.
  unfold isCatalogIdent, catalog_name. by rewrite orb_true_iff, String.eqb_eq, HasPrefix_spec.
Qed.

Lemma is_punct_spec p t : is_punct p t = true <-> t = Tok tPunct p.
Proof.
  unfold is_punct. rewrite andb_true_iff, bool_decide_eq_true, String.eqb_eq.
  destruct t as [k x]; simpl. naive_solver.
Qed.

Lemma skip_parens_spec toks :
  exists n, toks = replicate n open_paren ++ skip_parens toks /\
            head (skip_parens toks) <> Some open_paren.
Proof.
  induction toks as [|t ts (n & IH & Hh)]; [by exists 0|]. simpl.
  destruct (is_punct "(" t) eqn:E.
  - apply is_punct_spec in E as ->. exists (S n). simpl. by rewrite <- IH.
  - exists 0. split; [done|]. simpl. intros [= ->]. done.
Qed.

Lemma skip_parens_replicate n l :
  head l <> Some open_paren -> skip_parens (replicate n open_paren ++ l) = l.
Proof.
  intros Hl. induction n as [|n IH]; simpl; [|done].
  destruct l as [|t l]; [done|]. simpl in *.
  destruct (is_punct "(" t) eqn:E; [|done]. by apply is_punct_spec in E as ->.
Qed.

Lemma first_word_spec toks w :
  first_word toks w <-> exists rest, skip_parens toks = Tok tWord w :: rest.
Proof.
  unfold first_word. split.
  - intros (n & rest & ->). exists rest. by apply skip_parens_replicate.
  - intros [rest E]. destruct (skip_parens_spec toks) as (n & Ht & _).
    exists n, rest. by rewrite <- E.
Qed.

Lemma first_word_unique toks w1 w2 : first_word toks w1 -> first_word toks w2 -> w1 = w2.
Proof. rewrite !first_word_spec. intros [? ->] [? [= ->]]. done. Qed.

(** What [scan_rules] says of the first token. *)
Lemma scan_rules_cons t ts :
  scan_rules (t :: ts) = None /\ (forall e, ~ violation t ts e) /\ scan_rules ts = None
  \/ (exists e, scan_rules (t :: ts) = Some e /\ violation t ts e)
  \/ (exists e, scan_rules (t :: ts) = Some e /\ (forall e', ~ violation t ts e') /\
                scan_rules ts = Some e).
Proof.
  unfold violation. simpl. destruct (is_punct ";" t) eqn:Hp.
  - apply is_punct_spec in Hp as ->. destruct ts as [|t2 ts]; simpl; naive_solver.
  - assert (t <> Tok tPunct ";") as Hns by (intros ->; done).
    assert (bool_decide (kind t = tWord) || bool_decide (kind t = tIdent)
            = bool_decide (kind t <> tPunct)) as -> by (by destruct (kind t)).
    case_bool_decide; [destruct (isCatalogIdent (text t)) eqn:Hc|].
    + apply isCatalogIdent_spec in Hc. right; left. eauto 10.
    + assert (~ catalog_name (text t)) by (rewrite <- isCatalogIdent_spec; congruence).
      destruct (scan_rules ts) as [e|]; naive_solver.
    + destruct (scan_rules ts) as [e|]; naive_solver.
Qed.

(** No token of [pre] is a violation in [pre ++ post]. *)
Definition clean (pre post : list token) : Prop :=
  forall pre1 t pre2 e, pre = pre1 ++ t :: pre2 -> ~ violation t (pre2 ++ post) e.

Lemma clean_nil post : clean [] post.
Proof. by intros [|??] ? ? ?. Qed.

Lemma clean_cons t pre post :
  clean (t :: pre) post <-> (forall e, ~ violation t (pre ++ post) e) /\ clean pre post.
Proof.
  split.
  - intros H. split; [intros e; by apply (H [])|].
    intros pre1 t' pre2 e ->. by apply (H (t :: pre1)).
  - intros [Ht H] [|t1 pre1] t' pre2 e [= -> ->]; [done|]. by eapply H.
Qed.

Lemma violation_unique t post e e' : violation t post e -> violation t post e' -> e = e'.
Proof. unfold violation. destruct t as [k x]. naive_solver. Qed.

Lemma scan_rules_Some toks e :
  scan_rules toks = Some e <->
  exists pre t post, toks = pre ++ t :: post /\ violation t post e /\ clean pre (t :: post).
Proof.
  split.
  - induction toks as [|t ts IH]; [done|].
    destruct (scan_rules_cons t ts) as [(-> & _)|[(e' & -> & Hv)|(e' & -> & Hv & Hr)]];
      intros [=]; subst.
    + exists [], t, ts. auto using clean_nil.
    + destruct IH as (pre & t' & post & -> & Hv' & Hc); [done|].
      exists (t :: pre), t', post. rewrite clean_cons. auto.
  - intros (pre & t & post & -> & Hv & Hc). induction pre as [|t1 pre IH]; simpl app in *.
    + destruct (scan_rules_cons t post) as [(_ & Hn & _)|[(e' & -> & Hv')|(e' & _ & Hn & _)]].
      * by apply Hn in Hv.
      * f_equal. by eapply violation_unique.
      * by apply Hn in Hv.
    + apply clean_cons in Hc as [Ht Hc].
      destruct (scan_rules_cons t1 (pre ++ t :: post)) as
        [(_ & _ & Hr)|[(e' & _ & Hv')|(e' & -> & _ & Hr)]].
      * rewrite IH in Hr; done.
      * by apply Ht in Hv'.
      * rewrite <- Hr. auto.
Qed.

Lemma structural_clean toks : structural toks <-> clean toks [].
Proof.
  unfold structural, clean. setoid_rewrite app_nil_r. naive_solver.
Qed.

Lemma scan_rules_None toks : scan_rules toks = None <-> structural toks.
Proof.
  rewrite structural_clean. induction toks as [|t ts IH]; [by split; [intros; apply clean_nil|]|].
  rewrite clean_cons, app_nil_r, <- IH.
  destruct (scan_rules_cons t ts) as [(-> & ? & ?)|[(e' & -> & Hv')|(e' & -> & ? & ->)]]; naive_solver.
Qed.

(** ** The loop *)

(** The iterations of the tokenizer's loop, with no fuel: what they emit and how
    many they are. *)
Inductive loop_run `{UnicodeTables} : string -> list token -> nat -> Prop :=
| run_done : loop_run EmptyString [] 0
| run_step c s ts rest ts' n :
    tokenize_step c s = (ts, rest) -> loop_run rest ts' n ->
    loop_run (String c s) (ts ++ ts') (S n).

Lemma loop_run_tokenize `{UnicodeTables} s ts n : loop_run s ts n -> ts = tokenize s.
Proof.
  induction 1 as [|c s ts rest ts' n Hstep _ IH]; [done|]. by rewrite tokenize_cons, Hstep, IH.
Qed.

Lemma loop_run_unique `{UnicodeTables} s ts ts' n m : loop_run s ts n -> loop_run s ts' m -> n = m.
Proof.
  intros Hn. revert ts' m. induction Hn as [|c s ts rest ts1 n Hstep _ IH]; intros ts' m Hm.
  - by inversion Hm.
  - inversion Hm as [|c' s' ts2 rest' ts3 m' Hstep' Hm']; subst. rewrite Hstep in Hstep'.
    injection Hstep' as <- <-. f_equal. by eapply IH.
Qed.

(** An iteration emits one token at most. *)
Lemma tokenize_step_one `{UnicodeTables} c s : length (fst (tokenize_step c s)) <= 1.
Proof. unfold tokenize_step. repeat (case_match; simpl); lia. Qed.

Lemma loop_run_exists `{UnicodeTables} s :
  exists n, n <= String.length s /\ length (tokenize s) <= n /\ loop_run s (tokenize s) n.
Proof.
  induction s as [[|c s] IH] using str_length_ind; [exists 0; split_and!; [done..|constructor]|].
  pose proof (tokenize_step_length c s) as Hlen. pose proof (tokenize_step_one c s) as Hone.
  rewrite tokenize_cons.
  destruct (tokenize_step c s) as [ts rest] eqn:Hstep. simpl in *.
  destruct (IH rest) as (n & Hn & Hts & Hrun); [simpl; lia|].
  exists (S n). split_and!; [simpl; lia|rewrite length_app; simpl in *; lia|by econstructor].
Qed.

(** ** Properties *)

Section properties.
Context `{UnicodeTables}.

(** C1: the tokenizer is insensitive to the content of comments, string
    literals, escape strings, dollar quotes and to layout, and it recovers the
    words, the quoted identifiers (doubled quotes undone) and the punctuation:
    reading back a rendered sequence of well-separated lexemes gives exactly
    their tokens, in order. *)
Theorem tokenize_render_all (ls : list lexeme)
  (Hls : well_separated ls = true) :
  tokenize (render_all ls) = concat (map lexeme_tokens ls).
Proof.
  induction ls as [|l ls IH]; [done|]. simpl in Hls. breflect.
  cbn [render_all map concat]. by rewrite tokenize_lexeme, IH.
Qed.

(** C28: the tokenizer terminates on every text: its loop, run without any fuel,
    ends after one number of iterations, at most one per byte, with the tokens
    [tokenize] computes, at most one per iteration. *)
Theorem tokenize_terminates (query : string) :
  exists n, n <= String.length query /\ length (tokenize query) <= n
    /\ loop_run query (tokenize query) n
    /\ forall ts m, loop_run query ts m -> ts = tokenize query /\ m = n.
Proof.
  destruct (loop_run_exists query) as (n & Hn & Hts & Hrun). exists n. split_and!; [done..|].
  intros ts m Hm. split; [by eapply loop_run_tokenize|by eapply loop_run_unique].
Qed.

(** C2: [Check] accepts a query exactly when the gate is off or the query
    satisfies the declarative policy: behind open parentheses it leads with a
    read keyword, a semicolon can only be its last token, and no word or quoted
    identifier names a system catalog. Unknown modes enforce like "on". *)
Theorem Check_spec (query : string) (mode : Mode) :
  Check query mode = None <-> mode = ModeOff \/ gate_policy (tokenize query).
Proof.
  unfold Check, gate_policy. case_bool_decide as Hm; [naive_solver|].
  setoid_rewrite first_word_spec. rewrite <- scan_rules_None.
  destruct (skip_parens (tokenize query)) as [|[k w] rest] eqn:E; simpl.
  { naive_solver. }
  unfold is_read_starter. do 2 case_bool_decide; simpl; naive_solver.
Qed.

Lemma Check_cases (query : string) (mode : Mode) :
  mode <> ModeOff ->
  (skip_parens (tokenize query) = [] /\ Check query mode = Some errEmpty)
  \/ (exists t rest, skip_parens (tokenize query) = t :: rest /\
        ((exists w, t = Tok tWord w /\ w ∈ readStarters
            /\ Check query mode = scan_rules (tokenize query))
         \/ (~ (exists w, t = Tok tWord w /\ w ∈ readStarters)
            /\ Check query mode = Some errNotRead))).
Proof.
  intros Hm. unfold Check. rewrite bool_decide_eq_false_2 by done.
  destruct (skip_parens (tokenize query)) as [|[k w] rest]; [by left|].
  right. exists (Tok k w), rest. split; [done|]. simpl. unfold is_read_starter.
  do 2 case_bool_decide; simpl; [right|right|left|right]; naive_solver.
Qed.

(** The error of [Check] names the first offence: no token behind the open
    parentheses is [errEmpty], a leading token that is not a read keyword is
    [errNotRead], and otherwise the first token that breaks a structural rule
    decides between [errMultiple] and [errCatalog]. *)
Theorem Check_first_offence (query : string) (mode : Mode) (e : gate_error) :
  Check query mode = Some e <->
  mode <> ModeOff /\
  ((e = errEmpty /\ exists n, tokenize query = replicate n open_paren)
   \/ (e = errNotRead /\ (exists n, exists t rest,
         tokenize query = replicate n open_paren ++ t :: rest /\ t <> open_paren)
       /\ ~ exists w, first_word (tokenize query) w /\ w ∈ readStarters)
   \/ ((exists w, first_word (tokenize query) w /\ w ∈ readStarters)
       /\ exists pre t post, tokenize query = pre ++ t :: post
            /\ violation t post e /\ clean pre (t :: post))).
Proof.
  destruct (decide (mode = ModeOff)) as [->|Hm]; [unfold Check; simpl; naive_solver|].
  rewrite <- scan_rules_Some. setoid_rewrite first_word_spec.
  destruct (skip_parens_spec (tokenize query)) as (n & Ht & Hh).
  assert (forall n' t rest, tokenize query = replicate n' open_paren ++ t :: rest ->
    t <> open_paren -> skip_parens (tokenize query) = t :: rest) as Hskip.
  { intros n' t rest -> Hne. apply skip_parens_replicate. simpl. congruence. }
  assert (forall n', tokenize query = replicate n' open_paren ->
    skip_parens (tokenize query) = []) as Hempty.
  { intros n' ->. rewrite <- (app_nil_r (replicate _ _)). by apply skip_parens_replicate. }
  destruct (Check_cases query mode Hm) as
    [[E ->]|(t & rest & E & [(w & -> & Hw & ->)|[Hn ->]])].
  - rewrite E, app_nil_r in Ht. split; [intros [= <-]; naive_solver|].
    intros (_ & [[-> _]|[(_ & (n' & t & rest & Ht' & Hne) & _)|((w & (? & ?) & _) & _)]]);
      [done|by rewrite (Hskip _ _ _ Ht' Hne) in E|congruence].
  - split; [naive_solver|].
    intros (_ & [[-> [n' Hn']]|[(-> & _ & Hx)|[_ Hx]]]); [|naive_solver|done].
    apply Hempty in Hn'. congruence.
  - split.
    + intros [= <-]. split; [done|]. right; left. split; [done|].
      rewrite E in *. split; [exists n, t, rest; split; [done|by intros ->]|].
      intros (w & [? [= -> ->]] & ?). naive_solver.
    + intros (_ & [[-> [n' Hn']]|[(-> & _)|[(w & [r Hr] & ?) _]]]); [|done|].
      * apply Hempty in Hn'. congruence.
      * rewrite Hr in E. naive_solver.
Qed.

Lemma is_with_or_write w :
  String.eqb w "with" || is_write_starter w = bool_decide (w ∈ "with" :: writeStarters).
Proof.
  unfold is_write_starter. destruct (String.eqb_spec w "with") as [->|Hw]; [done|].
  simpl. apply bool_decide_ext. rewrite (elem_of_cons writeStarters). naive_solver.
Qed.

Lemma read_and_write_starters w :
  w ∈ readStarters -> w ∈ "with" :: writeStarters -> w = "with".
Proof.
  assert (forallb (fun w => negb (bool_decide (w ∈ "with" :: writeStarters))
                            || String.eqb w "with") readStarters = true) as Hall by done.
  rewrite forallb_forall in Hall. intros Hr Hw. specialize (Hall w).
  rewrite <- list_elem_of_In, (bool_decide_eq_true_2 (w ∈ _)) in Hall by done.
  by apply String.eqb_eq, Hall.
Qed.

(** C3: [Classify] calls a query a read exactly when the gate accepts it and it
    does not lead with WITH, and a write exactly when it leads with WITH,
    INSERT, UPDATE or DELETE and breaks none of the structural rules: admitting
    writes never admits stacked statements or catalog names. *)
Theorem Classify_spec (query : string) :
  (Classify query = Ok ClassRead <->
     Check query ModeOn = None /\ ~ first_word (tokenize query) "with")
  /\ (Classify query = Ok ClassWrite <->
     (exists w, first_word (tokenize query) w /\ w ∈ "with" :: writeStarters)
     /\ structural (tokenize query)).
Proof.
  unfold Classify, Check. rewrite bool_decide_eq_false_2 by done.
  setoid_rewrite first_word_spec. rewrite <- scan_rules_None.
  destruct (skip_parens (tokenize query)) as [|[k w] rest]; cbn [kind text]; [naive_solver|].
  rewrite is_with_or_write. unfold is_read_starter.
  pose proof (read_and_write_starters w) as Hboth.
  assert ("with" ∈ readStarters) by (unfold readStarters; set_solver).
  assert ("with" ∈ "with" :: writeStarters) by left.
  destruct (decide (k = tWord)) as [->|Hk].
  - rewrite (bool_decide_eq_false_2 (tWord <> tWord)) by auto.
    do 2 case_bool_decide; cbn -[scan_rules readStarters writeStarters];
      destruct (scan_rules (tokenize query)); split; split;
      repeat intros [= ]; naive_solver.
  - rewrite (bool_decide_eq_true_2 (k <> tWord)) by auto. naive_solver.
Qed.

(** What PostgreSQL, but not the tokenizer, sees of
    [SELECT 1 AS a$b$payload$b$]: in PostgreSQL a dollar sign continues an
    identifier, so [a$b$] is a column alias and the payload is SQL. *)
Definition dollar_smuggle (payload : string) : string :=
  "SELECT 1 AS a$b$" +:+ payload +:+ "$b$".

Lemma tokenize_dollar_smuggle payload :
  find_sub "$b$" (payload +:+ "$b$") = Some (payload, EmptyString) ->
  tokenize (dollar_smuggle payload) =
    [Tok tWord "select"; Tok tPunct "1"; Tok tWord "as"; Tok tWord "a"].
Proof.
  intros Hp.
  assert (dollar_smuggle payload = render_all
    [LWord "SELECT"; LSpace " "; LPunct "1"; LSpace " "; LWord "AS"; LSpace " ";
     LWord "a"; LDollar "b" payload]) as ->.
  { unfold dollar_smuggle. cbn [render_all render].
    repeat (rewrite ?str_app_assoc, ?app_String, ?app_empty_l, ?app_empty_r). done. }
  cbn [render_all]. rewrite !tokenize_lexeme; try done.
  simpl. by rewrite bool_decide_eq_true_2.
Qed.

(** Any text that does not contain [$b$] passes the gate, as part of a read,
    behind [SELECT 1 AS a$b$]: the tokenizer opens a dollar quote where
    PostgreSQL continues the identifier, so stacked statements and catalog names
    in the text go unnoticed. *)
Theorem gate_dollar_evasion (payload : string)
  (Hp : find_sub "$b$" (payload +:+ "$b$") = Some (payload, EmptyString)) :
  Check (dollar_smuggle payload) ModeOn = None
  /\ Classify (dollar_smuggle payload) = Ok ClassRead.
Proof. unfold Check, Classify. by rewrite tokenize_dollar_smuggle. Qed.

(** A double-quoted identifier is held to the catalog rule like a bare one:
    [SELECT "name"] is refused with [errCatalog] exactly when the lower-cased
    name, doubled quotes undone, is information_schema or starts with pg_. *)
Theorem quoted_identifier_checked (name : string) :
  Check ("select " +:+ quoted dquote name) ModeOn
  = if isCatalogIdent (ToLower name) then Some errCatalog else None.
Proof.
  assert (tokenize ("select " +:+ quoted dquote name)
          = [Tok tWord "select"; Tok tIdent (ToLower name)]) as Ht.
  { assert ("select " +:+ quoted dquote name
            = render_all [LWord "select"; LSpace " "; LIdent name]) as ->.
    { cbn [render_all render]. by rewrite app_empty_r. }
    cbn [render_all]. by rewrite !tokenize_lexeme. }
  unfold Check. rewrite Ht. simpl.
  destruct (isCatalogIdent (ToLower name)); reflexivity.
Qed.
End properties.

(** ** Witnesses *)

#[local] Existing Instance ascii_tables.

Lemma tokenize_render_all_witness :
  well_separated [LWord "SELECT"; LSpace " "; LStr "it's ; pg_"; LPunct ","; LIdent "Pg_x";
                  LBlock (CChar ";" (CNest (CChar "x" CEnd) CEnd)); LPunct ";"] = true
  /\ tokenize (render_all [LWord "SELECT"; LSpace " "; LStr "it's ; pg_"; LPunct ","; LIdent "Pg_x";
                  LBlock (CChar ";" (CNest (CChar "x" CEnd) CEnd)); LPunct ";"])
     = [Tok tWord "select"; Tok tPunct ","; Tok tIdent "pg_x"; Tok tPunct ";"].
Proof. split; [reflexivity|]. rewrite tokenize_render_all by reflexivity. reflexivity. Defined.

Lemma gate_dollar_evasion_witness :
  Check (dollar_smuggle "; DROP TABLE t; SELECT * FROM pg_authid -- ") ModeOn = None.
Proof.
  apply (gate_dollar_evasion "; DROP TABLE t; SELECT * FROM pg_authid -- "). reflexivity.
Defined.

(** A Unicode-escaped quoted identifier, which PostgreSQL reads as [pg_authid],
    is an ordinary name for the gate. *)
Example unicode_escape_evasion :
  Check ("SELECT * FROM U&" +:+ quoted dquote "\0070g_authid") ModeOn = None.
Proof. reflexivity. Qed.
