(* ===== verification/Roles.v ===== *)
(** * Managed database roles (src/internal/roles)

    The diff engine that turns the users table and the role catalog into DDL
    ([Compute], [buildDDL]) and its catalog loader ([LoadAndCompute]). Go maps are
    [gset]/[gmap]; the order in which [range] visits one is an oracle
    ([MapOrder]), so that determinism is a theorem. The quoting functions of
    lib/pq are operations of [PqQuote]; the database is state threaded through two
    query oracles ([RolesDB]). *)

From S2P Require Import Prelude GoStrings.

(** pq.QuoteIdentifier and pq.QuoteLiteral. *)
Class PqQuote := {
  QuoteIdentifier : string -> string;
  QuoteLiteral : string -> string
}.

(** [db.SelectContext] into a [[]string] and into a [[]int64]; [W] is the
    database (other sessions may change it between two queries). *)
Class RolesDB (W : Type) := {
  select_strings : string -> list string -> W -> result string (list string) * W;
  select_ids : string -> list string -> W -> result string (list Z) * W
}.

Definition maxRoleNameBytes : nat := 63.

Inductive roles_error :=
| InvalidPrefix (prefix : string)
| RoleNameTooLong (name : string)
| InvalidAuthPrefix (prefix : string)
| LoadingExistingRoles (err : string)
| LoadingExpectedUsers (err : string)
| LoadingReaderMembers (err : string).

#[export] Instance roles_error_eq_dec : EqDecision roles_error.
Proof. solve_decision. Defined.

Definition validatePrefix (prefix : string) : result roles_error unit :=
  if negb (match_lower_ident prefix) then Err (InvalidPrefix prefix) else Ok tt.

Definition RoleName (prefix : string) (userID : Z) : result roles_error string :=
  _ ← validatePrefix prefix;
  let name := prefix +:+ FormatInt userID in
  if maxRoleNameBytes <? String.length name then Err (RoleNameTooLong name) else Ok name.

Record Inputs := {
  in_Prefix : string;
  in_ReaderRole : string;
  in_ExistingRoles : list string;
  in_ExpectedUserIDs : list Z;
  in_ReaderMembers : gmap string bool;
  in_Password : option (string -> string)
}.

Record Plan := {
  plan_Create : list string;
  plan_GrantReader : list string;
  plan_Drop : list string;
  plan_AlterPassword : list string;
  plan_DDL : list string
}.

Definition hasManagedPrefix (name prefix : string) : bool :=
  (String.length prefix <? String.length name)
  && String.eqb (str_take (String.length prefix) name) prefix.

(** The reading [m[name]] of a [map[string]bool]. *)
Definition get_bool (m : gmap string bool) (name : string) : bool :=
  default false (m !! name).

(** [sort.Strings]: bytewise order. *)
Definition sort_strings (l : list string) : list string := merge_sort String.le l.

(** The loop that fills [expectedNames]; the first error ends it. *)
Fixpoint expected_names (prefix : string) (ids : list Z) (acc : gset string) :
    result roles_error (gset string) :=
  match ids with
  | [] => Ok acc
  | id :: ids =>
      name ← RoleName prefix id;
      expected_names prefix ids ({[name]} ∪ acc)
  end.

(** The loop that fills [existingSet]. *)
Fixpoint existing_set (prefix : string) (names : list string) (acc : gset string) : gset string :=
  match names with
  | [] => acc
  | name :: names =>
      existing_set prefix names
        (if negb (hasManagedPrefix name prefix) then acc else {[name]} ∪ acc)
  end.

Section ddl.
Context `{PqQuote}.

Definition create_stmt (password : option (string -> string)) (role : string) : string :=
  let stmt := "CREATE ROLE " +:+ QuoteIdentifier role
                +:+ " LOGIN NOSUPERUSER NOCREATEROLE INHERIT" in
  match password with
  | Some p => stmt +:+ " PASSWORD " +:+ QuoteLiteral (p role) +:+ ";"
  | None => stmt +:+ ";"
  end.
Definition alter_stmt (p : string -> string) (role : string) : string :=
  "ALTER ROLE " +:+ QuoteIdentifier role +:+ " PASSWORD " +:+ QuoteLiteral (p role) +:+ ";".
Definition grant_stmt (reader role : string) : string :=
  "GRANT " +:+ QuoteIdentifier reader +:+ " TO " +:+ QuoteIdentifier role +:+ ";".
Definition drop_stmt (role : string) : string :=
  "DROP ROLE IF EXISTS " +:+ QuoteIdentifier role +:+ ";".

Definition buildDDL (inp : Inputs) (plan : Plan) : list string :=
  map (create_stmt (in_Password inp)) (plan_Create plan)
  ++ match in_Password inp with
     | Some p => map (alter_stmt p) (plan_AlterPassword plan)
     | None => []
     end
  ++ map (grant_stmt (in_ReaderRole inp)) (plan_GrantReader plan)
  ++ map drop_stmt (plan_Drop plan).

Context `{MapOrder}.

Definition Compute (inp : Inputs) : result roles_error Plan :=
  _ ← validatePrefix (in_Prefix inp);
  expectedNames ← expected_names (in_Prefix inp) (in_ExpectedUserIDs inp) ∅;
  let existingSet := existing_set (in_Prefix inp) (in_ExistingRoles inp) ∅ in
  let create :=
    filter (fun name => name ∉ existingSet) (iter 0 expectedNames) in
  let grant :=
    filter (fun name => ~ (name ∈ existingSet
                           /\ get_bool (in_ReaderMembers inp) name = true))
           (iter 1 expectedNames) in
  let drop :=
    filter (fun name => name ∉ expectedNames) (iter 2 existingSet) in
  let alter :=
    match in_Password inp with
    | Some _ => filter (fun name => name ∈ existingSet) (iter 3 expectedNames)
    | None => []
    end in
  let plan := {| plan_Create := sort_strings create;
                 plan_GrantReader := sort_strings grant;
                 plan_Drop := sort_strings drop;
                 plan_AlterPassword := sort_strings alter;
                 plan_DDL := [] |} in
  Ok {| plan_Create := plan_Create plan;
        plan_GrantReader := plan_GrantReader plan;
        plan_Drop := plan_Drop plan;
        plan_AlterPassword := plan_AlterPassword plan;
        plan_DDL := buildDDL inp plan |}.

Context {W : Type} `{RolesDB W}.

Definition existing_roles_sql : string :=
  "SELECT rolname FROM pg_roles WHERE rolname LIKE $1".
Definition reader_members_sql : string :=
  "SELECT m.rolname FROM pg_auth_members am JOIN pg_roles g ON g.oid = am.roleid JOIN pg_roles m ON m.oid = am.member WHERE g.rolname = $1".
Definition users_sql (usersTable : string) : string :=
  "SELECT id FROM " +:+ usersTable +:+ " WHERE enabled".

(** Where the code returns an error, no later query is run. White space of the
    SQL text is normalised. *)
Definition LoadAndCompute (authPrefix managedPrefix readerRole : string)
    (password : option (string -> string)) (w : W) : result roles_error Plan * W :=
  if negb (match_ident authPrefix) then (Err (InvalidAuthPrefix authPrefix), w)
  else match select_strings existing_roles_sql [managedPrefix +:+ "%"] w with
  | (Err e, w) => (Err (LoadingExistingRoles e), w)
  | (Ok existingRoles, w) =>
      match select_ids (users_sql (authPrefix +:+ "users")) [] w with
      | (Err e, w) => (Err (LoadingExpectedUsers e), w)
      | (Ok expectedUserIDs, w) =>
          match select_strings reader_members_sql [readerRole] w with
          | (Err e, w) => (Err (LoadingReaderMembers e), w)
          | (Ok memberRoles, w) =>
              let readerMembers :=
                foldr (fun name m => <[name := true]> m) ∅ memberRoles in
              (Compute {| in_Prefix := managedPrefix;
                          in_ReaderRole := readerRole;
                          in_ExistingRoles := existingRoles;
                          in_ExpectedUserIDs := expectedUserIDs;
                          in_ReaderMembers := readerMembers;
                          in_Password := password |}, w)
          end
      end
  end.
End ddl.

(** ** Facts the properties share *)

Lemma HasPrefix_managed name prefix :
  hasManagedPrefix name prefix = true <->
  exists rest, rest <> EmptyString /\ name = prefix +:+ rest.
Proof.
  unfold hasManagedPrefix. rewrite andb_true_iff, Nat.ltb_lt, String.eqb_eq. split.
  - intros [Hl Ht]. exists (str_drop (String.length prefix) name).
    assert (name = prefix +:+ str_drop (String.length prefix) name) as Hn.
    { rewrite <- Ht at 1. by rewrite str_take_drop. }
    split; [|done].
    intros E. rewrite <- (str_take_drop (String.length prefix) name) in Hl.
    rewrite E, app_empty_r, str_take_length in Hl. lia.
  - intros (rest & Hne & ->). rewrite str_length_app. split.
    + destruct rest; [done|]. simpl. lia.
    + apply str_take_app.
Qed.

Lemma get_bool_spec m name : get_bool m name = true <-> m !! name = Some true.
Proof. unfold get_bool. destruct (m !! name) as [[]|]; naive_solver. Qed.

Lemma RoleName_Ok prefix id name :
  RoleName prefix id = Ok name <->
  match_lower_ident prefix = true /\ name = prefix +:+ FormatInt id
  /\ String.length name <= maxRoleNameBytes.
Proof.
  unfold RoleName, validatePrefix. destruct (match_lower_ident prefix); simpl; [|naive_solver].
  case_match eqn:E; [apply Nat.ltb_lt in E|apply Nat.ltb_ge in E]; split;
    intros; simplify_eq; try (deex; subst; unfold maxRoleNameBytes in *; lia); auto.
  deex. by subst.
Qed.

Lemma RoleName_managed prefix id name :
  RoleName prefix id = Ok name -> hasManagedPrefix name prefix = true.
Proof.
  intros (_ & -> & _)%RoleName_Ok. apply HasPrefix_managed.
  exists (FormatInt id). split; [apply FormatInt_nonempty|done].
Qed.

(** The loop over the expected ids: its set, and its first failure. *)
Lemma expected_names_Ok prefix ids acc X :
  expected_names prefix ids acc = Ok X ->
  forall name, name ∈ X <-> name ∈ acc \/ exists id, id ∈ ids /\ RoleName prefix id = Ok name.
Proof.
  revert acc; induction ids as [|id ids IH]; intros acc; simpl.
  - intros [= ->] name. set_solver.
  - intros (n & Hn & HX)%result_bind_Ok name. rewrite (IH _ HX), elem_of_union, elem_of_singleton.
    setoid_rewrite elem_of_cons. split.
    + intros [[->|?]|(id' & ? & ?)]; eauto.
    + intros [?|(id' & [->|?] & Hr)]; eauto. rewrite Hn in Hr. injection Hr. auto.
Qed.

Lemma expected_names_total prefix ids acc :
  is_Ok (expected_names prefix ids acc) = true <->
  forall id, id ∈ ids -> is_Ok (RoleName prefix id) = true.
Proof.
  revert acc; induction ids as [|id ids IH]; intros acc; simpl.
  - split; [intros _ ? ?%elem_of_nil|]; done.
  - setoid_rewrite elem_of_cons. destruct (RoleName prefix id) as [n|e] eqn:E; simpl.
    + rewrite IH. split; [|by auto]. intros Hall id' [->|?]; [by rewrite E|auto].
    + split; [done|]. intros Hall. specialize (Hall id). rewrite E in Hall. auto.
Qed.

Lemma existing_set_spec prefix names acc name :
  name ∈ existing_set prefix names acc <->
  name ∈ acc \/ name ∈ names /\ hasManagedPrefix name prefix = true.
Proof.
  revert acc; induction names as [|n names IH]; intros acc; simpl; [set_solver|].
  rewrite IH, elem_of_cons. destruct (hasManagedPrefix n prefix) eqn:E; simpl; [set_solver|].
  split; [tauto|]. intros [?|[[->|?] ?]]; [tauto|congruence|tauto].
Qed.

Lemma sort_strings_perm l : sort_strings l ≡ₚ l.
Proof. apply merge_sort_Permutation. Qed.

Lemma sort_strings_sorted l : StronglySorted String.le (sort_strings l).
Proof. apply StronglySorted_merge_sort; apply _. Qed.

(** A sorted slice is determined by its elements. *)
Lemma sort_strings_unique l1 l2 : l1 ≡ₚ l2 -> sort_strings l1 = sort_strings l2.
Proof.
  intros Hl. apply (StronglySorted_unique String.le); try apply sort_strings_sorted.
  by rewrite !sort_strings_perm.
Qed.

#[export] Hint Resolve sort_strings_sorted : pathql.
