(* ===== verification/RolesSpec.v ===== *)
(** * What the role synchronisation promises

    A small semantics of the four statement forms, with the failures PostgreSQL
    documents for a superuser, on an abstract role catalog ([roledb]); the DDL text
    is the rendering of a statement list, and running it brings the managed roles
    to exactly the enabled users, touching no other role, or fails for a reason of
    the catalog ([sync_blocked]). *)

From S2P Require Import Prelude GoStrings Roles.

(** ** Role statements and their effect *)

(** Roles with their passwords, the pairs (group, member), and the roles that
    DROP ROLE refuses: those that own an object or hold a privilege in some
    database of the cluster, and the connected one. *)
Record roledb := RoleDB {
  db_roles : gmap string (option string);
  db_members : gset (string * string);
  db_pinned : gset string
}.

Inductive stmt :=
| SCreate (role : string) (password : option string)
| SAlter (role password : string)
| SGrant (group role : string)
| SDrop (role : string).

(** The names PostgreSQL keeps to itself. *)
Definition reserved (r : string) : bool :=
  HasPrefix r "pg_" || bool_decide (r ∈ ["public"; "none"]).

(** Whether [y] is a member of [x], directly or not, or [x] itself: a search that
    leaves a role at most once. *)
Fixpoint reaches (fuel : nat) (M : gset (string * string)) (x y : string) : bool :=
  String.eqb x y ||
  match fuel with
  | O => false
  | S fuel =>
      existsb (fun gm => String.eqb gm.1 x && reaches fuel (filter (fun gm' => gm'.1 <> x) M) gm.2 y)
              (elements M)
  end.
Definition circular (M : gset (string * string)) (g r : string) : bool := reaches (size M) M r g.

(** A statement as a superuser runs it; [None] is a failing one: CREATE of a role
    that exists or of a reserved name, ALTER and GRANT of a role that does not
    exist, GRANT that would make a role a member of itself, DROP of a role that
    something still depends on. DROP revokes the role's memberships. *)
Definition exec_stmt (s : stmt) (db : roledb) : option roledb :=
  match s with
  | SCreate r pw =>
      match db_roles db !! r with
      | Some _ => None
      | None =>
          if reserved r then None
          else Some (RoleDB (<[r := pw]> (db_roles db)) (db_members db) (db_pinned db))
      end
  | SAlter r pw =>
      match db_roles db !! r with
      | Some _ => Some (RoleDB (<[r := Some pw]> (db_roles db)) (db_members db) (db_pinned db))
      | None => None
      end
  | SGrant g r =>
      match db_roles db !! g, db_roles db !! r with
      | Some _, Some _ =>
          if circular (db_members db) g r then None
          else Some (RoleDB (db_roles db) ({[(g, r)]} ∪ db_members db) (db_pinned db))
      | _, _ => None
      end
  | SDrop r =>
      match db_roles db !! r with
      | Some _ =>
          if decide (r ∈ db_pinned db) then None
          else Some (RoleDB (delete r (db_roles db))
                            (filter (fun gm => gm.1 <> r /\ gm.2 <> r) (db_members db)) (db_pinned db))
      | None => Some db
      end
  end.

Fixpoint exec_all (ss : list stmt) (db : roledb) : option roledb :=
  match ss with
  | [] => Some db
  | s :: ss => match exec_stmt s db with Some db => exec_all ss db | None => None end
  end.

Definition plan_stmts (inp : Inputs) (plan : Plan) : list stmt :=
  map (fun r => SCreate r (option_map (fun p => p r) (in_Password inp))) (plan_Create plan)
  ++ match in_Password inp with
     | Some p => map (fun r => SAlter r (p r)) (plan_AlterPassword plan)
     | None => []
     end
  ++ map (SGrant (in_ReaderRole inp)) (plan_GrantReader plan)
  ++ map SDrop (plan_Drop plan).

Definition render_stmt `{PqQuote} (s : stmt) : string :=
  match s with
  | SCreate r None =>
      "CREATE ROLE " +:+ QuoteIdentifier r +:+ " LOGIN NOSUPERUSER NOCREATEROLE INHERIT;"
  | SCreate r (Some pw) =>
      "CREATE ROLE " +:+ QuoteIdentifier r
        +:+ " LOGIN NOSUPERUSER NOCREATEROLE INHERIT PASSWORD " +:+ QuoteLiteral pw +:+ ";"
  | SAlter r pw =>
      "ALTER ROLE " +:+ QuoteIdentifier r +:+ " PASSWORD " +:+ QuoteLiteral pw +:+ ";"
  | SGrant g r => "GRANT " +:+ QuoteIdentifier g +:+ " TO " +:+ QuoteIdentifier r +:+ ";"
  | SDrop r => "DROP ROLE IF EXISTS " +:+ QuoteIdentifier r +:+ ";"
  end.

(** ** Membership *)

Definition membership (M : gset (string * string)) : relation string := fun x y => (x, y) ∈ M.

Lemma membership_mono M N x y : M ⊆ N -> rtc (membership M) x y -> rtc (membership N) x y.
Proof. intros HMN. induction 1 as [|x z y Hxz _ IH]; [done|]. eapply rtc_l; [by apply HMN|done]. Qed.

(** A path leaves its start once: the rest avoids it. *)
Lemma membership_leave M x y z :
  rtc (membership M) z y ->
  rtc (membership (filter (fun gm => gm.1 <> x) M)) z y
  \/ exists x', (x, x') ∈ M /\ rtc (membership (filter (fun gm => gm.1 <> x) M)) x' y.
Proof.
  induction 1 as [|z z' y Hz _ [IH|IH]]; [by left| |by right].
  destruct (decide (z = x)) as [->|Hne]; [right; by exists z'|left].
  eapply rtc_l; [|done]. by apply elem_of_filter.
Qed.

Lemma reaches_spec fuel M x y :
  size M <= fuel -> reaches fuel M x y = true <-> rtc (membership M) x y.
Proof.
  revert M x. induction fuel as [|fuel IH]; intros M x Hsize; cbn [reaches];
    rewrite orb_true_iff, String.eqb_eq.
  - apply Nat.le_0_r, size_empty_inv in Hsize. split; [by intros [->|?]|].
    intros Hp. left. inversion Hp as [|? z ? Hz]; [done|]. exfalso. unfold membership in Hz. set_solver.
  - set (M' := filter (fun gm => gm.1 <> x) M).
    assert (forall z, (x, z) ∈ M -> size M' <= fuel) as Hless.
    { intros z Hz. enough (size M' < size M) by lia. apply subset_size. set_solver. }
    rewrite existsb_exists. split.
    + intros [->|([x1 z] & Hz & [Hx Hr]%andb_true_iff)]; [done|]. cbn [fst snd] in *.
      apply list_elem_of_In, elem_of_elements in Hz. apply String.eqb_eq in Hx as ->.
      apply IH in Hr; [|by eapply Hless]. eapply rtc_l; [exact Hz|].
      eapply membership_mono; [|exact Hr]. set_solver.
    + intros Hp. destruct (decide (x = y)) as [?|Hne]; [by left|right].
      apply (membership_leave M x) in Hp as [Hp|(z & Hz & Hp)]; fold M' in Hp.
      * inversion Hp as [|? z ? Hz]; [done|]. apply elem_of_filter in Hz. by destruct Hz.
      * exists (x, z). rewrite <- list_elem_of_In, elem_of_elements. split; [done|].
        cbn [fst snd]. rewrite String.eqb_refl. apply IH; [by eapply Hless|done].
Qed.

Lemma circular_spec M g r : circular M g r = true <-> rtc (membership M) r g.
Proof. by apply reaches_spec. Qed.

(** More members of [g] are no way to [g]. *)
Lemma membership_insert M g r x :
  rtc (membership ({[(g, r)]} ∪ M)) x g <-> rtc (membership M) x g.
Proof.
  split; [|apply membership_mono; set_solver].
  remember g as g' eqn:E in |- * at 2 3. induction 1 as [|x z g' Hz _ IH]; [done|]. subst.
  apply elem_of_union in Hz as [[= -> ->]%elem_of_singleton|Hz]; [done|].
  eapply rtc_l; [exact Hz|auto].
Qed.

(** ** Running a block of statements of one form *)

Lemma exec_all_app ss1 ss2 db :
  exec_all (ss1 ++ ss2) db = exec_all ss1 db ≫= exec_all ss2.
Proof.
  revert db; induction ss1 as [|s ss1 IH]; intros db; [done|].
  simpl. by destruct (exec_stmt s db).
Qed.

Definition set_all {A} (f : string -> A) (l : list string) (m : gmap string A) : gmap string A :=
  foldl (fun m r => <[r := f r]> m) m l.

Lemma lookup_set_all {A} (f : string -> A) l m r :
  set_all f l m !! r = if decide (r ∈ l) then Some (f r) else m !! r.
Proof.
  revert m; induction l as [|r' l IH]; intros m; [done|]. simpl. rewrite IH.
  destruct (decide (r ∈ l)) as [Hl|Hl].
  - by rewrite decide_True by (by right).
  - destruct (decide (r = r')) as [->|Hne].
    + rewrite decide_True by left. by rewrite lookup_insert_eq.
    + rewrite decide_False by (rewrite elem_of_cons; tauto). by rewrite lookup_insert_ne.
Qed.

(** A block goes through with its effect, or one of its roles stands in the way. *)
Definition block (l : list string) (bad : string -> Prop) (good : roledb -> Prop) (res : option roledb) : Prop :=
  match res with
  | Some db' => good db' /\ forall r, r ∈ l -> ~ bad r
  | None => exists r, r ∈ l /\ bad r
  end.

Lemma block_cons r l (bad : string -> Prop) (good : roledb -> Prop) res :
  ~ bad r -> block l bad good res -> block (r :: l) bad good res.
Proof.
  intros Hr. destruct res as [db'|]; cbn.
  - intros [? Hl]. split; [done|]. intros r' [->|?]%elem_of_cons; auto.
  - intros (r' & ? & ?). exists r'. split; [by right|done].
Qed.
Lemma block_bad r l (bad : string -> Prop) (good : roledb -> Prop) : bad r -> block (r :: l) bad good None.
Proof. intros Hr. exists r. split; [by left|done]. Qed.
Lemma block_mono l (bad bad' : string -> Prop) (P Q : roledb -> Prop) res :
  (forall r, bad r <-> bad' r) -> (forall db', P db' -> Q db') -> block l bad P res -> block l bad' Q res.
Proof.
  intros Hbad HPQ. destruct res; cbn.
  - intros [? Hl]. split; [auto|]. intros r1 Hr ?%Hbad. by apply (Hl r1).
  - intros (r1 & ? & ?). exists r1. split; [done|]. by apply Hbad.
Qed.
Lemma block_good l bad (P Q : roledb -> Prop) res :
  (forall db', P db' -> Q db') -> block l bad P res -> block l bad Q res.
Proof. by apply block_mono. Qed.
Lemma block_nil bad (P : roledb -> Prop) db : P db -> block [] bad P (Some db).
Proof. intros Hp. split; [done|]. by intros r ?%elem_of_nil. Qed.

Lemma exec_creates f l db :
  NoDup l -> (forall r, r ∈ l -> db_roles db !! r = None) ->
  block l (fun r => reserved r = true)
    (fun db' => db' = RoleDB (set_all f l (db_roles db)) (db_members db) (db_pinned db))
    (exec_all (map (fun r => SCreate r (f r)) l) db).
Proof.
  revert db; induction l as [|r l IH]; intros db Hnd Hno.
  { apply block_nil. by destruct db. }
  apply NoDup_cons in Hnd as [Hr Hnd]. simpl. rewrite Hno by left.
  destruct (reserved r) eqn:Hres; [by apply block_bad|]. apply block_cons; [congruence|].
  eapply block_good; [|apply IH; [done|]]; [by intros db' ->|].
  intros r' Hr'. simpl. rewrite lookup_insert_ne by (by intros ->). apply Hno. by right.
Qed.

Lemma exec_alters p l db :
  (forall r, r ∈ l -> is_Some (db_roles db !! r)) ->
  exec_all (map (fun r => SAlter r (p r)) l) db
  = Some (RoleDB (set_all (fun r => Some (p r)) l (db_roles db)) (db_members db) (db_pinned db)).
Proof.
  revert db; induction l as [|r l IH]; intros db Hin; [by destruct db|].
  simpl. destruct (Hin r) as [x ->]; [by left|]. rewrite IH; [done|].
  intros r' Hr'. simpl. rewrite lookup_insert_is_Some.
  destruct (decide (r = r')); [by left|right]. split; [done|]. apply Hin. by right.
Qed.

Lemma exec_grants g l db :
  is_Some (db_roles db !! g) -> (forall r, r ∈ l -> is_Some (db_roles db !! r)) ->
  block l (fun r => rtc (membership (db_members db)) r g)
    (fun db' => db_roles db' = db_roles db /\ db_pinned db' = db_pinned db
       /\ forall x, x ∈ db_members db' <-> x ∈ db_members db \/ x.1 = g /\ x.2 ∈ l)
    (exec_all (map (SGrant g) l) db).
Proof.
  revert db; induction l as [|r l IH]; intros db Hg Hin.
  { apply block_nil. split_and!; [done..|]. set_solver. }
  simpl. destruct Hg as [y Hg], (Hin r) as [z ->]; [by left|]. rewrite Hg.
  pose proof (circular_spec (db_members db) g r) as Hc.
  destruct (circular _ g r); [by apply block_bad, Hc|]. apply block_cons; [by intros ?%Hc|].
  eapply block_mono; [| |apply (IH (RoleDB (db_roles db) ({[(g, r)]} ∪ db_members db) (db_pinned db)))]; simpl.
  - intros r'. apply membership_insert.
  - intros db' (Hr & Hp & Hm). split_and!; [done..|]. intros x. rewrite Hm.
    rewrite elem_of_union, elem_of_singleton, elem_of_cons. destruct x as [x1 x2]. simpl. naive_solver.
  - by rewrite Hg.
  - intros r' Hr'. apply Hin. by right.
Qed.

Lemma exec_drops l db :
  NoDup l -> (forall r, r ∈ l -> is_Some (db_roles db !! r)) ->
  block l (fun r => r ∈ db_pinned db)
    (fun db' => (forall r, db_roles db' !! r = if decide (r ∈ l) then None else db_roles db !! r)
       /\ forall x, x ∈ db_members db' <-> x ∈ db_members db /\ ~ (x.1 ∈ l) /\ ~ (x.2 ∈ l))
    (exec_all (map SDrop l) db).
Proof.
  revert db; induction l as [|r l IH]; intros db Hnd Hin.
  { apply block_nil. split; [done|]. set_solver. }
  apply NoDup_cons in Hnd as [Hr Hnd]. simpl. destruct (Hin r) as [z Hz]; [by left|]. rewrite Hz.
  destruct (decide (r ∈ db_pinned db)); [by apply block_bad|]. apply block_cons; [done|].
  specialize (IH (RoleDB (delete r (db_roles db))
    (filter (fun gm => gm.1 <> r /\ gm.2 <> r) (db_members db)) (db_pinned db)) Hnd).
  eapply block_good; [|apply IH]; simpl.
  - intros db' [Hroles Hm]. split.
    + intros r'. rewrite Hroles. destruct (decide (r' = r)) as [->|Hne].
      * rewrite lookup_delete_eq, (decide_True (P := r ∈ r :: l)) by left. by case_decide.
      * rewrite lookup_delete_ne by done. repeat case_decide; set_solver.
    + intros x. rewrite Hm, elem_of_filter, !not_elem_of_cons. tauto.
  - intros r' Hr'. rewrite lookup_delete_ne by (by intros ->). apply Hin. by right.
Qed.

(** ** The plan, set by set *)

Definition expected (inp : Inputs) (r : string) : Prop :=
  exists id, id ∈ in_ExpectedUserIDs inp /\ RoleName (in_Prefix inp) id = Ok r.
Definition existing (inp : Inputs) (r : string) : Prop :=
  r ∈ in_ExistingRoles inp /\ hasManagedPrefix r (in_Prefix inp) = true.
Definition member (inp : Inputs) (r : string) : Prop :=
  get_bool (in_ReaderMembers inp) r = true.

(** What each list of a plan holds, and in which order. *)
Record plan_ok `{PqQuote} (inp : Inputs) (plan : Plan) : Prop := {
  ok_create r : r ∈ plan_Create plan <-> expected inp r /\ ~ existing inp r;
  ok_grant r : r ∈ plan_GrantReader plan <->
    expected inp r /\ ~ (existing inp r /\ member inp r);
  ok_drop r : r ∈ plan_Drop plan <-> existing inp r /\ ~ expected inp r;
  ok_alter r : r ∈ plan_AlterPassword plan <->
    in_Password inp <> None /\ expected inp r /\ existing inp r;
  ok_NoDup : NoDup (plan_Create plan) /\ NoDup (plan_GrantReader plan)
    /\ NoDup (plan_Drop plan) /\ NoDup (plan_AlterPassword plan);
  ok_sorted : StronglySorted String.le (plan_Create plan)
    /\ StronglySorted String.le (plan_GrantReader plan)
    /\ StronglySorted String.le (plan_Drop plan)
    /\ StronglySorted String.le (plan_AlterPassword plan);
  ok_DDL : plan_DDL plan = map render_stmt (plan_stmts inp plan)
}.

Section plans.
Context `{PqQuote}.

(** The DDL text is the rendering of the statement list. *)
Lemma buildDDL_renders inp plan :
  buildDDL inp plan = map render_stmt (plan_stmts inp plan).
Proof.
  unfold buildDDL, plan_stmts. rewrite !map_app, !map_map.
  rewrite (map_ext (create_stmt (in_Password inp)) (fun r => render_stmt
    (SCreate r (option_map (fun p => p r) (in_Password inp))))).
  - destruct (in_Password inp); rewrite ?map_map; done.
  - intros r. unfold create_stmt. destruct (in_Password inp); simpl;
      by rewrite !str_app_assoc.
Qed.

Lemma elem_of_sort_strings (P : string -> Prop) `{!forall x, Decision (P x)} l r :
  r ∈ sort_strings (filter P l) <-> P r /\ r ∈ l.
Proof. by rewrite sort_strings_perm, list_elem_of_filter. Qed.

Lemma NoDup_sort_strings (P : string -> Prop) `{!forall x, Decision (P x)} l :
  NoDup l -> NoDup (sort_strings (filter P l)).
Proof. rewrite sort_strings_perm. apply NoDup_filter. Qed.

Lemma NoDup_sort_nil : NoDup (sort_strings []).
Proof. constructor. Qed.

Hint Resolve NoDup_sort_strings NoDup_sort_nil : pathql.

Lemma Compute_plan_ok `{MapOrder} inp plan : Compute inp = Ok plan -> plan_ok inp plan.
Proof.
  unfold Compute. intros (_ & _ & (X & HX & Hplan)%result_bind_Ok)%result_bind_Ok.
  injection Hplan as <-.
  assert (forall r, r ∈ X <-> expected inp r) as Hexp.
  { intros r. rewrite (expected_names_Ok _ _ _ _ HX). unfold expected. set_solver. }
  assert (forall r, r ∈ existing_set (in_Prefix inp) (in_ExistingRoles inp) ∅
            <-> existing inp r) as Hex.
  { intros r. rewrite existing_set_spec. unfold existing. set_solver. }
  split; simpl.
  1-3: intros r; rewrite elem_of_sort_strings, elem_of_iter, ?Hexp, ?Hex; unfold member; tauto.
  - intros r. destruct (in_Password inp) as [p|].
    + rewrite elem_of_sort_strings, elem_of_iter, Hexp, Hex. naive_solver.
    + split; [intros Hr; by rewrite sort_strings_perm in Hr; apply elem_of_nil in Hr|naive_solver].
  - destruct (in_Password inp); auto 10 with pathql.
  - auto 10 with pathql.
  - by rewrite buildDDL_renders.
Qed.

Lemma Compute_is_Ok `{MapOrder} inp :
  is_Ok (Compute inp) = true <->
  match_lower_ident (in_Prefix inp) = true
  /\ forall id, id ∈ in_ExpectedUserIDs inp -> is_Ok (RoleName (in_Prefix inp) id) = true.
Proof.
  rewrite <- (expected_names_total _ _ ∅). unfold Compute, validatePrefix.
  destruct (match_lower_ident (in_Prefix inp)); simpl; [|naive_solver].
  destruct (expected_names _ _ _); naive_solver.
Qed.

(** A plan is determined by what [plan_ok] says of it. *)
Lemma plan_ok_unique inp plan1 plan2 :
  plan_ok inp plan1 -> plan_ok inp plan2 -> plan1 = plan2.
Proof.
  intros O1 O2.
  assert (forall l1 l2 : list string, NoDup l1 -> NoDup l2 ->
    StronglySorted String.le l1 -> StronglySorted String.le l2 ->
    (forall r, r ∈ l1 <-> r ∈ l2) -> l1 = l2) as Hu.
  { intros l1 l2 ? ? ? ? Hl. apply (StronglySorted_unique String.le); [done..|].
    by apply NoDup_Permutation. }
  destruct (ok_NoDup _ _ O1) as (?&?&?&?), (ok_NoDup _ _ O2) as (?&?&?&?).
  destruct (ok_sorted _ _ O1) as (?&?&?&?), (ok_sorted _ _ O2) as (?&?&?&?).
  pose proof (ok_DDL _ _ O1) as D1. pose proof (ok_DDL _ _ O2) as D2.
  destruct plan1 as [c1 g1 d1 a1 s1], plan2 as [c2 g2 d2 a2 s2]. simpl in *.
  assert (c1 = c2) as -> by (apply Hu; auto; intros r; by rewrite (ok_create _ _ O1 r), (ok_create _ _ O2 r)).
  assert (g1 = g2) as -> by (apply Hu; auto; intros r; by rewrite (ok_grant _ _ O1 r), (ok_grant _ _ O2 r)).
  assert (d1 = d2) as -> by (apply Hu; auto; intros r; by rewrite (ok_drop _ _ O1 r), (ok_drop _ _ O2 r)).
  assert (a1 = a2) as -> by (apply Hu; auto; intros r; by rewrite (ok_alter _ _ O1 r), (ok_alter _ _ O2 r)).
  by rewrite D1, D2.
Qed.
End plans.

(** ** Running the plan *)

(** The inputs describe the catalog [db]: the managed roles and the members of
    the reader role are those of [db]; the reader role exists and is not itself
    a managed role. *)
Record snapshot (inp : Inputs) (db : roledb) : Prop := {
  snap_roles r : hasManagedPrefix r (in_Prefix inp) = true ->
    r ∈ in_ExistingRoles inp <-> is_Some (db_roles db !! r);
  snap_members r : member inp r <-> (in_ReaderRole inp, r) ∈ db_members db;
  snap_reader : is_Some (db_roles db !! in_ReaderRole inp);
  snap_unmanaged : hasManagedPrefix (in_ReaderRole inp) (in_Prefix inp) = false
}.

(** What stands in the way of a sync: a name PostgreSQL keeps to itself, a reader
    role that is itself a member of the role it is granted to, a role without a
    user that something still depends on. *)
Inductive sync_blocked (inp : Inputs) (db : roledb) : Prop :=
| blocked_name r : expected inp r -> db_roles db !! r = None -> reserved r = true ->
    sync_blocked inp db
| blocked_grant r : expected inp r -> ~ (existing inp r /\ member inp r) ->
    rtc (membership (db_members db)) r (in_ReaderRole inp) -> sync_blocked inp db
| blocked_drop r : hasManagedPrefix r (in_Prefix inp) = true -> ~ expected inp r ->
    is_Some (db_roles db !! r) -> r ∈ db_pinned db -> sync_blocked inp db.

(** The catalog after a sync. *)
Record synced (inp : Inputs) (db db' : roledb) : Prop := {
  sync_expected r : expected inp r ->
    db_roles db' !! r = Some match in_Password inp with
                             | Some p => Some (p r)
                             | None => default None (db_roles db !! r)
                             end
    /\ (in_ReaderRole inp, r) ∈ db_members db';
  sync_dropped r : hasManagedPrefix r (in_Prefix inp) = true -> ~ expected inp r ->
    db_roles db' !! r = None;
  sync_others r : hasManagedPrefix r (in_Prefix inp) = false ->
    db_roles db' !! r = db_roles db !! r;
  sync_members g r : hasManagedPrefix g (in_Prefix inp) = false -> 
    hasManagedPrefix r (in_Prefix inp) = false ->
    (g, r) ∈ db_members db' <-> (g, r) ∈ db_members db
}.

Lemma expected_managed inp r : expected inp r -> hasManagedPrefix r (in_Prefix inp) = true.
Proof. intros (id & _ & Hr). by eapply RoleName_managed. Qed.

#[export] Hint Resolve expected_managed : pathql.

#[export] Instance expected_dec inp r : Decision (expected inp r).
Proof.
  refine (cast_if (decide (Exists (fun id => RoleName (in_Prefix inp) id = Ok r)
                                  (in_ExpectedUserIDs inp))));
    unfold expected; by rewrite Exists_exists in *.
Defined.

Section sync.
Context `{PqQuote}.
Variables (inp : Inputs) (plan : Plan) (db : roledb).
Hypothesis (Hok : plan_ok inp plan) (Hsnap : snapshot inp db).

Lemma existing_lookup r :
  hasManagedPrefix r (in_Prefix inp) = true -> existing inp r <-> is_Some (db_roles db !! r).
Proof. intros Hr. rewrite <- (snap_roles _ _ Hsnap r Hr). unfold existing. tauto. Qed.

Lemma set_all_is_Some {A} f l (m : gmap string A) r :
  is_Some (m !! r) -> is_Some (set_all f l m !! r).
Proof. rewrite lookup_set_all. by case_decide. Qed.

Hint Resolve set_all_is_Some : pathql.

(** The passwords the CREATE and ALTER statements leave. *)
Definition passwords_after : gmap string (option string) :=
  let m := set_all (fun r => option_map (fun p => p r) (in_Password inp))
                   (plan_Create plan) (db_roles db) in
  match in_Password inp with
  | Some p => set_all (fun r => Some (p r)) (plan_AlterPassword plan) m
  | None => m
  end.

Lemma passwords_after_expected r :
  expected inp r ->
  passwords_after !! r = Some match in_Password inp with
                              | Some p => Some (p r)
                              | None => default None (db_roles db !! r)
                              end.
Proof.
  intros Hr. assert (hasManagedPrefix r (in_Prefix inp) = true) as Hm by auto with pathql.
  unfold passwords_after. destruct (existing_lookup r Hm) as [Hex Hex'].
  destruct (db_roles db !! r) as [pw|] eqn:E.
  - assert (existing inp r) by auto. destruct (in_Password inp) as [p|] eqn:Hp.
    + rewrite lookup_set_all, decide_True; [done|]. apply (ok_alter _ _ Hok). by rewrite Hp.
    + rewrite lookup_set_all, decide_False; [by rewrite E|]. rewrite (ok_create _ _ Hok). tauto.
  - assert (~ existing inp r) by (intros []%Hex; done).
    assert (r ∈ plan_Create plan) by (apply (ok_create _ _ Hok); auto).
    destruct (in_Password inp) as [p|]; rewrite !lookup_set_all; [case_decide; [done|]|];
      by rewrite decide_True.
Qed.

Lemma passwords_after_others r : ~ expected inp r -> passwords_after !! r = db_roles db !! r.
Proof.
  intros Hr. unfold passwords_after.
  assert (r ∉ plan_Create plan) by (rewrite (ok_create _ _ Hok); tauto).
  assert (r ∉ plan_AlterPassword plan) by (rewrite (ok_alter _ _ Hok); tauto).
  destruct (in_Password inp); rewrite !lookup_set_all; by rewrite !decide_False.
Qed.

Lemma reader_not_expected : ~ expected inp (in_ReaderRole inp).
Proof. intros E%expected_managed. by rewrite (snap_unmanaged _ _ Hsnap) in E. Qed.

(** What the four blocks leave is a catalog in sync. *)
Lemma synced_by db' :
  (forall r, db_roles db' !! r = if decide (r ∈ plan_Drop plan) then None else passwords_after !! r) ->
  (forall x, x ∈ db_members db' <->
     (x ∈ db_members db \/ x.1 = in_ReaderRole inp /\ x.2 ∈ plan_GrantReader plan)
     /\ ~ (x.1 ∈ plan_Drop plan) /\ ~ (x.2 ∈ plan_Drop plan)) ->
  synced inp db db'.
Proof.
  intros Hr Hm.
  assert (forall r, r ∈ plan_Drop plan -> hasManagedPrefix r (in_Prefix inp) = true) as Hdm.
  { intros r [[_ ?] _]%(ok_drop _ _ Hok). done. }
  assert (forall r, expected inp r -> r ∉ plan_Drop plan) as Hdx.
  { intros r ? [_ ?]%(ok_drop _ _ Hok). done. }
  pose proof (snap_unmanaged _ _ Hsnap) as Hreader.
  split.
  - intros r He. rewrite Hr, decide_False, passwords_after_expected by auto. split; [done|].
    apply Hm. simpl. split_and!; [|intros ?%Hdm; congruence|by apply Hdx].
    destruct (decide (r ∈ plan_GrantReader plan)) as [Hg|Hg]; [auto|left].
    apply (snap_members _ _ Hsnap). rewrite (ok_grant _ _ Hok) in Hg. unfold member in *.
    destruct (get_bool (in_ReaderMembers inp) r); [done|]. exfalso. apply Hg. split; [done|]. by intros [_ ?].
  - intros r Hp Hn. rewrite Hr. case_decide as Hd; [done|].
    rewrite passwords_after_others by done. apply eq_None_not_Some. intros Hx.
    apply Hd, (ok_drop _ _ Hok). split; [|done]. by apply existing_lookup.
  - intros r Hp. rewrite Hr, decide_False by (intros ?%Hdm; congruence).
    apply passwords_after_others. intros ?%expected_managed. congruence.
  - intros g r Hg Hrr. rewrite Hm. simpl. split.
    + intros ([?|[_ [Hx _]%(ok_grant _ _ Hok)]] & _); [done|].
      apply expected_managed in Hx. congruence.
    + intros ?. split_and!; [auto|intros ?%Hdm; congruence..].
Qed.

(** The roles of the statements are in the state they need. *)
Lemma create_absent r : r ∈ plan_Create plan -> db_roles db !! r = None.
Proof.
  intros [He Hx]%(ok_create _ _ Hok). apply eq_None_not_Some. intros Hr.
  apply Hx, existing_lookup; auto with pathql.
Qed.
Lemma drop_present r :
  r ∈ plan_Drop plan <-> hasManagedPrefix r (in_Prefix inp) = true /\ ~ expected inp r
    /\ is_Some (db_roles db !! r).
Proof.
  rewrite (ok_drop _ _ Hok). split.
  - intros [[Hin Hm] Hn]. split_and!; [done..|]. by apply (snap_roles _ _ Hsnap).
  - intros (Hm & Hn & Hr). split; [|done]. by apply existing_lookup.
Qed.

(** The CREATE and ALTER statements. *)
Lemma exec_passwords ss :
  exec_all (map (fun r => SCreate r (option_map (fun p => p r) (in_Password inp)))
                (plan_Create plan)
            ++ match in_Password inp with
               | Some p => map (fun r => SAlter r (p r)) (plan_AlterPassword plan)
               | None => []
               end ++ ss) db
  = if decide (Exists (fun r => reserved r = true) (plan_Create plan)) then None
    else exec_all ss (RoleDB passwords_after (db_members db) (db_pinned db)).
Proof.
  rewrite exec_all_app.
  pose proof (exec_creates (fun r => option_map (fun p => p r) (in_Password inp)) (plan_Create plan) db
    (proj1 (ok_NoDup _ _ Hok)) create_absent) as Hc.
  destruct (exec_all _ db) as [db1|]; cbn -[exec_all].
  - destruct Hc as [-> Hfree]. rewrite decide_False by (rewrite Exists_exists; intros (r & ? & ?); by eapply Hfree).
    unfold passwords_after. destruct (in_Password inp) as [p|]; [|done].
    rewrite exec_all_app, exec_alters; [done|]. simpl.
    intros r (_ & He & Hx)%(ok_alter _ _ Hok). apply set_all_is_Some.
    apply existing_lookup; auto with pathql.
  - destruct Hc as (r & Hr & Hres). rewrite decide_True; [done|]. apply Exists_exists. eauto.
Qed.

Lemma exec_plan :
  match exec_all (plan_stmts inp plan) db with
  | Some db' => synced inp db db' /\ ~ sync_blocked inp db
  | None => sync_blocked inp db
  end.
Proof.
  unfold plan_stmts. rewrite exec_passwords, exec_all_app. case_decide as Hres.
  { apply Exists_exists in Hres as (r & Hr & Hres). eapply blocked_name; [|by apply create_absent|exact Hres].
    by apply (ok_create _ _ Hok). }
  pose proof (exec_grants (in_ReaderRole inp) (plan_GrantReader plan)
    (RoleDB passwords_after (db_members db) (db_pinned db))) as Hg. simpl in Hg.
  rewrite passwords_after_others in Hg by apply reader_not_expected.
  assert (forall r, r ∈ plan_GrantReader plan -> is_Some (passwords_after !! r)) as Hin.
  { intros r [Hr _]%(ok_grant _ _ Hok). by rewrite passwords_after_expected. }
  specialize (Hg (snap_reader _ _ Hsnap) Hin).
  destruct (exec_all (map (SGrant _) _) _) as [db1|]; cbn -[exec_all].
  2:{ destruct Hg as (r & [? ?]%(ok_grant _ _ Hok) & Hc). by eapply blocked_grant. }
  destruct Hg as [(Hroles & Hpin & HM) Hfree].
  pose proof (exec_drops (plan_Drop plan) db1) as Hd. rewrite Hpin, Hroles in Hd.
  assert (forall r, r ∈ plan_Drop plan -> is_Some (passwords_after !! r)) as Hin'.
  { intros r (_ & Hn & Hr)%drop_present. by rewrite passwords_after_others. }
  specialize (Hd (proj1 (proj2 (proj2 (ok_NoDup _ _ Hok)))) Hin').
  destruct (exec_all (map SDrop _) _) as [db'|].
  2:{ destruct Hd as (r & (? & ? & ?)%drop_present & Hp). by eapply blocked_drop. }
  destruct Hd as [[Hr Hm] Hundep]. split.
  - apply synced_by; [done|]. intros x. rewrite Hm, HM. done.
  - intros [r He Hno Hx|r He Hn Hx|r Hp Hn Hr' Hx].
    + apply Hres, Exists_exists. exists r. split; [|done]. apply (ok_create _ _ Hok). split; [done|].
      intros [? _]. assert (is_Some (db_roles db !! r)) as []; [|congruence].
      apply (snap_roles _ _ Hsnap); auto with pathql.
    + apply (Hfree r); [by apply (ok_grant _ _ Hok)|done].
    + apply (Hundep r); [by apply drop_present|done].
Qed.
End sync.

(** ** Properties *)

Section properties.
Context `{PqQuote}.

(** C16: the DDL of a plan, computed from inputs that describe the catalog, either
    runs through and leaves exactly one login role per enabled user, member of the
    reader role and with its derived password, no managed role without a user, and
    the roles outside the prefix and the memberships between them untouched; or it
    fails, and exactly when a name to create is one PostgreSQL keeps to itself, the
    reader role is already a member of a role it is granted to, or a role to drop
    still owns or may access some object. No other statement of it fails, run as a
    superuser. *)
Theorem sync_converges `{MapOrder} (inp : Inputs) (plan : Plan) (db : roledb)
  (Hplan : Compute inp = Ok plan) (Hsnap : snapshot inp db) :
  plan_DDL plan = map render_stmt (plan_stmts inp plan)
  /\ match exec_all (plan_stmts inp plan) db with
     | Some db' => synced inp db db' /\ ~ sync_blocked inp db
     | None => sync_blocked inp db
     end.
Proof.
  apply Compute_plan_ok in Hplan. split; [apply Hplan|]. by apply exec_plan.
Qed.

(** C34: a sync is idempotent: recomputed on the catalog it leaves, for the same
    users, the plan creates, grants and drops nothing. *)
Theorem sync_idempotent `{MapOrder} (inp inp' : Inputs) (plan plan' : Plan) (db db' : roledb)
  (Hplan : Compute inp = Ok plan) (Hsnap : snapshot inp db)
  (Hexec : exec_all (plan_stmts inp plan) db = Some db')
  (Hplan' : Compute inp' = Ok plan') (Hsnap' : snapshot inp' db')
  (Hsame : in_Prefix inp' = in_Prefix inp /\ in_ReaderRole inp' = in_ReaderRole inp
           /\ in_ExpectedUserIDs inp' = in_ExpectedUserIDs inp) :
  plan_Create plan' = [] /\ plan_GrantReader plan' = [] /\ plan_Drop plan' = [].
Proof.
  apply Compute_plan_ok in Hplan, Hplan'.
  pose proof (exec_plan _ _ _ Hplan Hsnap) as Hs. rewrite Hexec in Hs. destruct Hs as [Hs _].
  destruct Hsame as (Hp & Hr & Hi).
  assert (forall r, expected inp' r <-> expected inp r) as He.
  { intros r. unfold expected. by rewrite Hp, Hi. }
  assert (forall r, expected inp' r -> existing inp' r) as Hex.
  { intros r Hx. apply (existing_lookup _ _ Hsnap'); [auto with pathql|].
    destruct (sync_expected _ _ _ Hs r) as [-> _]; [by apply He|done]. }
  split_and!; apply elem_of_nil_inv; intros r.
  - intros [? ?]%(ok_create _ _ Hplan'). auto.
  - intros [Hx Hn]%(ok_grant _ _ Hplan'). apply Hn. split; [auto|].
    apply (snap_members _ _ Hsnap'). rewrite Hr. by apply (sync_expected _ _ _ Hs), He.
  - intros [[Hin Hm] Hn]%(ok_drop _ _ Hplan').
    apply (snap_roles _ _ Hsnap' r Hm) in Hin as [pw Hpw].
    rewrite Hp in Hm. rewrite He in Hn. by rewrite (sync_dropped _ _ _ Hs r) in Hpw.
Qed.

(** [Compute] is deterministic: whatever the iteration orders of the maps,
    it gives the same plan, DDL included, or the same error. *)
Theorem Compute_deterministic (O1 O2 : MapOrder) (inp : Inputs) :
  @Compute _ O1 inp = @Compute _ O2 inp.
Proof.
  pose proof (@Compute_plan_ok _ O1 inp) as H1. pose proof (@Compute_plan_ok _ O2 inp) as H2.
  unfold Compute in *.
  destruct (validatePrefix _) as [[]|e]; [|done]. simpl in *.
  destruct (expected_names _ _ _) as [X|e]; [|done]. simpl in *.
  f_equal. eapply plan_ok_unique; eauto.
Qed.

(** The prefix guard: every role a plan names carries the managed prefix,
    and the reader role, outside the prefix, is never created, altered or
    dropped. A plan exists exactly when the prefix is a lower-case identifier
    and every name fits in 63 bytes. *)
Theorem Compute_prefix_guard `{MapOrder} (inp : Inputs) :
  (is_Ok (Compute inp) = true <->
     match_lower_ident (in_Prefix inp) = true
     /\ forall id, id ∈ in_ExpectedUserIDs inp ->
          String.length (in_Prefix inp +:+ FormatInt id) <= maxRoleNameBytes)
  /\ forall plan, Compute inp = Ok plan -> forall r,
       r ∈ plan_Create plan ++ plan_GrantReader plan ++ plan_AlterPassword plan
           ++ plan_Drop plan ->
       exists rest, rest <> EmptyString /\ r = in_Prefix inp +:+ rest.
Proof.
  split.
  - rewrite Compute_is_Ok. split; intros [Hp Hl]; (split; [done|]); intros id Hid.
    + specialize (Hl id Hid). destruct (RoleName _ id) as [n|e] eqn:E; [|done].
      by apply RoleName_Ok in E as (_ & -> & ?).
    + specialize (Hl id Hid).
      assert (RoleName (in_Prefix inp) id = Ok (in_Prefix inp +:+ FormatInt id)) as ->; [|done].
      by apply RoleName_Ok.
  - intros plan Hplan%Compute_plan_ok r. rewrite !elem_of_app. intros Hr.
    apply HasPrefix_managed.
    destruct Hr as [[? _]%(ok_create _ _ Hplan)|[[? _]%(ok_grant _ _ Hplan)|
      [(_ & ? & _)%(ok_alter _ _ Hplan)|[[_ ?] _]%(ok_drop _ _ Hplan)]]]; auto with pathql.
Qed.

(** Over-selection by LIKE is harmless: if two catalogs answer the queries
    alike except for the role listing, and the listings hold the same names with
    the managed prefix (the underscores of a prefix are LIKE wildcards), the
    plan is the same. *)
Theorem LoadAndCompute_overselection `{MapOrder} {W} (D1 D2 : RolesDB W)
  (authPrefix managedPrefix readerRole : string) (password : option (string -> string)) (w : W)
  (rows1 rows2 : list string)
  (H1 : @select_strings _ D1 existing_roles_sql [managedPrefix +:+ "%"] w = (Ok rows1, w))
  (H2 : @select_strings _ D2 existing_roles_sql [managedPrefix +:+ "%"] w = (Ok rows2, w))
  (Hrows : forall r, hasManagedPrefix r managedPrefix = true -> r ∈ rows1 <-> r ∈ rows2)
  (Hids : forall q args w', @select_ids _ D1 q args w' = @select_ids _ D2 q args w')
  (Hmem : forall args w', @select_strings _ D1 reader_members_sql args w'
                          = @select_strings _ D2 reader_members_sql args w') :
  @LoadAndCompute _ _ W D1 authPrefix managedPrefix readerRole password w
  = @LoadAndCompute _ _ W D2 authPrefix managedPrefix readerRole password w.
Proof.
  unfold LoadAndCompute. destruct (match_ident authPrefix); [|done]. simpl.
  rewrite H1, H2, Hids. destruct (select_ids _ _ w) as [[ids|e] w1]; [|done].
  rewrite Hmem. destruct (select_strings reader_members_sql _ w1) as [[ms|e] w2]; [|done].
  f_equal. unfold Compute. simpl.
  assert (existing_set managedPrefix rows1 ∅ = existing_set managedPrefix rows2 ∅) as ->; [|done].
  apply set_eq. intros r. rewrite !existing_set_spec.
  destruct (hasManagedPrefix r managedPrefix) eqn:E; [|naive_solver]. by rewrite Hrows.
Qed.
End properties.

(** ** Witnesses *)

Module Witness.
#[local] Existing Instance elements_order.
#[local] Instance quote : PqQuote :=
  {| QuoteIdentifier s := String dquote (s +:+ String dquote EmptyString);
     QuoteLiteral s := "'" +:+ s +:+ "'" |}.

Definition inp : Inputs :=
  {| in_Prefix := "r_"; in_ReaderRole := "readers";
     in_ExistingRoles := ["r_1"; "rx"; "r_9"];
     in_ExpectedUserIDs := [2; 1]%Z;
     in_ReaderMembers := {["r_1" := true]};
     in_Password := Some (fun r => "pw_" +:+ r) |}.
Definition db : roledb :=
  RoleDB {["r_1" := None; "readers" := None; "r_9" := None; "rx" := None]}
    {[("readers", "r_1"); ("rx", "readers")]} {["rx"]}.
Definition plan : Plan :=
  {| plan_Create := ["r_2"]; plan_GrantReader := ["r_2"]; plan_Drop := ["r_9"];
     plan_AlterPassword := ["r_1"];
     plan_DDL := map render_stmt
       [SCreate "r_2" (Some "pw_r_2"); SAlter "r_1" "pw_r_1"; SGrant "readers" "r_2";
        SDrop "r_9"] |}.
Definition inp' : Inputs :=
  {| in_Prefix := "r_"; in_ReaderRole := "readers";
     in_ExistingRoles := ["r_1"; "r_2"];
     in_ExpectedUserIDs := [2; 1]%Z;
     in_ReaderMembers := {["r_1" := true; "r_2" := true]};
     in_Password := None |}.
Definition db' : roledb :=
  RoleDB {["r_1" := Some "pw_r_1"; "readers" := None; "r_2" := Some "pw_r_2"; "rx" := None]}
         {[("readers", "r_1"); ("readers", "r_2"); ("rx", "readers")]} {["rx"]}.
Definition plan' : Plan :=
  {| plan_Create := []; plan_GrantReader := []; plan_Drop := []; plan_AlterPassword := [];
     plan_DDL := [] |}.

Lemma snapshot_inp : snapshot inp db.
Proof.
  split; [| | |done].
  - intros r Hr. simpl. rewrite !lookup_insert_is_Some', lookup_singleton_is_Some, !elem_of_cons.
    split; [|intros H; repeat destruct H as [<-|H]; subst; try done; auto].
    intros H; repeat destruct H as [->|H]; auto. by apply elem_of_nil in H.
  - intros r. unfold member. rewrite get_bool_spec. simpl.
    rewrite lookup_singleton_Some, elem_of_union, !elem_of_singleton. naive_solver.
  - by eexists.
Qed.

Lemma snapshot_inp' : snapshot inp' db'.
Proof.
  split; [| | |done].
  - intros r Hr. simpl. rewrite !lookup_insert_is_Some', lookup_singleton_is_Some, !elem_of_cons.
    split; [|intros H; repeat destruct H as [<-|H]; subst; try done; auto].
    intros H; repeat destruct H as [->|H]; auto 6. by apply elem_of_nil in H.
  - intros r. unfold member. rewrite get_bool_spec. simpl.
    rewrite lookup_insert_Some, lookup_singleton_Some, !elem_of_union, !elem_of_singleton.
    split; [naive_solver|]. intros [[[= ->]|[= ->]]|[= ?]]; [by left|by right].
  - by eexists.
Qed.

Lemma sync_converges_witness :
  exists db1, exec_all (plan_stmts inp plan) db = Some db1 /\ synced inp db db1.
Proof.
  destruct (sync_converges inp plan db) as [_ Hs]; [vm_compute; reflexivity|exact snapshot_inp|].
  destruct (exec_all (plan_stmts inp plan) db) as [db1|] eqn:Hrun; [|vm_compute in Hrun; discriminate].
  exists db1. split; [reflexivity|exact (proj1 Hs)].
Defined.

(** Nothing stands in the way of a sync of that catalog. *)
Lemma sync_free i : in_Prefix i = "r_" -> in_ReaderRole i = "readers" -> ~ sync_blocked i db.
Proof.
  intros Hp Hr.
  assert (forall r, hasManagedPrefix r (in_Prefix i) = true -> exists rest, r = "r_" +:+ rest) as Hm.
  { intros r (rest & _ & ->)%HasPrefix_managed. rewrite Hp. by exists rest. }
  intros [r He _ Hres|r He _ Hc|r He _ _ Hin].
  - apply expected_managed, Hm in He as [rest ->].
    apply orb_true_iff in Hres as [?|Hres%bool_decide_eq_true]; [done|]. set_solver.
  - apply expected_managed, Hm in He as [rest ->]. rewrite Hr in Hc.
    inversion Hc as [|? z ? Hz]; subst. unfold membership in Hz. set_solver.
  - apply Hm in He as [rest ->]. set_solver.
Qed.

(** The same users where the role to drop owns a table, or where the reader role
    is a member of a role with access to it: the run stops. *)
Example drop_of_an_owner :
  exec_all (plan_stmts inp plan) (RoleDB (db_roles db) (db_members db) {["r_9"]}) = None.
Proof. vm_compute. reflexivity. Qed.
Example grant_in_a_circle :
  exec_all (plan_stmts inp plan) (RoleDB (db_roles db) {[("r_2", "rx"); ("rx", "readers")]} ∅) = None.
Proof. vm_compute. reflexivity. Qed.

Lemma sync_idempotent_witness :
  plan_Create plan' = [] /\ plan_GrantReader plan' = [] /\ plan_Drop plan' = [].
Proof.
  apply (sync_idempotent inp inp' plan plan' db db').
  - vm_compute; reflexivity.
  - exact snapshot_inp.
  - vm_compute; reflexivity.
  - vm_compute; reflexivity.
  - exact snapshot_inp'.
  - auto.
Defined.

(** [pathql_r_%] also selects [pathql_readers]. *)
Definition catalog (rows : list string) : RolesDB unit :=
  {| select_strings q _ w :=
       if String.eqb q existing_roles_sql then (Ok rows, w) else (Ok ["pathql_r_1"], w);
     select_ids _ _ w := (Ok [1]%Z, w) |}.

Lemma LoadAndCompute_overselection_witness :
  @LoadAndCompute _ _ _ (catalog ["pathql_r_1"; "pathql_readers"])
    "pathql_auth_" "pathql_r_" "pathql_readers" None tt
  = @LoadAndCompute _ _ _ (catalog ["pathql_r_1"])
    "pathql_auth_" "pathql_r_" "pathql_readers" None tt.
Proof.
  apply (LoadAndCompute_overselection
    (catalog ["pathql_r_1"; "pathql_readers"]) (catalog ["pathql_r_1"])
    "pathql_auth_" "pathql_r_" "pathql_readers" None tt
    ["pathql_r_1"; "pathql_readers"] ["pathql_r_1"]); try reflexivity.
  intros r Hr. rewrite !elem_of_cons. split; [|by intros [->|?%elem_of_nil]; auto].
  intros [->|[->|?]]; [by left|done|by apply elem_of_nil in H].
Defined.
End Witness.
