(* ===== verification/RolePool.v ===== *)
(** * Per-role connection pools (src/internal/db/rolepool.go)

    The manager's state ([RolePools]), the pool objects it shares with its callers
    by reference (a heap of [sqlDB]), its operations on that state, and the
    interleavings of many callers as a step relation: the semaphore and the
    critical sections under [mu] are the atomic steps. *)

From S2P Require Import Prelude GoStrings.

(** ** database/sql *)

Record PoolParams := {
  MaxOpen : Z; MaxIdle : Z; ConnMaxLifetime : Z; ConnMaxIdleTime : Z
}.

(** A [sql.DB] as far as the setters go: what it was opened with and its limits.
    [sd_maxIdleCount] is 0 for the default, negative for none. *)
Record sqlDB := SqlDB {
  sd_driver : string; sd_dsn : string;
  sd_maxOpen : Z; sd_maxIdleCount : Z; sd_maxLifetime : Z; sd_maxIdleTime : Z;
  sd_closed : bool
}.

Definition new_sqlDB (driver dsn : string) : sqlDB := SqlDB driver dsn 0 0 0 0 false.

Definition defaultMaxIdleConns : Z := 2.
Definition maxIdleConnsLocked (d : sqlDB) : Z :=
  if (sd_maxIdleCount d =? 0)%Z then defaultMaxIdleConns
  else if (sd_maxIdleCount d <? 0)%Z then 0 else sd_maxIdleCount d.

Definition with_idle (d : sqlDB) (n : Z) : sqlDB :=
  SqlDB (sd_driver d) (sd_dsn d) (sd_maxOpen d) n (sd_maxLifetime d) (sd_maxIdleTime d)
        (sd_closed d).
Definition SetMaxIdleConns (n : Z) (d : sqlDB) : sqlDB :=
  let d := with_idle d (if (0 <? n)%Z then n else -1) in
  if ((0 <? sd_maxOpen d) && (sd_maxOpen d <? maxIdleConnsLocked d))%Z
  then with_idle d (sd_maxOpen d) else d.
Definition SetMaxOpenConns (n : Z) (d : sqlDB) : sqlDB :=
  let d := SqlDB (sd_driver d) (sd_dsn d) (Z.max 0 n) (sd_maxIdleCount d)
                 (sd_maxLifetime d) (sd_maxIdleTime d) (sd_closed d) in
  if ((0 <? sd_maxOpen d) && (sd_maxOpen d <? maxIdleConnsLocked d))%Z
  then SetMaxIdleConns n d else d.
Definition SetConnMaxLifetime (n : Z) (d : sqlDB) : sqlDB :=
  SqlDB (sd_driver d) (sd_dsn d) (sd_maxOpen d) (sd_maxIdleCount d) (Z.max 0 n)
        (sd_maxIdleTime d) (sd_closed d).
Definition SetConnMaxIdleTime (n : Z) (d : sqlDB) : sqlDB :=
  SqlDB (sd_driver d) (sd_dsn d) (sd_maxOpen d) (sd_maxIdleCount d) (sd_maxLifetime d)
        (Z.max 0 n) (sd_closed d).
Definition CloseDB (d : sqlDB) : sqlDB :=
  SqlDB (sd_driver d) (sd_dsn d) (sd_maxOpen d) (sd_maxIdleCount d) (sd_maxLifetime d)
        (sd_maxIdleTime d) true.

Abbreviation heap := (gmap nat sqlDB).

(** pathsqlx.Open: it dials nothing and returns a new pool object, or an error. *)
Class Opener := {
  open_db : string -> string -> heap -> result string nat * heap;
  open_db_Ok driver dsn h k h' : open_db driver dsn h = (Ok k, h') ->
    h !! k = None /\ h' = <[k := new_sqlDB driver dsn]> h;
  open_db_Err driver dsn h e h' : open_db driver dsn h = (Err e, h') -> h' = h
}.

(** ** The manager *)

Record rolePool := RolePool { rp_db : nat; rp_lastUsed : Z; rp_cooledDown : bool }.

Record RolePools := {
  p_driver : string;
  p_baseDSN : string;
  p_warmLimit : Z;
  p_cap : Z;            (* cap(sem) *)
  p_sem : Z;            (* len(sem) *)
  p_defaults : PoolParams;
  p_pools : gmap string rolePool;
  p_password : option (string -> string)
}.

Inductive db_error :=
| EmptyBaseDSN
| BadMaxTotalBackends (n : Z)
| InvalidRole (role : string)
| OpenError (err : string)
| ContextDone.

#[export] Instance db_error_eq_dec : EqDecision db_error.
Proof. solve_decision. Defined.

Definition NewRolePools (driver baseDSN : string) (maxTotalBackends warmLimit : Z)
    (defaults : PoolParams) : result db_error RolePools :=
  if String.eqb baseDSN EmptyString then Err EmptyBaseDSN
  else if (maxTotalBackends <? 1)%Z then Err (BadMaxTotalBackends maxTotalBackends)
  else Ok {| p_driver := driver; p_baseDSN := baseDSN; p_warmLimit := warmLimit;
             p_cap := maxTotalBackends; p_sem := 0; p_defaults := defaults;
             p_pools := ∅; p_password := None |}.

Definition set_pools (p : RolePools) (m : gmap string rolePool) : RolePools :=
  {| p_driver := p_driver p; p_baseDSN := p_baseDSN p; p_warmLimit := p_warmLimit p;
     p_cap := p_cap p; p_sem := p_sem p; p_defaults := p_defaults p; p_pools := m;
     p_password := p_password p |}.
Definition set_sem (p : RolePools) (n : Z) : RolePools :=
  {| p_driver := p_driver p; p_baseDSN := p_baseDSN p; p_warmLimit := p_warmLimit p;
     p_cap := p_cap p; p_sem := n; p_defaults := p_defaults p; p_pools := p_pools p;
     p_password := p_password p |}.
Definition UseRolePassword (fn : option (string -> string)) (p : RolePools) : RolePools :=
  {| p_driver := p_driver p; p_baseDSN := p_baseDSN p; p_warmLimit := p_warmLimit p;
     p_cap := p_cap p; p_sem := p_sem p; p_defaults := p_defaults p; p_pools := p_pools p;
     p_password := fn |}.

Definition roleDSN (baseDSN role : string) : result db_error string :=
  if negb (match_ident role) then Err (InvalidRole role)
  else Ok (baseDSN +:+ " user=" +:+ role).

Definition applyParams (pp : PoolParams) (d : sqlDB) : sqlDB :=
  SetConnMaxIdleTime (ConnMaxIdleTime pp)
    (SetConnMaxLifetime (ConnMaxLifetime pp)
      (SetMaxIdleConns (MaxIdle pp) (SetMaxOpenConns (MaxOpen pp) d))).

(** Oldest first, ties broken by role name. *)
Definition entry_le (a b : Z * string) : Prop :=
  (a.1 < b.1)%Z \/ a.1 = b.1 /\ String.le a.2 b.2.
#[export] Instance entry_le_dec a b : Decision (entry_le a b).
Proof. unfold entry_le. apply _. Defined.

Section manager.
Context `{MapOrder} `{Opener}.

Definition rolesToCoolDown (lastUsed : gmap string Z) (warmLimit : Z) : list string :=
  if (Z.of_nat (size lastUsed) <=? warmLimit)%Z then []
  else
    let entries := map (fun role => (default 0%Z (lastUsed !! role), role))
                       (iter 0 (dom lastUsed)) in
    let entries := merge_sort entry_le entries in
    let keep := if (warmLimit <? 0)%Z then 0%Z else warmLimit in
    map snd (take (length entries - Z.to_nat keep) entries).

(** The pool of [role], with the manager and heap after it is created. *)
Definition getOrCreatePool (role : string) (p : RolePools) (h : heap) :
    result db_error rolePool * RolePools * heap :=
  match p_pools p !! role with
  | Some rp => (Ok rp, p, h)
  | None =>
      match roleDSN (p_baseDSN p) role with
      | Err e => (Err e, p, h)
      | Ok dsn =>
          let dsn := match p_password p with
                     | Some pw => dsn +:+ " password=" +:+ pw role
                     | None => dsn
                     end in
          match open_db (p_driver p) dsn h with
          | (Err e, h) => (Err (OpenError e), p, h)
          | (Ok db, h) =>
              let rp := RolePool db 0 false in
              (Ok rp, set_pools p (<[role := rp]> (p_pools p)),
               alter (applyParams (p_defaults p)) db h)
          end
      end
  end.

(** The body of the second loop of [reconcileWarm]. *)
Definition reconcile_one (defaults : PoolParams) (coolSet : gset string)
    (mh : gmap string rolePool * heap) (role : string) : gmap string rolePool * heap :=
  let '(m, h) := mh in
  match m !! role with
  | None => (m, h)
  | Some rp =>
      if bool_decide (role ∈ coolSet) then
        if negb (rp_cooledDown rp) then
          (<[role := RolePool (rp_db rp) (rp_lastUsed rp) true]> m,
           alter (SetMaxIdleConns 0) (rp_db rp) h)
        else (m, h)
      else if rp_cooledDown rp then
        (<[role := RolePool (rp_db rp) (rp_lastUsed rp) false]> m,
         alter (SetMaxIdleConns (MaxIdle defaults)) (rp_db rp) h)
      else (m, h)
  end.

Definition reconcileWarm (p : RolePools) (h : heap) : RolePools * heap :=
  let lastUsed := rp_lastUsed <$> p_pools p in
  let cool := rolesToCoolDown lastUsed (p_warmLimit p) in
  let coolSet : gset string := list_to_set cool in
  let '(m, h) := foldl (reconcile_one (p_defaults p) coolSet) (p_pools p, h)
                       (iter 2 (dom (p_pools p))) in
  (set_pools p m, h).

(** The critical section of [Acquire], at time [now]; the slot is held. *)
Definition acquire_locked (role : string) (now : Z) (p : RolePools) (h : heap) :
    result db_error nat * RolePools * heap :=
  match getOrCreatePool role p h with
  | (Err e, p, h) => (Err e, p, h)
  | (Ok rp, p, h) =>
      let p := set_pools p (<[role := RolePool (rp_db rp) now (rp_cooledDown rp)]> (p_pools p)) in
      let '(p, h) := reconcileWarm p h in
      (Ok (rp_db rp), p, h)
  end.

(** The locked part of [Evict] and of [Close]: the pools to close afterwards. *)
Definition Evict_locked (role : string) (p : RolePools) : option nat * RolePools :=
  match p_pools p !! role with
  | Some rp => (Some (rp_db rp), set_pools p (delete role (p_pools p)))
  | None => (None, p)
  end.
Definition Close_locked (p : RolePools) : list nat * RolePools :=
  (map (fun rrp => rp_db rrp.2) (map_to_list (p_pools p)), set_pools p ∅).

(** [sql.DB.Stats], a read of the pool object, is a parameter. *)
Definition Stats {S} (db_Stats : sqlDB -> S) (p : RolePools) (h : heap) : gmap string S :=
  omap (fun rp => db_Stats <$> h !! rp_db rp) (p_pools p).

(** ** Many callers *)

(** Where a call of [Acquire] and its [release] stand. *)
Inductive phase :=
| Waiting (role : string)               (* before the select *)
| HasSlot (role : string)               (* slot taken, mu not yet *)
| Failing (e : db_error)                (* mu released, slot not yet *)
| Holding (role : string) (db : nat)    (* returned db and release *)
| Released (role : string) (db : nat)   (* release has run *)
| Returned (e : db_error).              (* returned an error *)

Record system := System {
  sys_p : RolePools;
  sys_heap : heap;
  sys_calls : gmap nat phase;
  sys_closing : list nat      (* removed from the map, Close pending *)
}.

Inductive step : system -> system -> Prop :=
| step_call t role s :
    sys_calls s !! t = None ->
    step s (System (sys_p s) (sys_heap s)
      (<[t := if match_ident role then Waiting role else Returned (InvalidRole role)]>
         (sys_calls s)) (sys_closing s))
| step_slot t role s :
    sys_calls s !! t = Some (Waiting role) ->
    (p_sem (sys_p s) < p_cap (sys_p s))%Z ->
    step s (System (set_sem (sys_p s) (p_sem (sys_p s) + 1)) (sys_heap s)
      (<[t := HasSlot role]> (sys_calls s)) (sys_closing s))
| step_cancel t role s :
    sys_calls s !! t = Some (Waiting role) ->
    step s (System (sys_p s) (sys_heap s)
      (<[t := Returned ContextDone]> (sys_calls s)) (sys_closing s))
| step_critical t role now r p h s :
    sys_calls s !! t = Some (HasSlot role) ->
    acquire_locked role now (sys_p s) (sys_heap s) = (r, p, h) ->
    step s (System p h
      (<[t := match r with Ok db => Holding role db | Err e => Failing e end]>
         (sys_calls s)) (sys_closing s))
| step_fail t e s :
    sys_calls s !! t = Some (Failing e) ->
    step s (System (set_sem (sys_p s) (p_sem (sys_p s) - 1)) (sys_heap s)
      (<[t := Returned e]> (sys_calls s)) (sys_closing s))
| step_release t role db s :
    sys_calls s !! t = Some (Holding role db) ->
    step s (System (set_sem (sys_p s) (p_sem (sys_p s) - 1)) (sys_heap s)
      (<[t := Released role db]> (sys_calls s)) (sys_closing s))
| step_release_again t role db s :
    sys_calls s !! t = Some (Released role db) ->
    step s s
| step_evict role o p s :
    Evict_locked role (sys_p s) = (o, p) ->
    step s (System p (sys_heap s) (sys_calls s)
      (match o with Some db => [db] | None => [] end ++ sys_closing s))
| step_close_all dbs p s :
    Close_locked (sys_p s) = (dbs, p) ->
    step s (System p (sys_heap s) (sys_calls s) (dbs ++ sys_closing s))
| step_close db s :
    db ∈ sys_closing s ->
    step s (System (sys_p s) (alter CloseDB db (sys_heap s)) (sys_calls s)
      (filter (fun d => d <> db) (sys_closing s))).

Definition init_system (p : RolePools) (h : heap) : system := System p h ∅ [].
End manager.
