(* ===== verification/RolePoolSpec.v ===== *)
(** * What the pool manager promises

    - the LRU: after every acquisition exactly the [warmLimit] most recently used
      pools are warm;
    - the interleaved system: the slots in use are counted exactly and never
      exceed the limit, and a caller only ever holds a pool that authenticates as
      its own role. *)

From S2P Require Import Prelude GoStrings RolePool.

(** ** The order of [rolesToCoolDown] *)

#[export] Instance entry_le_trans : Transitive entry_le.
Proof.
  intros [t1 r1] [t2 r2] [t3 r3]. unfold entry_le. simpl.
  intros [?|[-> ?]] [?|[-> ?]]; [left; lia|left; lia|left; lia|right]. split; [done|by etrans].
Qed.

#[export] Instance entry_le_total : Total entry_le.
Proof.
  intros [t1 r1] [t2 r2]. unfold entry_le. simpl.
  destruct (Z.lt_trichotomy t1 t2) as [|[->|]]; [auto| |auto].
  destruct (total String.le r1 r2); auto.
Qed.

Section cooldown.
Context `{MapOrder}.
Variables (lastUsed : gmap string Z) (warmLimit : Z).

Definition cool_entries : list (Z * string) :=
  merge_sort entry_le
    (map (fun role => (default 0%Z (lastUsed !! role), role)) (iter 0 (dom lastUsed))).

Lemma cool_entries_roles : map snd cool_entries ≡ₚ elements (dom lastUsed).
Proof.
  unfold cool_entries. rewrite merge_sort_Permutation, map_map. simpl.
  by rewrite map_id, iter_perm.
Qed.

Lemma cool_entries_time t r :
  (t, r) ∈ cool_entries -> lastUsed !! r = Some t.
Proof.
  unfold cool_entries. rewrite merge_sort_Permutation, list_elem_of_fmap.
  intros (r' & [= -> ->] & Hr). rewrite elem_of_iter, elem_of_dom in Hr.
  by destruct Hr as [x ->].
Qed.

Lemma cool_entries_length : length cool_entries = size lastUsed.
Proof.
  rewrite <- (length_map snd), cool_entries_roles. apply (size_dom (D := gset string)).
Qed.

Definition warm_count : nat := Nat.min (size lastUsed) (Z.to_nat (Z.max 0 warmLimit)).

Lemma rolesToCoolDown_take :
  rolesToCoolDown lastUsed warmLimit
  = map snd (take (size lastUsed - warm_count) cool_entries).
Proof.
  unfold rolesToCoolDown, warm_count. destruct (Z.leb_spec (Z.of_nat (size lastUsed)) warmLimit).
  - by replace (size lastUsed - _) with 0 by lia.
  - change (merge_sort entry_le _) with cool_entries. rewrite cool_entries_length.
    do 2 f_equal. case_match; lia.
Qed.

(** Which roles give up their warm connections: all but [warmLimit] of them,
    none of them used after one that stays warm. *)
Lemma rolesToCoolDown_spec :
  NoDup (rolesToCoolDown lastUsed warmLimit)
  /\ length (rolesToCoolDown lastUsed warmLimit) = size lastUsed - warm_count
  /\ (forall r, r ∈ rolesToCoolDown lastUsed warmLimit -> is_Some (lastUsed !! r))
  /\ forall r r' t t', r ∈ rolesToCoolDown lastUsed warmLimit ->
       r' ∉ rolesToCoolDown lastUsed warmLimit ->
       lastUsed !! r = Some t -> lastUsed !! r' = Some t' -> entry_le (t, r) (t', r').
Proof.
  rewrite rolesToCoolDown_take.
  assert (NoDup (map snd cool_entries)) as Hnd.
  { rewrite cool_entries_roles. apply NoDup_elements. }
  set (n := size lastUsed - warm_count).
  assert (map snd cool_entries = map snd (take n cool_entries) ++ map snd (drop n cool_entries))
    as Hsplit by (by rewrite <- map_app, take_drop).
  rewrite Hsplit in Hnd. apply NoDup_app in Hnd as (Hnd & _ & _).
  split_and!.
  - done.
  - rewrite length_map, length_take, cool_entries_length. unfold n. lia.
  - intros r Hr. apply elem_of_dom. rewrite <- elem_of_elements, <- cool_entries_roles, Hsplit.
    rewrite elem_of_app. auto.
  - intros r r' t t' Hr Hr' Ht Ht'.
    assert (r' ∈ map snd cool_entries) as Hin'.
    { rewrite cool_entries_roles, elem_of_elements. by apply elem_of_dom_2 in Ht'. }
    rewrite Hsplit, elem_of_app in Hin'. destruct Hin' as [|Hin']; [done|].
    apply list_elem_of_fmap in Hr as ([t1 r1] & -> & Hr).
    apply list_elem_of_fmap in Hin' as ([t2 r2] & -> & Hin'). simpl in *.
    assert (StronglySorted entry_le cool_entries) as Hs
      by (apply StronglySorted_merge_sort; apply _).
    rewrite <- (take_drop n cool_entries) in Hs.
    pose proof (StronglySorted_app_1_elem_of _ _ _ _ _ Hs Hr Hin') as Hle.
    assert (lastUsed !! r1 = Some t1) as E1.
    { apply cool_entries_time. rewrite <- (take_drop n cool_entries), elem_of_app. auto. }
    assert (lastUsed !! r2 = Some t2) as E2.
    { apply cool_entries_time. rewrite <- (take_drop n cool_entries), elem_of_app. auto. }
    congruence.
Qed.
End cooldown.

(** ** The pools and their objects *)

(** The connection string a role's pool is opened with. *)
Definition password_param (fn : option (string -> string)) (role : string) : string :=
  match fn with Some pw => " password=" +:+ pw role | None => EmptyString end.
Definition conn_string (p : RolePools) (role : string) : string :=
  p_baseDSN p +:+ " user=" +:+ role +:+ password_param (p_password p) role.

(** The idle connections a warm pool may keep: database/sql caps [MaxIdle] by
    [MaxOpen]. *)
Definition warm_idle (pp : PoolParams) : Z :=
  if (0 <? MaxIdle pp)%Z then
    if (0 <? MaxOpen pp)%Z then Z.min (MaxIdle pp) (MaxOpen pp) else MaxIdle pp
  else 0.

Record pool_ok (p : RolePools) (role : string) (down : bool) (d : sqlDB) : Prop := {
  po_driver : sd_driver d = p_driver p;
  po_dsn : sd_dsn d = conn_string p role;
  po_open : sd_maxOpen d = Z.max 0 (MaxOpen (p_defaults p));
  po_idle : maxIdleConnsLocked d = if down then 0%Z else warm_idle (p_defaults p);
  po_closed : sd_closed d = false
}.

Lemma with_idle_positive d n : (0 < n)%Z -> maxIdleConnsLocked (with_idle d n) = n.
Proof.
  intros Hn. unfold maxIdleConnsLocked. simpl.
  rewrite (proj2 (Z.eqb_neq n 0)), (proj2 (Z.ltb_ge n 0)) by lia. done.
Qed.

Lemma SetMaxIdleConns_idle n d pp :
  sd_maxOpen d = Z.max 0 (MaxOpen pp) ->
  maxIdleConnsLocked (SetMaxIdleConns n d)
  = if (0 <? n)%Z then if (0 <? MaxOpen pp)%Z then Z.min n (MaxOpen pp) else n else 0%Z.
Proof.
  intros Ho. unfold SetMaxIdleConns.
  destruct (Z.ltb_spec 0 n) as [Hn|Hn].
  - rewrite with_idle_positive by done. cbn [sd_maxOpen with_idle]. rewrite Ho.
    destruct (Z.ltb_spec 0 (MaxOpen pp)).
    + rewrite (proj2 (Z.ltb_lt 0 _)) by lia. simpl.
      destruct (Z.ltb_spec (Z.max 0 (MaxOpen pp)) n); rewrite with_idle_positive; lia.
    + rewrite (proj2 (Z.ltb_ge 0 _)) by lia. simpl. by apply with_idle_positive.
  - change (maxIdleConnsLocked (with_idle d (-1))) with 0%Z. cbn [sd_maxOpen with_idle].
    rewrite (proj2 (Z.ltb_ge (sd_maxOpen d) 0)) by lia. by rewrite andb_false_r.
Qed.

Lemma SetMaxIdleConns_static n d :
  sd_driver (SetMaxIdleConns n d) = sd_driver d /\ sd_dsn (SetMaxIdleConns n d) = sd_dsn d
  /\ sd_maxOpen (SetMaxIdleConns n d) = sd_maxOpen d
  /\ sd_closed (SetMaxIdleConns n d) = sd_closed d.
Proof. unfold SetMaxIdleConns. by case_match. Qed.

Lemma pool_ok_cool p role down d : pool_ok p role down d -> pool_ok p role true (SetMaxIdleConns 0 d).
Proof.
  intros []. destruct (SetMaxIdleConns_static 0 d) as (?&?&?&?).
  split; try congruence. by rewrite (SetMaxIdleConns_idle _ _ (p_defaults p)).
Qed.

Lemma pool_ok_warm p role down d :
  pool_ok p role down d ->
  pool_ok p role false (SetMaxIdleConns (MaxIdle (p_defaults p)) d).
Proof.
  intros []. destruct (SetMaxIdleConns_static (MaxIdle (p_defaults p)) d) as (?&?&?&?).
  split; try congruence. by rewrite (SetMaxIdleConns_idle _ _ (p_defaults p)).
Qed.

Lemma pool_ok_new p role :
  pool_ok p role false (applyParams (p_defaults p) (new_sqlDB (p_driver p) (conn_string p role))).
Proof.
  set (d := SetMaxOpenConns (MaxOpen (p_defaults p)) (new_sqlDB (p_driver p) (conn_string p role))).
  assert (sd_driver d = p_driver p /\ sd_dsn d = conn_string p role
    /\ sd_maxOpen d = Z.max 0 (MaxOpen (p_defaults p)) /\ sd_closed d = false) as (?&?&Ho&?).
  { unfold d, SetMaxOpenConns. case_match; [|done].
    match goal with |- context [SetMaxIdleConns ?n ?d] =>
      by destruct (SetMaxIdleConns_static n d) as (-> & -> & -> & ->) end. }
  unfold applyParams. fold d.
  destruct (SetMaxIdleConns_static (MaxIdle (p_defaults p)) d) as (?&?&?&?).
  split; simpl; try congruence.
  change (maxIdleConnsLocked (SetMaxIdleConns (MaxIdle (p_defaults p)) d)
          = warm_idle (p_defaults p)).
  by rewrite (SetMaxIdleConns_idle _ _ (p_defaults p)).
Qed.

(** Objects keep what they were opened with. *)
Definition opened (h : heap) (db : nat) (driver dsn : string) : Prop :=
  exists d, h !! db = Some d /\ sd_driver d = driver /\ sd_dsn d = dsn.
Definition heap_grows (h h' : heap) : Prop :=
  forall db driver dsn, opened h db driver dsn -> opened h' db driver dsn.

#[export] Instance heap_grows_preorder : PreOrder heap_grows.
Proof. split; [by intros h db|]. intros h1 h2 h3 H1 H2 db dr dsn Ho. by apply H2, H1. Qed.

Lemma heap_grows_alter f db h :
  (forall d, sd_driver (f d) = sd_driver d /\ sd_dsn (f d) = sd_dsn d) -> heap_grows h (alter f db h).
Proof.
  intros Hf db' dr dsn (d & Hd & <- & <-). destruct (decide (db' = db)) as [->|Hne].
  - exists (f d). rewrite lookup_alter_eq, Hd. destruct (Hf d). auto.
  - exists d. by rewrite lookup_alter_ne.
Qed.

Lemma heap_grows_insert db d h : h !! db = None -> heap_grows h (<[db := d]> h).
Proof.
  intros Hn db' dr dsn (d' & Hd & <- & <-). exists d'.
  rewrite lookup_insert_ne by (intros ->; congruence). auto.
Qed.

Lemma heap_grows_idle n db h : heap_grows h (alter (SetMaxIdleConns n) db h).
Proof. apply heap_grows_alter. intros d. by destruct (SetMaxIdleConns_static n d) as (?&?&_). Qed.

#[export] Hint Resolve heap_grows_idle heap_grows_insert : pathql.

(** Every pool of the map has an object of its own in the heap, opened for its
    role. *)
Record pools_ok (p : RolePools) (m : gmap string rolePool) (h : heap) : Prop := {
  pk_obj role rp : m !! role = Some rp ->
    exists d, h !! rp_db rp = Some d /\ pool_ok p role (rp_cooledDown rp) d;
  pk_inj role1 role2 rp1 rp2 : m !! role1 = Some rp1 -> m !! role2 = Some rp2 ->
    rp_db rp1 = rp_db rp2 -> role1 = role2
}.

(** Replacing one pool's record and object by good ones. *)
Lemma pools_ok_update p m h role rp rp' f :
  pools_ok p m h -> m !! role = Some rp -> rp_db rp' = rp_db rp ->
  (forall d, pool_ok p role (rp_cooledDown rp) d -> pool_ok p role (rp_cooledDown rp') (f d)) ->
  pools_ok p (<[role := rp']> m) (alter f (rp_db rp) h).
Proof.
  intros [Hobj Hinj] Hm Hdb Hf. split.
  - intros r rp1. destruct (decide (r = role)) as [->|Hne].
    + rewrite lookup_insert_eq. intros [= <-]. destruct (Hobj _ _ Hm) as (d & Hd & Hok).
      exists (f d). rewrite Hdb, lookup_alter_eq, Hd. auto.
    + rewrite lookup_insert_ne by done. intros Hr. destruct (Hobj _ _ Hr) as (d & Hd & Hok).
      exists d. rewrite lookup_alter_ne; [auto|]. intros E. apply Hne. symmetry. by eapply Hinj.
  - intros r1 r2 rp1 rp2. rewrite !lookup_insert_Some.
    intros [[<- <-]|[? ?]] [[<- <-]|[? ?]] E; rewrite ?Hdb in E; eauto.
Qed.

(** ** The reconciliation *)

Definition set_flag (b : bool) (rp : rolePool) : rolePool := RolePool (rp_db rp) (rp_lastUsed rp) b.

Section manager.
Context `{MapOrder} `{Opener}.

(** One iteration sets the flag of one pool, and its object's idle limit. *)
Lemma reconcile_one_ok p cool m h role :
  pools_ok p m h ->
  (reconcile_one (p_defaults p) cool (m, h) role).1
    = alter (set_flag (bool_decide (role ∈ cool))) role m
  /\ pools_ok p (reconcile_one (p_defaults p) cool (m, h) role).1
                (reconcile_one (p_defaults p) cool (m, h) role).2
  /\ heap_grows h (reconcile_one (p_defaults p) cool (m, h) role).2.
Proof.
  intros Hok. unfold reconcile_one. destruct (m !! role) as [rp|] eqn:E; simpl.
  2:{ split_and!; [|done|done].
      apply map_eq. intros r. destruct (decide (r = role)) as [->|];
        [by rewrite lookup_alter_eq, E|by rewrite lookup_alter_ne]. }
  assert (forall b, alter (set_flag b) role m = <[role := set_flag b rp]> m) as Halt.
  { intros b. apply map_eq. intros r. destruct (decide (r = role)) as [->|].
    - by rewrite lookup_alter_eq, lookup_insert_eq, E.
    - by rewrite lookup_alter_ne, lookup_insert_ne. }
  assert (forall b, rp_cooledDown rp = b -> m = <[role := set_flag b rp]> m) as Hid.
  { intros b <-. rewrite insert_id; [done|]. rewrite E. by destruct rp. }
  rewrite Halt.
  case_bool_decide; destruct (rp_cooledDown rp) eqn:Hf; simpl;
    split_and!; auto with pathql; try reflexivity.
  - eapply pools_ok_update; [done..|]. intros d. apply pool_ok_cool.
  - eapply pools_ok_update; [done..|]. intros d. apply pool_ok_warm.
Qed.

Lemma reconcile_loop_ok p cool l m h :
  pools_ok p m h ->
  let '(m', h') := foldl (reconcile_one (p_defaults p) cool) (m, h) l in
  pools_ok p m' h' /\ heap_grows h h'
  /\ forall role, m' !! role = (if decide (role ∈ l) then set_flag (bool_decide (role ∈ cool))
                                else id) <$> m !! role.
Proof.
  revert m h; induction l as [|role l IH]; intros m h Hok.
  { split_and!; [done|done|]. intros r. simpl. by destruct (m !! r). }
  cbn [foldl]. destruct (reconcile_one_ok p cool m h role Hok) as (Hm & Hok1 & Hg1).
  destruct (reconcile_one (p_defaults p) cool (m, h) role) as [m1 h1]. simpl in *. subst m1.
  specialize (IH _ h1 Hok1). destruct (foldl _ _ l) as [m2 h2].
  destruct IH as (Hok2 & Hg2 & Hl). split_and!; [done|by etrans|].
  intros r. rewrite Hl. destruct (decide (r = role)) as [->|Hne].
  - rewrite lookup_alter_eq, (decide_True (P := role ∈ role :: l)) by (apply elem_of_cons; auto).
    destruct (m !! role) as [rp|]; [|done]. by destruct (decide (role ∈ l)).
  - rewrite lookup_alter_ne by done.
    rewrite (decide_ext (r ∈ role :: l) (r ∈ l)); [done|].
    rewrite elem_of_cons. tauto.
Qed.

Lemma set_pools_id p : set_pools p (p_pools p) = p.
Proof. by destruct p. Qed.

Lemma pools_ok_static p m1 m h : pools_ok (set_pools p m1) m h <-> pools_ok p m h.
Proof.
  split; intros [Ho Hi]; (split; [|done]); intros r rp Hr;
    destruct (Ho r rp Hr) as (d & Hd & []); exists d; split; auto; by split.
Qed.

(** The objects of a later map are those of the earlier one, or new. *)
Definition fresh_or_old (m : gmap string rolePool) (h : heap) (m' : gmap string rolePool) : Prop :=
  forall role rp', m' !! role = Some rp' ->
    h !! rp_db rp' = None \/ exists rp, m !! role = Some rp /\ rp_db rp = rp_db rp'.

Lemma getOrCreatePool_ok p h role r p' h' :
  pools_ok p (p_pools p) h ->
  getOrCreatePool role p h = (r, p', h') ->
  p' = set_pools p (p_pools p') /\ pools_ok p (p_pools p') h' /\ heap_grows h h'
  /\ fresh_or_old (p_pools p) h (p_pools p')
  /\ match r with
     | Ok rp => p_pools p' !! role = Some rp
     | Err e => p' = p /\ h' = h /\ e <> ContextDone
     end.
Proof.
  intros Hok. unfold getOrCreatePool, roleDSN.
  assert (fresh_or_old (p_pools p) h (p_pools p)) as Hfo by (intros ? rp Hr; right; eauto).
  destruct (p_pools p !! role) as [rp|] eqn:E.
  { intros [= <- <- <-]. rewrite set_pools_id. by split_and!. }
  destruct (match_ident role); simpl.
  2:{ intros [= <- <- <-]. rewrite set_pools_id. by split_and!. }
  replace (match p_password p with Some pw => _ | None => _ end) with (conn_string p role).
  2:{ unfold conn_string, password_param. destruct (p_password p); by rewrite ?app_empty_r, ?str_app_assoc. }
  destruct (open_db (p_driver p) (conn_string p role) h) as [[db|e] h1] eqn:Hopen.
  2:{ apply open_db_Err in Hopen as ->. intros [= <- <- <-]. rewrite set_pools_id. by split_and!. }
  apply open_db_Ok in Hopen as [Hfresh ->]. intros [= <- <- <-]. simpl.
  assert (forall r rp, p_pools p !! r = Some rp -> rp_db rp <> db) as Hne.
  { intros r rp Hr <-. destruct (pk_obj _ _ _ Hok _ _ Hr) as (d & Hd & _). congruence. }
  split_and!; [done| | | |by rewrite lookup_insert_eq].
  - split.
    + intros r rp [[<- <-]|[? Hr]]%lookup_insert_Some; simpl.
      * eexists. rewrite lookup_alter_eq, lookup_insert_eq. split; [done|]. apply pool_ok_new.
      * destruct (pk_obj _ _ _ Hok _ _ Hr) as (d & Hd & ?). exists d.
        specialize (Hne _ _ Hr). by rewrite lookup_alter_ne, lookup_insert_ne.
    + intros r1 r2 rp1 rp2 [[<- <-]|[? HA]]%lookup_insert_Some [[<- <-]|[? HB]]%lookup_insert_Some;
        simpl; intros Edb; auto.
      * by destruct (Hne _ _ HB).
      * by destruct (Hne _ _ HA).
      * by eapply (pk_inj _ _ _ Hok).
  - etrans; [by apply heap_grows_insert|]. apply heap_grows_alter.
    intros d. unfold applyParams. simpl.
    pose proof (SetMaxIdleConns_static (MaxIdle (p_defaults p)) (SetMaxOpenConns (MaxOpen (p_defaults p)) d)) as (-> & -> & _).
    unfold SetMaxOpenConns. case_match; [|done].
    match goal with |- context [SetMaxIdleConns ?n ?d] =>
      by destruct (SetMaxIdleConns_static n d) as (-> & -> & _) end.
  - intros r rp [[<- <-]|[? Hr]]%lookup_insert_Some; [by left|right; eauto].
Qed.

Lemma reconcileWarm_ok p h p' h' :
  pools_ok p (p_pools p) h -> reconcileWarm p h = (p', h') ->
  p' = set_pools p (p_pools p') /\ pools_ok p (p_pools p') h' /\ heap_grows h h'
  /\ forall role, p_pools p' !! role
       = set_flag (bool_decide (role ∈ rolesToCoolDown (rp_lastUsed <$> p_pools p) (p_warmLimit p)))
           <$> p_pools p !! role.
Proof.
  intros Hok. unfold reconcileWarm.
  pose proof (reconcile_loop_ok p (list_to_set (rolesToCoolDown (rp_lastUsed <$> p_pools p)
    (p_warmLimit p))) (iter 2 (dom (p_pools p))) (p_pools p) h Hok) as Hloop.
  destruct (foldl _ _ _) as [m1 h1]. destruct Hloop as (Hok1 & Hg & Hl).
  intros [= <- <-]. simpl. split_and!; [done|done|done|].
  intros role. rewrite Hl. destruct (p_pools p !! role) as [rp|] eqn:E; [|by destruct (decide _)].
  rewrite decide_True.
  - simpl. do 2 f_equal. apply bool_decide_ext. apply elem_of_list_to_set.
  - rewrite elem_of_iter. by apply elem_of_dom_2 in E.
Qed.

Lemma acquire_locked_ok p h role now r p' h' :
  pools_ok p (p_pools p) h ->
  acquire_locked role now p h = (r, p', h') ->
  p' = set_pools p (p_pools p') /\ pools_ok p (p_pools p') h' /\ heap_grows h h'
  /\ fresh_or_old (p_pools p) h (p_pools p')
  /\ match r with
     | Ok db => (exists rp, p_pools p' !! role = Some rp /\ rp_db rp = db /\ rp_lastUsed rp = now)
         /\ forall role' rp, p_pools p' !! role' = Some rp -> rp_cooledDown rp
              = bool_decide (role' ∈ rolesToCoolDown (rp_lastUsed <$> p_pools p') (p_warmLimit p'))
     | Err e => p' = p /\ h' = h
     end.
Proof.
  intros Hok. unfold acquire_locked.
  destruct (getOrCreatePool role p h) as [[[rp|e] p1] h1] eqn:Hget;
    apply getOrCreatePool_ok in Hget as (Hp1 & Hok1 & Hg1 & Hfo & Hr); [|done|by intros [= <- <- <-]; tauto|done].
  destruct (reconcileWarm _ h1) as [p2 h2] eqn:Hrec. intros [= <- <- <-].
  set (m1 := <[role := RolePool (rp_db rp) now (rp_cooledDown rp)]> (p_pools p1)) in *.
  assert (pools_ok p m1 h1) as Hok2.
  { rewrite <- (alter_id id h1 (rp_db rp)) by done.
    eapply pools_ok_update; [done|done|done|auto]. }
  apply reconcileWarm_ok in Hrec as (Hp2 & Hok3 & Hg2 & Hl).
  2:{ simpl. apply pools_ok_static. rewrite Hp1. by apply pools_ok_static. }
  simpl in Hl. assert (p2 = set_pools p (p_pools p2)) as Hp2' by (rewrite Hp2 at 1; by rewrite Hp1).
  assert (rp_lastUsed <$> p_pools p2 = rp_lastUsed <$> m1) as Hlast.
  { apply map_eq. intros r. rewrite !lookup_fmap, Hl. by destruct (m1 !! r). }
  split_and!; [done| |by etrans| | |].
  - rewrite Hp1 in Hok3. by apply pools_ok_static, pools_ok_static in Hok3.
  - intros r2 rp2 Hr2. rewrite Hl in Hr2. destruct (m1 !! r2) as [rp1|] eqn:E1; [|done].
    injection Hr2 as <-. simpl. unfold m1 in E1.
    apply lookup_insert_Some in E1 as [[<- <-]|[_ E1]]; by apply (Hfo _ _ ltac:(done)).
  - exists (set_flag (bool_decide (role ∈ rolesToCoolDown (rp_lastUsed <$> m1) (p_warmLimit p1)))
              (RolePool (rp_db rp) now (rp_cooledDown rp))).
    rewrite Hl. assert (m1 !! role = Some (RolePool (rp_db rp) now (rp_cooledDown rp))) as ->
      by apply lookup_insert_eq. done.
  - intros r2 rp2 Hr2. rewrite Hlast, Hl in *. destruct (m1 !! r2); [|done].
    injection Hr2 as <-. simpl. by rewrite Hp2.
Qed.
End manager.

(** ** The interleaved system *)

Definition holds_slot (ph : phase) : bool :=
  match ph with HasSlot _ | Failing _ | Holding _ _ => true | _ => false end.

(** The calls of [Acquire] that hold a slot. *)
Definition slots (calls : gmap nat phase) : nat := count_if holds_slot calls.

Lemma slots_insert calls t ph :
  Z.of_nat (slots (<[t := ph]> calls)) =
  (Z.of_nat (slots calls) + (if holds_slot ph then 1 else 0)
   - match calls !! t with Some old => if holds_slot old then 1 else 0 | None => 0 end)%Z.
Proof. apply count_if_insert. Qed.

Definition same_config (p0 p : RolePools) : Prop :=
  p_driver p = p_driver p0 /\ p_baseDSN p = p_baseDSN p0 /\ p_warmLimit p = p_warmLimit p0
  /\ p_cap p = p_cap p0 /\ p_defaults p = p_defaults p0 /\ p_password p = p_password p0.

Lemma conn_string_config p0 p role : same_config p0 p -> conn_string p role = conn_string p0 role.
Proof. unfold conn_string. by intros (_ & -> & _ & _ & _ & ->). Qed.

Lemma pools_ok_sem p n m h : pools_ok (set_sem p n) m h <-> pools_ok p m h.
Proof.
  split; intros [Ho Hi]; (split; [|done]); intros r rp Hr;
    destruct (Ho r rp Hr) as (d & Hd & []); exists d; split; auto; by split.
Qed.

Lemma pools_ok_delete p m h role : pools_ok p m h -> pools_ok p (delete role m) h.
Proof.
  intros [Ho Hi]. split.
  - intros r rp [_ Hr]%lookup_delete_Some. eauto.
  - intros r1 r2 rp1 rp2 [_ Ha]%lookup_delete_Some [_ Hb]%lookup_delete_Some. eauto.
Qed.

Lemma pools_ok_close p m h db :
  pools_ok p m h -> (forall role rp, m !! role = Some rp -> rp_db rp <> db) ->
  pools_ok p m (alter CloseDB db h).
Proof.
  intros [Ho Hi] Hne. split; [|done]. intros r rp Hr. destruct (Ho r rp Hr) as (d & Hd & Hok).
  exists d. rewrite lookup_alter_ne by (symmetry; by eapply Hne). auto.
Qed.

Record sys_inv (p0 : RolePools) (s : system) : Prop := {
  inv_config : same_config p0 (sys_p s);
  inv_sem : p_sem (sys_p s) = Z.of_nat (slots (sys_calls s));
  inv_cap : (p_sem (sys_p s) <= p_cap (sys_p s))%Z;
  inv_pools : pools_ok (sys_p s) (p_pools (sys_p s)) (sys_heap s);
  inv_role t role : sys_calls s !! t = Some (Waiting role) \/ sys_calls s !! t = Some (HasSlot role)
    -> match_ident role = true;
  inv_held t role db : sys_calls s !! t = Some (Holding role db) ->
    match_ident role = true /\ opened (sys_heap s) db (p_driver p0) (conn_string p0 role);
  inv_closing db : db ∈ sys_closing s -> is_Some (sys_heap s !! db)
    /\ forall role rp, p_pools (sys_p s) !! role = Some rp -> rp_db rp <> db
}.

Lemma opened_is_Some h db : is_Some (h !! db) <-> exists driver dsn, opened h db driver dsn.
Proof.
  unfold opened. split; [intros [d Hd]; eauto 6|]. by intros (? & ? & d & -> & _).
Qed.

Section system.
Context `{MapOrder} `{Opener}.

Lemma sys_inv_init driver baseDSN maxTotal warm pp fn p h :
  NewRolePools driver baseDSN maxTotal warm pp = Ok p ->
  sys_inv (UseRolePassword fn p) (init_system (UseRolePassword fn p) h).
Proof.
  unfold NewRolePools. destruct (String.eqb baseDSN EmptyString); [done|].
  destruct (Z.ltb_spec maxTotal 1); [done|]. intros [= <-].
  split; simpl; [done|done|lia| | | |].
  - split; intros ? ?; [|intros ? ?]; by rewrite lookup_empty.
  - intros t role. rewrite lookup_empty. by intros [|].
  - intros t role db. by rewrite lookup_empty.
  - intros db ?%elem_of_nil. done.
Qed.

(** A step that moves one call and keeps the pools. *)
Lemma sys_inv_call p0 s t ph n :
  sys_inv p0 s ->
  n = (p_sem (sys_p s) + (if holds_slot ph then 1 else 0)
       - match sys_calls s !! t with Some old => if holds_slot old then 1 else 0 | None => 0 end)%Z ->
  (n <= p_cap (sys_p s))%Z ->
  match ph with
  | Waiting role | HasSlot role => match_ident role = true
  | Holding role db => match_ident role = true
      /\ opened (sys_heap s) db (p_driver p0) (conn_string p0 role)
  | _ => True
  end ->
  sys_inv p0 (System (set_sem (sys_p s) n) (sys_heap s) (<[t := ph]> (sys_calls s)) (sys_closing s)).
Proof.
  intros [] Hn Hcap Hph. split; simpl; [done| |done| | | |done].
  - rewrite slots_insert. lia.
  - by apply pools_ok_sem.
  - intros t' role'. rewrite !lookup_insert_Some.
    intros [[[-> ->]|[? ?]]|[[-> ->]|[? ?]]]; eauto.
  - intros t' role' db'. rewrite lookup_insert_Some. intros [[-> ->]|[? ?]]; eauto.
Qed.

Lemma set_sem_id p : set_sem p (p_sem p) = p.
Proof. by destruct p. Qed.

Lemma sys_inv_critical p0 s t role now r p h :
  sys_inv p0 s -> sys_calls s !! t = Some (HasSlot role) ->
  acquire_locked role now (sys_p s) (sys_heap s) = (r, p, h) ->
  sys_inv p0 (System p h (<[t := match r with Ok db => Holding role db | Err e => Failing e end]>
                            (sys_calls s)) (sys_closing s)).
Proof.
  intros [] Ht (Hp & Hok & Hg & Hfo & Hr)%acquire_locked_ok; [|done].
  assert (same_config p0 p /\ p_sem p = p_sem (sys_p s) /\ p_cap p = p_cap (sys_p s)) as (Hc & Hs & Hcap).
  { by rewrite Hp. }
  split; simpl; [done| |congruence| | | |].
  - rewrite slots_insert, Ht, Hs. by destruct r; simpl; lia.
  - rewrite Hp at 1. by apply pools_ok_static.
  - intros t' role'. rewrite !lookup_insert_Some. intros Ht'.
    apply (inv_role0 t'). destruct Ht' as [[[_ Hx]|[_ ?]]|[[_ Hx]|[_ ?]]]; auto; by destruct r.
  - intros t' role' db'. rewrite lookup_insert_Some. intros [[-> Hx]|[_ Hx]].
    + destruct r as [db|e]; [|done]. injection Hx as -> ->.
      destruct Hr as [(rp & Hrp & <- & _) _]. split; [by eauto|].
      destruct (pk_obj _ _ _ Hok _ _ Hrp) as (d & Hd & Hdok). exists d. split; [done|].
      destruct Hdok as [-> -> _ _ _]. rewrite (conn_string_config p0) by done.
      split; [apply inv_config0|done].
    + apply inv_held0 in Hx as [? Ho]. split; [done|by apply Hg].
  - intros db Hdb. destruct (inv_closing0 db Hdb) as [Hs' Hne]. split.
    + apply opened_is_Some in Hs' as (dr & dsn & Ho). apply opened_is_Some. eauto.
    + intros role' rp' Hrp' <-. destruct (Hfo _ _ Hrp') as [Hn|(rp & Hrp & Heq)].
      * destruct Hs' as [? Hs']. congruence.
      * by apply (Hne _ _ Hrp).
Qed.

(** A step that removes pools and schedules their objects to be closed. *)
Lemma sys_inv_remove p0 s m dbs :
  sys_inv p0 s -> m ⊆ p_pools (sys_p s) ->
  (forall db, db ∈ dbs -> exists role rp, p_pools (sys_p s) !! role = Some rp /\ rp_db rp = db
     /\ m !! role = None) ->
  sys_inv p0 (System (set_pools (sys_p s) m) (sys_heap s) (sys_calls s) (dbs ++ sys_closing s)).
Proof.
  intros [] Hsub Hdbs. split; simpl; [done|done|done| |done|done|].
  - apply pools_ok_static. destruct inv_pools0 as [Ho Hi].
    split; [intros r rp Hr; apply Ho; by eapply lookup_weaken|].
    intros r1 r2 rp1 rp2 Ha Hb. apply (Hi r1 r2 rp1 rp2); by eapply lookup_weaken.
  - intros db [Hdb|Hdb]%elem_of_app.
    + destruct (Hdbs db Hdb) as (role & rp & Hrp & <- & Hn). split.
      * destruct (pk_obj _ _ _ inv_pools0 _ _ Hrp) as (d & -> & _). done.
      * intros r' rp' Hr' E. eapply lookup_weaken in Hr' as Hr2; [|done].
        rewrite (pk_inj _ _ _ inv_pools0 _ _ _ _ Hr2 Hrp E) in Hr'. congruence.
    + destruct (inv_closing0 db Hdb) as [Hs Hne]. split; [done|].
      intros r' rp' Hr'. apply (Hne r'). by eapply lookup_weaken.
Qed.

Lemma CloseDB_grows db h : heap_grows h (alter CloseDB db h).
Proof. by apply heap_grows_alter. Qed.

Lemma sys_inv_step p0 s s' : sys_inv p0 s -> step s s' -> sys_inv p0 s'.
Proof.
  intros Hinv Hstep. pose proof (inv_cap _ _ Hinv) as Hcap. destruct Hstep.
  - rewrite <- (set_sem_id (sys_p s)). apply sys_inv_call; [done| |done|].
    + rewrite H1. destruct (match_ident role); simpl; lia.
    + by destruct (match_ident role) eqn:E.
  - apply sys_inv_call; [done|rewrite H1; simpl; lia|lia|]. eapply inv_role; eauto.
  - rewrite <- (set_sem_id (sys_p s)). apply sys_inv_call; [done|rewrite H1; simpl; lia|done|done].
  - by eapply sys_inv_critical.
  - apply sys_inv_call; [done|rewrite H1; simpl; lia|lia|done].
  - apply sys_inv_call; [done|rewrite H1; simpl; lia|lia|done].
  - done.
  - unfold Evict_locked in H1. destruct (p_pools (sys_p s) !! role) as [rp|] eqn:E.
    + injection H1 as <- <-. apply sys_inv_remove; [done|apply delete_subseteq|].
      intros db ->%list_elem_of_singleton. exists role, rp. by rewrite lookup_delete_eq.
    + injection H1 as <- <-. by destruct s.
  - injection H1 as <- <-. apply sys_inv_remove; [done|apply map_empty_subseteq|].
    intros db ([role rp] & -> & Hr)%list_elem_of_fmap. apply elem_of_map_to_list in Hr.
    exists role, rp. by rewrite lookup_empty.
  - destruct (inv_closing _ _ Hinv _ H1) as [_ Hne]. destruct Hinv. split; simpl; try done.
    + by apply pools_ok_close.
    + intros t role' db' Ht. destruct (inv_held0 _ _ _ Ht) as [? Ho].
      split; [done|by apply CloseDB_grows].
    + intros db' [_ Hdb']%list_elem_of_filter. destruct (inv_closing0 _ Hdb') as [Hs ?].
      split; [|done]. rewrite opened_is_Some in *. deex. do 2 eexists. by apply CloseDB_grows.
Qed.

Lemma sys_inv_reachable driver baseDSN maxTotal warm pp fn p h s :
  NewRolePools driver baseDSN maxTotal warm pp = Ok p ->
  rtc step (init_system (UseRolePassword fn p) h) s -> sys_inv (UseRolePassword fn p) s.
Proof.
  intros Hp%(sys_inv_init _ _ _ _ _ fn _ h) Hs.
  induction Hs as [|s1 s2 s3 H12 _ IH]; [done|]. apply IH. by eapply sys_inv_step.
Qed.
End system.

(** ** Properties *)

Section properties.
Context `{MapOrder} `{Opener}.

(** The flags of a map of pools that agree with [rolesToCoolDown]. *)
Lemma warm_pools_size (m : gmap string rolePool) warm :
  (forall role rp, m !! role = Some rp -> rp_cooledDown rp
     = bool_decide (role ∈ rolesToCoolDown (rp_lastUsed <$> m) warm)) ->
  size (filter (fun x => rp_cooledDown x.2 = false) m) = Nat.min (size m) (Z.to_nat (Z.max 0 warm)).
Proof.
  intros Hflag. destruct (rolesToCoolDown_spec (rp_lastUsed <$> m) warm) as (Hnd & Hlen & Hin & _).
  set (P := fun x : string * rolePool => rp_cooledDown x.2 = true).
  set (cool := rolesToCoolDown (rp_lastUsed <$> m) warm) in *.
  assert (size (filter P m) = length cool) as Hcool.
  { rewrite <- (size_dom (D := gset string)), <- (size_list_to_set (C := gset string)) by exact Hnd.
    f_equal. apply set_eq. intros r. rewrite elem_of_list_to_set, elem_of_dom. split.
    - intros [rp [Hr HP]%map_lookup_filter_Some]. unfold P in HP. simpl in HP.
      rewrite (Hflag _ _ Hr) in HP. by apply bool_decide_eq_true in HP.
    - intros Hr. destruct (Hin r Hr) as [t Ht]. rewrite lookup_fmap in Ht.
      destruct (m !! r) as [rp|] eqn:E; [|done]. exists rp. apply map_lookup_filter_Some.
      split; [done|]. unfold P. simpl. rewrite (Hflag _ _ E). by apply bool_decide_eq_true. }
  assert (size m = size (filter P m) + size (filter (fun x => ~ P x) m)) as Hsplit.
  { rewrite <- map_size_disj_union by apply map_disjoint_filter_complement.
    by rewrite map_filter_union_complement. }
  assert (filter (fun x => rp_cooledDown x.2 = false) m = filter (fun x => ~ P x) m) as ->.
  { apply map_filter_ext. intros r rp _. unfold P. simpl. by destruct (rp_cooledDown rp). }
  assert (size (rp_lastUsed <$> m) = size m) as Hsz by apply map_size_fmap.
  unfold warm_count in Hlen. rewrite Hsz in Hlen. lia.
Qed.

(** C23: the global ceiling: however the calls of Acquire, release, Evict and
    Close interleave, the semaphore counts exactly the calls that hold a slot
    (a failing call gives its own back, a second release does nothing), and they
    are never more than [maxTotalBackends]. *)
Theorem backend_ceiling driver baseDSN maxTotal warm pp fn p h s
  (Hnew : NewRolePools driver baseDSN maxTotal warm pp = Ok p)
  (Hreach : rtc step (init_system (UseRolePassword fn p) h) s) :
  p_sem (sys_p s) = Z.of_nat (slots (sys_calls s))
  /\ (Z.of_nat (slots (sys_calls s)) <= maxTotal)%Z.
Proof.
  assert (p_cap p = maxTotal) as Hcap.
  { unfold NewRolePools in Hnew. repeat case_match; by simplify_eq/=. }
  destruct (sys_inv_reachable _ _ _ _ _ _ _ _ _ Hnew Hreach) as [(_ & _ & _ & Hc & _) Hs Hle _ _ _ _].
  split; [done|]. simpl in Hc. rewrite <- Hs. lia.
Qed.

(** The statistics cover the registered roles, each read from its own open pool. *)
Lemma Stats_reports {S} (db_Stats : sqlDB -> S) driver baseDSN maxTotal warm pp fn p h s role st :
  NewRolePools driver baseDSN maxTotal warm pp = Ok p ->
  rtc step (init_system (UseRolePassword fn p) h) s ->
  dom (Stats db_Stats (sys_p s) (sys_heap s)) = dom (p_pools (sys_p s))
  /\ (Stats db_Stats (sys_p s) (sys_heap s) !! role = Some st <->
      exists rp d, p_pools (sys_p s) !! role = Some rp /\ sys_heap s !! rp_db rp = Some d
        /\ sd_closed d = false /\ st = db_Stats d).
Proof.
  intros Hnew Hreach. destruct (sys_inv_reachable _ _ _ _ _ _ _ _ _ Hnew Hreach) as [_ _ _ Hpools _ _ _].
  unfold Stats. split.
  - apply set_eq. intros r. rewrite !elem_of_dom, lookup_omap. destruct (_ !! r) as [rp|] eqn:Hr; cbn; [|done].
    destruct (pk_obj _ _ _ Hpools _ _ Hr) as (d & -> & _). split; by eexists.
  - rewrite lookup_omap. destruct (_ !! role) as [rp|] eqn:Hr; cbn; [|split; [done|by intros (? & ? & ? & _)]].
    destruct (pk_obj _ _ _ Hpools _ _ Hr) as (d & Hd & [_ _ _ _ Hcl]). rewrite Hd. cbn. split.
    + intros [= <-]. by exists rp, d.
    + intros (rp' & d' & [= <-] & Hd' & _ & ->). congruence.
Qed.

(** C8: role isolation: a caller of Acquire that holds a pool holds one that was
    opened with the base connection string, its own (valid) role as the user
    and that role's password, whatever pools other callers created, evicted or
    closed meanwhile; and no pool that is still registered has been closed. *)
Theorem role_isolation driver baseDSN maxTotal warm pp fn p h s
  (Hnew : NewRolePools driver baseDSN maxTotal warm pp = Ok p)
  (Hreach : rtc step (init_system (UseRolePassword fn p) h) s) :
  (forall t role db, sys_calls s !! t = Some (Holding role db) ->
     match_ident role = true
     /\ exists d, sys_heap s !! db = Some d
          /\ sd_dsn d = baseDSN +:+ " user=" +:+ role +:+ password_param fn role)
  /\ (forall role rp, p_pools (sys_p s) !! role = Some rp ->
     exists d, sys_heap s !! rp_db rp = Some d /\ sd_closed d = false
          /\ sd_dsn d = baseDSN +:+ " user=" +:+ role +:+ password_param fn role).
Proof.
  assert (forall role, conn_string (UseRolePassword fn p) role
            = baseDSN +:+ " user=" +:+ role +:+ password_param fn role) as Hconn.
  { intros role. unfold conn_string. unfold NewRolePools in Hnew.
    repeat case_match; simplify_eq/=; done. }
  destruct (sys_inv_reachable _ _ _ _ _ _ _ _ _ Hnew Hreach) as [Hc _ _ Hpools _ Hheld _]. split.
  - intros t role db Ht. destruct (Hheld _ _ _ Ht) as [Hm (d & Hd & _ & Hdsn)].
    split; [done|]. exists d. by rewrite <- Hconn.
  - intros role rp Hr. destruct (pk_obj _ _ _ Hpools _ _ Hr) as (d & Hd & [_ Hdsn _ _ Hcl]).
    exists d.
    split_and!; [done..|]. rewrite <- Hconn, Hdsn. by apply conn_string_config.
Qed.

(** C32: the warm-pool LRU: after an acquisition exactly [warmLimit] pools (or all
    of them, if they are fewer; none for a negative limit) may keep idle
    connections, as many as [MaxIdle] allows, and every cooled pool, kept but
    with no idle connection, was used no later than every warm one. *)
Theorem acquire_lru driver baseDSN maxTotal warm pp fn p h s t role now db p' h'
  (Hnew : NewRolePools driver baseDSN maxTotal warm pp = Ok p)
  (Hreach : rtc step (init_system (UseRolePassword fn p) h) s)
  (Ht : sys_calls s !! t = Some (HasSlot role))
  (Hacq : acquire_locked role now (sys_p s) (sys_heap s) = (Ok db, p', h')) :
  size (filter (fun x => rp_cooledDown x.2 = false) (p_pools p'))
    = Nat.min (size (p_pools p')) (Z.to_nat (Z.max 0 warm))
  /\ (forall r rp, p_pools p' !! r = Some rp -> exists d, h' !! rp_db rp = Some d
       /\ maxIdleConnsLocked d = if rp_cooledDown rp then 0%Z else warm_idle pp)
  /\ (forall r1 r2 rp1 rp2, p_pools p' !! r1 = Some rp1 -> p_pools p' !! r2 = Some rp2 ->
       rp_cooledDown rp1 = true -> rp_cooledDown rp2 = false ->
       entry_le (rp_lastUsed rp1, r1) (rp_lastUsed rp2, r2))
  /\ exists rp, p_pools p' !! role = Some rp /\ rp_db rp = db /\ rp_lastUsed rp = now.
Proof.
  destruct (sys_inv_reachable _ _ _ _ _ _ _ _ _ Hnew Hreach) as [Hc _ _ Hpools _ _ _].
  apply acquire_locked_ok in Hacq as (Hp & Hok & _ & _ & (Hrole & Hflag)); [|done].
  assert (p_warmLimit p' = warm /\ p_defaults p' = pp) as [Hw Hd].
  { rewrite Hp. cbn. destruct Hc as (_ & _ & -> & _ & -> & _). simpl.
    unfold NewRolePools in Hnew. repeat case_match; by simplify_eq/=. }
  rewrite Hw in Hflag. split_and!; [by apply warm_pools_size| | |done].
  - intros r rp Hr. destruct (pk_obj _ _ _ Hok _ _ Hr) as (d & Hdd & [_ _ _ Hi _]).
    exists d. split; [done|]. by rewrite Hi, <- Hd, Hp.
  - intros r1 r2 rp1 rp2 H1' H2' Hc1 Hc2. rewrite (Hflag _ _ H1') in Hc1.
    rewrite (Hflag _ _ H2') in Hc2. breflect.
    destruct (rolesToCoolDown_spec (rp_lastUsed <$> p_pools p') warm) as (_ & _ & _ & Hle).
    apply Hle; [done|done|by rewrite lookup_fmap, H1'|by rewrite lookup_fmap, H2'].
Qed.
End properties.

(** ** Witnesses *)

Module Witness.
#[local] Existing Instance elements_order.

#[local] Program Instance opener : Opener :=
  {| open_db driver dsn h :=
       let k := fresh (dom h) in (Ok k, <[k := new_sqlDB driver dsn]> h) |}.
Next Obligation.
  intros driver dsn h k h' [= <- <-]. split; [|done].
  apply not_elem_of_dom, is_fresh.
Qed.
Next Obligation. by intros driver dsn h e h' [=]. Qed.

Definition pp : PoolParams := {| MaxOpen := 4; MaxIdle := 2; ConnMaxLifetime := 0; ConnMaxIdleTime := 0 |}.
Definition mgr : RolePools :=
  {| p_driver := "postgres"; p_baseDSN := "host=db"; p_warmLimit := 1; p_cap := 2; p_sem := 0;
     p_defaults := pp; p_pools := ∅; p_password := None |}.
Definition pw (role : string) : string := "pw_" +:+ role.

(** One caller with a slot, and then with its pool. *)
Definition s0 : system := init_system (UseRolePassword (Some pw) mgr) ∅.
Definition s1 : system :=
  System (set_sem (sys_p s0) 1) ∅ {[0 := HasSlot "r_1"]} [].

Lemma step_to s s' s'' : step s s' -> s' = s'' -> step s s''.
Proof. by intros ? <-. Qed.

Lemma reach_s1 : rtc step s0 s1.
Proof.
  transitivity (System (sys_p s0) ∅ {[0 := Waiting "r_1"]} []); apply rtc_once.
  - eapply step_to; [apply (step_call 0 "r_1"); reflexivity|vm_compute; reflexivity].
  - eapply step_to; [eapply (step_slot 0 "r_1"); reflexivity|vm_compute; reflexivity].
Qed.

Lemma backend_ceiling_witness : (Z.of_nat (slots (sys_calls s1)) <= 2)%Z.
Proof.
  apply (backend_ceiling "postgres" "host=db" 2 1 pp (Some pw) mgr ∅ s1); [reflexivity|exact reach_s1].
Defined.

Lemma acquire_lru_witness :
  exists rp, p_pools (acquire_locked "r_1" 5 (sys_p s1) (sys_heap s1)).1.2 !! "r_1" = Some rp
    /\ rp_db rp = 0 /\ rp_lastUsed rp = 5%Z.
Proof.
  eapply (acquire_lru "postgres" "host=db" 2 1 pp (Some pw) mgr ∅ s1 0 "r_1" 5 0);
    [reflexivity|exact reach_s1|reflexivity|vm_compute; reflexivity].
Defined.

Definition s2 : system :=
  let '(_, p, h) := acquire_locked "r_1" 5 (sys_p s1) (sys_heap s1) in
  System p h {[0 := Holding "r_1" 0]} [].

Lemma reach_s2 : rtc step s0 s2.
Proof.
  eapply rtc_r; [exact reach_s1|].
  eapply step_to; [apply (step_critical 0 "r_1" 5 (Ok 0)); [reflexivity|]|];
    vm_compute; reflexivity.
Qed.

Lemma role_isolation_witness :
  exists d, sys_heap s2 !! 0 = Some d /\ sd_dsn d = "host=db user=r_1 password=pw_r_1".
Proof.
  refine (proj2 (proj1 (role_isolation "postgres" "host=db" 2 1 pp (Some pw) mgr ∅ s2 _ reach_s2)
            0 "r_1" 0 _)); reflexivity.
Defined.
End Witness.
