(* ===== verification/TopQueries.v ===== *)
(** * The slow-query toplist (pathql.go)

    The bounded Space-Saving tracker behind the [top_queries] and [top_users]
    metrics: [Record], [Top], and what they guarantee about the durations that
    were really recorded. Counters are [uint64]; a nil dereference is [None]. *)

From S2P Require Import Prelude GoStrings.

Definition topQueriesCapacity : Z := 1000.
Definition topUsersCapacity : Z := 1000.

Record QueryStat := { Query : string; Count : Z; TotalMs : Z }.
Record queryStat := { count : Z; totalMs : Z }.

Record TopQueries := {
  tq_capacity : Z;
  tq_stats : gmap string queryStat
}.

Definition NewTopQueries (capacity : Z) : TopQueries :=
  {| tq_capacity := capacity; tq_stats := ∅ |}.

Definition total_of (m : gmap string queryStat) (q : string) : Z :=
  match m !! q with Some s => totalMs s | None => 0 end.

Section tracker.
Context `{MapOrder}.

(** The scan for the lowest total: strict comparison, starting at MaxUint64. *)
Definition scan_min (m : gmap string queryStat) (acc : string * Z) (q : string) : string * Z :=
  if (total_of m q <? acc.2)%Z then (q, total_of m q) else acc.
Definition min_query (m : gmap string queryStat) : string :=
  (foldl (scan_min m) (EmptyString, u64_max) (iter 0 (dom m))).1.

Definition Record_ (query : string) (durationMs : Z) (t : TopQueries) : option TopQueries :=
  let m := tq_stats t in
  let set m := {| tq_capacity := tq_capacity t; tq_stats := m |} in
  match m !! query with
  | Some s =>
      Some (set (<[query := {| count := wrap_u64 (count s + 1);
                               totalMs := wrap_u64 (totalMs s + durationMs) |}]> m))
  | None =>
      if (Z.of_nat (size m) <? tq_capacity t)%Z then
        Some (set (<[query := {| count := 1; totalMs := durationMs |}]> m))
      else
        let minQuery := min_query m in
        match m !! minQuery with
        | None => None
        | Some evicted =>
            Some (set (<[query := {| count := wrap_u64 (count evicted + 1);
                                     totalMs := wrap_u64 (totalMs evicted + durationMs) |}]>
                         (delete minQuery m)))
        end
  end.

(** [sort.Slice] by descending total; it orders ties as it likes. *)
Definition stat_ge (a b : QueryStat) : Prop := (TotalMs b <= TotalMs a)%Z.
#[global] Instance stat_ge_dec a b : Decision (stat_ge a b).
Proof. unfold stat_ge. apply _. Defined.

Definition stats_list (m : gmap string queryStat) : list QueryStat :=
  omap (fun q => (fun s => {| Query := q; Count := count s; TotalMs := totalMs s |}) <$> m !! q)
       (iter 1 (dom m)).

Definition Top (n : nat) (t : TopQueries) : list QueryStat :=
  let list := merge_sort stat_ge (stats_list (tq_stats t)) in
  if n <? length list then take n list else list.

(** A history of records, oldest first. *)
Fixpoint record_all (h : list (string * Z)) (t : TopQueries) : option TopQueries :=
  match h with
  | [] => Some t
  | (q, d) :: h => match Record_ q d t with Some t => record_all h t | None => None end
  end.
End tracker.

(** ** Sums *)

Definition sum_stats (f : queryStat -> Z) (m : gmap string queryStat) : Z :=
  map_fold (fun _ s acc => (f s + acc)%Z) 0%Z m.

Lemma sum_stats_insert f m q s :
  m !! q = None -> sum_stats f (<[q := s]> m) = (f s + sum_stats f m)%Z.
Proof. intros Hq. unfold sum_stats. rewrite map_fold_insert_L; [done|intros; lia|done]. Qed.

Lemma sum_stats_delete f m q s :
  m !! q = Some s -> sum_stats f m = (f s + sum_stats f (delete q m))%Z.
Proof.
  intros Hq. rewrite <- (sum_stats_insert f (delete q m) q s) by apply lookup_delete_eq.
  by rewrite insert_delete_id.
Qed.

Lemma sum_stats_update f m q s s' :
  m !! q = Some s -> sum_stats f (<[q := s']> m) = (sum_stats f m - f s + f s')%Z.
Proof.
  intros Hq. rewrite <- insert_delete_eq, sum_stats_insert by (by rewrite lookup_delete_eq).
  rewrite (sum_stats_delete f m q s Hq). lia.
Qed.

(** A lower bound of every entry bounds the sum from below. *)
Lemma sum_stats_lower f m b :
  (forall q s, m !! q = Some s -> b <= f s)%Z -> (b * Z.of_nat (size m) <= sum_stats f m)%Z.
Proof.
  induction m as [|q s m Hq IH] using map_ind; intros Hb.
  - unfold sum_stats. rewrite map_fold_empty, map_size_empty. lia.
  - rewrite sum_stats_insert, map_size_insert_None by done.
    assert (b * Z.of_nat (size m) <= sum_stats f m)%Z.
    { apply IH. intros q' s' Hq'. apply (Hb q'). rewrite lookup_insert_ne; [done|].
      intros ->. congruence. }
    specialize (Hb q s (lookup_insert_eq _ _ _)). lia.
Qed.

Lemma sum_stats_single f m q s :
  (forall q s, m !! q = Some s -> 0 <= f s)%Z -> m !! q = Some s -> (f s <= sum_stats f m)%Z.
Proof.
  intros Hpos Hq. rewrite (sum_stats_delete f m q s Hq).
  pose proof (sum_stats_lower f (delete q m) 0) as Hl. rewrite Z.mul_0_l in Hl.
  assert (0 <= sum_stats f (delete q m))%Z; [|lia].
  apply Hl. intros q' s' [_ Hs]%lookup_delete_Some. eauto.
Qed.

(** ** The true totals of a history *)

Fixpoint true_total (q : string) (h : list (string * Z)) : Z :=
  match h with
  | [] => 0
  | (q', d) :: h => ((if String.eqb q q' then d else 0) + true_total q h)%Z
  end.
Fixpoint grand_total (h : list (string * Z)) : Z :=
  match h with [] => 0 | (_, d) :: h => (d + grand_total h)%Z end.

Lemma true_total_app q h1 h2 : true_total q (h1 ++ h2) = (true_total q h1 + true_total q h2)%Z.
Proof. induction h1 as [|[q' d] h1 IH]; simpl; [done|]. rewrite IH. lia. Qed.

Lemma grand_total_app h1 h2 : grand_total (h1 ++ h2) = (grand_total h1 + grand_total h2)%Z.
Proof. induction h1 as [|[q' d] h1 IH]; simpl; [done|]. rewrite IH. lia. Qed.

Definition durations_ok (h : list (string * Z)) : Prop := Forall (fun qd => 0 <= qd.2)%Z h.

Lemma grand_total_pos h : durations_ok h -> (0 <= grand_total h)%Z.
Proof. induction 1 as [|[q d] h ? ? IH]; simpl in *; lia. Qed.

Lemma true_total_bounds q h : durations_ok h -> (0 <= true_total q h <= grand_total h)%Z.
Proof.
  induction 1 as [|[q' d] h ? ? IH]; simpl in *; [lia|]. destruct (String.eqb q q'); lia.
Qed.

(** ** The scan *)

Section scan.
Context `{MapOrder}.

Lemma scan_min_fold m l acc :
  let r := foldl (scan_min m) acc l in
  (r = acc \/ (exists q, q ∈ l /\ r = (q, total_of m q)))
  /\ (r.2 <= acc.2)%Z /\ forall q, q ∈ l -> (r.2 <= total_of m q)%Z.
Proof.
  revert acc; induction l as [|q l IH]; intros acc; cbn zeta; simpl.
  { split_and!; [by left|done|by intros q ?%elem_of_nil]. }
  destruct (IH (scan_min m acc q)) as (Hr & Hle & Hall).
  set (r := foldl _ _ l) in *. unfold scan_min in Hr, Hle.
  destruct (Z.ltb_spec (total_of m q) acc.2); simpl in *.
  - split_and!; [|lia|].
    + right. destruct Hr as [->|(q' & ? & ->)]; [exists q|exists q']; (split; [|done]); set_solver.
    + intros q' [->|?]%elem_of_cons; [done|auto].
  - split_and!; [|lia|].
    + destruct Hr as [->|(q' & ? & ->)]; [by left|right; exists q'; split; [set_solver|done]].
    + intros q' [->|?]%elem_of_cons; [lia|auto].
Qed.

(** With some total below MaxUint64, the scan finds an entry of least total. *)
Lemma min_query_spec m q0 s0 :
  m !! q0 = Some s0 -> (totalMs s0 < u64_max)%Z ->
  exists s, m !! min_query m = Some s
    /\ forall q s', m !! q = Some s' -> (totalMs s <= totalMs s')%Z.
Proof.
  intros Hq0 Hlt. unfold min_query.
  destruct (scan_min_fold m (iter 0 (dom m)) (EmptyString, u64_max)) as (Hr & _ & Hall).
  set (r := foldl _ _ _) in *.
  assert (forall q s', m !! q = Some s' -> (r.2 <= totalMs s')%Z) as Hmin.
  { intros q s' Hq. specialize (Hall q). unfold total_of in Hall. rewrite Hq in Hall.
    apply Hall, elem_of_iter. by apply elem_of_dom_2 in Hq. }
  destruct Hr as [Hr|(q & Hq & Hr)].
  - specialize (Hmin _ _ Hq0). rewrite Hr in Hmin. simpl in Hmin. lia.
  - rewrite Hr in *. simpl in *. apply elem_of_iter, elem_of_dom in Hq as [s Hs].
    exists s. split; [done|]. intros q' s' Hq'. specialize (Hmin _ _ Hq').
    unfold total_of in Hmin. by rewrite Hs in Hmin.
Qed.
End scan.

(** ** The Space-Saving invariant *)

(** [floor] is the error bound: no entry is below it, no entry exceeds its true
    total by more, and what is not tracked does not exceed it. *)
Record space_saving (cap : Z) (h : list (string * Z)) (t : TopQueries) (floor : Z) : Prop := {
  ss_cap : tq_capacity t = cap;
  ss_size : (Z.of_nat (size (tq_stats t)) <= cap)%Z;
  ss_sum : sum_stats totalMs (tq_stats t) = grand_total h;
  ss_counts : sum_stats count (tq_stats t) = Z.of_nat (length h)
    /\ forall q s, tq_stats t !! q = Some s -> (0 <= count s)%Z;
  ss_floor : (0 <= floor)%Z /\ forall q s, tq_stats t !! q = Some s -> (floor <= totalMs s)%Z;
  ss_tracked q s : tq_stats t !! q = Some s ->
    (true_total q h <= totalMs s <= true_total q h + floor)%Z;
  ss_untracked q : tq_stats t !! q = None -> (true_total q h <= floor)%Z;
  ss_free : (Z.of_nat (size (tq_stats t)) < cap)%Z -> floor = 0%Z
}.

Lemma space_saving_new cap : (1 <= cap)%Z -> space_saving cap [] (NewTopQueries cap) 0.
Proof.
  intros Hc.
  assert (forall q s (P : Prop), (∅ : gmap string queryStat) !! q = Some s -> P) as Hno.
  { intros q s P. by rewrite lookup_empty. }
  split; simpl; try done; try (split; [done|]); eauto.
  rewrite map_size_empty. lia.
Qed.

(** Adding [d] to the true total of [q], and of no other query. *)
Lemma true_total_snoc q' h q d :
  true_total q' (h ++ [(q, d)]) = (true_total q' h + if decide (q' = q) then d else 0)%Z.
Proof.
  rewrite true_total_app. simpl. rewrite Z.add_0_r. f_equal.
  case_decide as E; [subst; by rewrite String.eqb_refl|by apply String.eqb_neq in E as ->].
Qed.

Section invariant.
Context `{MapOrder}.
Variables (cap : Z) (h : list (string * Z)) (t : TopQueries) (floor : Z) (q : string) (d : Z).
Hypothesis (Hcap : (1 <= cap)%Z) (Hinv : space_saving cap h t floor).
Hypothesis (Hd : (0 <= d)%Z) (Hh : durations_ok h).
Hypothesis (Hsum : (grand_total h + d < u64_max)%Z).
Hypothesis (Hlen : (Z.of_nat (length h) < u64_max)%Z).

(** No counter of the map is near the end of its range. *)
Lemma counters_small q0 s0 :
  tq_stats t !! q0 = Some s0 ->
  (0 <= totalMs s0 <= grand_total h)%Z /\ (0 <= count s0 <= Z.of_nat (length h))%Z.
Proof.
  intros Hq. destruct Hinv as [_ _ Hs [Hc Hcp] [Hf Hfl] _ _ _].
  assert (forall q s, tq_stats t !! q = Some s -> (0 <= totalMs s)%Z) as Hpos.
  { intros q' s' Hq'. specialize (Hfl _ _ Hq'). lia. }
  pose proof (sum_stats_single totalMs _ _ _ Hpos Hq). pose proof (sum_stats_single count _ _ _ Hcp Hq).
  specialize (Hpos _ _ Hq). specialize (Hcp _ _ Hq). lia.
Qed.

Lemma record_bump s :
  tq_stats t !! q = Some s ->
  space_saving cap (h ++ [(q, d)])
    {| tq_capacity := tq_capacity t;
       tq_stats := <[q := {| count := (count s + 1)%Z; totalMs := (totalMs s + d)%Z |}]>
                     (tq_stats t) |} floor.
Proof.
  intros Hq. destruct Hinv as [Hc Hsz Hs [Hct Hcp] [Hf Hfl] Htr Hun Hfree].
  assert (size (<[q := {| count := (count s + 1)%Z; totalMs := (totalMs s + d)%Z |}]> (tq_stats t))
          = size (tq_stats t)) as Hsize by (rewrite map_size_insert_Some; [done|by eexists]).
  destruct (counters_small _ _ Hq). split; simpl; rewrite ?Hsize; try done.
  - rewrite (sum_stats_update _ _ _ s), grand_total_app by done. simpl. lia.
  - split; [rewrite (sum_stats_update _ _ _ s), length_app by done; simpl; lia|].
    intros q' s' [[<- <-]|[_ ?]]%lookup_insert_Some; simpl; [lia|eauto].
  - split; [done|]. intros q' s' [[<- <-]|[_ ?]]%lookup_insert_Some; simpl; [|eauto].
    specialize (Hfl _ _ Hq). lia.
  - intros q' s'. rewrite true_total_snoc.
    intros [[<- <-]|[? Hq']]%lookup_insert_Some; simpl.
    + rewrite decide_True by done. specialize (Htr _ _ Hq). lia.
    + rewrite decide_False by congruence. specialize (Htr _ _ Hq'). lia.
  - intros q' [Hq' ?]%lookup_insert_None. rewrite true_total_snoc, decide_False by congruence.
    specialize (Hun _ Hq'). lia.
Qed.

Lemma record_free :
  tq_stats t !! q = None -> (Z.of_nat (size (tq_stats t)) < cap)%Z ->
  space_saving cap (h ++ [(q, d)])
    {| tq_capacity := tq_capacity t;
       tq_stats := <[q := {| count := 1; totalMs := d |}]> (tq_stats t) |} 0.
Proof.
  intros Hq Hlt. destruct Hinv as [Hc Hsz Hs [Hct Hcp] [Hf Hfl] Htr Hun Hfree].
  specialize (Hfree Hlt). subst floor. pose proof (true_total_bounds q h Hh) as Htq.
  split; simpl; try done.
  - rewrite map_size_insert_None by done. lia.
  - rewrite sum_stats_insert, grand_total_app by done. simpl. lia.
  - split; [rewrite sum_stats_insert, length_app by done; simpl; lia|].
    intros q' s' [[<- <-]|[_ ?]]%lookup_insert_Some; simpl; [lia|eauto].
  - split; [done|]. intros q' s' [[<- <-]|[_ ?]]%lookup_insert_Some; simpl; [lia|eauto].
  - intros q' s'. rewrite true_total_snoc.
    intros [[<- <-]|[? Hq']]%lookup_insert_Some; simpl.
    + rewrite decide_True by done. specialize (Hun _ Hq). lia.
    + rewrite decide_False by congruence. specialize (Htr _ _ Hq'). lia.
  - intros q' [Hq' ?]%lookup_insert_None. rewrite true_total_snoc, decide_False by congruence.
    specialize (Hun _ Hq'). lia.
Qed.

Lemma record_evict m s :
  tq_stats t !! q = None -> Z.of_nat (size (tq_stats t)) = cap ->
  tq_stats t !! m = Some s ->
  (forall q' s', tq_stats t !! q' = Some s' -> totalMs s <= totalMs s')%Z ->
  space_saving cap (h ++ [(q, d)])
    {| tq_capacity := tq_capacity t;
       tq_stats := <[q := {| count := (count s + 1)%Z; totalMs := (totalMs s + d)%Z |}]>
                     (delete m (tq_stats t)) |} (totalMs s).
Proof.
  intros Hq Hfull Hm Hmin. destruct Hinv as [Hc Hsz Hs [Hct Hcp] [Hf Hfl] Htr Hun Hfree].
  assert (delete m (tq_stats t) !! q = None) as Hq2 by (apply lookup_delete_None; auto).
  pose proof (sum_stats_delete totalMs _ _ _ Hm). pose proof (sum_stats_delete count _ _ _ Hm).
  pose proof (true_total_bounds q h Hh) as Htq. pose proof (Hfl _ _ Hm) as Hfm.
  destruct (counters_small _ _ Hm). pose proof (Hun _ Hq).
  assert (size (<[q := {| count := (count s + 1)%Z; totalMs := (totalMs s + d)%Z |}]>
            (delete m (tq_stats t))) = size (tq_stats t)) as Hsize.
  { rewrite map_size_insert_None, map_size_delete_Some by (done || by eexists). lia. }
  split; simpl; rewrite ?Hsize; try done; try lia.
  - rewrite sum_stats_insert, grand_total_app by done. simpl. lia.
  - split; [rewrite sum_stats_insert, length_app by done; simpl; lia|].
    intros q' s' [[<- <-]|[_ [_ ?]%lookup_delete_Some]]%lookup_insert_Some; simpl; [lia|eauto].
  - split; [lia|].
    intros q' s' [[<- <-]|[_ [_ ?]%lookup_delete_Some]]%lookup_insert_Some; simpl; [lia|eauto].
  - intros q' s'. rewrite true_total_snoc.
    intros [[<- <-]|[? [_ Hq']%lookup_delete_Some]]%lookup_insert_Some; simpl.
    + rewrite decide_True by done. lia.
    + rewrite decide_False by congruence. specialize (Htr _ _ Hq'). lia.
  - intros q' [Hq' ?]%lookup_insert_None. rewrite true_total_snoc, decide_False by congruence.
    apply lookup_delete_None in Hq' as [<-|Hq'].
    + specialize (Htr _ _ Hm). lia.
    + specialize (Hun _ Hq'). lia.
Qed.

(** One record: it never fails and keeps the invariant, for some floor. *)
Lemma record_step :
  exists t' floor', Record_ q d t = Some t' /\ space_saving cap (h ++ [(q, d)]) t' floor'.
Proof.
  assert (forall s q0, tq_stats t !! q0 = Some s ->
    wrap_u64 (count s + 1) = (count s + 1)%Z /\ wrap_u64 (totalMs s + d) = (totalMs s + d)%Z) as Hw.
  { intros s q0 Hq0. destruct (counters_small _ _ Hq0). split; apply wrap_u64_id; unfold is_u64; lia. }
  unfold Record_. destruct (tq_stats t !! q) as [s|] eqn:Hq.
  - destruct (Hw _ _ Hq) as [-> ->]. do 2 eexists. split; [done|]. by apply record_bump.
  - pose proof (ss_cap _ _ _ _ Hinv) as Hc.
    destruct (Z.ltb_spec (Z.of_nat (size (tq_stats t))) (tq_capacity t)) as [Hlt|Hge];
      [rewrite Hc in Hlt|rewrite Hc in Hge].
    + do 2 eexists. split; [done|]. by apply record_free.
    + pose proof (ss_size _ _ _ _ Hinv).
      assert (exists q0 s0, tq_stats t !! q0 = Some s0) as (q0 & s0 & Hq0).
      { destruct (tq_stats t) as [|q0 s0 m _ _] using map_ind; [rewrite map_size_empty in *; lia|].
        exists q0, s0. apply lookup_insert_eq. }
      destruct (counters_small _ _ Hq0).
      destruct (min_query_spec _ _ _ Hq0) as (s & Hm & Hmin); [lia|].
      rewrite Hm. destruct (Hw _ _ Hm) as [-> ->].
      do 2 eexists. split; [done|]. apply record_evict; auto. lia.
Qed.
End invariant.

(** ** Properties *)

Section properties.
Context `{MapOrder}.

Lemma record_all_invariant cap h h0 t0 floor0 :
  (1 <= cap)%Z -> durations_ok (h0 ++ h) -> (grand_total (h0 ++ h) < u64_max)%Z ->
  (Z.of_nat (length (h0 ++ h)) <= u64_max)%Z ->
  space_saving cap h0 t0 floor0 ->
  exists t floor, record_all h t0 = Some t /\ space_saving cap (h0 ++ h) t floor.
Proof.
  intros Hcap. revert h0 t0 floor0; induction h as [|[q d] h IH]; intros h0 t0 floor0 Hd Hs Hl Hinv.
  { rewrite app_nil_r. eauto. }
  pose proof Hd as [Hd0 [Hd1 Hd2]%Forall_cons]%Forall_app. simpl in *.
  rewrite grand_total_app in Hs. simpl in Hs. rewrite length_app in Hl. simpl in Hl.
  pose proof (grand_total_pos h Hd2).
  destruct (record_step cap h0 t0 floor0 q d) as (t1 & f1 & -> & Hinv1); [done..|lia|lia|].
  replace (h0 ++ (q, d) :: h) with ((h0 ++ [(q, d)]) ++ h) in * by (by rewrite <- app_assoc).
  apply (IH _ _ f1); [done| | |done].
  - rewrite !grand_total_app. simpl. lia.
  - rewrite !length_app. simpl. lia.
Qed.

(** C31: the Space-Saving guarantee, for any history whose durations sum below
    2^64 - 1, any capacity of at least one and any map order: recording never
    fails; the entries are at most [cap], their totals and counts add up exactly
    to what was recorded; a tracked query is never underreported and is
    overreported by at most the average slot total; and every query whose true
    total exceeds that average is tracked. *)
Theorem record_all_space_saving (cap : Z) (h : list (string * Z))
  (Hcap : (1 <= cap)%Z) (Hd : durations_ok h) (Hs : (grand_total h < u64_max)%Z)
  (Hl : (Z.of_nat (length h) <= u64_max)%Z) :
  exists t, record_all h (NewTopQueries cap) = Some t
    /\ (Z.of_nat (size (tq_stats t)) <= cap)%Z
    /\ sum_stats totalMs (tq_stats t) = grand_total h
    /\ sum_stats count (tq_stats t) = Z.of_nat (length h)
    /\ (forall q s, tq_stats t !! q = Some s ->
         true_total q h <= totalMs s
         /\ cap * (totalMs s - true_total q h) <= grand_total h)%Z
    /\ (forall q, (grand_total h < cap * true_total q h)%Z -> is_Some (tq_stats t !! q)).
Proof.
  destruct (record_all_invariant cap h [] (NewTopQueries cap) 0) as (t & floor & Ht & Hinv);
    [done..|by apply space_saving_new|].
  destruct Hinv as [Hc Hsz Hsum [Hct _] [Hf Hfl] Htr Hun Hfree]. exists t.
  assert (cap * floor <= grand_total h)%Z as Havg.
  { destruct (decide (Z.of_nat (size (tq_stats t)) < cap)%Z) as [Hlt|Hge].
    - rewrite (Hfree Hlt). pose proof (grand_total_pos h Hd). simpl in *. lia.
    - pose proof (sum_stats_lower totalMs _ _ Hfl) as Hlow. simpl in *.
      replace (Z.of_nat (size (tq_stats t))) with cap in Hlow by lia. lia. }
  split_and!; try done.
  - intros q s Hq. specialize (Htr _ _ Hq). simpl in *. nia.
  - intros q Hq. destruct (tq_stats t !! q) eqn:E; [done|]. specialize (Hun _ E).
    simpl in *. nia.
Qed.

#[local] Instance stat_ge_trans : Transitive stat_ge.
Proof. intros a b c. unfold stat_ge. lia. Qed.
#[local] Instance stat_ge_total : Total stat_ge.
Proof. intros a b. unfold stat_ge. lia. Qed.

Lemma stats_list_queries m : map Query (stats_list m) = iter 1 (dom m).
Proof.
  unfold stats_list. assert (Forall (fun q => q ∈ dom m) (iter 1 (dom m))) as Hall.
  { apply Forall_forall. intros q. by rewrite elem_of_iter. }
  induction Hall as [|q l Hq _ IH]; [done|]. apply elem_of_dom in Hq as [s Hs].
  simpl. rewrite Hs. simpl. f_equal. exact IH.
Qed.

Lemma elem_of_stats_list m e :
  e ∈ stats_list m <->
  exists s, m !! Query e = Some s /\ count s = Count e /\ totalMs s = TotalMs e.
Proof.
  unfold stats_list. rewrite list_elem_of_omap. split.
  - intros (q & _ & Hq). destruct (m !! q) as [s|] eqn:E; [|done]. injection Hq as <-.
    exists s. auto.
  - destruct e as [q c d]. simpl. intros (s & Hs & <- & <-). exists q.
    rewrite Hs. split; [|done]. apply elem_of_iter. by apply elem_of_dom_2 in Hs.
Qed.

Lemma Top_take n t : Top n t = take n (merge_sort stat_ge (stats_list (tq_stats t))).
Proof.
  unfold Top. destruct (Nat.ltb_spec n (length (merge_sort stat_ge (stats_list (tq_stats t)))));
    [done|]. by rewrite take_ge.
Qed.

(** [Top] lists [n] entries (or all, if fewer) in descending order of their
    totals, none of them twice, and no entry it leaves out has a larger total
    than one it lists. *)
Theorem Top_spec (n : nat) (t : TopQueries) :
  length (Top n t) = Nat.min n (size (tq_stats t))
  /\ NoDup (map Query (Top n t))
  /\ StronglySorted stat_ge (Top n t)
  /\ (forall e, e ∈ Top n t ->
       exists s, tq_stats t !! Query e = Some s /\ count s = Count e /\ totalMs s = TotalMs e)
  /\ (forall q s e, tq_stats t !! q = Some s -> q ∉ map Query (Top n t) -> e ∈ Top n t ->
       (totalMs s <= TotalMs e)%Z).
Proof.
  set (full := merge_sort stat_ge (stats_list (tq_stats t))).
  assert (full ≡ₚ stats_list (tq_stats t)) as Hperm by apply merge_sort_Permutation.
  assert (map Query full ≡ₚ iter 1 (dom (tq_stats t))) as Hq by (by rewrite Hperm, stats_list_queries).
  assert (StronglySorted stat_ge full) as Hsort by (apply StronglySorted_merge_sort; apply _).
  rewrite Top_take. fold full. split_and!.
  - rewrite length_take. f_equal. rewrite <- (length_map Query), Hq, iter_perm.
    apply (size_dom (D := gset string)).
  - rewrite <- firstn_map. apply (sublist_NoDup _ (map Query full)); [|apply sublist_take].
    rewrite Hq. apply NoDup_iter.
  - rewrite <- (take_drop n full) in Hsort. by apply StronglySorted_app_1_l in Hsort.
  - intros e (i & He & _)%elem_of_take. apply list_elem_of_lookup_2 in He. rewrite Hperm in He. by apply elem_of_stats_list.
  - intros q s e Hs Hnot He.
    assert (q ∈ map Query full) as Hin.
    { rewrite Hq, elem_of_iter. by apply elem_of_dom_2 in Hs. }
    apply list_elem_of_fmap in Hin as (e' & -> & He').
    rewrite <- (take_drop n full), elem_of_app in He'. destruct He' as [He'|He'].
    { destruct Hnot. by apply list_elem_of_fmap_2. }
    rewrite <- (take_drop n full) in Hsort.
    pose proof (StronglySorted_app_1_elem_of _ _ _ _ _ Hsort He He') as Hle. unfold stat_ge in Hle.
    assert (e' ∈ stats_list (tq_stats t)) as Hl.
    { rewrite <- Hperm, <- (take_drop n full), elem_of_app. auto. }
    apply elem_of_stats_list in Hl as (s' & Hs' & _ & Heq).
    rewrite Hs in Hs'. injection Hs' as <-. lia.
Qed.
End properties.

Lemma record_all_space_saving_witness :
  exists t, @record_all elements_order
      [("a", 5); ("b", 1); ("c", 2); ("a", 7); ("d", 0)]%Z (NewTopQueries 2) = Some t
    /\ is_Some (tq_stats t !! "a").
Proof.
  destruct (@record_all_space_saving elements_order 2
    [("a", 5); ("b", 1); ("c", 2); ("a", 7); ("d", 0)]%Z) as (t & Ht & _ & _ & _ & _ & Hheavy).
  - lia.
  - unfold durations_ok. repeat (apply Forall_cons; split; [simpl; lia|]). constructor.
  - reflexivity.
  - vm_compute; discriminate.
  - exists t. split; [exact Ht|]. apply Hheavy. reflexivity.
Defined.
