(* ===== verification/Http.v ===== *)
(** * Handlers, responses and requests (net/http)

    A handler is a computation in the monad [M]: it reads the response header it
    starts from and a world [W], and yields the calls it made on its
    [http.ResponseWriter], the new world, and a value or a panic. Writers that
    wrap another one ([statusWriter] and the like) forward every call and record
    something about it: they are folds over the calls of the handler they were
    given to. *)

From S2P Require Import Prelude GoStrings.
From Stdlib Require Import Ascii.

(** ** Headers *)

(** [textproto.CanonicalMIMEHeaderKey]: untouched when some byte cannot occur in
    a token. *)
Definition token_byte (c : ascii) : bool :=
  isUpper c || isLower c || isDigitByte c
  || bool_decide (c ∈ ["!"; "#"; "$"; "%"; "&"; "'"; "*"; "+"; "-"; "."; "^"; "_"; "096"; "|"; "~"]%char).
Fixpoint canonical_go (upper : bool) (s : string) : string :=
  match s with
  | EmptyString => EmptyString
  | String c s =>
      String (if upper then upper_byte c else lower_byte c) (canonical_go (Ascii.eqb c "-") s)
  end.
Definition CanonicalHeaderKey (s : string) : string :=
  if str_forall token_byte s then canonical_go true s else s.

Abbreviation Header := (gmap string (list string)).

(** [Header.Get]: the first value, or the empty string. *)
Definition header_get (h : Header) (key : string) : string :=
  match h !! CanonicalHeaderKey key with Some (v :: _) => v | _ => EmptyString end.
Definition header_values (h : Header) (key : string) : list string :=
  default [] (h !! CanonicalHeaderKey key).
Definition header_set (key value : string) (h : Header) : Header :=
  <[CanonicalHeaderKey key := [value]]> h.
Definition header_add (key value : string) (h : Header) : Header :=
  <[CanonicalHeaderKey key := header_values h key ++ [value]]> h.

(** ** Calls on a response writer *)

Inductive wcall :=
| HSet (key value : string)      (* w.Header().Set *)
| HAdd (key value : string)      (* w.Header().Add *)
| WriteHeader (code : Z)
| Write (body : string).

#[export] Instance wcall_eq_dec : EqDecision wcall.
Proof. solve_decision. Defined.

Definition apply_call (h : Header) (c : wcall) : Header :=
  match c with
  | HSet k v => header_set k v h
  | HAdd k v => header_add k v h
  | _ => h
  end.
Definition apply_calls (h : Header) (cs : list wcall) : Header := foldl apply_call h cs.

(** Calls that commit the response header. *)
Definition commits (c : wcall) : bool :=
  match c with WriteHeader _ | Write _ => true | _ => false end.

(** What the client receives: the first commitment fixes the status and the
    headers; a handler that never commits gets an implicit 200. *)
Record response := Response { status : Z; headers : Header; body : string }.

Record resp_state := RespState {
  live : Header; committed : option (Z * Header); sent : string
}.
Definition resp_step (s : resp_state) (c : wcall) : resp_state :=
  let live := apply_call (live s) c in
  match c with
  | WriteHeader code =>
      RespState live (match committed s with Some x => Some x | None => Some (code, live) end) (sent s)
  | Write b =>
      RespState live (match committed s with Some x => Some x | None => Some (200%Z, live) end)
                (sent s +:+ b)
  | _ => RespState live (committed s) (sent s)
  end.
Definition response_of (h : Header) (cs : list wcall) : response :=
  let s := foldl resp_step (RespState h None EmptyString) cs in
  match committed s with
  | Some (code, hdr) => Response code hdr (sent s)
  | None => Response 200 (live s) (sent s)
  end.

(** ** The monad *)

Inductive outcome (A : Type) := Val (a : A) | Panic (value : string).
Arguments Val {A} a.
Arguments Panic {A} value.

Definition M (W A : Type) : Type := Header -> W -> list wcall * W * outcome A.

Section monad.
Context {W : Type}.

Definition ret {A} (a : A) : M W A := fun _ w => ([], w, Val a).
Definition bind {A B} (m : M W A) (f : A -> M W B) : M W B := fun h w =>
  let '(cs, w, r) := m h w in
  match r with
  | Panic v => (cs, w, Panic v)
  | Val a => let '(cs', w, r') := f a (apply_calls h cs) w in (cs ++ cs', w, r')
  end.
Definition call (c : wcall) : M W unit := fun _ w => ([c], w, Val tt).
Definition panic {A} (v : string) : M W A := fun _ w => ([], w, Panic v).
(** [w.Header().Get(key)] on the response. *)
Definition resp_header (key : string) : M W string := fun h w => ([], w, Val (header_get h key)).
(** An operation of the world. *)
Definition lift {A} (f : W -> A * W) : M W A := fun _ w => let '(a, w) := f w in ([], w, Val a).

(** [defer f()] around [m]: [f] runs whether [m] returns or panics; the panic, if
    any, goes on. *)
Definition finally {A} (m : M W A) (f : M W unit) : M W A := fun h w =>
  let '(cs, w, r) := m h w in
  let '(cs', w, r') := f (apply_calls h cs) w in
  (cs ++ cs', w, match r' with Panic v => Panic v | Val _ => r end).

(** [m] together with the calls it made: what a wrapping writer observed. *)
Definition listen {A} (m : M W A) : M W (list wcall * A) := fun h w =>
  let '(cs, w, r) := m h w in
  (cs, w, match r with Val a => Val (cs, a) | Panic v => Panic v end).

(** A call that may fail: the caller returns its error. *)
Definition bind_ok {E A B} (m : M W (result E A)) (f : A -> M W (result E B)) : M W (result E B) :=
  bind m (fun r => match r with Ok a => f a | Err e => ret (Err e) end).
(** A world operation that may panic. *)
Definition lift_outcome {A} (f : W -> outcome A * W) : M W A :=
  fun _ w => let '(r, w) := f w in ([], w, r).

(** [recover] in a deferred function: the panic value, if any, and the calls made
    until then. *)
Definition try_ {A} (m : M W A) : M W (list wcall * outcome A) := fun h w =>
  let '(cs, w, r) := m h w in (cs, w, Val (cs, r)).
End monad.

(** ** Requests *)

Record Request := {
  r_Method : string;
  r_Path : string;            (* r.URL.Path *)
  r_RequestURI : string;      (* r.URL.RequestURI() *)
  r_Host : string;
  r_RemoteAddr : string;
  r_Header : Header;
  r_TLS : bool;
  r_Body : option string;     (* nil, or what the client sends *)
  r_BodyLimit : option Z;     (* http.MaxBytesReader *)
  r_PathValue : string        (* the {id} of the matched pattern *)
}.

Definition with_BodyLimit (n : Z) (r : Request) : Request :=
  {| r_Method := r_Method r; r_Path := r_Path r; r_RequestURI := r_RequestURI r;
     r_Host := r_Host r; r_RemoteAddr := r_RemoteAddr r; r_Header := r_Header r;
     r_TLS := r_TLS r; r_Body := r_Body r;
     r_BodyLimit := Some (match r_BodyLimit r with Some m => Z.min m n | None => n end);
     r_PathValue := r_PathValue r |}.

(** [http.Handler]: context values travel as the extra argument [C]. *)
Definition Handler (W C : Type) : Type := C -> Request -> M W unit.

(** ** The world's clock and randomness *)

(** Unix time in nanoseconds; reading it may let time pass. *)
Class Clock (W : Type) := { Now : W -> Z * W }.
(** [rand.Read] of [n] bytes: the bytes, or an error. *)
Class Rand (W : Type) := { rand_Read : nat -> W -> result string string * W }.

Definition nanos_per_second : Z := 1000000000.
(** [t.Unix()] rounds down. *)
Definition Unix (t : Z) : Z := t / nanos_per_second.

Declare Scope http_scope.
Delimit Scope http_scope with http.
Notation "'let*' x := m 'in' k" := (bind m (fun x => k))
  (at level 10, x name, m at level 100, k at level 200) : http_scope.
Notation "m ;; k" := (bind m (fun _ => k)) (at level 100, right associativity) : http_scope.
Notation "'let?' x := m 'in' k" := (bind_ok m (fun x => k))
  (at level 10, x name, m at level 100, k at level 200) : http_scope.
Open Scope http_scope.

(** ** The parts of a run *)

Definition calls_of {W A} (x : list wcall * W * outcome A) : list wcall := x.1.1.
Definition world_of {W A} (x : list wcall * W * outcome A) : W := x.1.2.

(** ** Laws *)

Definition handler_eq {W A} : relation (M W A) := fun m1 m2 => forall h w, m1 h w = m2 h w.
#[export] Instance handler_eq_equiv {W A} : Equivalence (@handler_eq W A).
Proof.
  split.
  - by intros m h w.
  - intros m1 m2 E h w. by rewrite E.
  - intros m1 m2 m3 E1 E2 h w. by rewrite E1, E2.
Qed.

#[export] Instance bind_proper {W A B} :
  Proper (handler_eq ==> pointwise_relation A handler_eq ==> handler_eq) (@bind W A B).
Proof.
  intros m1 m2 Em f1 f2 Ef h w. unfold bind. rewrite Em.
  destruct (m2 h w) as [[cs w'] [a|v]]; [|done]. by rewrite (Ef a).
Qed.

#[export] Instance bind_ok_proper {W E A B} :
  Proper (handler_eq ==> pointwise_relation A handler_eq ==> handler_eq) (@bind_ok W E A B).
Proof. intros m1 m2 Em f1 f2 Ef. apply bind_proper; [done|]. by intros [a|e]. Qed.

Lemma apply_calls_app h cs1 cs2 :
  apply_calls h (cs1 ++ cs2) = apply_calls (apply_calls h cs1) cs2.
Proof. apply foldl_app. Qed.

Section laws.
Context {W : Type}.

Lemma bind_ret_l {A B} (a : A) (f : A -> M W B) : handler_eq (bind (ret a) f) (f a).
Proof. intros h w. unfold bind, ret. simpl. by destruct (f a h w) as [[cs w'] r]. Qed.

Lemma bind_ret_r {A} (m : M W A) : handler_eq (bind m ret) m.
Proof.
  intros h w. unfold bind, ret. destruct (m h w) as [[cs w'] [a|v]]; [|done].
  by rewrite app_nil_r.
Qed.

Lemma bind_assoc {A B C} (m : M W A) (f : A -> M W B) (g : B -> M W C) :
  handler_eq (bind (bind m f) g) (bind m (fun a => bind (f a) g)).
Proof.
  intros h w. unfold bind. destruct (m h w) as [[cs w'] [a|v]]; [|done].
  destruct (f a _ w') as [[cs' w''] [b|v]]; [|done].
  rewrite apply_calls_app. destruct (g b _ w'') as [[cs'' w'''] r]. by rewrite app_assoc.
Qed.

Lemma bind_ok_assoc {E A B C} (m : M W (result E A)) (f : A -> M W (result E B))
    (g : B -> M W (result E C)) :
  handler_eq (bind_ok (bind_ok m f) g) (bind_ok m (fun a => bind_ok (f a) g)).
Proof.
  unfold bind_ok. intros h w. rewrite bind_assoc. apply bind_proper; [done|].
  intros [a|e]; [done|]. intros h' w'. by rewrite (bind_ret_l (Err e)).
Qed.

Lemma bind_ok_ret {E A B} (a : A) (f : A -> M W (result E B)) :
  handler_eq (bind_ok (ret (Ok a)) f) (f a).
Proof. intros h w. unfold bind_ok. by rewrite (bind_ret_l (Ok a)). Qed.
End laws.
