(* ===== verification/GoHttp.v ===== *)
(** * The parts of net/http, mime and encoding/base64 the server parses with

    Basic credentials, cookies, media types and base64, as Go reads them. *)

From S2P Require Import Prelude GoStrings Http.
From Stdlib Require Import Ascii.

(** ** base64 *)

Definition b64_value (url : bool) (c : ascii) : option N :=
  if isUpper c then Some (byte c - 65)%N
  else if isLower c then Some (byte c - 71)%N
  else if isDigitByte c then Some (byte c + 4)%N
  else if Ascii.eqb c (if url then "-" else "+")%char then Some 62%N
  else if Ascii.eqb c (if url then "_" else "/")%char then Some 63%N
  else None.

Definition b64_char (n : N) : ascii := ascii_of_N (N.modulo n 256).

Fixpoint strip_newlines (s : string) : string :=
  match s with
  | EmptyString => EmptyString
  | String c s =>
      if Ascii.eqb c "010" || Ascii.eqb c "013" then strip_newlines s
      else String c (strip_newlines s)
  end.

(** Quanta of four characters; [pad] asks for [=] padding at the end, which the
    raw encoding refuses. Trailing bits are not checked. *)
Fixpoint b64_decode_go (url pad : bool) (s : string) : option string :=
  match s with
  | EmptyString => Some EmptyString
  | String a (String b EmptyString) =>
      if pad then None
      else x ← b64_value url a; y ← b64_value url b;
           Some (String (b64_char (x * 4 + y / 16)) EmptyString)
  | String a (String b (String c EmptyString)) =>
      if pad then None
      else x ← b64_value url a; y ← b64_value url b; z ← b64_value url c;
           Some (String (b64_char (x * 4 + y / 16))
                  (String (b64_char (y * 16 + z / 4)) EmptyString))
  | String a (String b (String c (String d rest))) =>
      x ← b64_value url a; y ← b64_value url b;
      if pad && Ascii.eqb c "=" then
        if Ascii.eqb d "=" && String.eqb rest EmptyString
        then Some (String (b64_char (x * 4 + y / 16)) EmptyString) else None
      else
        z ← b64_value url c;
        if pad && Ascii.eqb d "=" then
          if String.eqb rest EmptyString
          then Some (String (b64_char (x * 4 + y / 16))
                      (String (b64_char (y * 16 + z / 4)) EmptyString)) else None
        else
          t ← b64_value url d;
          r ← b64_decode_go url pad rest;
          Some (String (b64_char (x * 4 + y / 16))
                 (String (b64_char (y * 16 + z / 4)) (String (b64_char (z * 64 + t)) r)))
  | String _ EmptyString => None
  end.
(** [base64.StdEncoding.DecodeString] and [base64.RawURLEncoding.DecodeString]. *)
Definition b64_std (s : string) : option string := b64_decode_go false true (strip_newlines s).
Definition b64_rawurl (s : string) : option string := b64_decode_go true false (strip_newlines s).

(** ** Basic credentials *)

(** [r.BasicAuth]. *)
Definition BasicAuth (r : Request) : option (string * string) :=
  let auth := header_get (r_Header r) "Authorization" in
  if (6 <=? String.length auth) && String.eqb (str_map lower_byte (str_take 6 auth)) "basic " then
    c ← b64_std (str_drop 6 auth);
    cut_byte ":" c
  else None.

(** ** Cookies *)

Definition ascii_space (c : ascii) : bool :=
  Ascii.eqb c " " || Ascii.eqb c "009" || Ascii.eqb c "010" || Ascii.eqb c "013".
Fixpoint trim_left_ascii (s : string) : string :=
  match s with
  | EmptyString => EmptyString
  | String c s' => if ascii_space c then trim_left_ascii s' else s
  end.
Fixpoint trim_right_ascii (s : string) : string :=
  match s with
  | EmptyString => EmptyString
  | String c s =>
      match trim_right_ascii s with
      | EmptyString => if ascii_space c then EmptyString else String c EmptyString
      | s' => String c s'
      end
  end.
(** [textproto.TrimString]. *)
Definition TrimString (s : string) : string := trim_right_ascii (trim_left_ascii s).

(** [strings.Cut] at a byte. *)
Definition Cut (c : ascii) (s : string) : string * string :=
  match cut_byte c s with Some ab => ab | None => (s, EmptyString) end.

Definition valid_cookie_byte (c : ascii) : bool :=
  in_range 32 126 c && negb (Ascii.eqb c dquote) && negb (Ascii.eqb c ";")
  && negb (Ascii.eqb c "\").

Definition last_byte (s : string) : option ascii :=
  match s with EmptyString => None | _ => String.get (String.length s - 1) s end.

Definition parse_cookie_value (raw : string) : option string :=
  let raw :=
    match raw with
    | String q (String _ _ as rest) =>
        if Ascii.eqb q dquote && bool_decide (last_byte raw = Some dquote)
        then str_take (String.length rest - 1) rest else raw
    | _ => raw
    end in
  if str_forall valid_cookie_byte raw then Some raw else None.

Definition isToken (s : string) : bool :=
  match s with EmptyString => false | _ => str_forall token_byte s end.

(** The values of the cookies named [name] in one Cookie line. *)
Fixpoint line_cookies (fuel : nat) (name line : string) : list string :=
  match fuel, line with
  | S fuel, String _ _ =>
      let '(part, line) := Cut ";" line in
      let part := TrimString part in
      let '(n, v) := Cut "=" part in
      (if String.eqb part EmptyString then []
       else if negb (isToken (TrimString n)) then []
       else if negb (String.eqb (TrimString n) name) then []
       else match parse_cookie_value v with Some v => [v] | None => [] end)
      ++ line_cookies fuel name line
  | _, _ => []
  end.
(** [r.Cookie(name)]: the first one. *)
Definition Cookie (r : Request) (name : string) : option string :=
  head (concat (map (fun line => let line := TrimString line in
                                 line_cookies (String.length line) name line)
                    (header_values (r_Header r) "Cookie"))).

(** The Set-Cookie line for [Path=/; SameSite=Strict] and, over TLS, [Secure]. *)
Fixpoint sanitize_cookie_value (s : string) : string :=
  match s with
  | EmptyString => EmptyString
  | String c s =>
      if valid_cookie_byte c then String c (sanitize_cookie_value s) else sanitize_cookie_value s
  end.
Definition cookie_line (name value : string) (secure : bool) : string :=
  let v := sanitize_cookie_value value in
  let v := if contains_byte " " v || contains_byte "," v
           then String dquote (v +:+ String dquote EmptyString) else v in
  name +:+ "=" +:+ v +:+ "; Path=/" +:+ (if secure then "; Secure" else EmptyString)
       +:+ "; SameSite=Strict".

(** ** Media types *)

Definition tspecials : list ascii :=
  ["("; ")"; "<"; ">"; "@"; ","; ";"; ":"; "\"; "034"; "/"; "["; "]"; "?"; "="]%char.
Definition isTSpecial (c : ascii) : bool := bool_decide (c ∈ tspecials).
Definition mime_token_byte (c : ascii) : bool := in_range 33 126 c && negb (isTSpecial c).
Definition consumeToken (s : string) : string * string := span mime_token_byte s.

(** The text of a quoted string behind its opening quote, and what follows. *)
Fixpoint quoted_value (s : string) : option (string * string) :=
  match s with
  | EmptyString => None
  | String c s' =>
      if Ascii.eqb c dquote then Some (EmptyString, s')
      else
        match s' with
        | String d s'' =>
            if Ascii.eqb c "\" && isTSpecial d then
              '(v, rest) ← quoted_value s''; Some (String d v, rest)
            else if Ascii.eqb c "010" || Ascii.eqb c "013" then None
            else '(v, rest) ← quoted_value s'; Some (String c v, rest)
        | EmptyString => None
        end
  end.
(** [consumeValue]: [None] when nothing is consumed. *)
Definition consumeValue (s : string) : option (string * string) :=
  match s with
  | EmptyString => None
  | String c s' =>
      if Ascii.eqb c dquote then quoted_value s'
      else match consumeToken s with
           | (EmptyString, _) => None
           | vr => Some vr
           end
  end.

Section media.
Context `{UnicodeTables}.

(** [consumeMediaParam]: key, value and rest. *)
Definition consumeMediaParam (v : string) : option (string * string * string) :=
  match TrimLeftSpace v with
  | String ";" rest =>
      let '(param, rest) := consumeToken (TrimLeftSpace rest) in
      let param := ToLower param in
      if String.eqb param EmptyString then None
      else match TrimLeftSpace rest with
           | String "=" rest =>
               '(value, rest) ← consumeValue (TrimLeftSpace rest);
               Some (param, value, rest)
           | _ => None
           end
  | _ => None
  end.

(** The loop over the parameters: [false] is an error. *)
Fixpoint media_params (fuel : nat) (params : gmap string string) (v : string) : bool :=
  match fuel with
  | O => true
  | S fuel =>
      let v := TrimLeftSpace v in
      match v with
      | EmptyString => true
      | _ =>
          match consumeMediaParam v with
          | None => String.eqb (TrimSpace v) ";"
          | Some (key, value, rest) =>
              match params !! key with
              | Some old =>
                  if String.eqb old value then media_params fuel (<[key := value]> params) rest
                  else false
              | None => media_params fuel (<[key := value]> params) rest
              end
          end
      end
  end.

Definition checkMediaType (s : string) : bool :=
  let '(typ, rest) := consumeToken s in
  if String.eqb typ EmptyString then false
  else match rest with
       | EmptyString => true
       | String "/" rest =>
           let '(sub, rest) := consumeToken rest in
           negb (String.eqb sub EmptyString) && String.eqb rest EmptyString
       | _ => false
       end.

(** [mime.ParseMediaType], without the parameters: [None] is an error. *)
Definition ParseMediaType (v : string) : option string :=
  let '(base, _) := Cut ";" v in
  let mediatype := TrimSpace (ToLower base) in
  if checkMediaType mediatype
     && media_params (S (String.length v)) ∅ (str_drop (String.length base) v)
  then Some mediatype else None.
End media.

Example b64_basic : b64_std "dXNlcjpwYXNz" = Some "user:pass" /\ b64_std "dQ==" = Some "u"
  /\ b64_std "dQ" = None /\ b64_rawurl "dQ" = Some "u".
Proof. by split_and!. Qed.
Example media_json :
  @ParseMediaType ascii_tables "Application/JSON; charset=utf-8" = Some "application/json"
  /\ @ParseMediaType ascii_tables "application/json; charset" = None.
Proof. by split_and!. Qed.
