(* ===== verification/Cache.v ===== *)
(** * The cache (src/internal/cache)

    [Cache] is the interface the middlewares and the authenticators use; the
    embedded implementation is written over the operations of tqmemory
    ([TQMemory]), whose documented behaviour is the record [tq_documented]. *)

From S2P Require Import Prelude GoStrings Http.

Class Cache (W : Type) := {
  Increment : string -> Z -> Z -> W -> result string Z * W;
  Get : string -> W -> result string (option string) * W;
  Set_ : string -> string -> Z -> W -> result string unit * W
}.

(** ** The embedded cache *)

(** The errors of tqmemory the wrapper tells apart. *)
Inductive tq_error := ErrKeyExists | ErrKeyNotFound | TQOther (msg : string).

(** tqmemory.ShardedCache: Add, Increment, Get and Set, without the CAS tokens. *)
Class TQMemory (W : Type) := {
  tq_Add : string -> string -> Z -> W -> result tq_error unit * W;
  tq_Increment : string -> Z -> W -> result tq_error Z * W;
  tq_Get : string -> W -> result tq_error string * W;
  tq_Set : string -> string -> Z -> W -> result tq_error unit * W
}.

Definition tq_message (e : tq_error) : string :=
  match e with
  | ErrKeyExists => "key exists"
  | ErrKeyNotFound => "key not found"
  | TQOther msg => msg
  end.

Section embedded.
Context {W : Type} `{TQMemory W}.

Definition embedded_Increment (key : string) (delta ttl : Z) (w : W) : result string Z * W :=
  let increment w :=
    match tq_Increment key delta w with
    | (Ok val, w) => (Ok val, w)
    | (Err e, w) => (Err (tq_message e), w)
    end in
  match tq_Add key "0" ttl w with
  | (Ok _, w) | (Err ErrKeyExists, w) => increment w
  | (Err e, w) => (Err (tq_message e), w)
  end.

Definition embedded_Get (key : string) (w : W) : result string (option string) * W :=
  match tq_Get key w with
  | (Ok v, w) => (Ok (Some v), w)
  | (Err ErrKeyNotFound, w) => (Ok None, w)
  | (Err e, w) => (Err (tq_message e), w)
  end.

Definition embedded_Set (key value : string) (ttl : Z) (w : W) : result string unit * W :=
  match tq_Set key value ttl w with
  | (Ok _, w) => (Ok tt, w)
  | (Err e, w) => (Err (tq_message e), w)
  end.

#[export] Instance embedded : Cache W :=
  {| Increment := embedded_Increment; Get := embedded_Get; Set_ := embedded_Set |}.
End embedded.

(** ** What tqmemory documents *)

(** Live entries: value and expiry. An entry is there until its expiry. *)
Abbreviation store := (gmap string (string * Z)).

Definition live_entry (s : store) (t : Z) (key : string) : option string :=
  match s !! key with
  | Some (v, expiry) => if (t <? expiry)%Z then Some v else None
  | None => None
  end.

(** The store after each operation at time [t]; [Increment] keeps the expiry. *)
Definition store_Add (key value : string) (ttl t : Z) (s : store) : result tq_error unit * store :=
  match live_entry s t key with
  | Some _ => (Err ErrKeyExists, s)
  | None => (Ok tt, <[key := (value, (t + ttl)%Z)]> s)
  end.
Definition parse_uint (v : string) : option Z :=
  match v with
  | EmptyString => None
  | _ => match digits_value 0 v with
         | Some z => if (z <=? u64_max)%Z then Some z else None
         | None => None
         end
  end.
Definition store_Increment (key : string) (delta t : Z) (s : store) : result tq_error Z * store :=
  match live_entry s t key with
  | None => (Err ErrKeyNotFound, s)
  | Some v =>
      match parse_uint v with
      | None => (Err (TQOther "not a number"), s)
      | Some n =>
          let n := wrap_u64 (n + delta) in
          (Ok n, match s !! key with
                 | Some (_, expiry) => <[key := (FormatInt n, expiry)]> s
                 | None => s
                 end)
      end
  end.
Definition store_Get (key : string) (t : Z) (s : store) : result tq_error string * store :=
  match live_entry s t key with
  | Some v => (Ok v, s)
  | None => (Err ErrKeyNotFound, s)
  end.
Definition store_Set (key value : string) (ttl t : Z) (s : store) : result tq_error unit * store :=
  (Ok tt, <[key := (value, (t + ttl)%Z)]> s).

(** The operations of tqmemory act on the abstract store at the world's current
    time, which they do not advance; reading the clock does not touch the store. *)
Record tq_documented (W : Type) `{TQMemory W} `{Clock W} := {
  entries : W -> store;
  time : W -> Z;
  tq_Add_doc key value ttl w :
    let '(r, s) := store_Add key value ttl (time w) (entries w) in
    fst (tq_Add key value ttl w) = r /\ entries (snd (tq_Add key value ttl w)) = s
    /\ time (snd (tq_Add key value ttl w)) = time w;
  tq_Increment_doc key delta w :
    let '(r, s) := store_Increment key delta (time w) (entries w) in
    fst (tq_Increment key delta w) = r /\ entries (snd (tq_Increment key delta w)) = s
    /\ time (snd (tq_Increment key delta w)) = time w;
  Now_doc w : entries (snd (Now w)) = entries w /\ (time w <= fst (Now w) <= time (snd (Now w)))%Z
}.
Arguments entries {W _ _} _ _.
Arguments time {W _ _} _ _.
Arguments tq_Add_doc {W _ _} _.
Arguments tq_Increment_doc {W _ _} _.
Arguments Now_doc {W _ _} _.

(** ** The fixed window *)

Definition window_count (s : store) (t : Z) (key : string) : Z :=
  match live_entry s t key with
  | Some v => default 0%Z (parse_uint v)
  | None => 0%Z
  end.

(** Entries written by [Increment]: decimal [uint64]s. *)
Definition counter_entry (s : store) (key : string) : Prop :=
  match s !! key with
  | Some (v, _) => exists n, is_u64 n /\ v = FormatInt n
  | None => True
  end.

Lemma parse_uint_FormatInt n : is_u64 n -> parse_uint (FormatInt n) = Some n.
Proof.
  unfold is_u64. intros Hn. unfold parse_uint.
  destruct (FormatInt n) eqn:E; [by apply FormatInt_nonempty in E|]. rewrite <- E.
  rewrite digits_value_FormatInt by lia. by rewrite (proj2 (Z.leb_le _ _)) by lia.
Qed.

(** The state of one counter at time [t]: its count, and the expiry of its
    window if one is open. *)
Definition counter (s : store) (t : Z) (key : string) (n : Z) (expiry : option Z) : Prop :=
  is_u64 n /\
  match expiry with
  | Some e => s !! key = Some (FormatInt n, e) /\ (t < e)%Z
  | None => live_entry s t key = None /\ n = 0%Z
  end.

Lemma live_entry_counter s t key n e :
  counter s t key n (Some e) -> live_entry s t key = Some (FormatInt n).
Proof. intros (_ & Hs & Ht). unfold live_entry. by rewrite Hs, (proj2 (Z.ltb_lt _ _)). Qed.

Section fixed_window.
Context {W : Type} `{TQMemory W, Clock W} (D : tq_documented W).

Lemma embedded_Increment_time key delta ttl w :
  time D (snd (embedded_Increment key delta ttl w)) = time D w.
Proof.
  unfold embedded_Increment. pose proof (tq_Add_doc D key "0" ttl w) as Ha.
  destruct (store_Add key "0" ttl (time D w) (entries D w)), (tq_Add key "0" ttl w) as [ra w1].
  pose proof (tq_Increment_doc D key delta w1) as Hi.
  destruct (store_Increment key delta (time D w1) (entries D w1)), (tq_Increment key delta w1) as [ri w2].
  simpl in *. destruct Ha as (_ & _ & Ha), Hi as (_ & _ & Hi).
  destruct ra as [|[]], ri; simpl; congruence.
Qed.

(** The fixed window: [Increment] adds to the count of the open window, or opens
    one of length [ttl]; other keys are not touched. *)
Lemma embedded_Increment_counter key delta ttl w n expiry :
  counter (entries D w) (time D w) key n expiry -> (0 < ttl)%Z -> (0 <= delta)%Z ->
  (n + delta <= u64_max)%Z ->
  fst (embedded_Increment key delta ttl w) = Ok (n + delta)%Z
  /\ let w' := snd (embedded_Increment key delta ttl w) in
     time D w' = time D w
     /\ counter (entries D w') (time D w) key (n + delta)
          (Some (default (time D w + ttl)%Z expiry))
     /\ forall key', key' <> key -> entries D w' !! key' = entries D w !! key'.
Proof.
  intros Hcnt Httl Hdelta Hmax. unfold embedded_Increment.
  assert (is_u64 n) as Hn by apply Hcnt.
  assert (is_u64 (n + delta)) as Hnd by (unfold is_u64 in *; lia).
  pose proof (tq_Add_doc D key "0" ttl w) as Hadd. unfold store_Add in Hadd.
  destruct (tq_Add key "0" ttl w) as [radd w1]. simpl in Hadd.
  assert (exists e, e = default (time D w + ttl)%Z expiry
    /\ counter (entries D w1) (time D w1) key n (Some e) /\ time D w1 = time D w
    /\ (radd = Ok tt \/ radd = Err ErrKeyExists)
    /\ forall key', key' <> key -> entries D w1 !! key' = entries D w !! key')
    as (e & He & Hc1 & Ht1 & Hradd & Hother).
  { destruct expiry as [e|].
    - rewrite (live_entry_counter _ _ _ _ _ Hcnt) in Hadd. destruct Hadd as (-> & -> & ->).
      exists e. split_and!; auto.
    - destruct Hcnt as (_ & Hlive & ->). rewrite Hlive in Hadd. destruct Hadd as (-> & -> & ->).
      exists (time D w + ttl)%Z. split_and!; auto.
      + split; [done|]. rewrite lookup_insert_eq. split; [done|lia].
      + intros key' Hne. by rewrite lookup_insert_ne. }
  assert (forall key', key' <> key -> entries D w !! key' = entries D w1 !! key') as Hother'
    by (intros; symmetry; auto).
  pose proof (tq_Increment_doc D key delta w1) as Hinc. unfold store_Increment in Hinc.
  rewrite (live_entry_counter _ _ _ _ _ Hc1), (parse_uint_FormatInt n Hn) in Hinc.
  destruct Hc1 as (_ & Hs1 & Hlt). rewrite Hs1, wrap_u64_id in Hinc by done.
  destruct (tq_Increment key delta w1) as [rinc w2]. simpl in Hinc.
  destruct Hinc as (-> & Hs2 & Ht2).
  assert (match radd with Ok _ | Err ErrKeyExists => (Ok (n + delta)%Z : result string Z, w2)
          | Err e => (Err (tq_message e), w1) end = (Ok (n + delta)%Z, w2)) as ->
    by (by destruct Hradd as [-> | ->]).
  simpl. rewrite Hs2, <- He. split_and!; [done|congruence| |].
  - split; [done|]. rewrite lookup_insert_eq. split; [done|]. congruence || lia.
  - intros key' Hne. rewrite lookup_insert_ne by done. auto.
Qed.
End fixed_window.
