(* ===== verification/Middleware.v ===== *)
(** * The middlewares (src/internal/middleware)

    Every middleware of the request chain as a function on handlers, with the
    guards and the calls of the code in their order: panic recovery, body limit,
    headers, CORS, firewall, XSRF, rate limit and lockout, and the client address
    they share. What is logged is not modelled. *)

From S2P Require Import Prelude GoStrings GoNet Http GoHttp Cache.
From Stdlib Require Import Ascii.

(** ** The generic bodies *)

Definition genericInternalError : string :=
  js "{`type`:`Error`,`message`:`internal error`}".
Definition genericRateLimited : string :=
  js "{`type`:`Error`,`message`:`too many requests`}".
Definition genericLockedOut : string :=
  js "{`type`:`Error`,`message`:`too many failed attempts`}".
Definition genericConcurrencyLimited : string :=
  js "{`type`:`Error`,`message`:`too many concurrent requests`}".
Definition genericOverloaded : string :=
  js "{`type`:`Error`,`message`:`server busy`}".
Definition forbiddenJSON : string := js "{`type`:`Error`,`message`:`forbidden`}".
Definition genericUnsupportedMedia : string :=
  js "{`type`:`Error`,`message`:`unsupported media type`}".
Definition xsrfForbidden : string :=
  js "{`type`:`Error`,`message`:`missing or invalid XSRF token`}".

Definition requestIDHeader : string := "X-Request-Id".
Definition retryAfterShort : string := "1".
Definition corsAllowMethods : string := "POST, OPTIONS".
Definition corsAllowHeaders : string := "Authorization, Content-Type, X-API-Key".
Definition hstsValue : string := "max-age=31536000; includeSubDomains".
Definition xsrfCookieName : string := "XSRF-TOKEN".
Definition xsrfHeaderName : string := "X-XSRF-TOKEN".
Definition minute_ns : Z := 60 * nanos_per_second.

(** ** The client address (clientip.go) *)

Definition remoteAddrIP (remoteAddr : string) : string :=
  match SplitHostPort remoteAddr with Some (host, _) => host | None => remoteAddr end.

(** A nil network of the Go slice has no counterpart: configuration never makes
    one. *)
Definition ipInAny (ipStr : string) (nets : list IPNet) : bool :=
  match nets with
  | [] => false
  | _ =>
      match ParseIP ipStr with
      | None => false
      | Some ip => existsb (fun n => Contains n ip) nets
      end
  end.

Definition ClientIP (r : Request) (trustedProxies : list IPNet) : string :=
  let remoteIP := remoteAddrIP (r_RemoteAddr r) in
  if negb (ipInAny remoteIP trustedProxies) then remoteIP
  else
    let xff := header_get (r_Header r) "X-Forwarded-For" in
    let first := match cut_byte "," xff with Some (first, _) => first | None => xff end in
    let ip := if String.eqb xff EmptyString then EmptyString else TrimSpace first in
    if negb (String.eqb ip EmptyString) then ip
    else
      let xr := TrimSpace (header_get (r_Header r) "X-Real-IP") in
      if negb (String.eqb xr EmptyString) then xr else remoteIP.

(** The network of one configuration entry; [None] is the error. *)
Definition proxy_net (s : string) : option IPNet :=
  match ParseCIDR s with
  | Some n => Some n
  | None =>
      match ParseIP s with
      | None => None
      | Some ip =>
          Some match To4 ip with
               | Some v4 => {| net_IP := v4; net_Mask := CIDRMask 32 32 |}
               | None => {| net_IP := ip; net_Mask := CIDRMask 128 128 |}
               end
      end
  end.
Fixpoint ParseTrustedProxies (cidrs : list string) : result string (list IPNet) :=
  match cidrs with
  | [] => Ok []
  | raw :: cidrs =>
      let s := TrimSpace raw in
      if String.eqb s EmptyString then ParseTrustedProxies cidrs
      else match proxy_net s with
           | None => Err raw
           | Some n =>
               match ParseTrustedProxies cidrs with
               | Ok out => Ok (n :: out)
               | Err e => Err e
               end
           end
  end.

(** ** Wrapping writers *)

(** [recoverResponseWriter.wroteHeader]. *)
Definition wroteHeader (cs : list wcall) : bool := existsb commits cs.

(** [statusWriter]: the code of the first WriteHeader that no Write precedes. *)
Definition status_step (s : Z * bool) (c : wcall) : Z * bool :=
  match c with
  | WriteHeader code => if negb s.2 then (code, true) else s
  | Write _ => (s.1, true)
  | _ => s
  end.
Definition statusWriter (cs : list wcall) : Z := (foldl status_step (200%Z, false) cs).1.

Section middleware.
Context {W C : Type} `{Clock W} `{Rand W} `{Cache W} `{UnicodeTables}.

Local Abbreviation handler := (Handler W C).

(** A JSON error body with its status, as every rejection writes it. *)
Definition reject (code : Z) (body : string) : M W unit :=
  call (HSet "Content-Type" "application/json") ;;
  call (WriteHeader code) ;;
  call (Write body).

Definition reject_retry (code : Z) (retryAfter body : string) : M W unit :=
  call (HSet "Content-Type" "application/json") ;;
  call (HSet "Retry-After" retryAfter) ;;
  call (WriteHeader code) ;;
  call (Write body).

(** ** Recovery, body limit and headers (middleware.go, transport.go) *)

Definition Recover (next : handler) : handler := fun c r =>
  let* cr := try_ (next c r) in
  match snd cr with
  | Val _ => ret tt
  | Panic _ =>
      if negb (wroteHeader (fst cr)) then
        call (HSet "Content-Type" "application/json") ;;
        call (WriteHeader 500) ;;
        call (Write genericInternalError)
      else ret tt
  end.

Definition BodyLimit (maxBytes : Z) (next : handler) : handler := fun c r =>
  next c (match r_Body r with Some _ => with_BodyLimit maxBytes r | None => r end).

Definition SecurityHeaders (next : handler) : handler := fun c r =>
  call (HSet "X-Content-Type-Options" "nosniff") ;;
  call (HSet "Cache-Control" "no-store") ;;
  next c r.

Definition newRequestID : M W string :=
  let* b := lift (rand_Read 16) in
  match b with
  | Ok b => ret (hex_encode b)
  | Err e => panic ("middleware: crypto/rand failed: " +:+ e)
  end.

Definition RequestID (next : handler) : handler := fun c r =>
  let id := header_get (r_Header r) requestIDHeader in
  let* id := (if String.eqb id EmptyString then newRequestID else ret id) in
  call (HSet requestIDHeader id) ;;
  next c r.

Definition HSTS (next : handler) : handler := fun c r =>
  call (HSet "Strict-Transport-Security" hstsValue) ;;
  next c r.

Definition RequireContentTypeJSON (next : handler) : handler := fun c r =>
  if bool_decide (r_Method r ∈ ["POST"; "PUT"; "PATCH"]) then
    match ParseMediaType (header_get (r_Header r) "Content-Type") with
    | Some mediaType =>
        if String.eqb mediaType "application/json" then next c r
        else reject 415 genericUnsupportedMedia
    | None => reject 415 genericUnsupportedMedia
    end
  else next c r.

(** ** CORS (cors.go) *)

Definition cors_allowed (allowedOrigins : list string) : gset string :=
  list_to_set (filter (fun o => o <> EmptyString /\ o <> "*") allowedOrigins).

Definition CORS (allowedOrigins : list string) (next : handler) : handler := fun c r =>
  let origin := header_get (r_Header r) "Origin" in
  (if negb (String.eqb origin EmptyString)
      && bool_decide (origin ∈ cors_allowed allowedOrigins) then
     call (HAdd "Vary" "Origin") ;;
     call (HSet "Access-Control-Allow-Origin" origin) ;;
     call (HSet "Access-Control-Allow-Methods" corsAllowMethods) ;;
     call (HSet "Access-Control-Allow-Headers" corsAllowHeaders)
   else ret tt) ;;
  if String.eqb (r_Method r) "OPTIONS" then call (WriteHeader 204)
  else next c r.

(** ** Firewall (firewall.go) *)

Definition firewallBlocks (ip : string) (allow deny : list IPNet) : bool :=
  if ipInAny ip deny then true
  else if negb (bool_decide (allow = [])) && negb (ipInAny ip allow) then true
  else false.

Definition Firewall (allow deny trustedProxies : list IPNet) (next : handler) : handler :=
  match allow, deny with
  | [], [] => next
  | _, _ => fun c r =>
      if firewallBlocks (ClientIP r trustedProxies) allow deny then reject 403 forbiddenJSON
      else next c r
  end.

(** ** XSRF (xsrf.go) *)

Definition isSafeMethod (method : string) : bool :=
  bool_decide (method ∈ ["GET"; "HEAD"; "OPTIONS"; "TRACE"]).

Definition setXSRFCookie (r : Request) (token : string) : M W unit :=
  call (HAdd "Set-Cookie" (cookie_line xsrfCookieName token (r_TLS r))).

Definition XSRF (enabled : bool) (next : handler) : handler :=
  if negb enabled then next
  else fun c r =>
    let token := default EmptyString (Cookie r xsrfCookieName) in
    let* token := (if String.eqb token EmptyString then
                     let* token := newRequestID in
                     setXSRFCookie r token ;; ret token
                   else ret token) in
    if isSafeMethod (r_Method r) then next c r
    else
      let sent := header_get (r_Header r) xsrfHeaderName in
      if String.eqb sent EmptyString || negb (String.eqb sent token)
      then reject 403 xsrfForbidden
      else next c r.

(** ** Rate limit (ratelimit.go) *)

(** [t.Truncate(time.Minute)] counts from the zero time, a whole number of
    minutes before the epoch. *)
Definition secondsToNextMinute (now : Z) : Z :=
  (let next := now - now mod minute_ns + minute_ns in
   let secs := (next - now) / nanos_per_second in
   if secs <? 1 then 1 else secs)%Z.

Definition rate_key (ip : string) (minute : Z) : string :=
  "ratelimit:" +:+ ip +:+ ":" +:+ FormatInt minute.

Definition RateLimitPerIP (has_cache : bool) (perMinute : Z) (trustedProxies : list IPNet)
    (next : handler) : handler :=
  if (perMinute <=? 0)%Z || negb has_cache then next
  else fun c r =>
    let* now := lift Now in
    let minute := (Unix now / 60)%Z in
    let ip := ClientIP r trustedProxies in
    let* count := lift (Increment (rate_key ip minute) 1 minute_ns) in
    match count with
    | Err _ => next c r
    | Ok count =>
        if (perMinute <? count)%Z
        then reject_retry 429 (FormatInt (secondsToNextMinute now)) genericRateLimited
        else next c r
    end.

(** ** Brute-force lockout (lockout.go) *)

Definition keyPrefix (key : string) : string :=
  if (8 <? String.length key)%nat then str_take 8 key else key.

Definition lockoutID (r : Request) (trustedProxies : list IPNet) : string :=
  let h := header_get (r_Header r) "Authorization" in
  let lower := ToLower h in
  let from_authorization :=
    if String.eqb h EmptyString then None
    else if HasPrefix lower "apikey " then
      let rest := TrimSpace (str_drop 6 h) in
      if String.eqb rest EmptyString then None else Some ("k:" +:+ keyPrefix rest)
    else if HasPrefix lower "basic " then
      match BasicAuth r with
      | Some (user, _) => if String.eqb user EmptyString then None else Some ("u:" +:+ user)
      | None => None
      end
    else None in
  match from_authorization with
  | Some id => id
  | None =>
      let v := TrimSpace (header_get (r_Header r) "X-API-Key") in
      if negb (String.eqb v EmptyString) then "k:" +:+ keyPrefix v
      else "ip:" +:+ ClientIP r trustedProxies
  end.

Definition lockout_key (id : string) (minute : Z) : string :=
  "authfail:" +:+ id +:+ ":" +:+ FormatInt minute.

Definition BruteForceLockout (has_cache : bool) (maxFailures : Z) (trustedProxies : list IPNet)
    (next : handler) : handler :=
  if (maxFailures <=? 0)%Z || negb has_cache then next
  else fun c r =>
    let* now := lift Now in
    let minute := (Unix now / 60)%Z in
    let key := lockout_key (lockoutID r trustedProxies) minute in
    let* count := lift (Increment key 0 minute_ns) in
    if match count with Ok count => (maxFailures <=? count)%Z | Err _ => false end then
      reject_retry 429 (FormatInt (secondsToNextMinute now)) genericLockedOut
    else
      let* ca := listen (next c r) in
      if (statusWriter (fst ca) =? 401)%Z then
        let* _ := lift (Increment key 1 minute_ns) in ret tt
      else ret tt.
End middleware.
