(* ===== verification/MiddlewareSpec.v ===== *)
(** * What the middlewares promise

    Panics never escape [Recover] nor show in the response; the rate limiter lets
    exactly [perMinute] requests of one address through in a minute, the lockout
    exactly [maxFailures] failures of one credential; addresses cannot be spoofed
    past the firewall; and when the XSRF and CORS middlewares let a request on. *)

From S2P Require Import Prelude GoStrings GoNet Http GoHttp Cache Middleware.
From Stdlib Require Import Ascii.

(** Requests served one after the other by the same handler. *)
Fixpoint serve_all {W C} (next : Handler W C) (crs : list (C * Request)) (w : W) :
    list (list wcall * outcome unit) * W :=
  match crs with
  | [] => ([], w)
  | (c, r) :: crs =>
      let '(cs, w, o) := next c r ∅ w in
      let '(out, w) := serve_all next crs w in
      ((cs, o) :: out, w)
  end.

(** ** Counting what gets through *)

(** A ghost count of the requests that reached the inner handler: only that
    handler moves it, and it leaves the limiter's counter alone. *)
Record counting {W} `{TQMemory W, Clock W} (D : tq_documented W) (hits : W -> nat) : Prop := {
  ct_Now w : hits (snd (Now w)) = hits w;
  ct_Add key v ttl w : hits (snd (tq_Add key v ttl w)) = hits w;
  ct_Increment key d w : hits (snd (tq_Increment key d w)) = hits w
}.

Record counted {W C} `{TQMemory W, Clock W} (D : tq_documented W) (hits : W -> nat) (key : string)
    (next : Handler W C) : Prop := {
  cd_hits c r h w : hits (next c r h w).1.2 = S (hits w);
  cd_entries c r h w : entries D (next c r h w).1.2 !! key = entries D w !! key;
  cd_time c r h w : (time D w <= time D (next c r h w).1.2)%Z
}.

Section limits.
Context {W C : Type} `{TQMemory W, Clock W, Rand W, UnicodeTables}.
Context (D : tq_documented W) (hits : W -> nat) (Hhits : counting D hits).

Lemma embedded_Increment_hits key delta ttl w :
  hits (snd (embedded_Increment key delta ttl w)) = hits w.
Proof.
  unfold embedded_Increment. pose proof (ct_Add _ _ Hhits key "0" ttl w) as Ha.
  destruct (tq_Add key "0" ttl w) as [[[]|[]] w1]; simpl in *; try done;
    pose proof (ct_Increment _ _ Hhits key delta w1) as Hi;
    destruct (tq_Increment key delta w1) as [[]]; simpl in *; congruence.
Qed.

(** The calendar minute of a time. *)
Lemma minute_of t m :
  (m * minute_ns <= t < (m + 1) * minute_ns)%Z -> (Unix t / 60 = m)%Z.
Proof.
  intros Ht. unfold Unix, minute_ns, nanos_per_second in *. rewrite Z.div_div by lia.
  symmetry. apply (Z.div_unique _ _ _ (t - m * (60 * 1000000000))); lia.
Qed.

(** The counter of [key] in minute [m]: its window, once open, outlasts the
    minute. *)
Definition in_minute (m : Z) (key : string) (n : Z) (w : W) : Prop :=
  (m * minute_ns <= time D w)%Z /\
  exists expiry, counter (entries D w) (time D w) key n expiry
    /\ match expiry with Some e => ((m + 1) * minute_ns <= e)%Z | None => True end.

(** One Increment in minute [m]. *)
Lemma increment_in_minute m key n delta w :
  in_minute m key n w -> (0 <= delta)%Z -> (n + delta <= u64_max)%Z ->
  let w' := snd (embedded_Increment key delta minute_ns w) in
  fst (embedded_Increment key delta minute_ns w) = Ok (n + delta)%Z
  /\ in_minute m key (n + delta) w' /\ time D w' = time D w /\ hits w' = hits w.
Proof.
  intros [Hm (expiry & Hc & He)] Hd Hmax. simpl.
  destruct (embedded_Increment_counter D key delta minute_ns w n expiry Hc) as (Hr & Ht & Hc' & _);
    [done..|].
  split_and!; [done| |done|apply embedded_Increment_hits].
  split; [by rewrite Ht|]. eexists. rewrite Ht. split; [exact Hc'|].
  destruct expiry; simpl; [done|]. unfold minute_ns, nanos_per_second in *. lia.
Qed.

(** The counter survives whatever leaves its entry alone, while the minute lasts. *)
Lemma in_minute_kept m key n w w' :
  in_minute m key n w -> entries D w' !! key = entries D w !! key ->
  (time D w <= time D w' < (m + 1) * minute_ns)%Z -> in_minute m key n w'.
Proof.
  intros [Hm (expiry & [Hn Hc] & He)] Hkey Ht. split; [lia|]. exists expiry.
  split; [|done]. split; [done|]. destruct expiry as [e|].
  - rewrite Hkey. split; [apply Hc|lia].
  - destruct Hc as [Hl ->]. split; [|done]. unfold live_entry in *. rewrite Hkey.
    destruct (entries D w !! key) as [[v e]|]; [|done].
    destruct (Z.ltb_spec (time D w) e); [done|]. by rewrite (proj2 (Z.ltb_ge _ _)) by lia.
Qed.

Lemma in_minute_Now m key n w :
  in_minute m key n w -> (time D (snd (Now w)) < (m + 1) * minute_ns)%Z ->
  in_minute m key n (snd (Now w)) /\ (Unix (fst (Now w)) / 60 = m)%Z /\ hits (snd (Now w)) = hits w.
Proof.
  intros Hin Hlt. destruct (Now_doc D w) as [He Ht]. pose proof (proj1 Hin).
  split_and!; [|apply minute_of; lia|apply Hhits].
  eapply in_minute_kept; [done|by rewrite He|lia].
Qed.

Definition retry_calls (code : Z) (retry body : string) : list wcall :=
  [HSet "Content-Type" "application/json"; HSet "Retry-After" retry; WriteHeader code; Write body].

Lemma reject_retry_run code retry body h (w : W) :
  reject_retry code retry body h w = (retry_calls code retry body, w, Val tt).
Proof. done. Qed.

Lemma Now_le w : (time D w <= time D (snd (Now w)))%Z.
Proof. destruct (Now_doc D w) as [_ ?]. lia. Qed.

(** What the rate limiter does with the count it read, at time [now]. *)
Definition rate_limit_on (perMinute now : Z) (count : result string Z) (next : M W unit) : M W unit :=
  match count with
  | Err _ => next
  | Ok count =>
      if (perMinute <? count)%Z
      then reject_retry 429 (FormatInt (secondsToNextMinute now)) genericRateLimited
      else next
  end.

Lemma RateLimitPerIP_run perMinute tp (next : Handler W C) c r h w :
  (0 < perMinute)%Z ->
  RateLimitPerIP true perMinute tp next c r h w =
  let '(now, w1) := Now w in
  let '(count, w2) := embedded_Increment (rate_key (ClientIP r tp) (Unix now / 60)) 1 minute_ns w1 in
  rate_limit_on perMinute now count (next c r) h w2.
Proof.
  intros Hpm. unfold RateLimitPerIP. rewrite (proj2 (Z.leb_gt _ _)) by done. cbn [negb orb].
  unfold bind, lift. destruct (Now w) as [now w1]. cbn.
  destruct (embedded_Increment _ 1 minute_ns w1) as [count w2]. cbn.
  fold (rate_limit_on perMinute now count (next c r)).
  unfold rate_limit_on. destruct count as [count|e]; cbn.
  - destruct (perMinute <? count)%Z; [done|]. by destruct (next c r h w2) as [[]].
  - by destruct (next c r h w2) as [[]].
Qed.

(** One request through the rate limiter in minute [m]. *)
Lemma rate_limit_step perMinute tp (next : Handler W C) m n c r h w :
  let key := rate_key (ClientIP r tp) m in
  let x := RateLimitPerIP true perMinute tp next c r h w in
  (0 < perMinute)%Z -> counted D hits key next -> in_minute m key n w ->
  (n + 1 <= u64_max)%Z -> (time D (world_of x) < (m + 1) * minute_ns)%Z ->
  in_minute m key (n + 1) (world_of x) /\ (time D w <= time D (world_of x))%Z
  /\ if (perMinute <? n + 1)%Z
     then hits (world_of x) = hits w
          /\ exists s, x.1.1 = retry_calls 429 (FormatInt s) genericRateLimited
     else hits (world_of x) = S (hits w).
Proof.
  intros key x Hpm Hnext Hin Hmax Hend. unfold x in *.
  rewrite RateLimitPerIP_run in * by done.
  pose proof (in_minute_Now m key n w Hin) as Hnow. pose proof (Now_le w) as Hle.
  destruct (Now w) as [now w1]. cbn [fst snd] in *.
  pose proof (embedded_Increment_time D (rate_key (ClientIP r tp) (Unix now / 60)) 1 minute_ns w1) as Ht.
  destruct (embedded_Increment _ 1 minute_ns w1) as [count w2] eqn:Ei. cbn [snd] in Ht.
  assert (time D w1 <= time D (world_of (rate_limit_on perMinute now count (next c r) h w2)))%Z as Hle2.
  { rewrite <- Ht. pose proof (cd_time _ _ _ _ Hnext c r h w2). unfold rate_limit_on.
    destruct count as [count|e]; [destruct (perMinute <? count)%Z; [done|]|]; done. }
  destruct Hnow as (Hin1 & Hmin & Hh1); [lia|]. rewrite Hmin in Ei.
  destruct (increment_in_minute m key n 1 w1 Hin1) as (Hr & Hin2 & _ & Hh2); [lia..|].
  unfold key in *. rewrite Ei in Hr, Hin2, Hh2. cbn [fst snd] in *. subst count.
  unfold rate_limit_on in *. destruct (perMinute <? n + 1)%Z.
  - split_and!; [done|cbn; lia|cbn; lia|by eexists].
  - pose proof (cd_time _ _ _ _ Hnext c r h w2). split_and!.
    + eapply in_minute_kept; [done|apply (cd_entries _ _ _ _ Hnext)|unfold world_of in *; lia].
    + unfold world_of in *. lia.
    + unfold world_of. rewrite (cd_hits _ _ _ _ Hnext). lia.
Qed.

Lemma RateLimitPerIP_time perMinute tp (next : Handler W C) c r h w :
  (0 < perMinute)%Z -> (forall c r h w, time D w <= time D (world_of (next c r h w)))%Z ->
  (time D w <= time D (world_of (RateLimitPerIP true perMinute tp next c r h w)))%Z.
Proof.
  intros Hpm Hnext. rewrite RateLimitPerIP_run by done. pose proof (Now_le w) as Hle.
  destruct (Now w) as [now w1]. cbn [snd] in Hle.
  pose proof (embedded_Increment_time D (rate_key (ClientIP r tp) (Unix now / 60)) 1 minute_ns w1) as Ht.
  destruct (embedded_Increment _ 1 minute_ns w1) as [count w2]. cbn [snd] in Ht.
  pose proof (Hnext c r h w2). unfold rate_limit_on.
  destruct count as [count|e]; [destruct (perMinute <? count)%Z; [cbn; lia|]|]; lia.
Qed.

Lemma serve_all_time (mw : Handler W C) crs w :
  (forall c r h w, time D w <= time D (world_of (mw c r h w)))%Z ->
  (time D w <= time D (snd (serve_all mw crs w)))%Z.
Proof.
  intros Hmw. revert w; induction crs as [|[c r] crs IH]; intros w; [done|]. simpl.
  specialize (Hmw c r ∅ w). destruct (mw c r ∅ w) as [[cs w1] o]. specialize (IH w1).
  destruct (serve_all mw crs w1). unfold world_of in Hmw. cbn in *. lia.
Qed.

(** A list of requests of one address. *)
Lemma rate_limit_all perMinute tp (next : Handler W C) m ip n crs w :
  (0 < perMinute)%Z -> counted D hits (rate_key ip m) next ->
  Forall (fun cr => ClientIP (snd cr) tp = ip) crs -> in_minute m (rate_key ip m) n w ->
  (n + Z.of_nat (length crs) <= u64_max)%Z ->
  (time D (snd (serve_all (RateLimitPerIP true perMinute tp next) crs w)) < (m + 1) * minute_ns)%Z ->
  Z.of_nat (hits (snd (serve_all (RateLimitPerIP true perMinute tp next) crs w)))
     = (Z.of_nat (hits w) + Z.min (Z.of_nat (length crs)) (Z.max 0 (perMinute - n)))%Z.
Proof.
  intros Hpm Hnext Hips. revert n w. induction Hips as [|[c r] crs Hip _ IH]; intros n w Hin Hmax Hend.
  { simpl. lia. }
  simpl in *. subst ip.
  pose proof (rate_limit_step perMinute tp next m n c r ∅ w Hpm Hnext Hin) as Hstep.
  cbv zeta in Hstep. unfold world_of in Hstep.
  destruct (RateLimitPerIP true perMinute tp next c r ∅ w) as [[cs w1] o]. cbn [fst snd] in *.
  pose proof (serve_all_time (RateLimitPerIP true perMinute tp next) crs w1) as Hmono.
  specialize (IH (n + 1)%Z w1).
  destruct (serve_all (RateLimitPerIP true perMinute tp next) crs w1) as [out w2]. cbn [snd] in *.
  assert (time D w1 <= time D w2)%Z as Hle.
  { apply Hmono. intros. apply RateLimitPerIP_time; [done|]. apply (cd_time _ _ _ _ Hnext). }
  destruct Hstep as (Hin1 & _ & Hh); [lia..|]. rewrite IH; [|done|lia|done].
  destruct (Z.ltb_spec perMinute (n + 1)); [destruct Hh as [-> _]|rewrite Hh]; lia.
Qed.
(** ** The lockout *)

(** A handler that always answers 401, as the auth chain does for bad
    credentials. *)
Definition always_401 (next : Handler W C) : Prop :=
  forall c r h w, snd (next c r h w) = Val tt /\ statusWriter (next c r h w).1.1 = 401%Z.

Definition lockout_on (maxFailures now : Z) (key : string) (count : result string Z)
    (next : M W unit) : M W unit :=
  if match count with Ok count => (maxFailures <=? count)%Z | Err _ => false end then
    reject_retry 429 (FormatInt (secondsToNextMinute now)) genericLockedOut
  else
    let* ca := listen next in
    if (statusWriter (fst ca) =? 401)%Z then
      let* _ := lift (Increment key 1 minute_ns) in ret tt
    else ret tt.

Lemma BruteForceLockout_run maxFailures tp (next : Handler W C) c r h w :
  (0 < maxFailures)%Z ->
  BruteForceLockout true maxFailures tp next c r h w =
  let '(now, w1) := Now w in
  let key := lockout_key (lockoutID r tp) (Unix now / 60) in
  let '(count, w2) := embedded_Increment key 0 minute_ns w1 in
  lockout_on maxFailures now key count (next c r) h w2.
Proof.
  intros Hpm. unfold BruteForceLockout. rewrite (proj2 (Z.leb_gt _ _)) by done. cbn [negb orb].
  unfold bind at 1, lift at 1. destruct (Now w) as [now w1]. cbn [apply_calls foldl app].
  unfold bind at 1, lift at 1. cbn [Increment embedded].
  destruct (embedded_Increment _ 0 minute_ns w1) as [count w2]. cbn [apply_calls foldl app].
  unfold lockout_on. cbn [Increment embedded].
  by match goal with |- context [(if ?b then ?x else ?y) h w2] =>
    destruct ((if b then x else y) h w2) as [[]] end.
Qed.

(** A failing request behind the count: it reaches the handler and is counted. *)
Lemma lockout_on_fail maxFailures now key count (next : Handler W C) c r h w :
  always_401 next ->
  world_of (lockout_on maxFailures now key count (next c r) h w)
  = if match count with Ok count => (maxFailures <=? count)%Z | Err _ => false end then w
    else snd (embedded_Increment key 1 minute_ns (world_of (next c r h w))).
Proof.
  intros Hfail. unfold lockout_on.
  destruct (match count with Ok count => (maxFailures <=? count)%Z | Err _ => false end); [done|].
  unfold bind at 1, listen. destruct (Hfail c r h w) as [Hv Hs].
  destruct (next c r h w) as [[cs w1] o]. cbn [fst snd] in *. subst o. cbn [fst]. rewrite Hs. cbn.
  unfold bind, lift. cbn [Increment embedded].
  by destruct (embedded_Increment key 1 minute_ns w1).
Qed.

Lemma BruteForceLockout_time maxFailures tp (next : Handler W C) c r h w :
  (0 < maxFailures)%Z -> always_401 next ->
  (forall c r h w, time D w <= time D (world_of (next c r h w)))%Z ->
  (time D (snd (Now w)) <= time D (world_of (BruteForceLockout true maxFailures tp next c r h w)))%Z.
Proof.
  intros Hpm Hfail Hnext. rewrite BruteForceLockout_run by done.
  destruct (Now w) as [now w1]. cbv zeta. cbn [snd].
  set (key := lockout_key _ _). pose proof (embedded_Increment_time D key 0 minute_ns w1) as Ht.
  destruct (embedded_Increment key 0 minute_ns w1) as [count w2]. cbn [snd] in Ht.
  rewrite lockout_on_fail by done. pose proof (Hnext c r h w2).
  case_match; [lia|]. rewrite embedded_Increment_time. lia.
Qed.

(** One failing request in minute [m]. *)
Lemma lockout_step maxFailures tp (next : Handler W C) m n c r h w :
  let key := lockout_key (lockoutID r tp) m in
  let w' := world_of (BruteForceLockout true maxFailures tp next c r h w) in
  (0 < maxFailures)%Z -> always_401 next -> counted D hits key next -> in_minute m key n w ->
  (n + 1 <= u64_max)%Z -> (time D w' < (m + 1) * minute_ns)%Z ->
  if (maxFailures <=? n)%Z then in_minute m key n w' /\ hits w' = hits w
  else in_minute m key (n + 1) w' /\ hits w' = S (hits w).
Proof.
  intros key w' Hpm Hfail Hnext Hin Hmax Hend. unfold w' in *.
  pose proof (BruteForceLockout_time maxFailures tp next c r h w Hpm Hfail (cd_time _ _ _ _ Hnext)) as Hle.
  rewrite BruteForceLockout_run in * by done.
  pose proof (in_minute_Now m key n w Hin) as Hnow.
  destruct (Now w) as [now w1]. cbn [fst snd] in *.
  destruct Hnow as (Hin1 & Hmin & Hh1); [lia|]. cbv zeta in *. rewrite Hmin in *. fold key in Hend |- *.
  destruct (increment_in_minute m key n 0 w1 Hin1) as (Hr & Hin2 & _ & Hh2); [lia|lia|].
  destruct (embedded_Increment key 0 minute_ns w1) as [count w2]. cbn [fst snd] in *. subst count.
  rewrite Z.add_0_r in *. rewrite lockout_on_fail in * by done.
  destruct (maxFailures <=? n)%Z; [split; [done|congruence]|].
  rewrite embedded_Increment_time in Hend.
  pose proof (cd_time _ _ _ _ Hnext c r h w2) as Ht2. pose proof (cd_hits _ _ _ _ Hnext c r h w2) as Hh3.
  assert (in_minute m key n (world_of (next c r h w2))) as Hin3.
  { eapply in_minute_kept; [done|apply (cd_entries _ _ _ _ Hnext)|unfold world_of in *; lia]. }
  destruct (increment_in_minute m key n 1 _ Hin3) as (_ & Hin4 & _ & Hh4); [lia..|].
  split; [done|]. unfold world_of in *. congruence.
Qed.

Lemma lockout_all maxFailures tp (next : Handler W C) m id n crs w :
  (0 < maxFailures)%Z -> always_401 next -> counted D hits (lockout_key id m) next ->
  Forall (fun cr => lockoutID (snd cr) tp = id) crs -> in_minute m (lockout_key id m) n w ->
  (n + Z.of_nat (length crs) <= u64_max)%Z ->
  (time D (snd (serve_all (BruteForceLockout true maxFailures tp next) crs w)) < (m + 1) * minute_ns)%Z ->
  Z.of_nat (hits (snd (serve_all (BruteForceLockout true maxFailures tp next) crs w)))
     = (Z.of_nat (hits w) + Z.min (Z.of_nat (length crs)) (Z.max 0 (maxFailures - n)))%Z.
Proof.
  intros Hpm Hfail Hnext Hids. revert n w.
  induction Hids as [|[c r] crs Hid _ IH]; intros n w Hin Hmax Hend; [simpl; lia|].
  simpl in *. subst id.
  pose proof (lockout_step maxFailures tp next m n c r ∅ w Hpm Hfail Hnext Hin) as Hstep.
  cbv zeta in Hstep. unfold world_of in Hstep.
  destruct (BruteForceLockout true maxFailures tp next c r ∅ w) as [[cs w1] o]. cbn [fst snd] in *.
  pose proof (serve_all_time (BruteForceLockout true maxFailures tp next) crs w1) as Hmono.
  pose proof (IH n w1) as IH0. specialize (IH (n + 1)%Z w1).
  destruct (serve_all (BruteForceLockout true maxFailures tp next) crs w1) as [out w2]. cbn [snd] in *.
  assert (time D w1 <= time D w2)%Z as Hle.
  { apply Hmono. intros. etrans; [apply Now_le|].
    apply BruteForceLockout_time; [done..|]. apply (cd_time _ _ _ _ Hnext). }
  specialize (Hstep ltac:(lia) ltac:(lia)).
  destruct (Z.leb_spec maxFailures n); destruct Hstep as [Hin1 Hh].
  - rewrite IH0; [lia|done|lia|done].
  - rewrite IH; [lia|done|lia|done].
Qed.

(** ** Properties of the limits *)

(** The rate limit is exact: of the requests of one client address served in
    one calendar minute, starting with an unused counter, exactly
    [min(requests, perMinute)] reach the inner handler. The counter's window,
    though it starts at the first request, never expires within its minute, and
    what the inner handler does to other cache keys does not matter. *)
Theorem rate_limit_exact perMinute tp (next : Handler W C) m ip crs w
  (Hlimit : (0 < perMinute)%Z)
  (Hnext : counted D hits (rate_key ip m) next)
  (Hips : Forall (fun cr => ClientIP (snd cr) tp = ip) crs)
  (Hfresh : live_entry (entries D w) (time D w) (rate_key ip m) = None)
  (Hlen : (Z.of_nat (length crs) <= u64_max)%Z)
  (Hstart : (m * minute_ns <= time D w)%Z)
  (Hend : (time D (snd (serve_all (RateLimitPerIP true perMinute tp next) crs w))
           < (m + 1) * minute_ns)%Z) :
  Z.of_nat (hits (snd (serve_all (RateLimitPerIP true perMinute tp next) crs w)))
  = (Z.of_nat (hits w) + Z.min (Z.of_nat (length crs)) perMinute)%Z.
Proof.
  rewrite (rate_limit_all perMinute tp next m ip 0 crs w); [lia|done|done|done| |lia|done].
  split; [done|]. exists None. by split_and!.
Qed.

(** C33: the lockout is exact: while one credential keeps failing within a
    calendar minute, exactly [maxFailures] of its requests reach the auth chain;
    all further ones are refused without running it. *)
Theorem lockout_exact maxFailures tp (next : Handler W C) m id crs w
  (Hlimit : (0 < maxFailures)%Z) (Hfail : always_401 next)
  (Hnext : counted D hits (lockout_key id m) next)
  (Hids : Forall (fun cr => lockoutID (snd cr) tp = id) crs)
  (Hfresh : live_entry (entries D w) (time D w) (lockout_key id m) = None)
  (Hlen : (Z.of_nat (length crs) <= u64_max)%Z)
  (Hstart : (m * minute_ns <= time D w)%Z)
  (Hend : (time D (snd (serve_all (BruteForceLockout true maxFailures tp next) crs w))
           < (m + 1) * minute_ns)%Z) :
  Z.of_nat (hits (snd (serve_all (BruteForceLockout true maxFailures tp next) crs w)))
  = (Z.of_nat (hits w) + Z.min (Z.of_nat (length crs)) maxFailures)%Z.
Proof.
  rewrite (lockout_all maxFailures tp next m id 0 crs w); [lia|done|done|done|done| |lia|done].
  split; [done|]. exists None. by split_and!.
Qed.
End limits.

(** ** Recovery *)

Lemma response_of_uncommitted h cs0 cs1 :
  wroteHeader cs0 = false -> response_of h (cs0 ++ cs1) = response_of (apply_calls h cs0) cs1.
Proof.
  unfold wroteHeader, response_of. rewrite foldl_app. intros Hc.
  assert (foldl resp_step (RespState h None EmptyString) cs0
          = RespState (apply_calls h cs0) None EmptyString) as ->; [|done].
  revert h; induction cs0 as [|c cs0 IH]; intros h; [done|]. simpl in *.
  apply orb_false_iff in Hc as [Hc Hcs]. destruct c; try done; simpl; by rewrite IH.
Qed.

Section handlers.
Context {W C : Type} `{Clock W, Rand W, Cache W, UnicodeTables}.

(** [Recover] contains every panic: it always returns normally, a handler
    that returns is passed through unchanged, one that had already committed its
    response is left as it is, and any other gives the generic 500, the same for
    every panic value. *)
Theorem Recover_contains (next : Handler W C) c r h w :
  let '(cs0, w0, o0) := next c r h w in
  let '(cs, w1, o) := Recover next c r h w in
  o = Val tt /\ w1 = w0 /\
  match o0 with
  | Val _ => cs = cs0
  | Panic _ =>
      if wroteHeader cs0 then cs = cs0
      else response_of h cs
           = Response 500 (header_set "Content-Type" "application/json" (apply_calls h cs0))
                      genericInternalError
  end.
Proof.
  unfold Recover, try_, bind. destruct (next c r h w) as [[cs0 w0] [a|v]]; cbn [fst snd].
  - cbn. by rewrite app_nil_r.
  - destruct (wroteHeader cs0) eqn:E; cbn -[response_of apply_calls header_set genericInternalError].
    + by rewrite app_nil_r.
    + split_and!; [done..|]. by rewrite response_of_uncommitted.
Qed.

(** The request's X-XSRF-TOKEN header is the token in force: its XSRF-TOKEN cookie
    or, where it has none, the token drawn from 16 random bytes for this very
    request, which its sender cannot have seen. *)
Definition echoed (r : Request) (w : W) : Prop :=
  let sent := header_get (r_Header r) xsrfHeaderName in
  sent <> EmptyString /\
  match Cookie r xsrfCookieName with
  | Some (String _ _ as token) => sent = token
  | _ => exists b, fst (rand_Read 16 w) = Ok b /\ sent = hex_encode b
  end.

(** C38: the XSRF check. A state-changing request that echoes its cookie is handed
    on as it is. One whose header is not the token in force, that of its cookie or,
    with no cookie or an empty one, the fresh one, never reaches the inner handler:
    what that handler is makes no difference, and unless the random source fails
    the answer is 403. *)
Theorem XSRF_blocks (next1 next2 : Handler W C) c r h w
  (Hunsafe : isSafeMethod (r_Method r) = false) :
  let sent := header_get (r_Header r) xsrfHeaderName in
  (sent <> EmptyString -> Cookie r xsrfCookieName = Some sent ->
     XSRF true next1 c r h w = next1 c r h w)
  /\ (~ echoed r w ->
     XSRF true next1 c r h w = XSRF true next2 c r h w
     /\ ((exists v, snd (XSRF true next1 c r h w) = Panic v)
         \/ status (response_of h (XSRF true next1 c r h w).1.1) = 403%Z)).
Proof.
  unfold XSRF, echoed. cbn [negb]. rewrite Hunsafe.
  set (sent := header_get (r_Header r) xsrfHeaderName). cbn zeta. split.
  - intros Hne ->. cbn [default id]. destruct (String.eqb_spec sent EmptyString); [done|].
    unfold bind, ret. cbn [apply_calls foldl app]. rewrite String.eqb_refl. cbn [negb orb].
    by destruct (next1 c r h w) as [[]].
  - intros Hnot. destruct (Cookie r xsrfCookieName) as [[|ch token]|]; cbn [default id String.eqb].
    2:{ unfold bind, ret. cbn [apply_calls foldl app].
        destruct (String.eqb_spec sent EmptyString); [by split; [|right]|].
        destruct (String.eqb_spec sent (String ch token)); [tauto|]. by split; [|right]. }
    all: unfold bind at 1 3 5, newRequestID; unfold bind, lift;
      destruct (rand_Read 16 w) as [[b|e] w1]; cbn -[response_of cookie_line xsrfForbidden hex_encode];
      [|by split; [|left; eauto]];
      destruct (String.eqb_spec sent EmptyString); [by split; [|right]|];
      destruct (String.eqb_spec sent (hex_encode b)); [exfalso; eauto 6|]; by split; [|right].
Qed.

(** CORS: the only origin ever allowed is the request's own, when it is on the
    list, never the wildcard; it is allowed whenever it is on the list; and an
    OPTIONS request is answered 204 without the inner handler. *)
Theorem CORS_spec (allowedOrigins : list string) (next : Handler W C) c r h w :
  exists pre,
    CORS allowedOrigins next c r h w
    = (let '(cs, w', o) :=
         if String.eqb (r_Method r) "OPTIONS" then ([WriteHeader 204], w, Val tt)
         else next c r (apply_calls h pre) w in
       (pre ++ cs, w', o))
    /\ (forall v, HSet "Access-Control-Allow-Origin" v ∈ pre <->
         v = header_get (r_Header r) "Origin" /\ v ∈ allowedOrigins
         /\ v <> EmptyString /\ v <> "*")
    /\ forall call, call ∈ pre -> commits call = false.
Proof.
  unfold CORS. set (origin := header_get (r_Header r) "Origin").
  assert (forall o, o ∈ cors_allowed allowedOrigins <->
    o ∈ allowedOrigins /\ o <> EmptyString /\ o <> "*") as Hallowed.
  { intros o. unfold cors_allowed. rewrite elem_of_list_to_set, list_elem_of_filter. tauto. }
  destruct (negb (String.eqb origin EmptyString) && bool_decide (origin ∈ cors_allowed allowedOrigins)) eqn:E.
  - breflect. apply Hallowed in H4 as Ho.
    eexists [HAdd "Vary" "Origin"; HSet "Access-Control-Allow-Origin" origin;
             HSet "Access-Control-Allow-Methods" corsAllowMethods;
             HSet "Access-Control-Allow-Headers" corsAllowHeaders]. split_and!.
    + unfold bind, call. cbn [apply_calls foldl app fst snd].
      destruct (String.eqb (r_Method r) "OPTIONS"); [done|].
      by destruct (next c r _ w) as [[]].
    + intros v. rewrite !elem_of_cons. split.
      * intros [[=]|[[= ->]|[[=]|[[=]|[]%elem_of_nil]]]]. tauto.
      * intros (-> & _). auto.
    + intros x. rewrite !elem_of_cons. by intros [->|[->|[->|[->|[]%elem_of_nil]]]].
  - exists []. split_and!.
    + unfold bind, ret. cbn [apply_calls foldl app].
      destruct (String.eqb (r_Method r) "OPTIONS"); [done|].
      by destruct (next c r _ w) as [[]].
    + intros v. split; [by intros ?%elem_of_nil|]. intros (-> & Hv).
      apply andb_false_iff in E as [E|E]; breflect.
      * tauto.
      * by rewrite Hallowed in E.
    + by intros x ?%elem_of_nil.
Qed.
End handlers.

(** ** Addresses *)

Lemma and_bytes_full l n : is_bytes l -> length l <= n -> and_bytes l (replicate n 255%N) = l.
Proof.
  intros Hb. revert n; induction Hb as [|b l Hb _ IH]; intros [|n] Hn; simpl in *; try done; [lia|].
  change 255%N with (N.ones 8) at 1. rewrite N.land_ones, N.mod_small by done. f_equal. apply IH. lia.
Qed.

(** The short form of an address: 4 bytes for IPv4, 16 otherwise. *)
Definition short (ip : list N) : list N := match To4 ip with Some v4 => v4 | None => ip end.

Lemma short_cases ip :
  length ip = 16 ->
  (exists v4, ip = v4InV6Prefix ++ v4 /\ length v4 = 4 /\ short ip = v4)
  \/ short ip = ip /\ To4 ip = None.
Proof.
  intros Hl. unfold short, To4. rewrite Hl. simpl. case_bool_decide as Hp; [left|by right].
  exists (drop 12 ip). split_and!; [|rewrite length_drop, Hl; done|done].
  etrans; [symmetry; apply (take_drop 12)|]. by rewrite Hp.
Qed.

Lemma short_inj ip ip' : length ip = 16 -> length ip' = 16 -> short ip = short ip' -> ip = ip'.
Proof.
  intros Hl Hl'. destruct (short_cases ip Hl) as [(v4 & E & Hv & ->)|[-> _]];
    destruct (short_cases ip' Hl') as [(v4' & E' & Hv' & ->)|[-> _]].
  - by intros ->; subst.
  - intros ->. lia.
  - intros <-. lia.
  - done.
Qed.

Lemma short_bytes ip : is_bytes ip -> is_bytes (short ip).
Proof.
  intros Hb. unfold short, To4. destruct (length ip =? 4); [done|].
  destruct ((length ip =? 16) && _); [by apply Forall_drop|done].
Qed.

Lemma Contains_host x ip' :
  is_bytes x -> is_bytes ip' -> length ip' = 16 ->
  length x = 4 \/ length x = 16 /\ To4 x = None ->
  Contains {| net_IP := x; net_Mask := replicate (length x) 255%N |} ip' = bool_decide (short ip' = x).
Proof.
  intros Hx Hip' Hl' Hcase. unfold Contains, networkNumberAndMask. cbn [net_IP net_Mask].
  assert (match To4 x with Some v4 => v4 | None => x end = x) as ->.
  { destruct Hcase as [Hl|[Hl ->]]; [|done]. unfold To4. by rewrite Hl. }
  fold (short ip'). rewrite length_replicate.
  assert ((if negb (length x =? 4) && negb (length x =? 16) then None
           else if length x =? 4
           then if length x =? 4 then Some (x, replicate (length x) 255%N) else None
           else if length x =? 16
           then Some (x, if length x =? 4 then drop 12 (replicate (length x) 255%N)
                         else replicate (length x) 255%N)
           else None) = Some (x, replicate (length x) 255%N)) as ->.
  { by destruct Hcase as [->|[-> _]]. }
  rewrite and_bytes_full by done.
  destruct (Nat.eqb_spec (length (short ip')) (length x)) as [El|El]; simpl.
  - rewrite and_bytes_full by (apply short_bytes || rewrite El; done).
    apply bool_decide_ext. split; congruence.
  - symmetry. apply bool_decide_eq_false_2. by intros <-.
Qed.

(** A bare address in the proxy, allow or deny configuration stands for
    exactly that address: a peer is in its network when it denotes the same
    address, in whatever spelling, and only then. *)
Theorem bare_address_exact (s : string) (n : IPNet) (peer : string)
  (Hn : proxy_net s = Some n) (Hbare : ParseCIDR s = None) :
  ipInAny peer [n] = true <-> ParseIP peer <> None /\ ParseIP peer = ParseIP s.
Proof.
  unfold proxy_net in Hn. rewrite Hbare in Hn. unfold ipInAny.
  destruct (ParseIP s) as [ip|] eqn:Es; [|done]. injection Hn as <-.
  destruct (ParseIP peer) as [ip'|] eqn:Ep; [|split; [done|tauto]].
  apply ParseIP_bytes in Es as [Hl Hb], Ep as [Hl' Hb'].
  assert (match To4 ip with
          | Some v4 => {| net_IP := v4; net_Mask := CIDRMask 32 32 |}
          | None => {| net_IP := ip; net_Mask := CIDRMask 128 128 |}
          end = {| net_IP := short ip; net_Mask := replicate (length (short ip)) 255%N |}
          /\ (length (short ip) = 4 \/ length (short ip) = 16 /\ To4 (short ip) = None)) as [-> Hc].
  { destruct (short_cases ip Hl) as [(v4 & Eip & Hv & Esh)|[Esh E4]].
    - assert (To4 ip = Some v4) as ->.
      { unfold short in Esh. destruct (To4 ip); [congruence|]. rewrite <- Esh in Hv. lia. }
      rewrite Esh, Hv. auto.
    - rewrite Esh, E4, Hl. auto. }
  simpl. rewrite Contains_host, orb_false_r, bool_decide_eq_true by (done || by apply short_bytes).
  split.
  - intros E. split; [done|]. f_equal. by apply short_inj.
  - by intros [_ [= ->]].
Qed.

Lemma cut_byte_first c v rest :
  contains_byte c v = false -> cut_byte c (v +:+ String c rest) = Some (v, rest).
Proof.
  unfold contains_byte. induction v as [|d v IH]; intros Hv; rewrite ?app_String, ?app_empty_l; simpl.
  - by rewrite Ascii.eqb_refl.
  - simpl in Hv. apply orb_false_iff in Hv as [-> Hv]. by rewrite IH.
Qed.

(** Who chooses the client address: for a peer that is not a trusted proxy it
    is the connection's, so requests that differ in any headers meet the same
    firewall decision and the same rate-limit counter; but behind a trusted proxy
    that appends to X-Forwarded-For the left-most entry, which the client wrote,
    is the address, whatever the proxy appended. *)
Theorem client_address_choice (trusted : list IPNet) :
  (forall r1 r2 allow deny minute, r_RemoteAddr r1 = r_RemoteAddr r2 ->
     ipInAny (remoteAddrIP (r_RemoteAddr r1)) trusted = false ->
     firewallBlocks (ClientIP r1 trusted) allow deny = firewallBlocks (ClientIP r2 trusted) allow deny
     /\ rate_key (ClientIP r1 trusted) minute = rate_key (ClientIP r2 trusted) minute)
  /\ forall r v appended, ipInAny (remoteAddrIP (r_RemoteAddr r)) trusted = true ->
     header_get (r_Header r) "X-Forwarded-For" = v +:+ "," +:+ appended ->
     contains_byte "," v = false -> TrimSpace v = v -> v <> EmptyString ->
     ClientIP r trusted = v.
Proof.
  split.
  - intros r1 r2 allow deny minute Hpeer Hu. unfold ClientIP. by rewrite <- Hpeer, Hu.
  - intros r v appended Ht Hx Hc Htrim Hne. unfold ClientIP. rewrite Ht, Hx. cbn [negb].
    change ("," +:+ appended) with (String "," appended). rewrite cut_byte_first, Htrim by done.
    destruct (String.eqb_spec (v +:+ String "," appended) EmptyString); [by destruct v|].
    by rewrite (proj2 (String.eqb_neq v EmptyString)).
Qed.
