(* ===== verification/SampleWorld.v ===== *)
(** * A concrete world

    A clock that advances by one second per reading, a predictable random source,
    a tqmemory that is its own documentation and a counter of handled requests:
    the instance at which the witnesses evaluate the models. *)

From S2P Require Import Prelude GoStrings GoNet Http GoHttp Cache Middleware MiddlewareSpec.

Record sample := Sample { sm_store : store; sm_time : Z; sm_hits : nat }.

#[export] Instance sample_clock : Clock sample :=
  {| Now w := (sm_time w, Sample (sm_store w) (sm_time w + nanos_per_second) (sm_hits w)) |}.
#[export] Instance sample_rand : Rand sample :=
  {| rand_Read n w := (Ok (str_concat (replicate n "r")), w) |}.

Definition on_store {A} (f : Z -> store -> A * store) (w : sample) : A * sample :=
  let '(a, s) := f (sm_time w) (sm_store w) in (a, Sample s (sm_time w) (sm_hits w)).

#[export] Instance sample_tq : TQMemory sample :=
  {| tq_Add key v ttl := on_store (store_Add key v ttl);
     tq_Increment key d := on_store (store_Increment key d);
     tq_Get key := on_store (store_Get key);
     tq_Set key v ttl := on_store (store_Set key v ttl) |}.

Definition sample_doc : tq_documented sample.
Proof.
  refine {| entries := sm_store; time := sm_time |}.
  - intros key v ttl w. simpl. unfold on_store. by destruct (store_Add _ _ _ _ _).
  - intros key d w. simpl. unfold on_store. by destruct (store_Increment _ _ _ _).
  - intros w. simpl. unfold nanos_per_second. split; [done|lia].
Defined.

Lemma sample_counting : counting sample_doc sm_hits.
Proof.
  split; simpl; [done|intros key v ttl w|intros key d w]; unfold on_store.
  - by destruct (store_Add _ _ _ _ _).
  - by destruct (store_Increment _ _ _ _).
Qed.

(** An inner handler that counts, and answers [code]. *)
Definition sample_next (code : Z) : Handler sample unit := fun _ _ _ w =>
  ([WriteHeader code], Sample (sm_store w) (sm_time w) (S (sm_hits w)), Val tt).

Lemma sample_next_counted code key : counted sample_doc sm_hits key (sample_next code).
Proof. by split. Qed.

Definition sample_request (remote : string) (hdr : Header) : Request :=
  {| r_Method := "POST"; r_Path := "/pathql"; r_RequestURI := "/pathql"; r_Host := "api";
     r_RemoteAddr := remote; r_Header := hdr; r_TLS := false; r_Body := Some EmptyString;
     r_BodyLimit := None; r_PathValue := EmptyString |}.

Module Witness.
#[local] Existing Instance ascii_tables.

Definition w0 : sample := Sample ∅ (7 * minute_ns) 0.
Definition req : Request := sample_request "10.0.0.1:4711" ∅.

Lemma rate_limit_exact_witness :
  Z.of_nat (sm_hits (snd (serve_all (RateLimitPerIP true 2 [] (sample_next 200))
                                    [(tt, req); (tt, req); (tt, req)] w0))) = 2%Z.
Proof.
  rewrite (rate_limit_exact sample_doc sm_hits sample_counting 2 [] (sample_next 200) 7 "10.0.0.1"
             [(tt, req); (tt, req); (tt, req)] w0).
  - reflexivity.
  - reflexivity.
  - apply sample_next_counted.
  - repeat (apply Forall_cons; split; [vm_compute; reflexivity|]). apply Forall_nil_2.
  - reflexivity.
  - vm_compute; discriminate.
  - vm_compute; discriminate.
  - vm_compute; reflexivity.
Defined.

Lemma lockout_exact_witness :
  Z.of_nat (sm_hits (snd (serve_all (BruteForceLockout true 2 [] (sample_next 401))
                                    [(tt, req); (tt, req); (tt, req)] w0))) = 2%Z.
Proof.
  rewrite (lockout_exact sample_doc sm_hits sample_counting 2 [] (sample_next 401) 7 "ip:10.0.0.1"
             [(tt, req); (tt, req); (tt, req)] w0).
  - reflexivity.
  - reflexivity.
  - intros c r h w. split; reflexivity.
  - apply sample_next_counted.
  - repeat (apply Forall_cons; split; [vm_compute; reflexivity|]). apply Forall_nil_2.
  - reflexivity.
  - vm_compute; discriminate.
  - vm_compute; discriminate.
  - vm_compute; reflexivity.
Defined.

(** No cookie, and a header that is not the token drawn: refused. *)
Definition forged : Request := sample_request "10.0.0.1:4711" {["X-Xsrf-Token" := ["forged"]]}.
Lemma XSRF_blocks_witness :
  status (response_of ∅ (XSRF true (sample_next 200) tt forged ∅ w0).1.1) = 403%Z.
Proof.
  destruct (XSRF_blocks (sample_next 200) (sample_next 201) tt forged ∅ w0) as [_ Hno]; [reflexivity|].
  destruct Hno as [_ [[v Hv]|Hs]].
  - intros [_ (b & [= <-] & Hb)]. vm_compute in Hb. discriminate Hb.
  - discriminate Hv.
  - exact Hs.
Defined.

Lemma bare_address_exact_witness :
  ipInAny "::FFFF:10.0.0.1" [{| net_IP := [10;0;0;1]%N; net_Mask := [255;255;255;255]%N |}] = true.
Proof.
  apply (bare_address_exact "10.0.0.1" _ "::FFFF:10.0.0.1"); [reflexivity|reflexivity|].
  split; [discriminate|reflexivity].
Defined.
End Witness.
