(* ===== verification/Concurrency.v ===== *)
(** * Concurrency caps (src/internal/middleware/concurrency.go)

    The two caps as middlewares over their semaphores, and the interleavings of
    many requests as step relations. For the per-user cap the atomic steps are
    the code's: the look-up under [mu], the send on the channel outside it, the
    clean-up under [mu], and the release, which keeps [mu] over its three steps:
    find the channel, receive from it, delete the key if the channel is empty.
    Another request may send on the channel between any two of them. *)

From S2P Require Import Prelude GoStrings Http Middleware.

(** ** The middlewares *)

Section middleware.
Context {W C : Type}.

(** The semaphore operations, on the world: a non-blocking send and a receive. *)
Definition GlobalInflight (try_send : W -> bool * W) (receive : W -> unit * W) (max : Z)
    (next : Handler W C) : Handler W C :=
  if (max <=? 0)%Z then next
  else fun c r =>
    let* ok := lift try_send in
    if ok : bool then finally (next c r) (lift receive)
    else reject_retry 503 retryAfterShort genericOverloaded.

Definition PerUserConcurrency (acquire : string -> W -> bool * W)
    (release : string -> W -> unit * W) (maxPerUser : Z)
    (keyFunc : C -> Request -> string) (next : Handler W C) : Handler W C :=
  if (maxPerUser <=? 0)%Z then next
  else fun c r =>
    let key := keyFunc c r in
    if String.eqb key EmptyString then next c r
    else
      let* ok := lift (acquire key) in
      if ok : bool then finally (next c r) (lift (release key))
      else reject_retry 429 retryAfterShort genericConcurrencyLimited.
End middleware.

(** ** The global cap, interleaved *)

Inductive gphase := GRunning | GRejected | GFinished.

Record gsystem := GSystem { g_len : Z; g_calls : gmap nat gphase }.

(** A request arrives and tries to send; a running one ends, by return or panic,
    and its deferred receive runs. *)
Inductive gstep (max : Z) : gsystem -> gsystem -> Prop :=
| g_arrive t s :
    g_calls s !! t = None ->
    gstep max s
      (if (g_len s <? max)%Z then GSystem (g_len s + 1) (<[t := GRunning]> (g_calls s))
       else GSystem (g_len s) (<[t := GRejected]> (g_calls s)))
| g_finish t s :
    g_calls s !! t = Some GRunning ->
    gstep max s (GSystem (g_len s - 1) (<[t := GFinished]> (g_calls s))).

Definition g_running (ph : gphase) : bool := match ph with GRunning => true | _ => false end.

(** ** The per-user cap, interleaved *)

(** [sems] maps a key to its channel; channels live on when they leave the map.
    [mu] is held across steps only by a release. *)
Record perUserState := {
  pu_sems : gmap string nat;
  pu_lens : gmap nat nat;      (* len(ch) of the channels made so far *)
  pu_mu : bool
}.

Inductive uphase :=
| Looked (key : string) (ch : nat) (created : bool)   (* between look-up and send *)
| Full (key : string) (ch : nat) (created : bool)     (* default branch, before mu *)
| Running (key : string)                              (* next is being served *)
| Releasing (key : string) (ch : nat)                 (* release, before its receive *)
| Received (key : string) (ch : nat)                  (* release, before its len check *)
| Rejected
| Finished.

Definition chan_len (st : perUserState) (ch : nat) : nat := default 0 (pu_lens st !! ch).

(** The look-up under [mu]: the channel of [key], and whether it was made now. *)
Definition acquire_lookup (key : string) (st : perUserState) : nat * bool * perUserState :=
  match pu_sems st !! key with
  | Some ch => (ch, false, st)
  | None =>
      let ch := fresh (dom (pu_lens st)) in
      (ch, true, {| pu_sems := <[key := ch]> (pu_sems st);
                    pu_lens := <[ch := 0]> (pu_lens st); pu_mu := pu_mu st |})
  end.

(** The non-blocking send: [None] is the default branch. *)
Definition acquire_send (max : nat) (ch : nat) (st : perUserState) : option perUserState :=
  if chan_len st ch <? max then
    Some {| pu_sems := pu_sems st; pu_lens := <[ch := S (chan_len st ch)]> (pu_lens st);
            pu_mu := pu_mu st |}
  else None.

(** The clean-up of the default branch, under [mu]. *)
Definition acquire_cleanup (key : string) (ch : nat) (created : bool) (st : perUserState) :
    perUserState :=
  if created && (chan_len st ch =? 0) && bool_decide (pu_sems st !! key = Some ch) then
    {| pu_sems := delete key (pu_sems st); pu_lens := pu_lens st; pu_mu := pu_mu st |}
  else st.

(** The release takes [mu] and finds the channel; without one it ends. *)
Definition release_locked (key : string) (st : perUserState) : uphase * perUserState :=
  match pu_sems st !! key with
  | None => (Finished, st)
  | Some ch =>
      (Releasing key ch, {| pu_sems := pu_sems st; pu_lens := pu_lens st; pu_mu := true |})
  end.

(** The receive, which waits while the channel is empty: [None]. *)
Definition release_receive (ch : nat) (st : perUserState) : option perUserState :=
  if 0 <? chan_len st ch then
    Some {| pu_sems := pu_sems st; pu_lens := <[ch := chan_len st ch - 1]> (pu_lens st);
            pu_mu := pu_mu st |}
  else None.

(** The check of [len(sem)], and the unlock. *)
Definition release_check (key : string) (ch : nat) (st : perUserState) : perUserState :=
  {| pu_sems := if chan_len st ch =? 0 then delete key (pu_sems st) else pu_sems st;
     pu_lens := pu_lens st; pu_mu := false |}.

Record usystem := USystem { u_st : perUserState; u_calls : gmap nat uphase }.

Inductive ustep (max : nat) : usystem -> usystem -> Prop :=
| u_lookup t key ch created st s :
    u_calls s !! t = None -> pu_mu (u_st s) = false ->
    acquire_lookup key (u_st s) = (ch, created, st) ->
    ustep max s (USystem st (<[t := Looked key ch created]> (u_calls s)))
| u_send t key ch created st s :
    u_calls s !! t = Some (Looked key ch created) ->
    acquire_send max ch (u_st s) = Some st ->
    ustep max s (USystem st (<[t := Running key]> (u_calls s)))
| u_full t key ch created s :
    u_calls s !! t = Some (Looked key ch created) ->
    acquire_send max ch (u_st s) = None ->
    ustep max s (USystem (u_st s) (<[t := Full key ch created]> (u_calls s)))
| u_cleanup t key ch created s :
    u_calls s !! t = Some (Full key ch created) -> pu_mu (u_st s) = false ->
    ustep max s (USystem (acquire_cleanup key ch created (u_st s))
                         (<[t := Rejected]> (u_calls s)))
| u_release t key ph st s :
    u_calls s !! t = Some (Running key) -> pu_mu (u_st s) = false ->
    release_locked key (u_st s) = (ph, st) ->
    ustep max s (USystem st (<[t := ph]> (u_calls s)))
| u_receive t key ch st s :
    u_calls s !! t = Some (Releasing key ch) -> release_receive ch (u_st s) = Some st ->
    ustep max s (USystem st (<[t := Received key ch]> (u_calls s)))
| u_check t key ch s :
    u_calls s !! t = Some (Received key ch) ->
    ustep max s (USystem (release_check key ch (u_st s)) (<[t := Finished]> (u_calls s))).

Definition perUserLimiter : perUserState :=
  {| pu_sems := ∅; pu_lens := ∅; pu_mu := false |}.
Definition init_usystem : usystem := USystem perUserLimiter ∅.

(** [activeKeys]. *)
Definition activeKeys (st : perUserState) : nat := size (pu_sems st).
