(* ===== verification/ConcurrencySpec.v ===== *)
(** * What the concurrency caps promise

    The global cap holds under every interleaving. For the per-user cap the map
    is empty again whenever no request is under way and no interleaving
    deadlocks, although a release receives while holding the mutex; the cap
    itself holds as long as no release falls between another request's look-up
    and send, and is exceeded otherwise. *)

From S2P Require Import Prelude GoStrings Http Middleware Concurrency.

(** ** The per-user invariant *)

(** A request that has a slot of [key] to give back. *)
Definition holds (key : string) (ph : uphase) : bool :=
  match ph with Running k | Releasing k _ => String.eqb k key | _ => false end.
Definition holders (key : string) (calls : gmap nat uphase) : nat := count_if (holds key) calls.

(** The channel a request in flight remembers. *)
Definition remembers (ph : uphase) : option (string * nat) :=
  match ph with
  | Looked key ch _ | Full key ch _ | Releasing key ch | Received key ch => Some (key, ch)
  | _ => None
  end.
(** The channel it made. *)
Definition creates (ph : uphase) : option nat :=
  match ph with Looked _ ch true | Full _ ch true => Some ch | _ => None end.

(** The key and channel of a release that holds [mu]. *)
Definition locked (ph : uphase) : option (string * nat) :=
  match ph with Releasing key ch | Received key ch => Some (key, ch) | _ => None end.

Record u_inv (s : usystem) : Prop := {
  ui_chan key ch : pu_sems (u_st s) !! key = Some ch -> is_Some (pu_lens (u_st s) !! ch);
  ui_inj k1 k2 ch : pu_sems (u_st s) !! k1 = Some ch -> pu_sems (u_st s) !! k2 = Some ch -> k1 = k2;
  ui_memory t ph key ch : u_calls s !! t = Some ph -> remembers ph = Some (key, ch) ->
    is_Some (pu_lens (u_st s) !! ch)
    /\ forall k, pu_sems (u_st s) !! k = Some ch -> k = key;
  ui_creator t1 t2 ph1 ph2 ch : u_calls s !! t1 = Some ph1 -> u_calls s !! t2 = Some ph2 ->
    creates ph1 = Some ch -> creates ph2 = Some ch -> t1 = t2;
  ui_empty key ch : pu_sems (u_st s) !! key = Some ch -> chan_len (u_st s) ch = 0 ->
    exists t, u_calls s !! t = Some (Looked key ch true) \/ u_calls s !! t = Some (Received key ch);
  ui_holders key ch : pu_sems (u_st s) !! key = Some ch ->
    chan_len (u_st s) ch <= holders key (u_calls s);
  ui_mu : pu_mu (u_st s) = true ->
    exists t ph, u_calls s !! t = Some ph /\ is_Some (locked ph);
  ui_locked t ph key ch : u_calls s !! t = Some ph -> locked ph = Some (key, ch) ->
    pu_mu (u_st s) = true /\ pu_sems (u_st s) !! key = Some ch;
  ui_one t1 t2 ph1 ph2 : u_calls s !! t1 = Some ph1 -> u_calls s !! t2 = Some ph2 ->
    is_Some (locked ph1) -> is_Some (locked ph2) -> t1 = t2
}.

Lemma holders_insert key calls t ph :
  Z.of_nat (holders key (<[t := ph]> calls)) =
  (Z.of_nat (holders key calls) + (if holds key ph then 1 else 0)
   - match calls !! t with Some old => if holds key old then 1 else 0 | None => 0 end)%Z.
Proof. apply count_if_insert. Qed.

Lemma creates_remembers ph ch : creates ph = Some ch -> exists key, remembers ph = Some (key, ch).
Proof. by destruct ph as [k c []|k c []| | | | |]; intros [= <-]; eexists. Qed.

Lemma chan_len_insert st sems mu ch n ch' :
  chan_len {| pu_sems := sems; pu_lens := <[ch := n]> (pu_lens st); pu_mu := mu |} ch'
  = if decide (ch' = ch) then n else chan_len st ch'.
Proof.
  unfold chan_len. simpl. case_decide as E; [subst; by rewrite lookup_insert_eq|].
  by rewrite lookup_insert_ne.
Qed.

Lemma u_inv_init : u_inv init_usystem.
Proof.
  split; simpl; intros; repeat match goal with H : ∅ !! _ = _ |- _ =>
    by rewrite lookup_empty in H end; done.
Qed.

(** One call moves: what the others were is unchanged. *)
Lemma calls_cases (calls : gmap nat uphase) t ph t' ph' :
  <[t := ph]> calls !! t' = Some ph' -> t' = t /\ ph' = ph \/ t' <> t /\ calls !! t' = Some ph'.
Proof. rewrite lookup_insert_Some. naive_solver. Qed.

Section steps.
Context (s : usystem) (t : nat) (Hinv : u_inv s).

(** A call that holds no slot before or after keeps the holders. *)
Lemma holders_same ph :
  (forall k, holds k ph = match u_calls s !! t with Some old => holds k old | None => false end) ->
  forall k, holders k (<[t := ph]> (u_calls s)) = holders k (u_calls s).
Proof.
  intros Hh k. pose proof (holders_insert k (u_calls s) t ph) as Hi. rewrite Hh in Hi.
  destruct (u_calls s !! t); lia.
Qed.

(** A move that keeps the state, remembers only what is right, does not withdraw
    the creator of an empty channel, and has nothing to do with [mu]. *)
Lemma u_inv_move ph :
  (forall k, holds k ph = match u_calls s !! t with Some old => holds k old | None => false end) ->
  locked ph = None ->
  (forall old, u_calls s !! t = Some old -> locked old = None) ->
  (forall key ch, remembers ph = Some (key, ch) -> is_Some (pu_lens (u_st s) !! ch)
     /\ forall k, pu_sems (u_st s) !! k = Some ch -> k = key) ->
  (forall ch, creates ph = Some ch -> exists old, u_calls s !! t = Some old /\ creates old = Some ch) ->
  (forall key ch, u_calls s !! t = Some (Looked key ch true) -> chan_len (u_st s) ch <> 0) ->
  u_inv (USystem (u_st s) (<[t := ph]> (u_calls s))).
Proof.
  intros Hh Hnb Hob Hrem Hcr Hemp. pose proof (holders_same ph Hh) as Hsame.
  destruct Hinv as [Hchan Hinj Hmem Hcre Hempty Hhol Hm Hblk Hone]. split; simpl; auto.
  - intros t' ph' k c [[-> ->]|[_ Hc]]%calls_cases; eauto.
  - intros t1 t2 ph1 ph2 c [[-> ->]|[N1 H1]]%calls_cases [[-> ->]|[N2 H2]]%calls_cases C1 C2; eauto.
    + destruct (Hcr _ C1) as (old & Ho & Hco). eauto.
    + destruct (Hcr _ C2) as (old & Ho & Hco). eauto.
  - intros k c Hk Hl. destruct (Hempty k c Hk Hl) as [t' Ht']. exists t'.
    rewrite lookup_insert_ne; [done|]. intros <-.
    destruct Ht' as [Ht'|Ht']; [by apply (Hemp k c)|by apply Hob in Ht'].
  - intros k c Hk. rewrite Hsame. eauto.
  - intros Hmu. destruct (Hm Hmu) as (t' & ph' & Hc & Hl). exists t', ph'.
    rewrite lookup_insert_ne; [done|]. intros <-. rewrite (Hob _ Hc) in Hl. by destruct Hl.
  - intros t' ph' k c [[_ ->]|[_ Hc]]%calls_cases; [congruence|eauto].
  - intros t1 t2 ph1 ph2 [[_ ->]|[_ H1]]%calls_cases;
      [intros _; rewrite Hnb; intros []%is_Some_None|].
    intros [[_ ->]|[_ H2]]%calls_cases; [rewrite Hnb; intros _ []%is_Some_None|eauto].
Qed.

(** The look-up of an existing channel. *)
Lemma u_inv_lookup_old key ch :
  u_calls s !! t = None -> pu_sems (u_st s) !! key = Some ch ->
  u_inv (USystem (u_st s) (<[t := Looked key ch false]> (u_calls s))).
Proof.
  intros Ht Hk. apply u_inv_move; rewrite ?Ht; try done.
  intros k c [= <- <-]. split; [by eapply ui_chan|]. intros k' Hk'. by eapply ui_inj.
Qed.

(** The look-up that makes a channel. *)
Lemma u_inv_lookup_new key ch :
  u_calls s !! t = None -> pu_mu (u_st s) = false -> pu_sems (u_st s) !! key = None ->
  pu_lens (u_st s) !! ch = None ->
  u_inv (USystem {| pu_sems := <[key := ch]> (pu_sems (u_st s));
                    pu_lens := <[ch := 0]> (pu_lens (u_st s)); pu_mu := pu_mu (u_st s) |}
                 (<[t := Looked key ch true]> (u_calls s))).
Proof.
  intros Ht Hmu Hkey Hfresh.
  assert (forall k, holders k (<[t := Looked key ch true]> (u_calls s)) = holders k (u_calls s)) as Hh
    by (apply holders_same; by rewrite Ht).
  destruct Hinv as [Hchan Hinj Hmem Hcre Hemp Hhol Hm Hblk Hone].
  assert (forall c, is_Some (pu_lens (u_st s) !! c) -> c <> ch) as Hold.
  { intros c [x Hx] ->. congruence. }
  assert (forall ph t' c, u_calls s !! t' = Some ph -> creates ph = Some c -> c <> ch) as Hcnew.
  { intros ph t' c Hc [k Hk]%creates_remembers. eapply Hold, Hmem; eauto. }
  split; simpl.
  - intros k c [[<- <-]|[_ Hk]]%lookup_insert_Some; [by rewrite lookup_insert_eq; eauto|].
    rewrite lookup_insert_ne by (symmetry; apply Hold; eauto). eauto.
  - intros k1 k2 c [[<- <-]|[_ H1]]%lookup_insert_Some [[<- Hc]|[_ H2]]%lookup_insert_Some; eauto.
    + by destruct (Hold ch (Hchan _ _ H2)).
    + subst. by destruct (Hold c (Hchan _ _ H1)).
  - intros t' ph k c [[-> ->]|[_ Hc]]%calls_cases.
    + intros [= <- <-]. rewrite lookup_insert_eq. split; [done|].
      intros k [[<- _]|[_ Hk]]%lookup_insert_Some; [done|]. by destruct (Hold ch (Hchan _ _ Hk)).
    + intros Hr. destruct (Hmem _ _ _ _ Hc Hr) as [Hs Hk].
      rewrite lookup_insert_ne by (symmetry; by apply Hold). split; [done|].
      intros k' [[<- <-]|[_ Hk']]%lookup_insert_Some; [by destruct (Hold ch Hs)|auto].
  - intros t1 t2 ph1 ph2 c [[-> ->]|[_ H1]]%calls_cases [[-> ->]|[_ H2]]%calls_cases; simpl; eauto.
    + intros [= <-] Hc. by destruct (Hcnew _ _ _ H2 Hc).
    + intros Hc [= <-]. by destruct (Hcnew _ _ _ H1 Hc).
  - intros k c [[<- <-]|[_ Hk]]%lookup_insert_Some; rewrite chan_len_insert.
    + intros _. exists t. left. by rewrite lookup_insert_eq.
    + rewrite decide_False by (apply Hold; eauto). intros Hl.
      destruct (Hemp k c Hk Hl) as [t' Ht']. exists t'.
      rewrite lookup_insert_ne; [done|]. intros <-. rewrite Ht in Ht'. by destruct Ht'.
  - intros k c [[<- <-]|[_ Hk]]%lookup_insert_Some; rewrite chan_len_insert.
    + rewrite decide_True by done. lia.
    + rewrite decide_False by (apply Hold; eauto). rewrite Hh. eauto.
  - congruence.
  - intros t' ph k c [[_ ->]|[_ Hc]]%calls_cases Hl; [done|].
    destruct (Hblk _ _ _ _ Hc Hl). congruence.
  - intros t1 t2 ph1 ph2 [[_ ->]|[_ H1]]%calls_cases [[_ ->]|[_ H2]]%calls_cases;
      try (by intros _ []%is_Some_None) || (by intros []%is_Some_None); eauto.
Qed.

(** The send. *)
Lemma u_inv_send max key ch created st :
  u_calls s !! t = Some (Looked key ch created) -> acquire_send max ch (u_st s) = Some st ->
  u_inv (USystem st (<[t := Running key]> (u_calls s))).
Proof.
  intros Ht Hsend. unfold acquire_send in Hsend.
  destruct (chan_len (u_st s) ch <? max); [|done]. injection Hsend as <-.
  assert (forall k, Z.of_nat (holders k (<[t := Running key]> (u_calls s)))
    = Z.of_nat (holders k (u_calls s)) + if String.eqb key k then 1 else 0)%Z as Hh.
  { intros k. rewrite holders_insert, Ht. simpl. lia. }
  destruct Hinv as [Hchan Hinj Hmem Hcre Hemp Hhol Hm Hblk Hone].
  destruct (Hmem _ _ key ch Ht eq_refl) as [Hch Hown].
  assert (forall c, is_Some (pu_lens (u_st s) !! c) ->
    is_Some (<[ch := S (chan_len (u_st s) ch)]> (pu_lens (u_st s)) !! c)) as Hkeep.
  { intros c Hc. rewrite lookup_insert_is_Some'. auto. }
  split; simpl; eauto.
  - intros t' ph k c [[-> ->]|[_ Hc]]%calls_cases; [done|]. intros Hr.
    destruct (Hmem _ _ _ _ Hc Hr). eauto.
  - intros t1 t2 ph1 ph2 c [[-> ->]|[_ H1]]%calls_cases [[-> ->]|[_ H2]]%calls_cases; done || eauto.
  - intros k c Hk. rewrite chan_len_insert. case_decide as E; [done|]. intros Hl.
    destruct (Hemp k c Hk Hl) as [t' Ht']. exists t'. rewrite lookup_insert_ne; [done|].
    intros <-. rewrite Ht in Ht'. naive_solver.
  - intros k c Hk. rewrite chan_len_insert. specialize (Hhol k c Hk). specialize (Hh k). case_decide as E.
    + subst c. rewrite (Hown k Hk) in *. rewrite String.eqb_refl in Hh. lia.
    + destruct (String.eqb key k); lia.
  - intros Hmu. destruct (Hm Hmu) as (t' & ph & Hc & Hl). exists t', ph.
    rewrite lookup_insert_ne; [done|]. intros <-. rewrite Ht in Hc. injection Hc as <-.
    by destruct Hl.
  - intros t' ph k c [[_ ->]|[_ Hc]]%calls_cases; [done|eauto].
  - intros t1 t2 ph1 ph2 [[_ ->]|[_ H1]]%calls_cases [[_ ->]|[_ H2]]%calls_cases;
      try (by intros _ []%is_Some_None) || (by intros []%is_Some_None); eauto.
Qed.

(** The default branch, and its clean-up, which never deletes anything: an empty
    channel in the map still has its creator before the send. *)
Lemma u_inv_full max key ch created :
  0 < max -> u_calls s !! t = Some (Looked key ch created) -> acquire_send max ch (u_st s) = None ->
  u_inv (USystem (u_st s) (<[t := Full key ch created]> (u_calls s))).
Proof.
  intros Hmax Ht Hsend. apply u_inv_move; rewrite ?Ht; try done.
  - by intros old [= <-].
  - intros k c [= <- <-]. by apply (ui_memory _ Hinv t _ key ch Ht).
  - intros c Hc. eexists. split; [done|exact Hc].
  - intros k c [= <- <- ->]. unfold acquire_send in Hsend.
    destruct (Nat.ltb_spec (chan_len (u_st s) ch) max); [done|lia].
Qed.

Lemma cleanup_idle key ch created :
  pu_mu (u_st s) = false -> u_calls s !! t = Some (Full key ch created) ->
  acquire_cleanup key ch created (u_st s) = u_st s.
Proof.
  intros Hmu Ht. unfold acquire_cleanup. destruct created; [|done].
  destruct (Nat.eqb_spec (chan_len (u_st s) ch) 0) as [Hl|]; [|done].
  simpl. case_bool_decide as Hk; [|done].
  destruct (ui_empty _ Hinv _ _ Hk Hl) as [t' [Ht'|Ht']].
  - by rewrite (ui_creator _ Hinv t' t _ _ ch Ht' Ht eq_refl eq_refl), Ht in Ht'.
  - destruct (ui_locked _ Hinv _ _ _ _ Ht' eq_refl). congruence.
Qed.

Lemma u_inv_cleanup key ch created :
  pu_mu (u_st s) = false -> u_calls s !! t = Some (Full key ch created) ->
  u_inv (USystem (acquire_cleanup key ch created (u_st s)) (<[t := Rejected]> (u_calls s))).
Proof.
  intros Hmu Ht. rewrite (cleanup_idle _ _ _ Hmu Ht). apply u_inv_move; rewrite ?Ht; try done.
  by intros old [= <-].
Qed.

(** The release of a key that is not in the map. *)
Lemma u_inv_release_absent key :
  u_calls s !! t = Some (Running key) -> pu_sems (u_st s) !! key = None ->
  u_inv (USystem (u_st s) (<[t := Finished]> (u_calls s))).
Proof.
  intros Ht Hkey. pose proof (fun k => holders_insert k (u_calls s) t Finished) as Hh.
  setoid_rewrite Ht in Hh. simpl in Hh.
  destruct Hinv as [Hchan Hinj Hmem Hcre Hemp Hhol Hm Hblk Hone]. split; simpl; eauto.
  - intros t' ph k c [[-> ->]|[_ Hc]]%calls_cases; done || eauto.
  - intros t1 t2 ph1 ph2 c [[-> ->]|[_ H1]]%calls_cases [[-> ->]|[_ H2]]%calls_cases; done || eauto.
  - intros k c Hk Hl. destruct (Hemp k c Hk Hl) as [t' Ht']. exists t'.
    rewrite lookup_insert_ne; [done|]. intros <-. rewrite Ht in Ht'. naive_solver.
  - intros k c Hk. specialize (Hh k). specialize (Hhol k c Hk).
    rewrite (proj2 (String.eqb_neq key k)) in Hh by (intros ->; congruence). lia.
  - intros Hmu. destruct (Hm Hmu) as (t' & ph & Hc & Hl). exists t', ph.
    rewrite lookup_insert_ne; [done|]. intros <-. rewrite Ht in Hc. injection Hc as <-.
    by destruct Hl.
  - intros t' ph k c [[_ ->]|[_ Hc]]%calls_cases; done || eauto.
  - intros t1 t2 ph1 ph2 [[_ ->]|[_ H1]]%calls_cases [[_ ->]|[_ H2]]%calls_cases;
      try (by intros _ []%is_Some_None) || (by intros []%is_Some_None); eauto.
Qed.

(** Finding the channel: [mu] is kept. *)
Lemma u_inv_release_take key ch :
  u_calls s !! t = Some (Running key) -> pu_mu (u_st s) = false ->
  pu_sems (u_st s) !! key = Some ch ->
  u_inv (USystem {| pu_sems := pu_sems (u_st s); pu_lens := pu_lens (u_st s); pu_mu := true |}
                 (<[t := Releasing key ch]> (u_calls s))).
Proof.
  intros Ht Hmu Hkey.
  assert (forall k, holders k (<[t := Releasing key ch]> (u_calls s)) = holders k (u_calls s)) as Hh
    by (apply holders_same; by rewrite Ht).
  destruct Hinv as [Hchan Hinj Hmem Hcre Hemp Hhol Hm Hblk Hone].
  assert (forall t' ph, u_calls s !! t' = Some ph -> locked ph = None) as Hnb.
  { intros t' ph Hc. destruct (locked ph) as [[k c]|] eqn:Hl; [|done].
    destruct (Hblk _ _ _ _ Hc Hl). congruence. }
  split; simpl; eauto.
  - intros t' ph k c [[-> ->]|[_ Hc]]%calls_cases; [|eauto]. intros [= <- <-]. eauto.
  - intros t1 t2 ph1 ph2 c [[-> ->]|[_ H1]]%calls_cases [[-> ->]|[_ H2]]%calls_cases; done || eauto.
  - intros k c Hk Hl. destruct (Hemp k c Hk Hl) as [t' Ht']. exists t'.
    rewrite lookup_insert_ne; [done|]. intros <-. rewrite Ht in Ht'. naive_solver.
  - intros k c Hk. rewrite Hh. eauto.
  - intros _. exists t, (Releasing key ch). by rewrite lookup_insert_eq.
  - intros t' ph k c [[-> ->]|[_ Hc]]%calls_cases; [by intros [= <- <-]|].
    by rewrite (Hnb _ _ Hc).
  - intros t1 t2 ph1 ph2 [[-> ->]|[_ H1]]%calls_cases [[-> ->]|[_ H2]]%calls_cases L1 L2; [done|..];
      [rewrite (Hnb _ _ H2) in L2|rewrite (Hnb _ _ H1) in L1..]; by apply is_Some_None in L1 || apply is_Some_None in L2.
Qed.

(** The receive. *)
Lemma u_inv_receive key ch st :
  u_calls s !! t = Some (Releasing key ch) -> release_receive ch (u_st s) = Some st ->
  u_inv (USystem st (<[t := Received key ch]> (u_calls s))).
Proof.
  intros Ht Hrcv. unfold release_receive in Hrcv.
  destruct (Nat.ltb_spec 0 (chan_len (u_st s) ch)) as [Hlen|]; [|done]. injection Hrcv as <-.
  assert (forall k, Z.of_nat (holders k (<[t := Received key ch]> (u_calls s)))
    = Z.of_nat (holders k (u_calls s)) - if String.eqb key k then 1 else 0)%Z as Hh.
  { intros k. rewrite holders_insert, Ht. simpl. lia. }
  destruct Hinv as [Hchan Hinj Hmem Hcre Hemp Hhol Hm Hblk Hone].
  destruct (Hblk _ _ _ _ Ht eq_refl) as [Hmu Hkey].
  assert (forall c n, is_Some (pu_lens (u_st s) !! c) ->
    is_Some (<[ch := n]> (pu_lens (u_st s)) !! c)) as Hkeep.
  { intros c n Hc. rewrite lookup_insert_is_Some'. auto. }
  split; simpl; eauto.
  - intros t' ph k c [[-> ->]|[_ Hc]]%calls_cases Hr.
    + injection Hr as <- <-. destruct (Hmem _ _ _ _ Ht eq_refl). eauto.
    + destruct (Hmem _ _ _ _ Hc Hr). eauto.
  - intros t1 t2 ph1 ph2 c [[-> ->]|[_ H1]]%calls_cases [[-> ->]|[_ H2]]%calls_cases; done || eauto.
  - intros k c Hk. rewrite chan_len_insert. case_decide as E.
    + subst c. rewrite (Hinj _ _ _ Hk Hkey). intros _. exists t. right. by rewrite lookup_insert_eq.
    + intros Hl. destruct (Hemp k c Hk Hl) as [t' Ht']. exists t'.
      rewrite lookup_insert_ne; [done|]. intros <-. rewrite Ht in Ht'. naive_solver.
  - intros k c Hk. rewrite chan_len_insert. specialize (Hhol k c Hk). specialize (Hh k).
    case_decide as E.
    + subst c. destruct (String.eqb key k); lia.
    + rewrite (proj2 (String.eqb_neq key k)) in Hh by (intros ->; congruence). lia.
  - intros _. exists t, (Received key ch). by rewrite lookup_insert_eq.
  - intros t' ph k c [[-> ->]|[_ Hc]]%calls_cases; [by intros [= <- <-]|eauto].
  - intros t1 t2 ph1 ph2 [[-> ->]|[_ H1]]%calls_cases [[-> ->]|[_ H2]]%calls_cases L1 L2; eauto;
      by eapply Hone.
Qed.

(** The check. *)
Lemma u_inv_check key ch :
  u_calls s !! t = Some (Received key ch) ->
  u_inv (USystem (release_check key ch (u_st s)) (<[t := Finished]> (u_calls s))).
Proof.
  intros Ht.
  assert (forall k, holders k (<[t := Finished]> (u_calls s)) = holders k (u_calls s)) as Hh
    by (apply holders_same; by rewrite Ht).
  destruct Hinv as [Hchan Hinj Hmem Hcre Hemp Hhol Hm Hblk Hone].
  destruct (Hblk _ _ _ _ Ht eq_refl) as [Hmu Hkey].
  assert (forall t' ph, t' <> t -> u_calls s !! t' = Some ph -> locked ph = None) as Hnb.
  { intros t' ph Hne Hc. destruct (locked ph) eqn:Hl; [|done]. destruct Hne.
    eapply Hone; [done|done|by rewrite Hl|done]. }
  unfold release_check.
  set (sems := if chan_len (u_st s) ch =? 0 then delete key (pu_sems (u_st s)) else pu_sems (u_st s)).
  assert (forall k c, sems !! k = Some c ->
    pu_sems (u_st s) !! k = Some c /\ (chan_len (u_st s) ch = 0 -> k <> key)) as Hsub.
  { intros k c. unfold sems. destruct (Nat.eqb_spec (chan_len (u_st s) ch) 0); [|done].
    rewrite lookup_delete_Some. naive_solver. }
  split; simpl.
  - intros k c [Hk _]%Hsub. eauto.
  - intros k1 k2 c [H1 _]%Hsub [H2 _]%Hsub. eauto.
  - intros t' ph k c [[-> ->]|[_ Hc]]%calls_cases; [done|]. intros Hr.
    destruct (Hmem _ _ _ _ Hc Hr) as [? Hk]. split; [eauto|]. intros k' [Hk' _]%Hsub. eauto.
  - intros t1 t2 ph1 ph2 c [[-> ->]|[_ H1]]%calls_cases [[-> ->]|[_ H2]]%calls_cases; done || eauto.
  - intros k c [Hk Hne]%Hsub Hl. change (chan_len (u_st s) c = 0) in Hl.
    destruct (Hemp k c Hk Hl) as [t' Ht']. exists t'.
    rewrite lookup_insert_ne; [done|]. intros <-. rewrite Ht in Ht'.
    destruct Ht' as [|[= -> ->]]; [done|]. by destruct (Hne Hl).
  - intros k c [Hk _]%Hsub. rewrite Hh. exact (Hhol k c Hk).
  - done.
  - intros t' ph k c [[_ ->]|[Hne Hc]]%calls_cases; [done|]. by rewrite (Hnb _ _ Hne Hc).
  - intros t1 t2 ph1 ph2 [[-> ->]|[N1 H1]]%calls_cases [[-> ->]|[N2 H2]]%calls_cases L1 L2; [done|..];
      [by apply is_Some_None in L1|by apply is_Some_None in L2|].
    rewrite (Hnb _ _ N1 H1) in L1. by apply is_Some_None in L1.
Qed.
End steps.

Lemma u_inv_step max s s' : 0 < max -> u_inv s -> ustep max s s' -> u_inv s'.
Proof.
  intros Hmax Hinv Hstep.
  destruct Hstep as [t key ch created st s Ht Hmu Hlook|t key ch created st s Ht Hsend
    |t key ch created s Ht Hsend|t key ch created s Ht Hmu|t key ph st s Ht Hmu Hrel
    |t key ch st s Ht Hrcv|t key ch s Ht].
  - unfold acquire_lookup in Hlook. destruct (pu_sems (u_st s) !! key) as [ch0|] eqn:Hkey;
      injection Hlook as <- <- <-.
    + by apply (u_inv_lookup_old _ _ Hinv).
    + apply (u_inv_lookup_new _ _ Hinv); [done..|]. apply not_elem_of_dom, is_fresh.
  - by eapply (u_inv_send _ _ Hinv).
  - by eapply (u_inv_full _ _ Hinv).
  - by apply (u_inv_cleanup _ _ Hinv).
  - unfold release_locked in Hrel. destruct (pu_sems (u_st s) !! key) as [ch|] eqn:Hkey;
      injection Hrel as <- <-.
    + by apply (u_inv_release_take _ _ Hinv).
    + by eapply (u_inv_release_absent _ _ Hinv).
  - by eapply (u_inv_receive _ _ Hinv).
  - by apply (u_inv_check _ _ Hinv).
Qed.

Lemma u_inv_reachable max s : 0 < max -> rtc (ustep max) init_usystem s -> u_inv s.
Proof.
  intros Hmax. apply rtc_invariant; [apply u_inv_init|]. intros s1 s2 Hstep Hinv.
  by eapply u_inv_step.
Qed.

(** ** The calm fragment *)

(** A step that is not the [len] check of a release, with another request between
    the look-up and the send of the same key. *)
Definition calm_step (max : nat) (s s' : usystem) : Prop :=
  ustep max s s' /\
  forall t key ch, u_calls s !! t = Some (Received key ch) ->
    u_calls s' !! t <> Some (Received key ch) ->
    forall t' ch' created, u_calls s !! t' <> Some (Looked key ch' created).

Record calm_inv (max : nat) (s : usystem) : Prop := {
  ci_inv : u_inv s;
  ci_looked t key ch created : u_calls s !! t = Some (Looked key ch created) ->
    pu_sems (u_st s) !! key = Some ch;
  ci_len key ch : pu_sems (u_st s) !! key = Some ch ->
    chan_len (u_st s) ch = holders key (u_calls s) /\ chan_len (u_st s) ch <= max;
  ci_none key : pu_sems (u_st s) !! key = None -> holders key (u_calls s) = 0
}.

Section calm.
Context (max : nat) (Hmax : 0 < max).

Lemma calm_inv_init : calm_inv max init_usystem.
Proof.
  split; [apply u_inv_init|simpl..].
  - intros t key ch created. by rewrite lookup_empty.
  - intros key ch. by rewrite lookup_empty.
  - intros key _. apply count_if_empty.
Qed.

(** The per-key bookkeeping, when call [t] moves to [ph]. *)
Lemma holders_step s t ph k :
  Z.of_nat (holders k (<[t := ph]> (u_calls s))) =
  (Z.of_nat (holders k (u_calls s)) + (if holds k ph then 1 else 0)
   - match u_calls s !! t with Some old => if holds k old then 1 else 0 | None => 0 end)%Z.
Proof. apply holders_insert. Qed.

Lemma calm_lookup s t key ch created st :
  calm_inv max s -> u_calls s !! t = None -> acquire_lookup key (u_st s) = (ch, created, st) ->
  u_inv (USystem st (<[t := Looked key ch created]> (u_calls s))) ->
  calm_inv max (USystem st (<[t := Looked key ch created]> (u_calls s))).
Proof.
  intros [Hinv Hlk Hlen Hnone] Ht Hlook Hinv'.
  assert (forall k, holders k (<[t := Looked key ch created]> (u_calls s)) = holders k (u_calls s)) as Hh.
  { intros k. pose proof (holders_step s t (Looked key ch created) k) as Hi. rewrite Ht in Hi.
    simpl in Hi. lia. }
  unfold acquire_lookup in Hlook. destruct (pu_sems (u_st s) !! key) as [ch0|] eqn:Hkey;
    injection Hlook as <- <- <-; split; simpl; auto.
  - intros t' k c cr [[_ [= -> -> ->]]|[_ Hc]]%calls_cases; eauto.
  - intros k c Hk. rewrite Hh. auto.
  - intros k Hk. rewrite Hh. auto.
  - intros t' k c cr [[_ [= -> -> ->]]|[_ Hc]]%calls_cases; [by rewrite lookup_insert_eq|].
    rewrite lookup_insert_ne; [eauto|]. intros <-. apply Hlk in Hc. congruence.
  - intros k c. rewrite Hh, chan_len_insert. intros [[<- <-]|[Hne Hk]]%lookup_insert_Some.
    + rewrite decide_True, Hnone by done. lia.
    + rewrite decide_False; [auto|]. intros ->.
      destruct (ui_chan _ Hinv _ _ Hk) as [x Hx].
      assert (pu_lens (u_st s) !! fresh (dom (pu_lens (u_st s))) = None) as Hf
        by apply not_elem_of_dom, is_fresh. congruence.
  - intros k [Hk _]%lookup_insert_None. rewrite Hh. auto.
Qed.

Lemma calm_send s t key ch created st :
  calm_inv max s -> u_calls s !! t = Some (Looked key ch created) ->
  acquire_send max ch (u_st s) = Some st ->
  u_inv (USystem st (<[t := Running key]> (u_calls s))) ->
  calm_inv max (USystem st (<[t := Running key]> (u_calls s))).
Proof.
  intros [Hinv Hlk Hlen Hnone] Ht Hsend Hinv'. pose proof (Hlk _ _ _ _ Ht) as Hkey.
  unfold acquire_send in Hsend. destruct (Nat.ltb_spec (chan_len (u_st s) ch) max); [|done].
  injection Hsend as <-. split; simpl; auto.
  - intros t' k c cr [[_ ?]|[_ Hc]]%calls_cases; [done|eauto].
  - intros k c Hk. pose proof (holders_step s t (Running key) k) as Hi. rewrite Ht in Hi. simpl in Hi.
    rewrite chan_len_insert. destruct (Hlen k c Hk). case_decide as E.
    + subst c. rewrite (ui_inj _ Hinv _ _ _ Hk Hkey) in *. rewrite String.eqb_refl in Hi. lia.
    + rewrite (proj2 (String.eqb_neq key k)) in Hi by (intros ->; congruence). lia.
  - intros k Hk. pose proof (holders_step s t (Running key) k) as Hi. rewrite Ht in Hi. simpl in Hi.
    specialize (Hnone k Hk). rewrite (proj2 (String.eqb_neq key k)) in Hi by (intros ->; congruence). lia.
Qed.

(** Moves that neither hold nor look anything up. *)
Lemma calm_idle s t ph :
  calm_inv max s ->
  (forall k, holds k ph = match u_calls s !! t with Some old => holds k old | None => false end) ->
  (forall k c cr, ph <> Looked k c cr) ->
  u_inv (USystem (u_st s) (<[t := ph]> (u_calls s))) ->
  calm_inv max (USystem (u_st s) (<[t := ph]> (u_calls s))).
Proof.
  intros [Hinv Hlk Hlen Hnone] Hh Hnl Hinv'. pose proof (holders_same s t ph Hh) as Hsame.
  split; simpl; auto.
  - intros t' k c cr [[_ E]|[_ Hc]]%calls_cases; [by apply eq_sym, Hnl in E|eauto].
  - intros k c Hk. rewrite Hsame. auto.
  - intros k Hk. rewrite Hsame. auto.
Qed.

Lemma calm_take s t key ch :
  calm_inv max s -> u_calls s !! t = Some (Running key) ->
  let s' := USystem {| pu_sems := pu_sems (u_st s); pu_lens := pu_lens (u_st s); pu_mu := true |}
                    (<[t := Releasing key ch]> (u_calls s)) in
  u_inv s' -> calm_inv max s'.
Proof.
  intros [Hinv Hlk Hlen Hnone] Ht s' Hinv'.
  assert (forall k, holders k (<[t := Releasing key ch]> (u_calls s)) = holders k (u_calls s)) as Hh
    by (apply holders_same; by rewrite Ht).
  split; simpl; auto.
  - intros t' k c cr [[_ ?]|[_ Hc]]%calls_cases; [done|eauto].
  - intros k c Hk. rewrite Hh. exact (Hlen k c Hk).
  - intros k Hk. rewrite Hh. auto.
Qed.

Lemma calm_receive s t key ch st :
  calm_inv max s -> u_calls s !! t = Some (Releasing key ch) ->
  release_receive ch (u_st s) = Some st ->
  u_inv (USystem st (<[t := Received key ch]> (u_calls s))) ->
  calm_inv max (USystem st (<[t := Received key ch]> (u_calls s))).
Proof.
  intros [Hinv Hlk Hlen Hnone] Ht Hrcv Hinv'.
  destruct (ui_locked _ Hinv _ _ _ _ Ht eq_refl) as [_ Hkey].
  unfold release_receive in Hrcv.
  destruct (Nat.ltb_spec 0 (chan_len (u_st s) ch)); [|done]. injection Hrcv as <-.
  assert (forall k, Z.of_nat (holders k (<[t := Received key ch]> (u_calls s)))
    = Z.of_nat (holders k (u_calls s)) - if String.eqb key k then 1 else 0)%Z as Hh.
  { intros k. rewrite holders_insert, Ht. simpl. lia. }
  split; simpl; auto.
  - intros t' k c cr [[_ ?]|[_ Hc]]%calls_cases; [done|eauto].
  - intros k c Hk. rewrite chan_len_insert. specialize (Hh k). destruct (Hlen _ _ Hk).
    case_decide as E.
    + subst c. rewrite (ui_inj _ Hinv _ _ _ Hk Hkey) in *. rewrite String.eqb_refl in Hh. lia.
    + rewrite (proj2 (String.eqb_neq key k)) in Hh by (intros ->; congruence). lia.
  - intros k Hk. specialize (Hh k). specialize (Hnone k Hk). destruct (String.eqb key k); lia.
Qed.

Lemma calm_check s t key ch :
  calm_inv max s -> u_calls s !! t = Some (Received key ch) ->
  (forall t' c cr, u_calls s !! t' <> Some (Looked key c cr)) ->
  let s' := USystem (release_check key ch (u_st s)) (<[t := Finished]> (u_calls s)) in
  u_inv s' -> calm_inv max s'.
Proof.
  intros [Hinv Hlk Hlen Hnone] Ht Hcalm s' Hinv'.
  assert (forall k, holders k (<[t := Finished]> (u_calls s)) = holders k (u_calls s)) as Hh
    by (apply holders_same; by rewrite Ht).
  destruct (ui_locked _ Hinv _ _ _ _ Ht eq_refl) as [_ Hkey].
  split; simpl; auto.
  - intros t' k c cr [[_ ?]|[_ Hc]]%calls_cases; [done|].
    destruct (chan_len (u_st s) ch =? 0); [|eauto].
    rewrite lookup_delete_ne; [eauto|]. intros <-. by apply Hcalm in Hc.
  - intros k c Hk. rewrite Hh. apply Hlen.
    destruct (chan_len (u_st s) ch =? 0); [|done]. by apply lookup_delete_Some in Hk as [_ ?].
  - intros k Hk. rewrite Hh. destruct (Nat.eqb_spec (chan_len (u_st s) ch) 0) as [E|]; [|auto].
    apply lookup_delete_None in Hk as [<-|Hk]; [|auto].
    destruct (Hlen _ _ Hkey). congruence.
Qed.

(** Under calm steps a release finds the channel of its key. *)
Lemma calm_running s t key :
  calm_inv max s -> u_calls s !! t = Some (Running key) -> exists ch, pu_sems (u_st s) !! key = Some ch.
Proof.
  intros Hc Ht. destruct (pu_sems (u_st s) !! key) as [ch|] eqn:Hk; [by exists ch|].
  apply (ci_none _ _ Hc), count_if_0 with (k := t) (x := Running key) in Hk; [|done].
  simpl in Hk. by rewrite String.eqb_refl in Hk.
Qed.

Lemma calm_inv_step s s' : calm_inv max s -> calm_step max s s' -> calm_inv max s'.
Proof.
  intros Hc [Hstep Hcalm]. pose proof (u_inv_step max s s' Hmax (ci_inv _ _ Hc) Hstep) as Hinv'.
  destruct Hstep as [t key ch created st s Ht Hmu Hlook|t key ch created st s Ht Hsend
    |t key ch created s Ht Hsend|t key ch created s Ht Hmu|t key ph st s Ht Hmu Hrel
    |t key ch st s Ht Hrcv|t key ch s Ht].
  - by apply calm_lookup.
  - by eapply calm_send.
  - apply calm_idle; [done|by rewrite Ht|done|done].
  - rewrite (cleanup_idle s t (ci_inv _ _ Hc)) in * by done.
    apply calm_idle; [done|by rewrite Ht|done|done].
  - destruct (calm_running _ _ _ Hc Ht) as (ch & Hk).
    unfold release_locked in Hrel. rewrite Hk in Hrel. injection Hrel as <- <-. by apply calm_take.
  - by eapply calm_receive.
  - apply calm_check; [done|done| |done]. apply (Hcalm t key ch Ht). simpl. by rewrite lookup_insert_eq.
Qed.
End calm.

(** ** Properties *)

(** C35: the global cap holds under every interleaving: the semaphore counts the
    requests being served, and they are never more than [max]; a request that
    ends, by returning or by panicking, gives its slot back. *)
Theorem global_inflight_cap (max : Z) (s : gsystem)
  (Hmax : (0 <= max)%Z) (Hreach : rtc (gstep max) (GSystem 0 ∅) s) :
  g_len s = Z.of_nat (count_if g_running (g_calls s)) /\ (g_len s <= max)%Z.
Proof.
  revert Hreach. apply (rtc_invariant (gstep max)
    (fun s => g_len s = Z.of_nat (count_if g_running (g_calls s)) /\ (g_len s <= max)%Z));
    [simpl; by rewrite count_if_empty|].
  intros s1 s2 [t s' Ht|t s' Ht] [Hl Hle]; simpl.
  - pose proof (fun ph => count_if_insert g_running (g_calls s') t ph) as Hi.
    setoid_rewrite Ht in Hi. destruct (Z.ltb_spec (g_len s') max); simpl; rewrite Hi; simpl; lia.
  - rewrite count_if_insert, Ht. simpl. lia.
Qed.

(** C36: whenever no request is under way the per-user map is empty (and the mutex
    free), whatever interleaving led there: memory is bounded by the active
    keys. *)
Theorem per_user_quiescent (max : nat) (s : usystem)
  (Hmax : 0 < max) (Hreach : rtc (ustep max) init_usystem s)
  (Hdone : forall t ph, u_calls s !! t = Some ph -> ph = Rejected \/ ph = Finished) :
  activeKeys (u_st s) = 0 /\ pu_mu (u_st s) = false.
Proof.
  apply u_inv_reachable in Hreach as Hinv; [|done]. split.
  - unfold activeKeys. rewrite map_size_empty_iff, map_empty. intros key.
    destruct (pu_sems (u_st s) !! key) as [ch|] eqn:Hk; [|done].
    assert (holders key (u_calls s) = 0) as Hno.
    { apply count_if_0. intros t ph Ht. by destruct (Hdone t ph Ht) as [-> | ->]. }
    pose proof (ui_holders _ Hinv _ _ Hk). destruct (ui_empty _ Hinv _ _ Hk) as [t [Ht|Ht]]; [lia|..];
      by apply Hdone in Ht as [|].
  - destruct (pu_mu (u_st s)) eqn:E; [|done].
    destruct (ui_mu _ Hinv E) as (t & ph & Ht & Hl).
    apply Hdone in Ht as [-> | ->]; by destruct Hl.
Qed.

(** C37: no deadlock: although a release may wait on a channel while it holds the
    mutex, some request under way can always take its next step, without any new
    request arriving. *)
Theorem per_user_progress (max : nat) (s : usystem) (t : nat) (ph : uphase)
  (Hmax : 0 < max) (Hreach : rtc (ustep max) init_usystem s)
  (Ht : u_calls s !! t = Some ph) (Hrun : ph <> Rejected /\ ph <> Finished) :
  exists t' ph' s', is_Some (u_calls s !! t') /\ ustep max s s'
    /\ u_calls s' = <[t' := ph']> (u_calls s).
Proof.
  apply u_inv_reachable in Hreach as Hinv; [|done].
  assert (forall t key ch created, u_calls s !! t = Some (Looked key ch created) ->
    exists t' ph' s', is_Some (u_calls s !! t') /\ ustep max s s'
      /\ u_calls s' = <[t' := ph']> (u_calls s)) as Hlooked.
  { intros t1 key ch created Ht1. destruct (acquire_send max ch (u_st s)) as [st|] eqn:E;
      do 3 eexists; (split; [by eexists|]); split; [by eapply u_send|done|by eapply u_full|done]. }
  destruct (pu_mu (u_st s)) eqn:Hmu.
  - destruct (ui_mu _ Hinv Hmu) as (t0 & ph0 & Ht0 & [[key ch] Hl0]).
    destruct (ui_locked _ Hinv _ _ _ _ Ht0 Hl0) as [_ Hk].
    destruct ph0 as [| | |k c|k c| |]; simplify_eq/=.
    + destruct (release_receive ch (u_st s)) as [st|] eqn:Hrcv.
      * do 3 eexists. split; [by eexists|]. by split; [eapply u_receive|].
      * unfold release_receive in Hrcv.
        destruct (Nat.ltb_spec 0 (chan_len (u_st s) ch)) as [|Hl]; [done|].
        destruct (ui_empty _ Hinv _ _ Hk) as [t1 [Ht1|Ht1]]; [lia|by eapply Hlooked|].
        rewrite (ui_one _ Hinv t1 t0 _ _ Ht1 Ht0), Ht0 in Ht1 by done. done.
    + do 3 eexists. split; [by eexists|]. by split; [eapply u_check|].
  - destruct ph as [key ch cr|key ch cr|key|key ch|key ch| |]; [by eapply Hlooked|..|naive_solver|naive_solver].
    + do 3 eexists. split; [by eexists|]. by split; [eapply u_cleanup|].
    + destruct (release_locked key (u_st s)) as [ph st] eqn:E.
      do 3 eexists. split; [by eexists|]. by split; [eapply u_release|].
    + destruct (ui_locked _ Hinv _ _ _ _ Ht eq_refl). congruence.
    + destruct (ui_locked _ Hinv _ _ _ _ Ht eq_refl). congruence.
Qed.

(** The per-user cap holds in every execution in which no release of a key
    falls between another request's look-up and send for that key. *)
Theorem per_user_cap_calm (max : nat) (s : usystem) (key : string)
  (Hmax : 0 < max) (Hreach : rtc (calm_step max) init_usystem s) :
  holders key (u_calls s) <= max.
Proof.
  assert (calm_inv max s) as Hc.
  { revert Hreach. apply rtc_invariant; [by apply calm_inv_init|]. intros s1 s2 Hstep Hc.
    by eapply calm_inv_step. }
  destruct (pu_sems (u_st s) !! key) as [ch|] eqn:Hk.
  - destruct (ci_len _ _ Hc _ _ Hk). lia.
  - rewrite (ci_none _ _ Hc _ Hk). lia.
Qed.

(** ** Beyond the calm fragment *)

Local Ltac map_lookup := simpl; rewrite ?lookup_insert_ne by done; apply lookup_insert_eq.

(** One round: [t1] acquires [key], [t2] looks its channel up, [t1] releases and
    drops the channel from the map, and [t2] sends on it. *)
Lemma orphan_round max key t1 t2 s :
  0 < max -> pu_mu (u_st s) = false -> pu_sems (u_st s) !! key = None ->
  u_calls s !! t1 = None -> u_calls s !! t2 = None -> t1 <> t2 ->
  exists s', rtc (ustep max) s s' /\ pu_mu (u_st s') = false /\ pu_sems (u_st s') !! key = None
    /\ holders key (u_calls s') = S (holders key (u_calls s)).
Proof.
  intros Hmax Hmu Hkey H1 H2 Hne. destruct s as [[sems lens mu] calls]; simpl in *.
  set (ch := fresh (dom lens)).
  eexists. split; [|split; [|split]].
  - eapply rtc_l.
    { eapply (u_lookup _ t1 key ch true); [done|done|]. unfold acquire_lookup. simpl. by rewrite Hkey. }
    eapply rtc_l.
    { eapply (u_send _ t1); [map_lookup|]. unfold acquire_send, chan_len. simpl.
      rewrite lookup_insert_eq. simpl. by rewrite (proj2 (Nat.ltb_lt 0 max)). }
    eapply rtc_l.
    { eapply (u_lookup _ t2 key ch false); [simpl; by rewrite !lookup_insert_ne|done|].
      unfold acquire_lookup. simpl. by rewrite lookup_insert_eq. }
    eapply rtc_l.
    { eapply (u_release _ t1); [map_lookup|done|]. unfold release_locked. simpl.
      by rewrite lookup_insert_eq. }
    eapply rtc_l.
    { eapply (u_receive _ t1); [map_lookup|]. unfold release_receive, chan_len. simpl.
      by rewrite lookup_insert_eq. }
    eapply rtc_l.
    { eapply (u_check _ t1). map_lookup. }
    eapply rtc_once, (u_send _ t2); [map_lookup|].
    unfold acquire_send, release_check, chan_len. simpl. rewrite !lookup_insert_eq. simpl.
    by rewrite (proj2 (Nat.ltb_lt 0 max)).
  - done.
  - simpl. by rewrite lookup_delete_eq.
  - apply Nat2Z.inj. simpl. rewrite !holders_insert.
    repeat (rewrite lookup_insert_eq || rewrite lookup_insert_ne by done).
    rewrite H1, H2. simpl. rewrite String.eqb_refl. lia.
Qed.

(** The per-user cap does not hold under every interleaving: for any cap and
    any number, some execution serves that many requests of one key at once. A
    release that falls between another request's look-up and send drops the
    channel from the map, the send then succeeds on it, and the next request
    makes a new one. *)
Theorem per_user_cap_exceeded (max : nat) (key : string) (n : nat) (Hmax : 0 < max) :
  exists s, rtc (ustep max) init_usystem s /\ holders key (u_calls s) = n.
Proof.
  cut (exists s, rtc (ustep max) init_usystem s /\ pu_mu (u_st s) = false
         /\ pu_sems (u_st s) !! key = None /\ holders key (u_calls s) = n); [naive_solver|].
  induction n as [|n (s & Hs & Hmu & Hkey & Hh)].
  { exists init_usystem. split; [done|]. simpl. by rewrite lookup_empty; repeat split. }
  set (t1 := fresh (dom (u_calls s))). set (t2 := fresh ({[t1]} ∪ dom (u_calls s))).
  assert (t1 ∉ dom (u_calls s)) as H1 by apply is_fresh.
  assert (t2 ∉ {[t1]} ∪ dom (u_calls s)) as H2 by apply is_fresh.
  destruct (orphan_round max key t1 t2 s Hmax Hmu Hkey) as (s' & Hs' & Hmu' & Hkey' & Hh');
    [by apply not_elem_of_dom|apply not_elem_of_dom; set_solver|set_solver|].
  exists s'. split; [by etransitivity|]. by rewrite Hh', Hh.
Qed.

(** ** Witnesses *)

Module Witness.
(** Two requests for a cap of one: the first runs, the second is rejected. *)
Definition one_running : gsystem := GSystem 1 {[0 := GRunning]}.

Lemma one_running_reached : rtc (gstep 1) (GSystem 0 ∅) one_running.
Proof. apply rtc_once. by apply (g_arrive 1 0 (GSystem 0 ∅)). Qed.

(** An instance of [global_inflight_cap]. *)
Lemma global_inflight_cap_witness : g_len one_running = 1%Z /\ (g_len one_running <= 1)%Z.
Proof. refine (global_inflight_cap 1 one_running _ one_running_reached). lia. Defined.

(** One request for "a", after each of its steps. *)
Definition chan0 : nat := fresh (dom (∅ : gmap nat nat)).
Definition stage (sems : gmap string nat) (len : nat) (mu : bool) (ph : uphase) : usystem :=
  USystem {| pu_sems := sems; pu_lens := {[chan0 := len]}; pu_mu := mu |} {[0 := ph]}.
Definition looked : usystem := stage {["a" := chan0]} 0 false (Looked "a" chan0 true).
Definition served : usystem := stage {["a" := chan0]} 1 false (Running "a").
Definition finished : usystem := stage ∅ 0 false Finished.

Lemma looked_step : ustep 1 init_usystem looked.
Proof. by apply (u_lookup 1 0 "a" chan0 true _ init_usystem). Qed.

Lemma served_step : ustep 1 looked served.
Proof. by apply (u_send 1 0 "a" chan0 true _ looked). Qed.

Lemma finished_reached : rtc (ustep 1) init_usystem finished.
Proof.
  eapply rtc_l; [exact looked_step|]. eapply rtc_l; [exact served_step|].
  eapply rtc_l; [by eapply (u_release 1 0 "a")|].
  eapply rtc_l; [by eapply (u_receive 1 0 "a" chan0)|].
  apply rtc_once. by eapply (u_check 1 0 "a" chan0).
Qed.

(** An instance of [per_user_quiescent]. *)
Lemma per_user_quiescent_witness : activeKeys (u_st finished) = 0 /\ pu_mu (u_st finished) = false.
Proof.
  refine (per_user_quiescent 1 finished _ finished_reached _); [lia|].
  unfold finished. simpl. intros t ph [_ <-]%lookup_singleton_Some. by right.
Defined.

(** An instance of [per_user_progress]. *)
Lemma per_user_progress_witness :
  exists t' ph' s', is_Some (u_calls looked !! t') /\ ustep 1 looked s'
    /\ u_calls s' = <[t' := ph']> (u_calls looked).
Proof.
  refine (per_user_progress 1 looked 0 (Looked "a" chan0 true) _ (rtc_once _ _ looked_step) _ _);
    [lia|done|done].
Defined.

(** An instance of [per_user_cap_calm]. *)
Lemma per_user_cap_calm_witness : holders "a" (u_calls served) <= 1.
Proof.
  refine (per_user_cap_calm 1 served "a" _ _); [lia|].
  eapply rtc_l; [|apply rtc_once]; (split; [by apply looked_step || by apply served_step|]).
  - simpl. intros t key ch Ht. by rewrite lookup_empty in Ht.
  - unfold looked. simpl. by intros t key ch [_ ?]%lookup_singleton_Some.
Defined.

(** An instance of [per_user_cap_exceeded]. *)
Lemma per_user_cap_exceeded_witness :
  exists s, rtc (ustep 1) init_usystem s /\ holders "a" (u_calls s) = 2.
Proof. refine (per_user_cap_exceeded 1 "a" 2 _). lia. Defined.
End Witness.
