(* ===== verification/GoJson.v ===== *)
(** * encoding/json

    The parser the JSON decoder runs ([parse_value]: syntax, escapes, UTF-8
    repair, the nesting limit), the conversion to Go values, the assignment of
    object members to struct fields, and the encoder. A [json.Number] keeps its
    text until it is stored as a [float64], a [spec_float] here. *)

From S2P Require Import Prelude GoStrings.
From Stdlib Require Import Ascii SpecFloat.

(** ** Floats *)

(** The [float64] nearest to [(-1)^neg * m * 10^e]. *)
Definition float_of_decimal (neg : bool) (m e : Z) : spec_float :=
  match m with
  | Zpos p =>
      if (0 <=? e)%Z then
        match (Zpos p * 10 ^ e)%Z with
        | Zpos q => binary_round 53 1024 neg q 0
        | _ => S754_zero neg
        end
      else
        match (10 ^ (- e))%Z with
        | Zpos q =>
            let '(mz, ez, lz) := SFdiv_core_binary 53 1024 (Zpos p) 0 (Zpos q) 0 in
            binary_round_aux 53 1024 neg mz ez lz
        | _ => S754_zero neg
        end
  | _ => S754_zero neg
  end.

Definition digits_of (s : string) : Z := default 0%Z (digits_value 0 s).

(** [strconv.ParseFloat] on a JSON number; [None] is a range error. *)
Definition ParseFloat (lit : string) : option spec_float :=
  let '(neg, s) := match lit with
                   | String "-" s => (true, s)
                   | _ => (false, lit)
                   end in
  let '(int, s) := span isDigitByte s in
  let '(frac, s) := match s with
                    | String "." s => span isDigitByte s
                    | _ => (EmptyString, s)
                    end in
  let e := match s with
           | String _ (String "-" d) => (- digits_of d)%Z
           | String _ (String "+" d) => digits_of d
           | String _ d => digits_of d
           | EmptyString => 0%Z
           end in
  match float_of_decimal neg (digits_of (int +:+ frac)) (e - Z.of_nat (String.length frac)) with
  | S754_infinity _ => None
  | f => Some f
  end.

(** ** Parsing *)

Inductive json :=
| JNull
| JBool (b : bool)
| JNumber (lit : string)
| JString (s : string)
| JArray (l : list json)
| JObject (l : list (string * json)).

Definition json_space (c : ascii) : bool := bool_decide (c ∈ [" "; "009"; "010"; "013"]%char).
Definition skip_space (s : string) : string := snd (span json_space s).

(** A number: sign, integer part without leading zeros, fraction, exponent. *)
Definition number_sign (s : string) : string * string :=
  match s with String "-" s => ("-", s) | _ => (EmptyString, s) end.
Definition number_int (s : string) : option (string * string) :=
  match s with
  | String "0" s => Some ("0", s)
  | String c _ => if isDigitByte c then Some (span isDigitByte s) else None
  | EmptyString => None
  end.
Definition number_frac (s : string) : option (string * string) :=
  match s with
  | String "." (String c _ as d) =>
      if isDigitByte c then let '(a, r) := span isDigitByte d in Some (String "." a, r) else None
  | String "." EmptyString => None
  | _ => Some (EmptyString, s)
  end.
Definition number_exp (s : string) : option (string * string) :=
  match s with
  | String c r =>
      if Ascii.eqb c "e" || Ascii.eqb c "E" then
        let '(sign, d) := match r with
                          | String g d => if Ascii.eqb g "+" || Ascii.eqb g "-"
                                          then (String g EmptyString, d) else (EmptyString, r)
                          | _ => (EmptyString, r)
                          end in
        match d with
        | String x _ => if isDigitByte x
                        then let '(a, r) := span isDigitByte d in Some (String c (sign +:+ a), r)
                        else None
        | EmptyString => None
        end
      else Some (EmptyString, s)
  | EmptyString => Some (EmptyString, s)
  end.
Definition parse_number (s : string) : option (string * string) :=
  let '(sign, s) := number_sign s in
  '(i, s) ← number_int s; '(f, s) ← number_frac s; '(e, s) ← number_exp s;
  Some (sign +:+ i +:+ f +:+ e, s).

(** [getu4]. *)
Definition hex_nibble (c : ascii) : option N :=
  if isDigitByte c then Some (byte c - 48)%N
  else if in_range 97 102 c then Some (byte c - 87)%N
  else if in_range 65 70 c then Some (byte c - 55)%N
  else None.
Definition hex4 (s : string) : option (N * string) :=
  match s with
  | String a (String b (String c (String d s))) =>
      a ← hex_nibble a; b ← hex_nibble b; c ← hex_nibble c; d ← hex_nibble d;
      Some (((a * 16 + b) * 16 + c) * 16 + d, s)%N
  | _ => None
  end.
Definition is_surrogate (r : N) : bool := ((55296 <=? r) && (r <=? 57343))%N.
Definition high_surrogate (r : N) : bool := ((55296 <=? r) && (r <? 56320))%N.
Definition low_surrogate (r : N) : bool := ((56320 <=? r) && (r <=? 57343))%N.

(** The rune of a [\u] escape, whose pair of surrogates may take a second one. *)
Definition unicode_escape (s : string) : option (N * string) :=
  '(r, s) ← hex4 s;
  if is_surrogate r then
    match s with
    | String "092" (String "u" s') =>
        match hex4 s' with
        | Some (r2, s'') =>
            if high_surrogate r && low_surrogate r2
            then Some ((r - 55296) * 1024 + (r2 - 56320) + 65536, s'')%N
            else Some (rune_error, s)
        | None => None
        end
    | _ => Some (rune_error, s)
    end
  else Some (r, s).

Definition simple_escape (c : ascii) : option ascii :=
  if Ascii.eqb c dquote || Ascii.eqb c "092" || Ascii.eqb c "/" then Some c
  else if Ascii.eqb c "b" then Some "008"%char
  else if Ascii.eqb c "f" then Some "012"%char
  else if Ascii.eqb c "n" then Some "010"%char
  else if Ascii.eqb c "r" then Some "013"%char
  else if Ascii.eqb c "t" then Some "009"%char
  else None.

(** A string, after its opening quote. *)
Fixpoint parse_string (fuel : nat) (s : string) : option (string * string) :=
  match fuel, s with
  | S n, String c s =>
      if Ascii.eqb c dquote then Some (EmptyString, s)
      else if Ascii.eqb c "092" then
        match s with
        | String "u" s =>
            '(r, s) ← unicode_escape s; '(t, s) ← parse_string n s; Some (encode_rune r +:+ t, s)
        | String e s =>
            x ← simple_escape e; '(t, s) ← parse_string n s; Some (String x t, s)
        | EmptyString => None
        end
      else if (byte c <? 32)%N then None
      else let '(r, s) := decode_rune c s in
           '(t, s) ← parse_string n s; Some (encode_rune r +:+ t, s)
  | _, _ => None
  end.

Definition maxNestingDepth : N := 10000.

(** A value, then the elements of an array and the members of an object whose
    first one has been announced. Every call uses up a byte or follows one that
    did, so twice the length is fuel enough. *)
Fixpoint parse_value (fuel : nat) (depth : N) (s : string) : option (json * string) :=
  match fuel with
  | 0 => None
  | S n =>
      match skip_space s with
      | EmptyString => None
      | String c r =>
          if Ascii.eqb c "{" then
            if (maxNestingDepth <=? depth)%N then None
            else match skip_space r with
                 | String "}" r => Some (JObject [], r)
                 | r => '(l, r) ← parse_members n (depth + 1) r; Some (JObject l, r)
                 end
          else if Ascii.eqb c "[" then
            if (maxNestingDepth <=? depth)%N then None
            else match skip_space r with
                 | String "]" r => Some (JArray [], r)
                 | r => '(l, r) ← parse_elements n (depth + 1) r; Some (JArray l, r)
                 end
          else if Ascii.eqb c dquote then
            '(t, r) ← parse_string (S (String.length r)) r; Some (JString t, r)
          else match strip_prefix "true" (String c r), strip_prefix "false" (String c r),
                     strip_prefix "null" (String c r) with
               | Some r, _, _ => Some (JBool true, r)
               | _, Some r, _ => Some (JBool false, r)
               | _, _, Some r => Some (JNull, r)
               | None, None, None => '(lit, r) ← parse_number (String c r); Some (JNumber lit, r)
               end
      end
  end
with parse_elements (fuel : nat) (depth : N) (s : string) : option (list json * string) :=
  match fuel with
  | 0 => None
  | S n =>
      '(v, s) ← parse_value n depth s;
      match skip_space s with
      | String "," s => '(l, s) ← parse_elements n depth s; Some (v :: l, s)
      | String "]" s => Some ([v], s)
      | _ => None
      end
  end
with parse_members (fuel : nat) (depth : N) (s : string) : option (list (string * json) * string) :=
  match fuel with
  | 0 => None
  | S n =>
      match skip_space s with
      | String c s =>
          if Ascii.eqb c dquote then
            '(k, s) ← parse_string (S (String.length s)) s;
            match skip_space s with
            | String ":" s =>
                '(v, s) ← parse_value n depth s;
                match skip_space s with
                | String "," s => '(l, s) ← parse_members n depth s; Some ((k, v) :: l, s)
                | String "}" s => Some ([(k, v)], s)
                | _ => None
                end
            | _ => None
            end
          else None
      | EmptyString => None
      end
  end.

Definition json_fuel (s : string) : nat := 2 * String.length s + 2.

(** [json.Unmarshal]'s syntax check and parse: one value and nothing after it. *)
Definition parse_document (s : string) : option json :=
  '(v, r) ← parse_value (json_fuel s) 0 s;
  match skip_space r with EmptyString => Some v | _ => None end.

(** [json.Decoder.Decode]: the first value of the stream. *)
Definition parse_first (s : string) : option json := fst <$> parse_value (json_fuel s) 0 s.

(** ** Go values *)

Inductive value :=
| VNil
| VBool (b : bool)
| VFloat (f : spec_float)
| VInt (z : Z)                                  (* the integer types *)
| VString (s : string)
| VSlice (l : list value)                       (* []any and the slices of the code *)
| VMap (l : list (string * value))              (* distinct keys, any order *)
| VStruct (l : list (string * value)).          (* the fields in their order *)

Fixpoint map_put {A} (k : string) (v : A) (l : list (string * A)) : list (string * A) :=
  match l with
  | [] => [(k, v)]
  | (k', v') :: l => if String.eqb k k' then (k, v) :: l else (k', v') :: map_put k v l
  end.
Definition map_get {A} (k : string) (l : list (string * A)) : option A :=
  snd <$> find (fun kv => String.eqb kv.1 k) l.

(** Decoding into an [any]. *)
Fixpoint to_any (j : json) : option value :=
  match j with
  | JNull => Some VNil
  | JBool b => Some (VBool b)
  | JNumber lit => VFloat <$> ParseFloat lit
  | JString s => Some (VString s)
  | JArray l =>
      VSlice <$> (fix go l := match l with
                              | [] => Some []
                              | j :: l => v ← to_any j; vs ← go l; Some (v :: vs)
                              end) l
  | JObject l =>
      VMap <$> (fix go acc l := match l with
                                | [] => Some acc
                                | (k, j) :: l => v ← to_any j; go (map_put k v acc) l
                                end) [] l
  end.

(** ** Struct fields *)

(** The members that go to the field of the JSON name [name], in their order. *)
Definition field (name : string) (l : list (string * json)) : list json :=
  map snd (filter (fun kv => kv.1 = name \/ EqualFold kv.1 name = true) l).

(** Assigning them one after the other; [None] is a type error. *)
Definition assign {A} (step : A -> json -> option A) (init : A) (js : list json) : option A :=
  foldl (fun acc j => a ← acc; step a j) (Some init) js.

Definition set_string (old : string) (j : json) : option string :=
  match j with JString s => Some s | JNull => Some old | _ => None end.
Definition set_bool (old : bool) (j : json) : option bool :=
  match j with JBool b => Some b | JNull => Some old | _ => None end.
Definition set_float (old : spec_float) (j : json) : option spec_float :=
  match j with JNumber lit => ParseFloat lit | JNull => Some old | _ => None end.
Definition set_any (old : value) (j : json) : option value := to_any j.
(** A [map[string]string]. *)
Definition set_string_map (old : option (list (string * string))) (j : json) :
    option (option (list (string * string))) :=
  match j with
  | JNull => Some None
  | JObject l =>
      Some <$> foldl (fun acc kv => m ← acc; v ← set_string EmptyString kv.2; Some (map_put kv.1 v m))
                     (Some (default [] old)) l
  | _ => None
  end.

(** ** Encoding *)

(** How [float64] values are printed. *)
Class FloatFormat := { FormatFloat : spec_float -> string }.

Definition uescape (n : N) : string :=
  String "092" (String "u" (String (hex_digit (n / 4096)) (String (hex_digit (n / 256 mod 16))
    (String (hex_digit (n / 16 mod 16)) (String (hex_digit (n mod 16)) EmptyString))))).
Definition short_escape (c : ascii) : option ascii :=
  if Ascii.eqb c dquote || Ascii.eqb c "092" then Some c
  else if Ascii.eqb c "008" then Some "b"%char
  else if Ascii.eqb c "012" then Some "f"%char
  else if Ascii.eqb c "010" then Some "n"%char
  else if Ascii.eqb c "013" then Some "r"%char
  else if Ascii.eqb c "009" then Some "t"%char
  else None.
Fixpoint escape_go (fuel : nat) (s : string) : string :=
  match fuel, s with
  | S n, String c s =>
      if is_ascii_byte c then
        match short_escape c with
        | Some e => String "092" (String e (escape_go n s))
        | None =>
            if (byte c <? 32)%N || Ascii.eqb c "<" || Ascii.eqb c ">" || Ascii.eqb c "&"
            then uescape (byte c) +:+ escape_go n s
            else String c (escape_go n s)
        end
      else
        let '(r, s') := decode_rune c s in
        (if (r =? rune_error)%N && (String.length s' =? String.length s)%nat then uescape rune_error
         else if (r =? 8232)%N || (r =? 8233)%N then uescape r
         else encode_rune r) +:+ escape_go n s'
  | _, _ => EmptyString
  end.
Definition encode_string (s : string) : string :=
  String dquote (escape_go (String.length s) s +:+ String dquote EmptyString).

Fixpoint insert_key {A} (kv : string * A) (l : list (string * A)) : list (string * A) :=
  match l with
  | [] => [kv]
  | kv' :: l => if String.leb kv.1 kv'.1 then kv :: kv' :: l else kv' :: insert_key kv l
  end.
Definition sort_keys {A} (l : list (string * A)) : list (string * A) := foldr insert_key [] l.

Definition encode_members (l : list (string * string)) : string :=
  "{" +:+ Join (map (fun kv => encode_string kv.1 +:+ ":" +:+ kv.2) l) "," +:+ "}".

(** [None] is an [UnsupportedValueError]: a float that is no number. *)
Fixpoint encode_value `{FloatFormat} (v : value) : option string :=
  match v with
  | VNil => Some "null"
  | VBool b => Some (if b then "true" else "false")
  | VFloat f =>
      match f with
      | S754_infinity _ | S754_nan => None
      | _ => Some (FormatFloat f)
      end
  | VInt z => Some (FormatInt z)
  | VString s => Some (encode_string s)
  | VSlice l =>
      (fun es => "[" +:+ Join es "," +:+ "]") <$>
      (fix go l := match l with
                   | [] => Some []
                   | v :: l => e ← encode_value v; es ← go l; Some (e :: es)
                   end) l
  | VMap l =>
      (fun es => encode_members (sort_keys es)) <$>
      (fix go l := match l with
                   | [] => Some []
                   | (k, v) :: l => e ← encode_value v; es ← go l; Some ((k, e) :: es)
                   end) l
  | VStruct l =>
      encode_members <$>
      (fix go l := match l with
                   | [] => Some []
                   | (k, v) :: l => e ← encode_value v; es ← go l; Some ((k, e) :: es)
                   end) l
  end.

(** [json.Encoder.Encode]: the text and a newline, in one Write. *)
Definition newline : string := String "010" EmptyString.
Definition Encode `{FloatFormat} (v : value) : option string :=
  (fun s => s +:+ newline) <$> encode_value v.
