(* ===== verification/Executor.v ===== *)
(** * Running one statement in a transaction (src/internal/db/executor.go)

    [RunQuery] and [RunWrite] over the operations of pathsqlx, sqlx and
    database/sql, which are the class [PathSqlx]: session settings, the EXPLAIN
    cost ceiling, the statement, the blast-radius cap, commit or rollback. *)

From S2P Require Import Prelude GoStrings Http GoJson.
From Stdlib Require Import Ascii SpecFloat.

(** ** The database operations the executor calls *)

(** An error: whether [errors.Is] finds [context.DeadlineExceeded] in it, and its
    text. *)
Record db_err := DbErr { is_deadline : bool; err_text : string }.

Class PathSqlx (W Pool Tx : Type) := {
  BeginTxx : Pool -> bool -> W -> result db_err Tx * W;
  (* ExecContext, with the int64 of RowsAffected *)
  ExecContext : Tx -> string -> list value -> W -> result db_err Z * W;
  (* QueryRowxContext(...).Scan(&raw) *)
  QueryRowBytes : Tx -> string -> list value -> W -> result db_err string * W;
  (* pathsqlx.PathQueryTx, which may panic *)
  PathQueryTx : Pool -> Tx -> string -> value -> list (string * string) -> W ->
    outcome (result db_err value) * W;
  Commit : Tx -> W -> result db_err unit * W;
  Rollback : Tx -> W -> result db_err unit * W;
  Named : string -> value -> result db_err (string * list value);
  Rebind : Tx -> string -> string
}.

Record QueryOptions := {
  ReadOnly : bool;
  StatementTimeout : Z;          (* time.Duration, in nanoseconds *)
  IdleInTxTimeout : Z;
  WorkMemKB : Z;
  MaxEstimatedCost : spec_float;
  MaxEstimatedRows : Z;
  MaxAffectedRows : Z
}.

(** The errors: the two sentinels with the detail they wrap, an EXPLAIN document
    that cannot be read, and what the database returned. *)
Inductive exec_error :=
| ErrTooExpensiveCost (estimated max : spec_float)
| ErrTooExpensiveRows (estimated max : Z)
| ErrTooManyRowsAffected (affected max : Z)
| ErrPlan (msg : string)
| ErrDriver (e : db_err).

Definition is_ErrQueryTooExpensive (e : exec_error) : bool :=
  match e with ErrTooExpensiveCost _ _ | ErrTooExpensiveRows _ _ => true | _ => false end.
Definition is_ErrTooManyRowsAffected (e : exec_error) : bool :=
  match e with ErrTooManyRowsAffected _ _ => true | _ => false end.

(** ** The plan estimate *)

Record planEstimate := { Cost : spec_float; Rows : Z }.

(** [int64(f)]: truncation; what does not fit becomes the smallest integer, as
    compiled for amd64. *)
Definition int64_of_float (f : spec_float) : Z :=
  match f with
  | S754_zero _ => 0
  | S754_finite s m e =>
      let t := if (0 <=? e)%Z then (Zpos m * 2 ^ e)%Z else (Zpos m / 2 ^ (- e))%Z in
      let v := if s then (- t)%Z else t in
      if (- 2 ^ 63 <=? v)%Z && (v <? 2 ^ 63)%Z then v else (- 2 ^ 63)%Z
  | _ => (- 2 ^ 63)%Z
  end.

Definition zero_float : spec_float := S754_zero false.

(** The struct with the "Plan" object, decoded member by member. *)
Definition set_plan (old : spec_float * spec_float) (j : json) : option (spec_float * spec_float) :=
  match j with
  | JNull => Some old
  | JObject l =>
      cost ← assign set_float old.1 (field "Total Cost" l);
      rows ← assign set_float old.2 (field "Plan Rows" l);
      Some (cost, rows)
  | _ => None
  end.
Definition decode_plan (j : json) : option (spec_float * spec_float) :=
  match j with
  | JNull => Some (zero_float, zero_float)
  | JObject l => assign set_plan (zero_float, zero_float) (field "Plan" l)
  | _ => None
  end.

Definition parsePlanEstimate (raw : string) : result exec_error planEstimate :=
  match parse_document raw with
  | Some JNull => Err (ErrPlan "EXPLAIN output had no plan")
  | Some (JArray l) =>
      match mapM decode_plan l with
      | Some ((cost, rows) :: _) => Ok {| Cost := cost; Rows := int64_of_float rows |}
      | Some [] => Err (ErrPlan "EXPLAIN output had no plan")
      | None => Err (ErrPlan "parse EXPLAIN output")
      end
  | _ => Err (ErrPlan "parse EXPLAIN output")
  end.

Definition costCeilingError (est : planEstimate) (maxCost : spec_float) (maxRows : Z) :
    option exec_error :=
  if SFltb zero_float maxCost && SFltb maxCost (Cost est)
  then Some (ErrTooExpensiveCost (Cost est) maxCost)
  else if (0 <? maxRows)%Z && (maxRows <? Rows est)%Z
  then Some (ErrTooExpensiveRows (Rows est) maxRows)
  else None.

(** ** The executor *)

Definition set_config : string := "SELECT set_config($1, $2, true)".
Definition explain (q : string) : string := "EXPLAIN (FORMAT JSON) " +:+ q.
(** [int64(d/time.Millisecond)]. *)
Definition milliseconds (d : Z) : Z := Z.quot d 1000000.

Section executor.
Context {W Pool Tx : Type} `{PathSqlx W Pool Tx}.

Local Abbreviation step A := (M W (result exec_error A)).

(** An operation of the database. *)
Definition db_call {A} (f : W -> result db_err A * W) : step A :=
  let* r := lift f in
  ret match r with Ok a => Ok a | Err e => Err (ErrDriver e) end.

Definition set_setting (tx : Tx) (on : bool) (name val : string) : step unit :=
  if on then
    let? _ := db_call (ExecContext tx set_config [VString name; VString val]) in ret (Ok tt)
  else ret (Ok tt).

Definition applySessionSettings (tx : Tx) (opts : QueryOptions) : step unit :=
  let? _ := set_setting tx (0 <? StatementTimeout opts)%Z "statement_timeout"
              (FormatInt (milliseconds (StatementTimeout opts))) in
  let? _ := set_setting tx (0 <? IdleInTxTimeout opts)%Z "idle_in_transaction_session_timeout"
              (FormatInt (milliseconds (IdleInTxTimeout opts))) in
  set_setting tx (0 <? WorkMemKB opts)%Z "work_mem" (FormatInt (WorkMemKB opts)).

(** Nil parameters become an empty map. *)
Definition named_params (params : value) : value :=
  match params with VNil => VMap [] | _ => params end.

Definition bind_named (tx : Tx) (query : string) (params : value) : result exec_error (string * list value) :=
  match Named query (named_params params) with
  | Ok (q, args) => Ok (Rebind tx q, args)
  | Err e => Err (ErrDriver e)
  end.

Definition enforceCostCeiling (tx : Tx) (query : string) (params : value)
    (maxCost : spec_float) (maxRows : Z) : step unit :=
  if SFleb maxCost zero_float && (maxRows <=? 0)%Z then ret (Ok tt)
  else
    let? qa := ret (bind_named tx query params) in
    let? raw := db_call (QueryRowBytes tx (explain (fst qa)) (snd qa)) in
    let? est := ret (parsePlanEstimate raw) in
    ret match costCeilingError est maxCost maxRows with Some e => Err e | None => Ok tt end.

(** The deferred rollback: it runs unless [committed], which is set right before
    the only return without an error. *)
Definition deferred_rollback {A} (tx : Tx) (m : step A) : step A := fun h w =>
  let '(cs, w, r) := m h w in
  match r with
  | Val (Ok _) => (cs, w, r)
  | _ => let '(_, w) := Rollback tx w in (cs, w, r)
  end.

Definition path_query (pool : Pool) (tx : Tx) (query : string) (params : value)
    (hints : list (string * string)) : step value :=
  let* r := lift_outcome (PathQueryTx pool tx query params hints) in
  ret match r with Ok v => Ok v | Err e => Err (ErrDriver e) end.

Definition RunQuery (pool : Pool) (query : string) (params : value)
    (hints : list (string * string)) (opts : QueryOptions) : step value :=
  let? tx := db_call (BeginTxx pool (ReadOnly opts)) in
  deferred_rollback tx
    (let? _ := applySessionSettings tx opts in
     let? _ := enforceCostCeiling tx query params (MaxEstimatedCost opts) (MaxEstimatedRows opts) in
     let? result := path_query pool tx query params hints in
     let? _ := db_call (Commit tx) in
     ret (Ok result)).

(** The statement of a write: its result, and the affected rows where known. *)
Definition write_statement (pool : Pool) (tx : Tx) (query : string) (params : value)
    (hints : list (string * string)) (hasReturning : bool) : step (value * option Z) :=
  if hasReturning then
    let? result := path_query pool tx query params hints in
    ret (Ok (result, match result with VSlice rows => Some (Z.of_nat (length rows)) | _ => None end))
  else
    let? qa := ret (bind_named tx query params) in
    let? affected := db_call (ExecContext tx (fst qa) (snd qa)) in
    ret (Ok (VMap [("affected", VInt affected)], Some affected)).

Definition RunWrite (pool : Pool) (query : string) (params : value)
    (hints : list (string * string)) (opts : QueryOptions) (hasReturning : bool) : step value :=
  let? tx := db_call (BeginTxx pool false) in
  deferred_rollback tx
    (let? _ := applySessionSettings tx opts in
     let? _ := enforceCostCeiling tx query params (MaxEstimatedCost opts) (MaxEstimatedRows opts) in
     let? out := write_statement pool tx query params hints hasReturning in
     let? _ := ret match snd out with
                   | Some affected =>
                       if (0 <? MaxAffectedRows opts)%Z && (MaxAffectedRows opts <? affected)%Z
                       then Err (ErrTooManyRowsAffected affected (MaxAffectedRows opts))
                       else Ok tt
                   | None => Ok tt
                   end in
     let? _ := db_call (Commit tx) in
     ret (Ok (fst out))).
End executor.
