(* ===== verification/ExecutorSpec.v ===== *)
(** * What the executor promises

    Against a database that behaves as PostgreSQL documents transactions
    ([sql_documented]): the events of a run follow one grammar, in which the
    statement comes after the session settings and, where a ceiling is set, after
    an EXPLAIN whose estimate is within it; and for a statement that stays within
    its transaction, a write is all or nothing, and a read-only run changes
    nothing. *)

From S2P Require Import Prelude GoStrings Http GoJson Executor.
From Stdlib Require Import Ascii SpecFloat.

(** ** Transactions *)

Inductive sql_event :=
| EBegin (ro : bool)
| EExec (q : string) (args : list value)
| EExplain (q : string) (args : list value) (answer : result db_err string)
| EQuery (q : string) (params : value) (hints : list (string * string))
| ECommit
| ERollback.

(** A database nobody else changes meanwhile: what is durable, what each open
    transaction sees, and the calls it got. The laws on the data are about texts
    that are [confined]: one statement, none that begins or ends a transaction, and
    with no effect on the data that does not end with its transaction. For those,
    PostgreSQL documents that a read-only transaction refuses what would change
    the data, that EXPLAIN does not execute the statement, and that a statement
    that fails has done nothing. Of any other text (a stacked [COMMIT; DELETE], a
    function that writes through a connection of its own) nothing is assumed but
    that the call was made. Each text is the one that is sent, its named parameters
    bound, by pathsqlx as by the executor. A failed Commit leaves either outcome. *)
Record sql_documented (W Pool Tx D : Type) `{PathSqlx W Pool Tx} := {
  durable : W -> D;
  view : W -> Tx -> option (bool * D);
  history : W -> list sql_event;
  confined : string -> Prop;
  effect : string -> list value -> D -> D;
  query_effect : string -> value -> list (string * string) -> D -> D;
  moves (w w' : W) (tx : Tx) (v : option (bool * D)) : Prop :=
    durable w' = durable w /\ view w' tx = v /\ (forall tx', tx' <> tx -> view w' tx' = view w tx');
  logs (w w' : W) (e : sql_event) : Prop := history w' = history w ++ [e];
  doc_set_config args d : confined set_config /\ effect set_config args d = d;
  doc_Begin pool ro w :
    match BeginTxx pool ro w with
    | (Ok tx, w') => view w tx = None /\ moves w w' tx (Some (ro, durable w)) /\ logs w w' (EBegin ro)
    | (Err _, w') => durable w' = durable w /\ (forall tx, view w' tx = view w tx)
                     /\ history w' = history w
    end;
  doc_Exec tx q args w :
    let '(r, w') := ExecContext tx q args w in
    logs w w' (EExec q args)
    /\ forall ro d, confined q -> view w tx = Some (ro, d) ->
       moves w w' tx (Some (ro, match r with
                                | Ok _ => if ro then d else effect q args d
                                | Err _ => d
                                end));
  doc_Explain tx q args w :
    let '(r, w') := QueryRowBytes tx (explain q) args w in
    logs w w' (EExplain (explain q) args r) /\ (confined q -> moves w w' tx (view w tx));
  doc_PathQuery pool tx q params hints w :
    let '(r, w') := PathQueryTx pool tx q params hints w in
    logs w w' (EQuery q params hints)
    /\ forall ro d,
       (forall q' args, bind_named tx q params = Ok (q', args) -> confined q') ->
       view w tx = Some (ro, d) ->
       moves w w' tx (Some (ro, match r with
                                | Val (Ok _) => if ro then d else query_effect q params hints d
                                | _ => d
                                end));
  doc_Commit tx w ro d : view w tx = Some (ro, d) ->
    let '(r, w') := Commit tx w in
    durable w' = d \/ (r <> Ok tt /\ durable w' = durable w);
  doc_Commit_closes tx w :
    let '(r, w') := Commit tx w in
    view w' tx = None /\ (forall tx', tx' <> tx -> view w' tx' = view w tx') /\ logs w w' ECommit;
  doc_Rollback tx w :
    let '(r, w') := Rollback tx w in moves w w' tx None /\ logs w w' ERollback
}.

(** ** Weakest preconditions *)

Section wp.
Context {W : Type}.

(** [m] makes no response call and ends as [Q] says. *)
Definition wp {A} (m : M W A) (Q : outcome A -> W -> Prop) (w : W) : Prop :=
  forall h, let '(cs, w', r) := m h w in cs = [] /\ Q r w'.

Lemma wp_ret {A} (a : A) Q w : Q (Val a) w -> wp (ret a) Q w.
Proof. by intros HQ h. Qed.

Lemma wp_bind {A B} (m : M W A) (f : A -> M W B) Q w :
  wp m (fun r w' => match r with Val a => wp (f a) Q w' | Panic v => Q (Panic v) w' end) w ->
  wp (bind m f) Q w.
Proof.
  intros Hm h. unfold bind. specialize (Hm h). destruct (m h w) as [[cs w'] [a|v]].
  - destruct Hm as [-> Hf]. simpl. specialize (Hf h). by destruct (f a h w') as [[cs' w''] r].
  - by destruct Hm as [-> HQ].
Qed.

Lemma wp_bind_ok {E A B} (m : M W (result E A)) (f : A -> M W (result E B)) Q w :
  wp m (fun r w' => match r with
                    | Val (Ok a) => wp (f a) Q w'
                    | Val (Err e) => Q (Val (Err e)) w'
                    | Panic v => Q (Panic v) w'
                    end) w ->
  wp (bind_ok m f) Q w.
Proof.
  intros Hm. apply wp_bind. intros h. specialize (Hm h).
  destruct (m h w) as [[cs w'] [[a|e]|v]]; destruct Hm; split; auto. by apply wp_ret.
Qed.

Lemma wp_mono {A} (m : M W A) (Q R : outcome A -> W -> Prop) w :
  wp m Q w -> (forall r w', Q r w' -> R r w') -> wp m R w.
Proof.
  intros Hm HQ h. specialize (Hm h). destruct (m h w) as [[cs w'] r]. destruct Hm. auto.
Qed.
End wp.

(** ** The phases *)

Section phases.
Context {W Pool Tx D : Type} `{PathSqlx W Pool Tx} (doc : sql_documented W Pool Tx D).

Local Abbreviation durable := (durable W Pool Tx D doc).
Local Abbreviation view := (view W Pool Tx D doc).
Local Abbreviation history := (history W Pool Tx D doc).
Local Abbreviation confined := (confined W Pool Tx D doc).
Local Abbreviation effect := (effect W Pool Tx D doc).
Local Abbreviation query_effect := (query_effect W Pool Tx D doc).

(** The text of a query as it is sent is confined. *)
Definition sent_confined (tx : Tx) (query : string) (params : value) : Prop :=
  forall q args, bind_named tx query params = Ok (q, args) -> confined q.

(** Where a run that started in [w0] stands: [es] has happened and, if [ok], its
    transaction sees [d]. *)
Record in_tx (ok : Prop) (w0 : W) (tx : Tx) (ro : bool) (d : D) (es : list sql_event) (w : W) : Prop := {
  it_data : ok -> durable w = durable w0 /\ view w tx = Some (ro, d)
                  /\ forall tx', tx' <> tx -> view w tx' = view w0 tx';
  it_history : history w = history w0 ++ es
}.

Lemma in_tx_moves (ok : Prop) w0 tx ro d es w w' d' e :
  in_tx ok w0 tx ro d es w -> logs W Pool Tx D doc w w' e ->
  (ok -> view w tx = Some (ro, d) -> moves W Pool Tx D doc w w' tx (Some (ro, d'))) ->
  in_tx ok w0 tx ro d' (es ++ [e]) w'.
Proof.
  intros [Hdata Hh] Hlog Hm. split.
  - intros Hok. destruct (Hdata Hok) as (Hd & Hv & Ho), (Hm Hok (proj1 (proj2 (Hdata Hok)))) as (Hd' & Hv' & Ho').
    split_and!; [congruence|done|]. intros tx' Hne. rewrite Ho' by done. auto.
  - by rewrite Hlog, Hh, app_assoc.
Qed.

(** What a session setting of [opts] executes. *)
Definition settings (opts : QueryOptions) : list sql_event :=
  let ev name val := EExec set_config [VString name; VString val] in
  (if (0 <? StatementTimeout opts)%Z
   then [ev "statement_timeout" (FormatInt (milliseconds (StatementTimeout opts)))] else [])
  ++ (if (0 <? IdleInTxTimeout opts)%Z
      then [ev "idle_in_transaction_session_timeout" (FormatInt (milliseconds (IdleInTxTimeout opts)))]
      else [])
  ++ (if (0 <? WorkMemKB opts)%Z then [ev "work_mem" (FormatInt (WorkMemKB opts))] else []).

(** The ends of a phase: it went through with the events [Q], or failed within. *)
Definition phase {A} (ok : Prop) (w0 : W) (tx : Tx) (ro : bool) (Q : A -> D -> list sql_event -> Prop)
    (F : exec_error -> list sql_event -> Prop) (r : outcome (result exec_error A)) (w : W) : Prop :=
  exists d es, in_tx ok w0 tx ro d es w /\
    match r with
    | Val (Ok a) => Q a d es
    | Val (Err e) => F e es
    | Panic _ => False
    end.

Lemma wp_set_setting ok w0 tx ro d es on name val w :
  in_tx ok w0 tx ro d es w ->
  wp (set_setting tx on name val)
     (phase ok w0 tx ro (fun _ d' es' => d' = d /\ es' = es ++ if on then [EExec set_config [VString name; VString val]] else [])
        (fun e es' => (exists e', e = ErrDriver e') /\ on = true
                      /\ es' = es ++ [EExec set_config [VString name; VString val]])) w.
Proof.
  intros Hin. unfold set_setting. destruct on.
  - apply wp_bind_ok, wp_bind. intros h. unfold lift.
    pose proof (doc_Exec _ _ _ _ doc tx set_config [VString name; VString val] w) as Hx.
    pose proof (doc_set_config _ _ _ _ doc [VString name; VString val] d) as [Hc He].
    destruct (ExecContext _ _ _ _) as [[n|e] w']; destruct Hx as [Hlog Hx]; split; try done; apply wp_ret; cbn.
    + apply wp_ret. exists d, (es ++ [EExec set_config [VString name; VString val]]).
      split; [|done]. eapply in_tx_moves; [done..|]. intros _ Hv. specialize (Hx _ _ Hc Hv).
      rewrite He in Hx. by destruct ro.
    + eexists d, _. split; [|eauto]. eapply in_tx_moves; [done..|]. intros _ Hv. exact (Hx _ _ Hc Hv).
  - apply wp_ret. exists d, es. by rewrite app_nil_r.
Qed.

Lemma wp_settings ok w0 tx ro d es opts w :
  in_tx ok w0 tx ro d es w ->
  wp (applySessionSettings tx opts)
     (phase ok w0 tx ro (fun _ d' es' => d' = d /\ es' = es ++ settings opts)
        (fun e es' => (exists e', e = ErrDriver e')
                      /\ exists sets, sets `prefix_of` settings opts /\ es' = es ++ sets)) w.
Proof.
  intros Hin. unfold applySessionSettings, settings.
  apply wp_bind_ok. eapply wp_mono; [by apply wp_set_setting|]. cbn.
  intros [[u|e]|v] w1 (d1 & es1 & Hin1 & Hr); [|exists d1, es1; split; [done|]|done].
  2:{ destruct Hr as (He & -> & ->). split; [done|]. eexists. split; [|done]. apply prefix_app_r; reflexivity. }
  destruct Hr as [-> ->]. apply wp_bind_ok. eapply wp_mono; [by apply wp_set_setting|]. cbn.
  intros [[u2|e]|v] w2 (d2 & es2 & Hin2 & Hr); [|exists d2, es2; split; [done|]|done].
  2:{ destruct Hr as (He & -> & ->). split; [done|]. eexists. rewrite <- app_assoc. split; [|done].
      apply prefix_app, prefix_app_r; reflexivity. }
  destruct Hr as [-> ->]. eapply wp_mono; [by apply wp_set_setting|]. cbn.
  intros [[u3|e]|v] w3 (d3 & es3 & Hin3 & Hr); exists d3, es3; (split; [done|]); [| |done].
  - destruct Hr as [-> ->]. by rewrite <- !app_assoc.
  - destruct Hr as (He & -> & ->). split; [done|]. eexists. rewrite <- !app_assoc. split; [|done].
    reflexivity.
Qed.

(** ** The ceiling *)

Definition ceiling_off (opts : QueryOptions) : bool :=
  SFleb (MaxEstimatedCost opts) zero_float && (MaxEstimatedRows opts <=? 0)%Z.

(** What a plan document says of a query: the verdict of the ceiling. *)
Definition verdict (opts : QueryOptions) (raw : string) : result exec_error unit :=
  est ← parsePlanEstimate raw;
  match costCeilingError est (MaxEstimatedCost opts) (MaxEstimatedRows opts) with
  | Some e => Err e
  | None => Ok tt
  end.

(** The ceiling as events [ex] and an outcome [r]. *)
Definition ceiling_check (tx : Tx) (query : string) (params : value) (opts : QueryOptions)
    (ex : list sql_event) (r : result exec_error unit) : Prop :=
  if ceiling_off opts then ex = [] /\ r = Ok tt
  else match bind_named tx query params with
       | Err e => ex = [] /\ r = Err e
       | Ok (q, args) =>
           exists answer, ex = [EExplain (explain q) args answer]
             /\ r = match answer with Ok raw => verdict opts raw | Err e => Err (ErrDriver e) end
       end.

Lemma wp_ceiling (ok : Prop) w0 tx ro d es query params opts w :
  (ok -> sent_confined tx query params) -> in_tx ok w0 tx ro d es w ->
  wp (enforceCostCeiling tx query params (MaxEstimatedCost opts) (MaxEstimatedRows opts))
     (phase ok w0 tx ro
        (fun _ d' es' => d' = d /\ exists ex, es' = es ++ ex /\ ceiling_check tx query params opts ex (Ok tt))
        (fun e es' => exists ex, es' = es ++ ex /\ ceiling_check tx query params opts ex (Err e))) w.
Proof.
  intros Hok Hin. unfold enforceCostCeiling, ceiling_check. fold (ceiling_off opts).
  destruct (ceiling_off opts).
  - apply wp_ret. exists d, es. split; [done|]. split; [done|]. exists []. by rewrite app_nil_r.
  - apply wp_bind_ok, wp_ret. destruct (bind_named tx query params) as [[q args]|e] eqn:Hbind; cbn.
    2:{ exists d, es. split; [done|]. exists []. by rewrite app_nil_r. }
    apply wp_bind_ok, wp_bind. intros h. unfold lift.
    pose proof (doc_Explain _ _ _ _ doc tx q args w) as Hx.
    assert (ok -> confined q) as Hq by (intros Hk; by eapply (Hok Hk)).
    destruct (QueryRowBytes _ _ _ _) as [answer w']. destruct Hx as [Hlog Hx].
    assert (in_tx ok w0 tx ro d (es ++ [EExplain (explain q) args answer]) w') as Hin'.
    { eapply in_tx_moves; [done..|]. intros Hk Hv. rewrite <- Hv. auto. }
    split; [done|]. destruct answer as [raw|e]; apply wp_ret; cbn.
    + apply wp_bind_ok, wp_ret. destruct (parsePlanEstimate raw) as [est|e] eqn:Hp; cbn.
      * apply wp_ret. eexists d, _. split; [done|].
        destruct (costCeilingError est _ _) as [e|] eqn:Hc.
        -- eexists. split; [done|]. eexists. split; [done|]. unfold verdict. by rewrite Hp; simpl; rewrite Hc.
        -- split; [done|]. eexists. split; [done|]. eexists. split; [done|].
           unfold verdict. by rewrite Hp; simpl; rewrite Hc.
      * eexists d, _. split; [done|]. eexists. split; [done|]. eexists. split; [done|].
        unfold verdict. by rewrite Hp.
    + eexists d, _. split; [done|]. eexists. split; [done|]. by eexists.
Qed.

(** ** The statement *)

Definition statement_events (tx : Tx) (query : string) (params : value)
    (hints : list (string * string)) (hasReturning : bool) : list sql_event :=
  if hasReturning then [EQuery query params hints]
  else match bind_named tx query params with Ok (q, args) => [EExec q args] | Err _ => [] end.

(** What the statement does to the data. *)
Definition statement_effect (tx : Tx) (query : string) (params : value)
    (hints : list (string * string)) (hasReturning : bool) (d : D) : D :=
  if hasReturning then query_effect query params hints d
  else match bind_named tx query params with Ok (q, args) => effect q args d | Err _ => d end.

(** The number of affected rows a result tells of: of a RETURNING write the length
    of its array, where it is one. *)
Definition reported_rows (hasReturning : bool) (v : value) : option Z :=
  match v with
  | VSlice rows => if hasReturning then Some (Z.of_nat (length rows)) else None
  | VMap [("affected", VInt n)] => if hasReturning then None else Some n
  | _ => None
  end.

Definition within_cap (opts : QueryOptions) (n : Z) : Prop :=
  (0 < MaxAffectedRows opts)%Z -> (n <= MaxAffectedRows opts)%Z.

(** A body that runs one statement: [st] happens, and where it returns a value
    the data is [eff] of what it was and the value is [good]. *)
Definition runs (ok : Prop) (tx : Tx) (ro : bool) (body : M W (result exec_error value))
    (st : list sql_event) (eff : D -> D) (good : value -> Prop) : Prop :=
  forall w0 d es w, in_tx ok w0 tx ro d es w ->
  wp body (fun r w' => exists d', in_tx ok w0 tx ro d' (es ++ st) w' /\
                         match r with Val (Ok v) => d' = eff d /\ good v | _ => True end) w.

Lemma path_query_runs (ok : Prop) pool tx ro query params hints :
  (ok -> sent_confined tx query params) ->
  runs ok tx ro (path_query pool tx query params hints) [EQuery query params hints]
    (fun d => if ro then d else query_effect query params hints d) (fun _ => True).
Proof.
  intros Hok w0 d es w Hin. unfold path_query. apply wp_bind. intros h. unfold lift_outcome.
  pose proof (doc_PathQuery _ _ _ _ doc pool tx query params hints w) as Hx.
  destruct (PathQueryTx _ _ _ _ _ _) as [[[v|e]|p] w']; destruct Hx as [Hlog Hx]; (split; [done|]);
    try apply wp_ret; cbn; (eexists; split; [|done]); (eapply in_tx_moves; [done..|]);
    intros Hk Hv; exact (Hx _ _ (Hok Hk) Hv).
Qed.

(** The cap of a write. *)
Definition capped (opts : QueryOptions) (out : value * option Z) : M W (result exec_error value) :=
  let? _ := ret match snd out with
                | Some affected =>
                    if (0 <? MaxAffectedRows opts)%Z && (MaxAffectedRows opts <? affected)%Z
                    then Err (ErrTooManyRowsAffected affected (MaxAffectedRows opts))
                    else Ok tt
                | None => Ok tt
                end in
  ret (Ok (fst out)).

Lemma wp_capped opts v n Q w :
  ((forall m, n = Some m -> within_cap opts m) -> Q (Val (Ok v)) w) ->
  (forall e, Q (Val (Err e)) w) ->
  wp (capped opts (v, n)) Q w.
Proof.
  intros Hok Herr. unfold capped. apply wp_bind_ok, wp_ret. simpl. destruct n as [n|]; simpl.
  - destruct (_ && _) eqn:E; [done|]. apply wp_ret, Hok. intros m [= <-] Hpos.
    apply andb_false_iff in E as [E|E]; breflect; lia.
  - by apply wp_ret, Hok.
Qed.

Lemma write_runs (ok : Prop) pool tx query params hints opts hasReturning :
  (ok -> sent_confined tx query params) ->
  runs ok tx false
    (let? out := write_statement pool tx query params hints hasReturning in capped opts out)
    (statement_events tx query params hints hasReturning)
    (statement_effect tx query params hints hasReturning)
    (fun v => forall n, reported_rows hasReturning v = Some n -> within_cap opts n).
Proof.
  intros Hok w0 d es w Hin. unfold write_statement, statement_events, statement_effect.
  apply wp_bind_ok. destruct hasReturning; apply wp_bind_ok.
  - eapply wp_mono; [by apply (path_query_runs ok pool tx false query params hints)|].
    intros [[v|e]|p] w' (d' & Hin' & Hr); [|by exists d'|by exists d'].
    apply wp_ret. apply wp_capped; [|by exists d']. intros Hcap. exists d'. split; [done|].
    split; [by apply Hr|]. intros n Hn. apply Hcap. destruct v as [| | | | |l|l|]; try done.
    simpl in Hn. by repeat case_match.
  - apply wp_ret. destruct (bind_named tx query params) as [[q args]|e] eqn:Hbind; cbn.
    2:{ exists d. by rewrite app_nil_r. }
    apply wp_bind_ok, wp_bind. intros h. unfold lift.
    pose proof (doc_Exec _ _ _ _ doc tx q args w) as Hx.
    assert (ok -> confined q) as Hq by (intros Hk; by eapply (Hok Hk)).
    destruct (ExecContext _ _ _ _) as [r w']. destruct Hx as [Hlog Hx].
    assert (in_tx ok w0 tx false (match r with Ok _ => effect q args d | Err _ => d end)
              (es ++ [EExec q args]) w') as Hin'.
    { eapply in_tx_moves; [done..|]. intros Hk Hv. exact (Hx false d (Hq Hk) Hv). }
    split; [done|]. destruct r as [n|e]; apply wp_ret; cbn; [|by eexists].
    apply wp_ret. cbn.
    apply wp_capped; [intros Hcap|intros e]; (eexists; split; [done|]); [|done].
    split; [done|]. intros m [= <-]. by apply Hcap.
Qed.

(** ** Whole runs *)

(** The histories of a run, with their outcomes. *)
Inductive run_trace (opts : QueryOptions) (ro : bool) (query : string) (params : value)
    (st : Tx -> list sql_event) : list sql_event -> outcome (result exec_error value) -> Prop :=
| tr_begin e : run_trace opts ro query params st [] (Val (Err (ErrDriver e)))
| tr_setting sets e : sets `prefix_of` settings opts ->
    run_trace opts ro query params st (EBegin ro :: sets ++ [ERollback]) (Val (Err (ErrDriver e)))
| tr_ceiling tx ex e : ceiling_check tx query params opts ex (Err e) ->
    run_trace opts ro query params st (EBegin ro :: settings opts ++ ex ++ [ERollback]) (Val (Err e))
| tr_rolled_back tx ex r : ceiling_check tx query params opts ex (Ok tt) ->
    (forall v, r <> Val (Ok v)) ->
    run_trace opts ro query params st (EBegin ro :: settings opts ++ ex ++ st tx ++ [ERollback]) r
| tr_committed tx ex v : ceiling_check tx query params opts ex (Ok tt) ->
    run_trace opts ro query params st (EBegin ro :: settings opts ++ ex ++ st tx ++ [ECommit])
      (Val (Ok v))
| tr_in_doubt tx ex e : ceiling_check tx query params opts ex (Ok tt) ->
    run_trace opts ro query params st
      (EBegin ro :: settings opts ++ ex ++ st tx ++ [ECommit; ERollback]) (Val (Err (ErrDriver e))).

(** A transaction around a body, as both entry points build it. *)
Definition session (pool : Pool) (ro : bool) (opts : QueryOptions) (query : string) (params : value)
    (body : Tx -> M W (result exec_error value)) : M W (result exec_error value) :=
  let? tx := db_call (BeginTxx pool ro) in
  deferred_rollback tx
    (let? _ := applySessionSettings tx opts in
     let? _ := enforceCostCeiling tx query params (MaxEstimatedCost opts) (MaxEstimatedRows opts) in
     let? result := body tx in
     let? _ := db_call (Commit tx) in
     ret (Ok result)).

(** The data after a run. *)
Definition settled (eff : Tx -> D -> D) (w w' : W)
    (es : list sql_event) (r : outcome (result exec_error value)) : Prop :=
  match r with
  | Val (Ok _) => exists tx, durable w' = eff tx (durable w)
  | Val (Err e) =>
      durable w' = durable w
      \/ (exists es', es = es' ++ [ECommit; ERollback])
         /\ (exists tx, durable w' = eff tx (durable w)) /\ exists e', e = ErrDriver e'
  | Panic _ => durable w' = durable w
  end.

Section session.
Context `{EqDecision Tx} (ok : Prop) (opts : QueryOptions) (ro : bool) (query : string) (params : value).
Context (st : Tx -> list sql_event) (eff : Tx -> D -> D) (good : value -> Prop).
Context (Hok : ok -> forall tx, sent_confined tx query params).

Definition ended (w w' : W) (r : outcome (result exec_error value)) : Prop :=
  exists es, history w' = history w ++ es /\ run_trace opts ro query params st es r
    /\ (forall v, r = Val (Ok v) -> good v)
    /\ (ok -> (forall tx, view w' tx = view w tx) /\ settled eff w w' es r).

Lemma wp_deferred {A} tx (m : M W (result exec_error A)) Q w :
  wp m (fun r w' => match r with
                    | Val (Ok _) => Q r w'
                    | _ => let '(_, w'') := Rollback tx w' in Q r w''
                    end) w ->
  wp (deferred_rollback tx m) Q w.
Proof.
  intros Hm h. unfold deferred_rollback. specialize (Hm h).
  destruct (m h w) as [[cs w'] [[a|e]|v]]; destruct Hm as [-> HQ]; [done|..];
    by destruct (Rollback tx w').
Qed.

(** Other transactions see what they saw. *)
Lemma closed_view w0 w w' tx :
  view w0 tx = None -> view w' tx = None -> (forall tx', tx' <> tx -> view w' tx' = view w tx') ->
  (forall tx', tx' <> tx -> view w tx' = view w0 tx') -> forall tx', view w' tx' = view w0 tx'.
Proof.
  intros H0 Hv' Ho' Ho tx'. destruct (decide (tx' = tx)) as [->|Hne]; [congruence|].
  rewrite Ho' by done. auto.
Qed.

(** A failure inside the transaction. *)
Lemma rolled_back w0 tx d es w r :
  view w0 tx = None -> in_tx ok w0 tx ro d es w -> (forall v, r <> Val (Ok v)) ->
  run_trace opts ro query params st (es ++ [ERollback]) r ->
  let '(_, w') := Rollback tx w in ended w0 w' r.
Proof.
  intros Hnone [Hdata Hh] Hr Htr. pose proof (doc_Rollback _ _ _ _ doc tx w) as Hx.
  destruct (Rollback tx w) as [rb w']. destruct Hx as [(Hd' & Hv' & Ho') Hlog].
  exists (es ++ [ERollback]). split_and!; [by rewrite Hlog, Hh, app_assoc|done|by intros v ?%Hr|].
  intros (Hd & _ & Ho)%Hdata. split; [by eapply closed_view|].
  destruct r as [[v|e]|p]; [by destruct (Hr v)|left; congruence|simpl; congruence].
Qed.

(** A Commit, and what follows it. *)
Lemma wp_commit w0 tx ex w v :
  view w0 tx = None -> ceiling_check tx query params opts ex (Ok tt) ->
  in_tx ok w0 tx ro (eff tx (durable w0)) (EBegin ro :: settings opts ++ ex ++ st tx) w ->
  good v ->
  wp (let? _ := db_call (Commit tx) in ret (Ok v))
     (fun r w' => match r with
                  | Val (Ok _) => ended w0 w' r
                  | _ => let '(_, w'') := Rollback tx w' in ended w0 w'' r
                  end) w.
Proof.
  intros Hnone Hex [Hdata Hh] Hgood. apply wp_bind_ok, wp_bind. intros h. unfold lift.
  pose proof (doc_Commit _ _ _ _ doc tx w ro (eff tx (durable w0))) as Hc.
  pose proof (doc_Commit_closes _ _ _ _ doc tx w) as Hcl.
  destruct (Commit tx w) as [[[]|e] w']; destruct Hcl as (Hv' & Ho' & Hlog); (split; [done|]);
    apply wp_ret; cbn.
  - apply wp_ret. exists (EBegin ro :: settings opts ++ ex ++ st tx ++ [ECommit]).
    split_and!; [|by apply tr_committed|by intros v' [= <-]|].
    + rewrite Hlog, Hh, <- !app_assoc. simpl. by rewrite <- !app_assoc.
    + intros (Hd & Hv & Ho)%Hdata. split; [by eapply closed_view|].
      exists tx. by destruct (Hc Hv) as [?|[? _]].
  - pose proof (doc_Rollback _ _ _ _ doc tx w') as Hx.
    destruct (Rollback tx w') as [rb w2]. destruct Hx as [(Hd2 & Hv2 & Ho2) Hlog2].
    exists (EBegin ro :: settings opts ++ ex ++ st tx ++ [ECommit; ERollback]).
    split_and!; [|by apply tr_in_doubt|done|].
    + rewrite Hlog2, Hlog, Hh, <- !app_assoc. simpl. by rewrite <- !app_assoc.
    + intros (Hd & Hv & Ho)%Hdata. split.
      { eapply closed_view; [done|done|exact Ho2|]. intros tx' ?. rewrite Ho' by done. auto. }
      simpl. destruct (Hc Hv) as [Hc'|[_ Hc']]; [right|left; congruence]. split_and!; [| |by eexists].
      * exists (EBegin ro :: settings opts ++ ex ++ st tx). simpl. by rewrite <- !app_assoc.
      * exists tx. congruence.
Qed.

Lemma session_spec pool body w :
  (forall tx, runs ok tx ro (body tx) (st tx) (eff tx) good) ->
  wp (session pool ro opts query params body) (fun r w' => ended w w' r) w.
Proof.
  intros Hbody. unfold session. apply wp_bind_ok, wp_bind. intros h. unfold lift.
  pose proof (doc_Begin _ _ _ _ doc pool ro w) as Hb.
  destruct (BeginTxx pool ro w) as [[tx|e] w1]; (split; [done|]); apply wp_ret; cbn.
  2:{ destruct Hb as (Hd & Hv & Hh). exists []. rewrite app_nil_r. split_and!; [done|constructor|done|].
      intros _. split; [done|by left]. }
  destruct Hb as (Hnone & (Hd & Hv & Ho) & Hlog).
  assert (in_tx ok w tx ro (durable w) [EBegin ro] w1) as Hin by (by split).
  apply wp_deferred, wp_bind_ok. eapply wp_mono; [by apply wp_settings|].
  intros [[u|e]|p] w2 (d2 & es2 & Hin2 & Hr); [|destruct Hr as ((e' & ->) & sets & Hpre & ->)|done].
  2:{ eapply rolled_back; [done|done|done|]. by apply tr_setting. }
  destruct Hr as [-> ->]. apply wp_bind_ok.
  eapply wp_mono; [apply wp_ceiling; [intros Hk; by apply Hok|done]|].
  intros [[u2|e]|p] w3 (d3 & es3 & Hin3 & Hr); [|destruct Hr as (ex & -> & Hex)|done].
  2:{ eapply rolled_back; [done|done|done|]. simpl. rewrite <- app_assoc. by eapply tr_ceiling. }
  destruct Hr as (-> & ex & -> & Hex). apply wp_bind_ok. eapply wp_mono; [by apply Hbody|].
  intros r w4 (d4 & Hin4 & Hr). rewrite <- !app_assoc in Hin4. simpl in Hin4.
  destruct r as [[v|e]|p].
  - destruct Hr as [-> Hgood]. by eapply wp_commit.
  - eapply rolled_back; [done|done|done|]. simpl. rewrite <- !app_assoc. by eapply tr_rolled_back.
  - eapply rolled_back; [done|done|done|]. simpl. rewrite <- !app_assoc. by eapply tr_rolled_back.
Qed.
End session.
End phases.

(** [RunWrite] is a session around its statement and the cap. *)
Lemma deferred_rollback_proper {W Pool Tx A} `{PathSqlx W Pool Tx} (tx : Tx) :
  Proper (handler_eq ==> handler_eq) (deferred_rollback (A := A) tx).
Proof. intros m1 m2 E h w. unfold deferred_rollback. by rewrite (E h w). Qed.

Lemma RunWrite_session {W Pool Tx} `{PathSqlx W Pool Tx} (pool : Pool) query params hints opts hasReturning :
  handler_eq (RunWrite pool query params hints opts hasReturning)
    (session pool false opts query params (fun tx =>
       let? out := write_statement pool tx query params hints hasReturning in capped opts out)).
Proof.
  apply bind_ok_proper; [done|]. intros tx. apply deferred_rollback_proper.
  apply bind_ok_proper; [done|]. intros _. apply bind_ok_proper; [done|]. intros _.
  etransitivity; [|symmetry; apply bind_ok_assoc]. apply bind_ok_proper; [done|]. intros out.
  unfold capped. etransitivity; [|symmetry; apply bind_ok_assoc]. apply bind_ok_proper; [done|].
  intros [].
  symmetry.
  apply (bind_ok_ret (fst out) (fun v => bind_ok (db_call (Commit tx)) (fun _ => ret (Ok v)))).
Qed.

(** ** Properties *)

Section properties.
Context {W Pool Tx D : Type} `{PathSqlx W Pool Tx} `{EqDecision Tx}.
Context (doc : sql_documented W Pool Tx D).

Local Abbreviation durable := (durable W Pool Tx D doc).
Local Abbreviation view := (view W Pool Tx D doc).
Local Abbreviation history := (history W Pool Tx D doc).

(** The text of a query is confined however its parameters are bound. *)
Definition text_confined (query : string) (params : value) : Prop :=
  forall tx, sent_confined doc tx query params.

Lemma RunQuery_ended pool query params hints opts w :
  wp (RunQuery pool query params hints opts)
     (fun r w' => ended doc (text_confined query params) opts (ReadOnly opts) query params
        (fun _ => [EQuery query params hints])
        (fun _ d => if ReadOnly opts then d else query_effect _ _ _ _ doc query params hints d)
        (fun _ => True) w w' r) w.
Proof.
  exact (session_spec doc (text_confined query params) opts (ReadOnly opts) query params _ _ _ (fun Hk => Hk)
    pool _ w (fun tx => path_query_runs doc (text_confined query params) pool tx (ReadOnly opts) query params hints
                          (fun Hk => Hk tx))).
Qed.

Lemma RunWrite_ended pool query params hints opts hasReturning w :
  wp (RunWrite pool query params hints opts hasReturning)
     (fun r w' => ended doc (text_confined query params) opts false query params
        (fun tx => statement_events tx query params hints hasReturning)
        (fun tx => statement_effect doc tx query params hints hasReturning)
        (fun v => forall n, reported_rows hasReturning v = Some n -> within_cap opts n) w w' r) w.
Proof.
  intros h. rewrite RunWrite_session.
  exact (session_spec doc (text_confined query params) opts false query params _ _ _ (fun Hk => Hk) pool _ w
    (fun tx => write_runs doc (text_confined query params) pool tx query params hints opts hasReturning
                 (fun Hk => Hk tx)) h).
Qed.

Lemma settled_read w w' es r :
  settled doc (fun (_ : Tx) d => d) w w' es r -> durable w' = durable w.
Proof.
  destruct r as [[v|e]|p]; simpl; [by intros [_ ?]| |done].
  by intros [?|[_ [[_ ?] _]]].
Qed.

(** A run that ends in an error of the executor itself, or panics, left the data
    alone. *)
Definition untouched_unless_driver (w w' : W) (r : outcome (result exec_error value)) : Prop :=
  match r with
  | Val (Ok _) | Val (Err (ErrDriver _)) => True
  | _ => durable w' = durable w
  end.

Lemma ended_untouched (ok : Prop) opts ro query params st eff good w w' r :
  ok -> ended doc ok opts ro query params st eff good w w' r -> untouched_unless_driver w w' r.
Proof.
  intros Hok (es & _ & _ & _ & Hset). destruct (Hset Hok) as [_ Hs]. destruct r as [[v|e]|p]; [done| |done].
  destruct e; try done; simpl in *; by destruct Hs as [?|(_ & _ & e' & ?)].
Qed.

(** C15: a write is all or nothing. Of a statement that stays within its
    transaction, a run that returns a value has committed what it did to the data;
    a run that fails, the cap and the cost ceiling included, or panics leaves the
    data as it was, unless it is the Commit itself that failed; no transaction is
    left open. And whatever the statement, the rows a value reports are within the
    blast-radius cap. *)
Theorem RunWrite_atomic (pool : Pool) (query : string) (params : value)
    (hints : list (string * string)) (opts : QueryOptions) (hasReturning : bool)
    (h : Header) (w : W) :
  let '(cs, w', r) := RunWrite pool query params hints opts hasReturning h w in
  cs = []
  /\ (forall v n, r = Val (Ok v) -> reported_rows hasReturning v = Some n -> within_cap opts n)
  /\ (text_confined query params ->
      (forall tx, view w' tx = view w tx) /\
      match r with
      | Val (Ok _) =>
          exists tx, durable w' = statement_effect doc tx query params hints hasReturning (durable w)
      | Val (Err _) =>
          durable w' = durable w
          \/ (exists es, history w' = history w ++ es ++ [ECommit; ERollback])
             /\ exists tx, durable w' = statement_effect doc tx query params hints hasReturning (durable w)
      | Panic _ => durable w' = durable w
      end).
Proof.
  pose proof (RunWrite_ended pool query params hints opts hasReturning w h) as Hs.
  destruct (RunWrite _ _ _ _ _ _ h w) as [[cs w'] r].
  destruct Hs as (-> & es & Hh & _ & Hgood & Hset). split_and!; [done|by intros v n Hr; apply Hgood|].
  intros Hconf. destruct (Hset Hconf) as [Hv Hs]. split; [done|]. destruct r as [[v|e]|p]; [done| |done].
  destruct Hs as [?|[(es' & ->) [Hd _]]]; [by left|]. right. split; [by exists es'|done].
Qed.

(** A read-only run of a statement that stays within its transaction never
    changes the data, whatever its outcome, and leaves no transaction open. *)
Theorem RunQuery_read_only (pool : Pool) (query : string) (params : value)
    (hints : list (string * string)) (opts : QueryOptions) (h : Header) (w : W)
    (Hro : ReadOnly opts = true) (Hconf : text_confined query params) :
  let '(cs, w', r) := RunQuery pool query params hints opts h w in
  cs = [] /\ durable w' = durable w /\ (forall tx, view w' tx = view w tx).
Proof.
  pose proof (RunQuery_ended pool query params hints opts w h) as Hs.
  destruct (RunQuery _ _ _ _ _ h w) as [[cs w'] r].
  destruct Hs as (-> & es & Hh & _ & _ & Hset). destruct (Hset Hconf) as [Hv Hs]. rewrite Hro in Hs.
  split_and!; [done| |done]. by apply settled_read in Hs.
Qed.

(** C30: the grammar of a run, reads and writes alike. The statement reaches the
    database only after every configured session setting, and where a ceiling is
    set only after an EXPLAIN of it whose estimate is within the ceiling; a run
    the ceiling rejects never issues it; every transaction that begins ends, and
    it is committed exactly when the run returns a value or Commit failed. *)
Theorem executor_trace (pool : Pool) (query : string) (params : value)
    (hints : list (string * string)) (opts : QueryOptions) (hasReturning : bool)
    (h : Header) (w : W) :
  (let '(_, w', r) := RunQuery pool query params hints opts h w in
   exists es, history w' = history w ++ es
     /\ run_trace opts (ReadOnly opts) query params (fun _ => [EQuery query params hints]) es r) /\
  (let '(_, w', r) := RunWrite pool query params hints opts hasReturning h w in
   exists es, history w' = history w ++ es
     /\ run_trace opts false query params
          (fun tx => statement_events tx query params hints hasReturning) es r).
Proof.
  split.
  - pose proof (RunQuery_ended pool query params hints opts w h) as Hs.
    destruct (RunQuery _ _ _ _ _ h w) as [[cs w'] r]. destruct Hs as (_ & es & Hh & Ht & _). eauto.
  - pose proof (RunWrite_ended pool query params hints opts hasReturning w h) as Hs.
    destruct (RunWrite _ _ _ _ _ _ h w) as [[cs w'] r]. destruct Hs as (_ & es & Hh & Ht & _). eauto.
Qed.
End properties.

(** The row ceiling overflows: an estimate of [2^63] rows or more, which a
    cross join of a few large tables has, is converted to a negative integer, and
    without a cost ceiling every such query is let through. *)
Theorem row_ceiling_overflow (opts : QueryOptions) (raw : string) (l : list json)
    (cost : spec_float) (rest : list (spec_float * spec_float)) (m : positive) (e : Z)
  (Hdoc : parse_document raw = Some (JArray l))
  (Hplan : mapM decode_plan l = Some ((cost, S754_finite false m e) :: rest))
  (Hrows : (0 <= e)%Z /\ (2 ^ 63 <= Zpos m * 2 ^ e)%Z)
  (Hcost : SFltb zero_float (MaxEstimatedCost opts) = false) :
  verdict opts raw = Ok tt.
Proof.
  unfold verdict, parsePlanEstimate. rewrite Hdoc, Hplan. simpl. unfold costCeilingError. rewrite Hcost.
  simpl. destruct Hrows as [He Hbig]. rewrite (proj2 (Z.leb_le 0 e) He).
  destruct (_ <? 2 ^ 63)%Z eqn:E; [breflect; lia|]. rewrite andb_false_r.
  destruct (Z.ltb_spec 0 (MaxEstimatedRows opts)); [|done].
  by destruct (Z.ltb_spec (MaxEstimatedRows opts) (- 2 ^ 63)); [lia|].
Qed.

(** ** A concrete database

    The data is a counter of executed statements; one transaction at a time. *)

Module Witness.
Record sample_db := SampleDB {
  sd_data : nat;
  sd_open : option (bool * nat);
  sd_history : list sql_event
}.

Definition plan : string :=
  js "[{`Plan`: {`Node Type`: `Nested Loop`, `Total Cost`: 12.50, `Plan Rows`: 100000000000000000000}}]".

Definition run_one (n : nat) (q : string) (d : nat) : nat := if String.eqb q set_config then d else d + n.

(** A text that leaves its transaction: it commits, and then deletes on its own. *)
Definition stacked : string := "SELECT 1; COMMIT; DELETE FROM t".

Definition run_text (n : nat) (q : string) (e : sql_event) (w : sample_db) : sample_db :=
  if String.eqb q stacked
  then SampleDB (match sd_open w with Some (_, d) => d | None => sd_data w end + 1) None (sd_history w ++ [e])
  else SampleDB (sd_data w)
         (match sd_open w with
          | Some (ro, d) => Some (ro, if ro then d else run_one n q d)
          | None => None
          end) (sd_history w ++ [e]).
Definition log (w : sample_db) (o : option (bool * nat)) (e : sql_event) : sample_db :=
  SampleDB (sd_data w) o (sd_history w ++ [e]).

#[export] Instance sample_sql : PathSqlx sample_db unit unit := {|
  BeginTxx _ ro w := match sd_open w with
                     | Some _ => (Err (DbErr true "no connection"), w)
                     | None => (Ok tt, log w (Some (ro, sd_data w)) (EBegin ro))
                     end;
  ExecContext _ q args w := (Ok 1%Z, run_text 1 q (EExec q args) w);
  QueryRowBytes _ q args w :=
    (Ok plan, let e := EExplain q args (Ok plan) in
              if String.eqb q (explain stacked) then run_text 0 stacked e w else log w (sd_open w) e);
  PathQueryTx _ _ q params hints w := (Val (Ok (VSlice [VNil; VNil])), run_text 2 q (EQuery q params hints) w);
  Commit _ w := (Ok tt, match sd_open w with
                        | Some (_, d) => SampleDB d None (sd_history w ++ [ECommit])
                        | None => log w None ECommit
                        end);
  Rollback _ w := (Ok tt, log w None ERollback);
  Named q params := Ok (q, []);
  Rebind _ q := q
|}.

Lemma run_text_confined n q e w :
  q <> stacked -> run_text n q e w = log w (match sd_open w with
    | Some (ro, d) => Some (ro, if ro then d else run_one n q d) | None => None end) e.
Proof. intros Hq. unfold run_text. by rewrite (proj2 (String.eqb_neq _ _)). Qed.
Lemma run_text_history n q e w : sd_history (run_text n q e w) = sd_history w ++ [e].
Proof. unfold run_text. by case_match. Qed.

Definition sample_doc : sql_documented sample_db unit unit nat.
Proof.
  refine {| durable := sd_data; view w _ := sd_open w; history := sd_history;
            confined q := q <> stacked;
            effect q _ d := run_one 1 q d; query_effect q _ _ d := run_one 2 q d |}.
  - done.
  - intros [] ro [d [o|] es]; [done|]. simpl. split_and!; done || by intros [].
  - intros [] q args w. cbn -[run_text]. split; [apply run_text_history|]. intros ro d Hq Ho.
    rewrite run_text_confined, Ho by done. split_and!; done || by intros [].
  - intros [] q args w. cbn -[run_text explain]. split.
    + case_match; [apply run_text_history|done].
    + intros Hq. rewrite (proj2 (String.eqb_neq _ _)).
      * split_and!; done || by intros [].
      * unfold explain. by intros ?%(inj (String.append _)).
  - intros [] [] q params hints w. cbn -[run_text]. split; [apply run_text_history|]. intros ro d Hq Ho.
    rewrite run_text_confined, Ho by (by eapply Hq). split_and!; done || by intros [].
  - intros [] [d0 o es] ro d Ho. simpl in *. subst. by left.
  - intros [] [d0 [[ro d]|] es]; simpl; split_and!; done || by intros [].
  - intros [] [d0 o es]. split_and!; done || by intros [].
Defined.

Definition db0 : sample_db := SampleDB 0 None [].
Definition opts (ro : bool) : QueryOptions :=
  {| ReadOnly := ro; StatementTimeout := 5000 * 1000000; IdleInTxTimeout := 5000 * 1000000;
     WorkMemKB := 4096; MaxEstimatedCost := zero_float; MaxEstimatedRows := 1000; MaxAffectedRows := 1 |}.

Definition outcome_of {A B C} (x : A * B * C) : C := snd x.

Lemma delete_confined : text_confined sample_doc "DELETE FROM t RETURNING 1" VNil.
Proof. intros [] q args [= <- <-]. discriminate. Qed.

(** An instance of [RunWrite_atomic]. *)
Lemma RunWrite_atomic_witness :
  outcome_of (RunWrite tt "DELETE FROM t RETURNING 1" VNil [] (opts false) true ∅ db0)
    = Val (Err (ErrTooManyRowsAffected 2 1)) /\
  (let '(_, w', r) := RunWrite tt "DELETE FROM t RETURNING 1" VNil [] (opts false) true ∅ db0 in
   sd_data w' = 0 \/ exists es, sd_history w' = es ++ [ECommit; ERollback]).
Proof.
  split; [vm_compute; reflexivity|].
  pose proof (RunWrite_atomic sample_doc tt "DELETE FROM t RETURNING 1" VNil [] (opts false) true ∅ db0) as Hw.
  destruct (RunWrite _ _ _ _ _ _ _ _) as [[cs w'] r] eqn:E.
  assert (r = Val (Err (ErrTooManyRowsAffected 2 1))) as ->.
  { change r with (outcome_of (cs, w', r)). rewrite <- E. vm_compute. reflexivity. }
  destruct Hw as (_ & _ & Hw). destruct (Hw delete_confined) as [_ [Hd|[(es & Hes) _]]];
    [by left|right; by exists es].
Defined.

(** An instance of [RunQuery_read_only]. *)
Lemma RunQuery_read_only_witness :
  let '(cs, w', r) := RunQuery tt "SELECT f()" VNil [] (opts true) ∅ db0 in
  cs = [] /\ sd_data w' = 0 /\ (forall tx : unit, sd_open w' = None).
Proof.
  apply (RunQuery_read_only sample_doc tt "SELECT f()" VNil [] (opts true) ∅ db0); [reflexivity|].
  intros [] q args [= <- <-]. discriminate.
Defined.

(** The condition on the text is needed: a stacked text gets out of the read-only
    transaction, and so does an EXPLAIN of it: it deletes twice. *)
Example stacked_commit_writes :
  (let '(_, w', _) := RunQuery tt stacked VNil [] (opts true) ∅ db0 in sd_data w') = 2.
Proof. vm_compute. reflexivity. Qed.

(** An instance of [executor_trace]. *)
Lemma executor_trace_witness :
  let '(_, w', r) := RunQuery tt "SELECT f()" VNil [] (opts true) ∅ db0 in
  exists es, history _ _ _ _ sample_doc w' = history _ _ _ _ sample_doc db0 ++ es
    /\ run_trace (opts true) (ReadOnly (opts true)) "SELECT f()" VNil
         (fun _ : unit => [EQuery "SELECT f()" VNil []]) es r.
Proof.
  pose proof (executor_trace sample_doc tt "SELECT f()" VNil [] (opts true) false ∅ db0) as [Hq _].
  exact Hq.
Defined.

Definition plan_doc : list json :=
  [JObject [("Plan", JObject [("Node Type", JString "Nested Loop"); ("Total Cost", JNumber "12.50");
                              ("Plan Rows", JNumber "100000000000000000000")])]].

(** An instance of [row_ceiling_overflow]. *)
Lemma row_ceiling_overflow_witness : verdict (opts true) plan = Ok tt.
Proof.
  apply (row_ceiling_overflow (opts true) plan plan_doc (S754_finite false 7036874417766400 (-49)) []
           6103515625000000 14).
  - vm_compute. reflexivity.
  - vm_compute. reflexivity.
  - vm_compute. split; intros; discriminate.
  - reflexivity.
Defined.
End Witness.
