(* ===== verification/GoCrypto.v ===== *)
(** * SHA-256 and HMAC (crypto/sha256, crypto/hmac)

    FIPS 180-4 over 32-bit words in [N], bytes as characters. *)

From S2P Require Import Prelude GoStrings.
From Stdlib Require Import Ascii.

Definition w32 (n : N) : N := N.modulo n (2 ^ 32).
Definition rotr (k n : N) : N := N.lor (N.shiftr n k) (w32 (N.shiftl n (32 - k))).
Definition bnot (n : N) : N := N.lxor n (2 ^ 32 - 1).

Definition Ch (x y z : N) : N := N.lxor (N.land x y) (N.land (bnot x) z).
Definition Maj (x y z : N) : N := N.lxor (N.lxor (N.land x y) (N.land x z)) (N.land y z).
Definition Sigma0 (x : N) : N := N.lxor (N.lxor (rotr 2 x) (rotr 13 x)) (rotr 22 x).
Definition Sigma1 (x : N) : N := N.lxor (N.lxor (rotr 6 x) (rotr 11 x)) (rotr 25 x).
Definition sigma0 (x : N) : N := N.lxor (N.lxor (rotr 7 x) (rotr 18 x)) (N.shiftr x 3).
Definition sigma1 (x : N) : N := N.lxor (N.lxor (rotr 17 x) (rotr 19 x)) (N.shiftr x 10).

(** The constants of FIPS 180-4: the first 32 bits of the fractional parts of
    the cube roots of the first 64 primes, and of the square roots of the first
    eight. [floor_root k n] is the integer [k]-th root, found bit by bit. *)
Fixpoint root_bits (k : N) (n : N) (bit : nat) (acc : N) : N :=
  let acc' := (acc + 2 ^ N.of_nat bit)%N in
  let acc := if (acc' ^ k <=? n)%N then acc' else acc in
  match bit with 0 => acc | S bit => root_bits k n bit acc end.
Definition floor_root (k n : N) : N := root_bits k n 40 0.
Definition root_fraction (k p : N) : N := w32 (floor_root k (p * 2 ^ (32 * k))).

Definition is_prime (p : nat) : bool :=
  forallb (fun d => negb (p mod d =? 0)) (seq 2 (p - 2)).
Definition first_primes : list N := map N.of_nat (List.filter is_prime (seq 2 310)).

Definition round_constants : list N :=
  Eval vm_compute in map (root_fraction 3) first_primes.

Example round_constants_length : length round_constants = 64.
Proof. reflexivity. Qed.

Record sha_state := Sha { sa : N; sb : N; sc : N; sd : N; se : N; sf : N; sg : N; sh : N }.

Definition sha_init : sha_state :=
  Eval vm_compute in
    match map (root_fraction 2) (take 8 first_primes) with
    | [a; b; c; d; e; f; g; h] => Sha a b c d e f g h
    | _ => Sha 0 0 0 0 0 0 0 0
    end.

Definition sha_round (s : sha_state) (kw : N * N) : sha_state :=
  let t1 := (sh s + Sigma1 (se s) + Ch (se s) (sf s) (sg s) + kw.1 + kw.2)%N in
  let t2 := (Sigma0 (sa s) + Maj (sa s) (sb s) (sc s))%N in
  Sha (w32 (t1 + t2)) (sa s) (sb s) (sc s) (w32 (sd s + t1)) (se s) (sf s) (sg s).

(** The message schedule: the last sixteen words, newest first. *)
Fixpoint schedule (n : nat) (rev : list N) : list N :=
  match n with
  | 0 => rev
  | S n =>
      let at_ i := default 0%N (rev !! i) in
      schedule n (w32 (sigma1 (at_ 1%nat) + at_ 6%nat + sigma0 (at_ 14%nat) + at_ 15%nat) :: rev)
  end.

Definition sha_block (s : sha_state) (words : list N) : sha_state :=
  let ws := reverse (schedule 48 (reverse words)) in
  let t := foldl sha_round s (zip round_constants ws) in
  Sha (w32 (sa s + sa t)) (w32 (sb s + sb t)) (w32 (sc s + sc t)) (w32 (sd s + sd t))
      (w32 (se s + se t)) (w32 (sf s + sf t)) (w32 (sg s + sg t)) (w32 (sh s + sh t)).

(** Big-endian words of bytes. *)
Fixpoint be_words (l : list N) : list N :=
  match l with
  | a :: b :: c :: d :: l => (((a * 256 + b) * 256 + c) * 256 + d)%N :: be_words l
  | _ => []
  end.
Definition be_bytes (k : nat) (n : N) : list N :=
  map (fun i => N.modulo (N.shiftr n (8 * N.of_nat (k - 1 - i))) 256) (seq 0 k).

(** The padding: a one bit, zeros, and the bit length in eight bytes. *)
Definition sha_pad (l : list N) : list N :=
  let n := N.of_nat (length l) in
  let zeros := ((119 - n mod 64) mod 64)%N in
  l ++ [128%N] ++ replicate (N.to_nat zeros) 0%N ++ be_bytes 8 (8 * n).

Fixpoint sha_blocks (fuel : nat) (s : sha_state) (words : list N) : sha_state :=
  match fuel with
  | 0 => s
  | S n => match words with
           | [] => s
           | _ => sha_blocks n (sha_block s (take 16 words)) (drop 16 words)
           end
  end.

Definition string_of_bytes (l : list N) : string :=
  foldr (fun b s => String (ascii_of_N b) s) EmptyString l.

Definition digest (s : sha_state) : list N :=
  be_bytes 4 (sa s) ++ be_bytes 4 (sb s) ++ be_bytes 4 (sc s) ++ be_bytes 4 (sd s)
  ++ be_bytes 4 (se s) ++ be_bytes 4 (sf s) ++ be_bytes 4 (sg s) ++ be_bytes 4 (sh s).

(** Each block takes sixteen words, so their number is fuel enough. *)
Definition sha256_bytes (l : list N) : list N :=
  let words := be_words (sha_pad l) in
  digest (sha_blocks (length words) sha_init words).
Definition Sum256 (s : string) : string := string_of_bytes (sha256_bytes (bytes s)).

(** [hmac.New(sha256.New, key)] over one message. *)
Definition hmac_sha256 (key msg : string) : string :=
  let k := let k := bytes key in if (64 <? length k)%nat then sha256_bytes k else k in
  let k := k ++ replicate (64 - length k) 0%N in
  let inner := sha256_bytes (map (N.lxor 54) k ++ bytes msg) in
  string_of_bytes (sha256_bytes (map (N.lxor 92) k ++ inner)).

Lemma be_bytes_length k n : length (be_bytes k n) = k.
Proof. unfold be_bytes. by rewrite length_map, length_seq. Qed.

Lemma string_of_bytes_length l : String.length (string_of_bytes l) = length l.
Proof. induction l; simpl; [done|by f_equal]. Qed.

Lemma digest_length s : length (digest s) = 32.
Proof. unfold digest. by rewrite !length_app, !be_bytes_length. Qed.

Lemma Sum256_length s : String.length (Sum256 s) = 32.
Proof. unfold Sum256. rewrite string_of_bytes_length. apply digest_length. Qed.

Lemma hmac_sha256_length key msg : String.length (hmac_sha256 key msg) = 32.
Proof. unfold hmac_sha256. rewrite string_of_bytes_length. apply digest_length. Qed.

Example sha256_abc : hex_encode (Sum256 "abc")
  = "ba7816bf8f01cfea414140de5dae2223b00361a396177a9cb410ff61f20015ad".
Proof. vm_compute. reflexivity. Qed.

Example sha256_two_blocks :
  hex_encode (Sum256 "abcdbcdecdefdefgefghfghighijhijkijkljklmklmnlmnomnopnopq")
  = "248d6a61d20638b8e5c026930c3e6039a33ce45964ff2167f6ecedd419db06c1".
Proof. vm_compute. reflexivity. Qed.

Example hmac_jefe : hex_encode (hmac_sha256 "Jefe" "what do ya want for nothing?")
  = "5bdcc146bf60754e6a042426089575c75a003f089d2739839dec58b964ec3843".
Proof. vm_compute. reflexivity. Qed.
