(* ===== verification/Auth.v ===== *)
(** * Authentication (src/internal/auth: auth.go, apikey.go, basic.go, store.go, admin.go)

    The chain and its middleware over the [Authenticator] interface, the API-key
    and the Basic authenticator over the [UserStore] interface, the store and the
    admin writes over the queries they send. bcrypt is a parameter. *)

From S2P Require Import Prelude GoStrings Http GoHttp GoJson GoCrypto.
From Stdlib Require Import Ascii.

Record Principal := { AppUser : string; UserID : Z; Scopes : list string }.

Inductive auth_error := ErrNoCredentials | ErrUnauthorized.

#[export] Instance auth_error_eq_dec : EqDecision auth_error.
Proof. solve_decision. Defined.

(** The interface of one method: it makes no call on the response. *)
Definition Authenticator (W : Type) : Type := Request -> W -> result auth_error Principal * W.

(** The counters of successes and failures. *)
Class AuthCounters (W : Type) := {
  authCounts : W -> Z * Z;
  setAuthCounts : Z * Z -> W -> W
}.

(** ** The chain (auth.go) *)

Section chain.
Context {W : Type} `{AuthCounters W}.

Fixpoint Chain_go (sawFailure : bool) (auths : list (Authenticator W)) (r : Request) (w : W) :
    result auth_error Principal * W :=
  match auths with
  | [] => (Err (if sawFailure then ErrUnauthorized else ErrNoCredentials), w)
  | a :: auths =>
      match a r w with
      | (Ok p, w) => (Ok p, w)
      | (Err ErrNoCredentials, w) => Chain_go sawFailure auths r w
      | (Err ErrUnauthorized, w) => Chain_go true auths r w
      end
  end.
Definition Chain_Authenticate : list (Authenticator W) -> Authenticator W := Chain_go false.

Definition unauthorizedBody : string := js "{`type`:`Error`,`message`:`unauthorized`}".

Definition writeUnauthorized : M W unit :=
  call (HSet "Content-Type" "application/json") ;;
  call (HSet "WWW-Authenticate" (js "Basic realm=`pathql`, ApiKey")) ;;
  call (WriteHeader 401) ;;
  call (Write unauthorizedBody).

Definition count_auth (success : bool) : M W unit :=
  lift (fun w => let '(s, f) := authCounts w in
                 (tt, setAuthCounts (if success then (wrap_u64 (s + 1), f) else (s, wrap_u64 (f + 1)))%Z w)).

(** The context carries the principal. *)
Definition Chain_Middleware (auths : list (Authenticator W))
    (next : Handler W (option Principal)) : Handler W (option Principal) := fun c r =>
  let* p := lift (Chain_Authenticate auths r) in
  match p with
  | Err _ => count_auth false ;; writeUnauthorized
  | Ok p => count_auth true ;; next (Some p) r
  end.
End chain.

(** ** The user store (store.go) *)

Record APIKeyRecord := {
  ak_UserID : Z;
  ak_AppUser : string;
  ak_KeyHash : string;           (* bytes *)
  ak_Enabled : bool;
  ak_ExpiresAt : option Z        (* Unix time in nanoseconds *)
}.
Record UserRecord := {
  ur_UserID : Z;
  ur_Username : string;
  ur_PasswordHash : string;
  ur_AppUser : string;
  ur_Enabled : bool
}.
Inductive store_error := ErrNotFound | ErrStore (msg : string).

Class UserStore (W : Type) := {
  LookupAPIKeyByPrefix : string -> W -> result store_error APIKeyRecord * W;
  LookupUserByUsername : string -> W -> result store_error UserRecord * W;
  TouchAPIKey : Z -> string -> W -> result store_error unit * W
}.

(** bcrypt: whether the comparison returns nil, and hashing, which draws a salt. *)
Class Bcrypt (W : Type) := {
  CompareHashAndPassword : string -> string -> bool;
  GenerateFromPassword : string -> W -> result string string * W
}.

(** ** API keys (apikey.go) *)

Section authenticators.
Context {W : Type} `{UserStore W} `{Clock W}.

Definition apiKeyPrefixLen : nat := 8.
Definition apiKeyScheme : string := "ApiKey".

Definition extractKey (headerName : string) (r : Request) : string :=
  let h := header_get (r_Header r) "Authorization" in
  let from_authorization :=
    if (String.length apiKeyScheme <? String.length h)%nat
       && EqualFold (str_take (String.length apiKeyScheme) h) apiKeyScheme
    then TrimSpace (str_drop (String.length apiKeyScheme) h) else EmptyString in
  if negb (String.eqb from_authorization EmptyString) then from_authorization
  else if negb (String.eqb headerName EmptyString)
  then TrimSpace (header_get (r_Header r) headerName)
  else EmptyString.

(** The background update, run at once; its error is ignored. *)
Definition touchAsync (userID : Z) (prefix : string) (w : W) : W := snd (TouchAPIKey userID prefix w).

Definition APIKey_Authenticate (headerName : string) : Authenticator W := fun r w =>
  let key := extractKey headerName r in
  if String.eqb key EmptyString then (Err ErrNoCredentials, w)
  else if (String.length key <? apiKeyPrefixLen)%nat then (Err ErrUnauthorized, w)
  else
    let prefix := str_take apiKeyPrefixLen key in
    match LookupAPIKeyByPrefix prefix w with
    | (Err _, w) => (Err ErrUnauthorized, w)
    | (Ok rec, w) =>
        if negb (String.eqb (Sum256 key) (ak_KeyHash rec)) then (Err ErrUnauthorized, w)
        else if negb (ak_Enabled rec) then (Err ErrUnauthorized, w)
        else
          let principal := {| AppUser := ak_AppUser rec; UserID := ak_UserID rec; Scopes := [] |} in
          match ak_ExpiresAt rec with
          | None => (Ok principal, touchAsync (ak_UserID rec) prefix w)
          | Some expiry =>
              let '(now, w) := Now w in
              if negb (now <? expiry)%Z then (Err ErrUnauthorized, w)
              else (Ok principal, touchAsync (ak_UserID rec) prefix w)
          end
    end.

(** ** Basic (basic.go) *)

(** The package's [init]: a hash to compare with where there is no user, made
    once, with the default cost. *)
Definition init_dummyBcryptHash `{Bcrypt W} : M W string :=
  let* h := lift (GenerateFromPassword "pathql-auth-dummy-constant-time-password") in
  match h with
  | Ok h => ret h
  | Err e => panic ("auth: failed to precompute dummy bcrypt hash: " +:+ e)
  end.

(** [dummyBcryptHash] is that hash; the comparison with it only takes time. *)
Definition Basic_Authenticate `{Bcrypt W} (dummyBcryptHash : string) : Authenticator W := fun r w =>
  match BasicAuth r with
  | None => (Err ErrNoCredentials, w)
  | Some (username, password) =>
      match LookupUserByUsername username w with
      | (Err _, w) => let _ := CompareHashAndPassword dummyBcryptHash password in
                      (Err ErrUnauthorized, w)
      | (Ok rec, w) =>
          if String.eqb (ur_PasswordHash rec) EmptyString then
            let _ := CompareHashAndPassword dummyBcryptHash password in (Err ErrUnauthorized, w)
          else if negb (CompareHashAndPassword (ur_PasswordHash rec) password) then
            (Err ErrUnauthorized, w)
          else if negb (ur_Enabled rec) then (Err ErrUnauthorized, w)
          else (Ok {| AppUser := ur_AppUser rec; UserID := ur_UserID rec; Scopes := [] |}, w)
      end
  end.
End authenticators.

(** ** The SQL store (store.go) and the admin writes (admin.go) *)

(** A row of each query, as sqlx scans it; [key_hash] is bytes. *)
Record apiKeyRow := {
  akr_UserID : Z; akr_AppUser : string; akr_KeyHash : string; akr_Enabled : bool;
  akr_ExpiresAt : option Z
}.
Record userRow := {
  usr_UserID : Z; usr_Username : string; usr_PasswordHash : string; usr_AppUser : string;
  usr_Enabled : bool
}.
Inductive get_error := ErrNoRows | ErrGet (msg : string).

(** GetContext at the three destinations the code uses, ExecContext, and a
    transaction with the result of a statement and its RowsAffected. *)
Class AuthDB (W Tx : Type) := {
  Get_apiKeyRow : string -> list value -> W -> result get_error apiKeyRow * W;
  Get_userRow : string -> list value -> W -> result get_error userRow * W;
  Get_id : string -> list value -> W -> result get_error Z * W;
  Exec : string -> list value -> W -> result string unit * W;
  Begin : W -> result string Tx * W;
  Tx_Exec : Tx -> string -> list value -> W -> result string (result string Z) * W;
  Tx_Commit : Tx -> W -> result string unit * W;
  Tx_Rollback : Tx -> W -> result string unit * W
}.

Definition nl : string := String "010" EmptyString.
Definition lines (l : list string) : string := str_concat (map (fun s => nl +:+ s) l).

(** The tables of a prefix, which must be an identifier. *)
Record auth_tables := { usersTable : string; keysTable : string }.
Definition tables_of (tablePrefix : string) : result string auth_tables :=
  if match_ident tablePrefix
  then Ok {| usersTable := tablePrefix +:+ "users"; keysTable := tablePrefix +:+ "api_keys" |}
  else Err ("auth: invalid table prefix " +:+ tablePrefix).

Definition lookupKeyQuery (t : auth_tables) : string :=
  lines ["SELECT";
         "  k.user_id                       AS user_id,";
         "  u.app_user                      AS app_user,";
         "  k.key_hash                      AS key_hash,";
         "  (k.enabled AND u.enabled)       AS enabled,";
         "  k.expires_at                    AS expires_at";
         "FROM " +:+ keysTable t +:+ " k";
         "JOIN " +:+ usersTable t +:+ " u ON u.id = k.user_id";
         "WHERE k.key_prefix = $1"].
Definition lookupUserQuery (t : auth_tables) : string :=
  lines ["SELECT";
         "  id            AS user_id,";
         "  username      AS username,";
         "  COALESCE(password_hash, '') AS password_hash,";
         "  app_user      AS app_user,";
         "  enabled       AS enabled";
         "FROM " +:+ usersTable t;
         "WHERE username = $1"].
Definition touchKeyQuery (t : auth_tables) : string :=
  lines ["UPDATE " +:+ keysTable t;
         "SET last_used_at = now()";
         "WHERE key_prefix = $1 AND user_id = $2"].
Definition addUserQuery (t : auth_tables) : string :=
  lines ["INSERT INTO " +:+ usersTable t +:+ " (username, password_hash, app_user, enabled)";
         "VALUES ($1, $2, $3, true)";
         "RETURNING id"].
Definition addAPIKeyQuery (t : auth_tables) : string :=
  lines ["INSERT INTO " +:+ keysTable t +:+ " (user_id, key_prefix, key_hash, name, enabled)";
         "VALUES ($1, $2, $3, $4, true)"].
Definition deleteKeysQuery (t : auth_tables) : string :=
  "DELETE FROM " +:+ keysTable t +:+ " WHERE user_id = $1".
Definition deleteUserQuery (t : auth_tables) : string :=
  "DELETE FROM " +:+ usersTable t +:+ " WHERE id = $1".

(** The errors of the admin writes: the step that failed, and its cause. *)
Inductive admin_error :=
| ErrAddUser (username : string) (cause : get_error)
| ErrDeleteUser (id : Z) (step cause : string)
| ErrAddAPIKey (userID : Z) (cause : string).

Section sql_store.
Context {W Tx : Type} `{AuthDB W Tx} (t : auth_tables).

Definition sql_LookupAPIKeyByPrefix (prefix : string) (w : W) : result store_error APIKeyRecord * W :=
  match Get_apiKeyRow (lookupKeyQuery t) [VString prefix] w with
  | (Err ErrNoRows, w) => (Err ErrNotFound, w)
  | (Err (ErrGet msg), w) => (Err (ErrStore msg), w)
  | (Ok row, w) =>
      (Ok {| ak_UserID := akr_UserID row; ak_AppUser := akr_AppUser row;
             ak_KeyHash := akr_KeyHash row; ak_Enabled := akr_Enabled row;
             ak_ExpiresAt := akr_ExpiresAt row |}, w)
  end.

Definition sql_LookupUserByUsername (username : string) (w : W) : result store_error UserRecord * W :=
  match Get_userRow (lookupUserQuery t) [VString username] w with
  | (Err ErrNoRows, w) => (Err ErrNotFound, w)
  | (Err (ErrGet msg), w) => (Err (ErrStore msg), w)
  | (Ok row, w) =>
      (Ok {| ur_UserID := usr_UserID row; ur_Username := usr_Username row;
             ur_PasswordHash := usr_PasswordHash row; ur_AppUser := usr_AppUser row;
             ur_Enabled := usr_Enabled row |}, w)
  end.

Definition sql_TouchAPIKey (userID : Z) (prefix : string) (w : W) : result store_error unit * W :=
  match Exec (touchKeyQuery t) [VString prefix; VInt userID] w with
  | (Ok _, w) => (Ok tt, w)
  | (Err msg, w) => (Err (ErrStore msg), w)
  end.

Definition sqlUserStore : UserStore W :=
  {| LookupAPIKeyByPrefix := sql_LookupAPIKeyByPrefix;
     LookupUserByUsername := sql_LookupUserByUsername;
     TouchAPIKey := sql_TouchAPIKey |}.

(** ** UserAdmin *)

Definition AddUser (username appUser passwordHash : string) (w : W) : result admin_error Z * W :=
  let appUser := if String.eqb appUser EmptyString then username else appUser in
  let hash := if String.eqb passwordHash EmptyString then VNil else VString passwordHash in
  match Get_id (addUserQuery t) [VString username; hash; VString appUser] w with
  | (Ok id, w) => (Ok id, w)
  | (Err e, w) => (Err (ErrAddUser username e), w)
  end.

Definition DeleteUser (id : Z) (w : W) : result admin_error bool * W :=
  match Begin w with
  | (Err e, w) => (Err (ErrDeleteUser id "begin" e), w)
  | (Ok tx, w) =>
      let fail step e w := let '(_, w) := Tx_Rollback tx w in (Err (ErrDeleteUser id step e), w) in
      match Tx_Exec tx (deleteKeysQuery t) [VInt id] w with
      | (Err e, w) => fail "delete api keys" e w
      | (Ok _, w) =>
          match Tx_Exec tx (deleteUserQuery t) [VInt id] w with
          | (Err e, w) => fail "delete user" e w
          | (Ok (Err e), w) => fail "rows affected" e w
          | (Ok (Ok affected), w) =>
              match Tx_Commit tx w with
              | (Err e, w) => (Err (ErrDeleteUser id "commit" e), w)
              | (Ok _, w) => (Ok (0 <? affected)%Z, w)
              end
          end
      end
  end.

Definition AddAPIKey (userID : Z) (keyPrefix keyHash name : string) (w : W) : result admin_error unit * W :=
  match Exec (addAPIKeyQuery t) [VInt userID; VString keyPrefix; VString keyHash; VString name] w with
  | (Ok _, w) => (Ok tt, w)
  | (Err e, w) => (Err (ErrAddAPIKey userID e), w)
  end.
End sql_store.

Definition NewSQLUserStore {W Tx} `{AuthDB W Tx} (tablePrefix : string) : result string (UserStore W) :=
  t ← tables_of tablePrefix; Ok (sqlUserStore t).
Definition NewUserAdmin (tablePrefix : string) : result string auth_tables := tables_of tablePrefix.
