(* ===== verification/Jwt.v ===== *)
(** * JWT bearer tokens (src/internal/auth/jwt.go)

    The authenticator with its configuration checks, the key selection of
    [keyFunc], the JWKS fetch through the cache, and the JWKS keys. The jwt
    library's parser and claim accessors and the HTTP client are parameters. *)

From S2P Require Import Prelude GoStrings Http GoHttp GoJson GoCrypto Cache Auth.
From Stdlib Require Import Ascii.

Record JWTConfig := {
  Algorithms : list string;
  Issuer : string;
  Audience : string;
  UserClaim : string;
  HS256Secret : string;
  JWKSURL : string;
  JWKSTTL : Z;
  RequireUserRow : bool
}.

Definition defaultUserClaim : string := "sub".
Definition bearerPrefix : string := "Bearer ".
Definition maxJWKSBytes : nat := 1024 * 1024.

(** ** Keys *)

Inductive jwt_key :=
| SecretKey (secret : string)
| RSAKey (n e : Z)
| ECKey (crv : string) (x y : Z).

(** The dynamic type of [token.Method]. *)
Inductive signing_method := SigningMethodHMAC | SigningMethodRSA | SigningMethodRSAPSS
  | SigningMethodECDSA | OtherMethod.

(** What [keyFunc] reads of a token: its method and the kid of its header, the
    empty string when that is not a string. *)
Record jwt_token := { tok_method : signing_method; tok_kid : string }.

(** The parser options the code sets. *)
Inductive jwt_option :=
| WithValidMethods (algs : list string)
| WithIssuer (iss : string)
| WithAudience (aud : string).

Class JWTLib (W : Type) := {
  (* the claims of a token that parses and is valid *)
  ParseWithClaims : string -> (jwt_token -> W -> result string jwt_key * W) -> list jwt_option ->
    W -> result string (list (string * value)) * W;
  GetIssuer : list (string * value) -> string;
  GetAudience : list (string * value) -> list string
}.

(** GET with an Accept header: the status, and the body up to its end or error. *)
Class HTTPClient (W : Type) := {
  HTTP_Get : string -> W -> result string (Z * (string * option string)) * W
}.

(** ** JWKS documents *)

Record jwk := { Kty : string; Kid : string; Crv : string; JN : string; JE : string; JX : string; JY : string }.

Definition empty_jwk : jwk := {| Kty := ""; Kid := ""; Crv := ""; JN := ""; JE := ""; JX := ""; JY := "" |}.

Definition set_jwk (old : jwk) (j : json) : option jwk :=
  match j with
  | JNull => Some old
  | JObject l =>
      kty ← assign set_string (Kty old) (field "kty" l); kid ← assign set_string (Kid old) (field "kid" l);
      crv ← assign set_string (Crv old) (field "crv" l);
      n ← assign set_string (JN old) (field "n" l); e ← assign set_string (JE old) (field "e" l);
      x ← assign set_string (JX old) (field "x" l); y ← assign set_string (JY old) (field "y" l);
      Some {| Kty := kty; Kid := kid; Crv := crv; JN := n; JE := e; JX := x; JY := y |}
  | _ => None
  end.
(** An array is decoded over the elements that are there. *)
Fixpoint set_elements (olds : list jwk) (js : list json) : option (list jwk) :=
  match js with
  | [] => Some []
  | j :: js =>
      k ← set_jwk (default empty_jwk (head olds)) j; ks ← set_elements (tail olds) js; Some (k :: ks)
  end.
Definition set_jwks (old : list jwk) (j : json) : option (list jwk) :=
  match j with
  | JNull => Some []
  | JArray l => set_elements old l
  | _ => None
  end.
Definition parse_jwkSet (raw : string) : option (list jwk) :=
  match parse_document raw with
  | Some JNull => Some []
  | Some (JObject l) => assign set_jwks [] (field "keys" l)
  | _ => None
  end.

(** [big.Int.SetBytes]. *)
Definition SetBytes (s : string) : Z := foldl (fun a b => a * 256 + Z.of_N b)%Z 0%Z (bytes s).

Definition rsaPublicKey (k : jwk) : result string jwt_key :=
  if String.eqb (JN k) EmptyString || String.eqb (JE k) EmptyString then Err "RSA JWK missing n or e"
  else
    match b64_rawurl (JN k), b64_rawurl (JE k) with
    | None, _ => Err "decode RSA n"
    | _, None => Err "decode RSA e"
    | Some n, Some e =>
        let e := SetBytes e in
        if negb (e <? 2 ^ 63)%Z || (2 ^ 31 - 1 <? e)%Z || (e <=? 0)%Z
        then Err "RSA JWK exponent out of range"
        else Ok (RSAKey (SetBytes n) e)
    end.

(** The NIST curves [y^2 = x^3 - 3x + b] modulo [p]. *)
Definition curve_params (crv : string) : option (Z * Z) :=
  if String.eqb crv "P-256" then
    Some (2 ^ 256 - 2 ^ 224 + 2 ^ 192 + 2 ^ 96 - 1,
          0x5ac635d8aa3a93e7b3ebbd55769886bc651d06b0cc53b0f63bce3c3e27d2604b)%Z
  else if String.eqb crv "P-384" then
    Some (2 ^ 384 - 2 ^ 128 - 2 ^ 96 + 2 ^ 32 - 1,
          0xb3312fa7e23ee7e4988e056be3f82d19181d9c6efe8141120314088f5013875ac656398d8a2ed19d2a85c8edd3ec2aef)%Z
  else if String.eqb crv "P-521" then
    Some (2 ^ 521 - 1,
          0x51953eb9618e1c9a1f929a21a0b68540eea2da725b99b315f3b8b489918ef109e156193951ec7e937b1652c0bd3bb1bf073573df883d2c34f1ef451fd46b503f00)%Z
  else None.
Definition IsOnCurve (p b x y : Z) : bool :=
  ((x <? p) && (y <? p) && negb ((x =? 0) && (y =? 0))
   && (y * y mod p =? (x * x * x - 3 * x + b) mod p))%Z.

Definition ecPublicKey (k : jwk) : result string jwt_key :=
  if String.eqb (JX k) EmptyString || String.eqb (JY k) EmptyString then Err "EC JWK missing x or y"
  else
    match curve_params (Crv k) with
    | None => Err "unsupported EC curve"
    | Some (p, b) =>
        match b64_rawurl (JX k), b64_rawurl (JY k) with
        | None, _ => Err "decode EC x"
        | _, None => Err "decode EC y"
        | Some x, Some y =>
            if negb (IsOnCurve p b (SetBytes x) (SetBytes y)) then Err "EC JWK point is not on the curve"
            else Ok (ECKey (Crv k) (SetBytes x) (SetBytes y))
        end
    end.

Definition publicKey (k : jwk) : result string jwt_key :=
  if String.eqb (Kty k) "RSA" then rsaPublicKey k
  else if String.eqb (Kty k) "EC" then ecPublicKey k
  else Err "unsupported JWK key type".

(** The key of a kid; without one, the only key of the set. *)
Fixpoint match_kid (kid : string) (only : bool) (keys : list jwk) : option jwk :=
  match keys with
  | [] => None
  | k :: keys =>
      if negb (String.eqb kid EmptyString) then
        if String.eqb (Kid k) kid then Some k else match_kid kid only keys
      else if only then Some k else match_kid kid only keys
  end.

(** ** The authenticator *)

Record JWTAuthenticator := {
  cfg : JWTConfig;
  has_cache : bool;
  usesSecret : bool;
  usesJWKS : bool;
  parserOpts : list jwt_option
}.

Definition is_HS (alg : string) : bool := HasPrefix alg "HS".
Definition is_asymmetric (alg : string) : bool :=
  HasPrefix alg "RS" || HasPrefix alg "ES" || HasPrefix alg "PS".

Definition with_UserClaim (c : JWTConfig) : JWTConfig :=
  if String.eqb (UserClaim c) EmptyString then
    {| Algorithms := Algorithms c; Issuer := Issuer c; Audience := Audience c;
       UserClaim := defaultUserClaim; HS256Secret := HS256Secret c; JWKSURL := JWKSURL c;
       JWKSTTL := JWKSTTL c; RequireUserRow := RequireUserRow c |}
  else c.

Definition NewJWTAuthenticator (c : JWTConfig) (has_store has_cache : bool) :
    result string JWTAuthenticator :=
  match Algorithms c with
  | [] => Err "auth: jwt: at least one algorithm must be configured"
  | algs =>
      match filter (fun alg => is_HS alg || is_asymmetric alg = false) algs with
      | alg :: _ => Err (if EqualFold alg "none" then "auth: jwt: algorithm is not allowed"
                         else "auth: jwt: unsupported algorithm")
      | [] =>
          let usesSecret := existsb is_HS algs in
          let usesJWKS := existsb is_asymmetric algs in
          if usesSecret && String.eqb (HS256Secret c) EmptyString then
            Err "auth: jwt: an HS* algorithm is configured but no HS256 secret was provided"
          else if usesJWKS && String.eqb (JWKSURL c) EmptyString then
            Err "auth: jwt: an RS*/ES* algorithm is configured but no JWKS URL was provided"
          else if RequireUserRow c && negb has_store then
            Err "auth: jwt: RequireUserRow is set but no user store was provided"
          else Ok {| cfg := with_UserClaim c; has_cache := has_cache;
                     usesSecret := usesSecret; usesJWKS := usesJWKS;
                     parserOpts := WithValidMethods algs
                       :: (if String.eqb (Issuer c) EmptyString then [] else [WithIssuer (Issuer c)])
                       ++ (if String.eqb (Audience c) EmptyString then [] else [WithAudience (Audience c)]) |}
      end
  end.

Definition jwksCacheKey (url : string) : string := "jwks:" +:+ hex_encode (Sum256 url).

Definition extractBearer (r : Request) : string :=
  let h := header_get (r_Header r) "Authorization" in
  if (String.length h <=? String.length bearerPrefix)%nat then EmptyString
  else if negb (EqualFold (str_take (String.length bearerPrefix) h) bearerPrefix) then EmptyString
  else TrimSpace (str_drop (String.length bearerPrefix) h).

Definition stringClaim (claims : list (string * value)) (name : string) : option string :=
  match map_get name claims with Some (VString s) => Some s | _ => None end.

Definition containsString (l : list string) (s : string) : bool := existsb (String.eqb s) l.

Section authenticate.
Context {W : Type} `{JWTLib W} `{HTTPClient W} `{Cache W} `{UserStore W} (a : JWTAuthenticator).

Definition fetchJWKS (w : W) : result string string * W :=
  let cacheKey := jwksCacheKey (JWKSURL (cfg a)) in
  let fetch w :=
    match HTTP_Get (JWKSURL (cfg a)) w with
    | (Err e, w) => (Err e, w)
    | (Ok (status, (content, failure)), w) =>
        if negb (status =? 200)%Z then (Err "jwks fetch: unexpected status", w)
        else
          match (if (String.length content <? maxJWKSBytes)%nat then failure else None) with
          | Some e => (Err e, w)
          | None =>
              let body := str_take maxJWKSBytes content in
              (Ok body, if has_cache a then snd (Set_ cacheKey body (JWKSTTL (cfg a)) w) else w)
          end
    end in
  if has_cache a then
    match Get cacheKey w with
    | (Ok (Some (String _ _ as v)), w) => (Ok v, w)
    | (_, w) => fetch w
    end
  else fetch w.

Definition publicKeyForKid (kid : string) (w : W) : result string jwt_key * W :=
  match fetchJWKS w with
  | (Err e, w) => (Err e, w)
  | (Ok raw, w) =>
      (match parse_jwkSet raw with
       | None => Err "json"
       | Some keys =>
           match match_kid kid (length keys =? 1)%nat keys with
           | None => Err ("no JWKS key matches kid " +:+ kid)
           | Some k => publicKey k
           end
       end, w)
  end.

Definition keyFunc (token : jwt_token) (w : W) : result string jwt_key * W :=
  match tok_method token with
  | SigningMethodHMAC =>
      (if negb (usesSecret a) then Err "hmac not configured"
       else Ok (SecretKey (HS256Secret (cfg a))), w)
  | SigningMethodRSA | SigningMethodRSAPSS | SigningMethodECDSA =>
      if negb (usesJWKS a) then (Err "asymmetric algorithm not configured", w)
      else publicKeyForKid (tok_kid token) w
  | OtherMethod => (Err "unexpected signing method", w)
  end.

Definition JWT_Authenticate : Authenticator W := fun r w =>
  let tokenStr := extractBearer r in
  if String.eqb tokenStr EmptyString then (Err ErrNoCredentials, w)
  else
    match ParseWithClaims tokenStr keyFunc (parserOpts a) w with
    | (Err _, w) => (Err ErrUnauthorized, w)
    | (Ok claims, w) =>
        if negb (String.eqb (Issuer (cfg a)) EmptyString)
           && negb (String.eqb (GetIssuer claims) (Issuer (cfg a))) then (Err ErrUnauthorized, w)
        else if negb (String.eqb (Audience (cfg a)) EmptyString)
           && negb (containsString (GetAudience claims) (Audience (cfg a))) then (Err ErrUnauthorized, w)
        else
          match stringClaim claims (UserClaim (cfg a)) with
          | None | Some EmptyString => (Err ErrUnauthorized, w)
          | Some claimValue =>
              if RequireUserRow (cfg a) then
                match LookupUserByUsername claimValue w with
                | (Err _, w) => (Err ErrUnauthorized, w)
                | (Ok rec, w) =>
                    if negb (ur_Enabled rec) then (Err ErrUnauthorized, w)
                    else (Ok {| AppUser := ur_AppUser rec; UserID := ur_UserID rec; Scopes := [] |}, w)
                end
              else (Ok {| AppUser := claimValue; UserID := 0; Scopes := [] |}, w)
          end
    end.
End authenticate.

(** The base points are on their curves, and a neighbour is not. *)
Example base_points :
  IsOnCurve (fst (default (0, 0)%Z (curve_params "P-256"))) (snd (default (0, 0)%Z (curve_params "P-256")))
    0x6b17d1f2e12c4247f8bce6e563a440f277037d812deb33a0f4a13945d898c296
    0x4fe342e2fe1a7f9b8ee7eb4a7c0f9e162bce33576b315ececbb6406837bf51f5 = true /\
  IsOnCurve (fst (default (0, 0)%Z (curve_params "P-384"))) (snd (default (0, 0)%Z (curve_params "P-384")))
    0xaa87ca22be8b05378eb1c71ef320ad746e1d3b628ba79b9859f741e082542a385502f25dbf55296c3a545e3872760ab7
    0x3617de4a96262c6f5d9e98bf9292dc29f8f41dbd289a147ce9da3113b5f0b8c00a60b1ce1d7e819d7a431d7c90ea0e5f = true /\
  IsOnCurve (fst (default (0, 0)%Z (curve_params "P-521"))) (snd (default (0, 0)%Z (curve_params "P-521")))
    0xc6858e06b70404e9cd9e3ecb662395b4429c648139053fb521f828af606b4d3dbaa14b5e77efe75928fe1dc127a2ffa8de3348b3c1856a429bf97e7e31c2e5bd66
    0x11839296a789a3bc0045c8a5fb42c7d1bd998f54449579b446817afbd17273e662c97ee72995ef42640c550b9013fad0761353c7086a272c24088be94769fd16650 = true /\
  IsOnCurve (fst (default (0, 0)%Z (curve_params "P-256"))) (snd (default (0, 0)%Z (curve_params "P-256")))
    1 1 = false.
Proof. vm_compute. auto. Qed.
