(* ===== verification/AuthSpec.v ===== *)
(** * What authentication promises

    The inner handler is only reached with a principal one of the configured
    methods vouched for, and every refusal looks the same; an API key is accepted
    exactly when its hash is the stored one of an enabled, unexpired key; a JWT is
    checked against the key its kind of algorithm calls for. And one promise that
    fails: the lockout does not see the API key the authenticator sees. *)

From S2P Require Import Prelude GoStrings GoNet Http GoHttp GoJson GoCrypto Cache Middleware Auth Jwt.
From Stdlib Require Import Ascii.

(** ** The chain *)

(** [p] is what some method of the chain answers, after the ones before it have
    failed or did not apply. *)
Inductive vouched {W} (r : Request) : list (Authenticator W) -> W -> Principal -> W -> Prop :=
| vouched_here a auths w p w' : a r w = (Ok p, w') -> vouched r (a :: auths) w p w'
| vouched_later a auths w e w1 p w' :
    a r w = (Err e, w1) -> vouched r auths w1 p w' -> vouched r (a :: auths) w p w'.

(** The errors of a chain none of whose methods accepts. *)
Inductive refused {W} (r : Request) : list (Authenticator W) -> W -> list auth_error -> W -> Prop :=
| refused_nil w : refused r [] w [] w
| refused_cons a auths w e w1 es w' :
    a r w = (Err e, w1) -> refused r auths w1 es w' -> refused r (a :: auths) w (e :: es) w'.

Section chain.
Context {W : Type} `{AuthCounters W}.

Lemma Chain_go_spec (auths : list (Authenticator W)) r : forall saw w,
  match Chain_go saw auths r w with
  | (Ok p, w') => vouched r auths w p w'
  | (Err e, w') => exists es, refused r auths w es w'
      /\ e = if saw || bool_decide (ErrUnauthorized ∈ es) then ErrUnauthorized else ErrNoCredentials
  end.
Proof.
  induction auths as [|a auths IH]; intros saw w; simpl.
  - exists []. split; [constructor|]. by destruct saw.
  - destruct (a r w) as [[p|e] w1] eqn:Ha; [by constructor|].
    assert (Chain_go (saw || bool_decide (e = ErrUnauthorized)) auths r w1 =
            match e with ErrNoCredentials => Chain_go saw auths r w1
                       | ErrUnauthorized => Chain_go true auths r w1 end) as Hgo
      by (destruct e; simpl; by rewrite ?orb_false_r, ?orb_true_r).
    rewrite <- Hgo. specialize (IH (saw || bool_decide (e = ErrUnauthorized)) w1).
    destruct (Chain_go _ auths r w1) as [[p|e'] w'].
    + by econstructor.
    + destruct IH as (es & Hes & ->). exists (e :: es). split; [by econstructor|].
      assert (bool_decide (ErrUnauthorized ∈ e :: es)
              = bool_decide (e = ErrUnauthorized) || bool_decide (ErrUnauthorized ∈ es)) as ->.
      { rewrite <- bool_decide_or. apply bool_decide_ext. rewrite elem_of_cons. naive_solver. }
      by rewrite orb_assoc.
Qed.

(** The calls of a refusal, whatever its reason. *)
Definition unauthorized_calls : list wcall :=
  [HSet "Content-Type" "application/json"; HSet "WWW-Authenticate" (js "Basic realm=`pathql`, ApiKey");
   WriteHeader 401; Write unauthorizedBody].

Definition after_auth (success : bool) (w : W) : W :=
  let '(s, f) := authCounts w in
  setAuthCounts (if success then (wrap_u64 (s + 1), f) else (s, wrap_u64 (f + 1)))%Z w.

Lemma count_auth_run success (h : Header) w : count_auth success h w = ([], after_auth success w, Val tt).
Proof. unfold count_auth, lift, after_auth. by destruct (authCounts w). Qed.

(** C17: the gate. The inner handler runs only with a principal that one of the
    configured methods vouched for, and then does all the answering; otherwise
    every method refused, the inner handler does not run, and the client gets the
    same 401 whichever way they did. *)
Theorem auth_gate (auths : list (Authenticator W)) (next : Handler W (option Principal))
    (c : option Principal) (r : Request) (h : Header) (w : W) :
  (exists p w1, vouched r auths w p w1
     /\ Chain_Middleware auths next c r h w = next (Some p) r h (after_auth true w1)) \/
  (exists es w1, refused r auths w es w1
     /\ Chain_Middleware auths next c r h w = (unauthorized_calls, after_auth false w1, Val tt)
     /\ status (response_of h unauthorized_calls) = 401%Z
     /\ body (response_of h unauthorized_calls) = unauthorizedBody).
Proof.
  unfold Chain_Middleware, bind, lift. pose proof (Chain_go_spec auths r false w) as Hgo.
  unfold Chain_Authenticate. destruct (Chain_go false auths r w) as [[p|e] w1].
  - left. exists p, w1. split; [done|]. cbn. rewrite count_auth_run. cbn.
    by destruct (next _ _ _ _) as [[cs w2] o].
  - right. destruct Hgo as (es & Hes & _). exists es, w1. split; [done|]. split; [|done].
    cbn. by rewrite count_auth_run.
Qed.
End chain.

(** ** API keys *)

Section apikey.
Context {W : Type} `{UserStore W} `{Clock W}.

(** What makes a stored key valid now; reading the clock may move the world. *)
Definition key_valid (key : string) (rec : APIKeyRecord) (w w' : W) : Prop :=
  Sum256 key = ak_KeyHash rec /\ ak_Enabled rec = true /\
  match ak_ExpiresAt rec with
  | None => w' = w
  | Some expiry => exists now, Now w = (now, w') /\ (now < expiry)%Z
  end.

(** C19: an API key is accepted exactly when it has a prefix to look it up by and
    the store has, under that prefix, a key with its SHA-256 hash that is enabled
    and not expired; the principal is the owner of that key. Every refusal of a
    presented key is the same error. *)
Theorem apikey_exact (headerName : string) (r : Request) (w w' : W) (p : Principal) :
  (APIKey_Authenticate headerName r w = (Ok p, w') <->
   exists rec w1 w2, let key := extractKey headerName r in
     key <> EmptyString /\ (8 <= String.length key)%nat
     /\ LookupAPIKeyByPrefix (str_take 8 key) w = (Ok rec, w1)
     /\ key_valid key rec w1 w2
     /\ p = {| AppUser := ak_AppUser rec; UserID := ak_UserID rec; Scopes := [] |}
     /\ w' = touchAsync (ak_UserID rec) (str_take 8 key) w2) /\
  (fst (APIKey_Authenticate headerName r w) = Err ErrNoCredentials <-> extractKey headerName r = EmptyString).
Proof.
  unfold APIKey_Authenticate, key_valid, apiKeyPrefixLen. cbv zeta.
  generalize (extractKey headerName r). intros key.
  assert (forall (o : result auth_error Principal * W) (P : Prop),
    fst o = Err ErrUnauthorized -> key <> EmptyString -> ~ P ->
    (o = (Ok p, w') <-> P) /\ (fst o = Err ErrNoCredentials <-> key = EmptyString)) as refuse.
  { intros o P Ho Hk HP. split; [split; [intros ->; done|done]|]. rewrite Ho. by split. }
  destruct (String.eqb_spec key EmptyString) as [E|E].
  { split; [split; [done|]|done]. intros (rec & w1 & w2 & ? & _). done. }
  destruct (Nat.ltb_spec (String.length key) 8) as [Hlen|Hlen].
  { apply refuse; [done|done|]. intros (rec & w1 & w2 & _ & ? & _). lia. }
  destruct (LookupAPIKeyByPrefix (str_take 8 key) w) as [[rec|e] w1] eqn:Hl.
  2:{ apply refuse; [done|done|]. intros (rec & w1' & w2 & _ & _ & [=] & _). }
  destruct (String.eqb_spec (Sum256 key) (ak_KeyHash rec)) as [Hh|Hh]; simpl.
  2:{ apply refuse; [done|done|]. intros (rec' & w1' & w2 & _ & _ & [= <- <-] & (? & _) & _). done. }
  destruct (ak_Enabled rec) eqn:He; simpl.
  2:{ apply refuse; [done|done|]. intros (rec' & w1' & w2 & _ & _ & [= <- <-] & (_ & ? & _) & _). congruence. }
  destruct (ak_ExpiresAt rec) as [expiry|] eqn:Hx; [destruct (Now w1) as [now w2] eqn:Hn|].
  - destruct (Z.ltb_spec now expiry) as [Hlt|Hge]; simpl.
    + split; [split; [intros [= <- <-]|]|by split].
      * exists rec, w1, w2. rewrite Hx. split_and!; try done. by exists now.
      * intros (rec' & w1' & w2' & _ & _ & [= <- <-] & (_ & _ & Hv) & -> & ->). rewrite Hx in Hv.
        destruct Hv as (now' & Hnow & _). rewrite Hn in Hnow. by injection Hnow as _ <-.
    + apply refuse; [done|done|].
      intros (rec' & w1' & w2' & _ & _ & [= <- <-] & (_ & _ & Hv) & _). rewrite Hx in Hv.
      destruct Hv as (now' & Hnow & ?). rewrite Hn in Hnow. injection Hnow as <- _. lia.
  - split; [split; [intros [= <- <-]|]|by split].
    + exists rec, w1, w1. rewrite Hx. by split_and!.
    + intros (rec' & w1' & w2' & _ & _ & [= <- <-] & (_ & _ & Hv) & -> & ->). rewrite Hx in Hv. by subst.
Qed.
End apikey.

(** ** The lockout and the API key *)

(** The key right after the scheme, and any value in the other header. *)
Definition evading_request (key v : string) : Request :=
  {| r_Method := "POST"; r_Path := "/pathql"; r_RequestURI := "/pathql"; r_Host := "api";
     r_RemoteAddr := "192.0.2.1:1234";
     r_Header := {["Authorization" := ["ApiKey" +:+ key]; "X-Api-Key" := [v]]};
     r_TLS := true; r_Body := Some EmptyString; r_BodyLimit := None; r_PathValue := EmptyString |}.

Lemma evading_authorization key v :
  header_get (r_Header (evading_request key v)) "Authorization" = "ApiKey" +:+ key.
Proof. unfold header_get. change (CanonicalHeaderKey "Authorization") with "Authorization". reflexivity. Qed.

Lemma evading_header key v : header_get (r_Header (evading_request key v)) "X-API-Key" = v.
Proof. reflexivity. Qed.

Lemma lower_byte_space c : lower_byte c = " "%char -> c = " "%char.
Proof. by destruct c as [[] [] [] [] [] [] [] []]. Qed.

(** The lockout is evaded. For every key and every text there is a request
    that presents the key to the API-key authenticator while the lockout counts it
    under the text: the authenticator takes the key right after the scheme, where
    the lockout wants a space, and the lockout then looks at X-API-Key, whatever
    header is configured. A guesser picks a fresh text, and with it a fresh
    counter, for every guess. *)
Theorem lockout_evasion `{UnicodeTables} (headerName key v : string) (trusted : list IPNet)
  (Hkey : key <> EmptyString /\ is_ascii key = true /\ TrimSpace key = key /\ HasPrefix key " " = false)
  (Hv : v <> EmptyString /\ TrimSpace v = v) :
  let r := evading_request key v in
  extractKey headerName r = key /\ lockoutID r trusted = "k:" +:+ keyPrefix v.
Proof.
  destruct Hkey as (Hne & Hasc & Htrim & Hsp). destruct Hv as [Hvne Hvtrim]. split.
  - unfold extractKey. rewrite evading_authorization.
    replace (str_take (String.length apiKeyScheme) ("ApiKey" +:+ key)) with "ApiKey"
      by (symmetry; apply (str_take_app "ApiKey")).
    destruct key as [|c key]; [done|]. change (str_drop (String.length apiKeyScheme) ("ApiKey" +:+ String c key)) with (String c key).
    rewrite Htrim. reflexivity.
  - unfold lockoutID. rewrite evading_authorization, evading_header.
    rewrite (ToLower_ascii_app "ApiKey") by done. rewrite (ToLower_ascii key) by done.
    destruct key as [|c key]; [done|].
    assert (Ascii.eqb " " (lower_byte c) = false) as Hc.
    { apply Ascii.eqb_neq. intros Hc. symmetry in Hc. apply lower_byte_space in Hc as ->. done. }
    assert (HasPrefix (str_map lower_byte "ApiKey" +:+ str_map lower_byte (String c key)) "apikey " = false) as ->
      by (change (match (if Ascii.eqb " " (lower_byte c) then Some (str_map lower_byte key) else None)
                  with Some _ => true | None => false end = false); by rewrite Hc).
    change (HasPrefix (str_map lower_byte "ApiKey" +:+ str_map lower_byte (String c key)) "basic ") with false.
    rewrite Hvtrim. by destruct v.
Qed.

(** ** JWT keys *)

(** What the jwt library documents of a token it accepts: it parses, its
    algorithm is one of the valid methods, the key function gave a key for it,
    its signature verifies under that key, and its claims match the options. *)
Record jwt_documented (W : Type) `{JWTLib W} := {
  parsed : string -> option (string * jwt_token * list (string * value));
  verifies : string -> jwt_key -> bool;
  parsed_method tok alg t claims : parsed tok = Some (alg, t, claims) ->
    match tok_method t with
    | SigningMethodHMAC => HasPrefix alg "HS" = true
    | SigningMethodRSA => HasPrefix alg "RS" = true
    | SigningMethodRSAPSS => HasPrefix alg "PS" = true
    | SigningMethodECDSA => HasPrefix alg "ES" = true
    | OtherMethod => True
    end;
  doc_ParseWithClaims tok kf opts w claims w' : ParseWithClaims tok kf opts w = (Ok claims, w') ->
    exists alg t key, parsed tok = Some (alg, t, claims) /\ kf t w = (Ok key, w')
      /\ verifies tok key = true
      /\ forall algs, WithValidMethods algs ∈ opts -> alg ∈ algs
}.

Lemma publicKey_not_secret k key s : publicKey k = Ok key -> key <> SecretKey s.
Proof.
  unfold publicKey, rsaPublicKey, ecPublicKey. intros Hk ->. revert Hk.
  repeat case_match; congruence.
Qed.

Lemma match_kid_Some kid only keys k : match_kid kid only keys = Some k ->
  k ∈ keys /\ (kid <> EmptyString -> Kid k = kid) /\ (kid = EmptyString -> only = true).
Proof.
  induction keys as [|k' keys IH]; simpl; [done|].
  destruct (String.eqb_spec kid EmptyString) as [->|Hne]; simpl.
  - destruct only; [intros [= <-]; set_solver|]. intros Hk. apply IH in Hk. set_solver.
  - destruct (String.eqb_spec (Kid k') kid) as [<-|?]; [intros [= <-]; set_solver|].
    intros Hk. apply IH in Hk. set_solver.
Qed.

Lemma NewJWTAuthenticator_Ok c has_store has_cache a :
  NewJWTAuthenticator c has_store has_cache = Ok a ->
  WithValidMethods (Algorithms c) ∈ parserOpts a
  /\ usesSecret a = existsb is_HS (Algorithms c)
  /\ usesJWKS a = existsb is_asymmetric (Algorithms c)
  /\ (usesSecret a = true -> HS256Secret (cfg a) <> EmptyString)
  /\ cfg a = with_UserClaim c /\ Jwt.has_cache a = has_cache.
Proof.
  unfold NewJWTAuthenticator. destruct (Algorithms c) as [|alg algs]; [done|].
  remember (alg :: algs) as l. destruct (filter _ l); [|done].
  destruct (_ && String.eqb (HS256Secret c) EmptyString) eqn:Hs; [done|].
  destruct (_ && String.eqb (JWKSURL c) EmptyString) eqn:Hj; [done|].
  destruct (_ && negb has_store) eqn:Hu; [done|]. intros [= <-].
  split_and!; [by left|done|done| |done|done].
  intros Hhs. cbn in *. rewrite Hhs in Hs. simpl in Hs. breflect. unfold with_UserClaim. by case_match.
Qed.

Lemma with_UserClaim_keeps c :
  Issuer (with_UserClaim c) = Issuer c /\ Audience (with_UserClaim c) = Audience c
  /\ HS256Secret (with_UserClaim c) = HS256Secret c /\ RequireUserRow (with_UserClaim c) = RequireUserRow c
  /\ JWKSURL (with_UserClaim c) = JWKSURL c /\ JWKSTTL (with_UserClaim c) = JWKSTTL c.
Proof. unfold with_UserClaim. by case_match. Qed.

(** Where a JWKS document comes from: the cache entry of the configured URL, if it
    is not empty, else a complete answer 200 of that URL, of which the first MiB is
    read and cached. *)
Inductive jwks_source {W} `{HTTPClient W} `{Cache W} (url : string) (ttl : Z) (cached : bool) (w : W)
    (raw : string) (w' : W) : Prop :=
| jwks_from_cache : cached = true -> raw <> EmptyString ->
    Get ("jwks:" +:+ hex_encode (Sum256 url)) w = (Ok (Some raw), w') ->
    jwks_source url ttl cached w raw w'
| jwks_from_url w1 w2 content failure :
    (if cached
     then exists v, Get ("jwks:" +:+ hex_encode (Sum256 url)) w = (v, w1)
          /\ forall raw', v = Ok (Some raw') -> raw' = EmptyString
     else w1 = w) ->
    HTTP_Get url w1 = (Ok (200%Z, (content, failure)), w2) ->
    raw = str_take (maxJWKSBytes) content -> (String.length content < maxJWKSBytes -> failure = None) ->
    w' = (if cached then snd (Set_ ("jwks:" +:+ hex_encode (Sum256 url)) raw ttl w2) else w2) ->
    jwks_source url ttl cached w raw w'.

Section jwt.
Context {W : Type} `{JWTLib W} `{HTTPClient W} `{Cache W} `{UserStore W} (a : JWTAuthenticator).

#[local] Opaque maxJWKSBytes.

Lemma fetchJWKS_Ok w raw w' : fetchJWKS a w = (Ok raw, w') ->
  jwks_source (JWKSURL (cfg a)) (JWKSTTL (cfg a)) (Jwt.has_cache a) w raw w'.
Proof.
  unfold fetchJWKS, jwksCacheKey. set (key := "jwks:" +:+ _). cbv zeta.
  assert (forall w1,
    match HTTP_Get (JWKSURL (cfg a)) w1 with
    | (Err e, w) => (Err e, w)
    | (Ok (status, (content, failure)), w) =>
        if negb (status =? 200)%Z then (Err "jwks fetch: unexpected status", w)
        else
          match (if (String.length content <? maxJWKSBytes)%nat then failure else None) with
          | Some e => (Err e, w)
          | None => (Ok (str_take maxJWKSBytes content),
              if Jwt.has_cache a then snd (Set_ key (str_take maxJWKSBytes content) (JWKSTTL (cfg a)) w) else w)
          end
    end = (Ok raw, w') ->
    (if Jwt.has_cache a then exists v, Get key w = (v, w1) /\ forall raw', v = Ok (Some raw') -> raw' = EmptyString
     else w1 = w) ->
    jwks_source (JWKSURL (cfg a)) (JWKSTTL (cfg a)) (Jwt.has_cache a) w raw w') as Hfetch.
  { intros w1 Hf Hw1.
    destruct (HTTP_Get _ w1) as [[[status [content failure]]|e] w2] eqn:Hget; [|done].
    destruct (Z.eqb_spec status 200) as [->|]; [|done]. cbn [negb] in Hf.
    destruct (if _ <? maxJWKSBytes then failure else None) as [e|] eqn:Hshort; [done|].
    assert (raw = str_take maxJWKSBytes content
      /\ w' = if Jwt.has_cache a then snd (Set_ key raw (JWKSTTL (cfg a)) w2) else w2) as [-> ->]
      by (injection Hf as <- <-; done).
    eapply jwks_from_url; [exact Hw1|exact Hget|done| |done].
    intros Hlt%Nat.ltb_lt. by rewrite Hlt in Hshort. }
  destruct (Jwt.has_cache a) eqn:Hc; [|intros Hf; by apply (Hfetch w)].
  destruct (Get key w) as [[[[|ch v]|]|e] w1] eqn:Hget; intros Hf;
    try (eapply Hfetch; [exact Hf|]; eexists; split; [done|]; congruence).
  injection Hf as <- <-. by apply jwks_from_cache.
Qed.

(** The key of a kid comes from the JWKS document. *)
Lemma publicKeyForKid_Ok kid w key w' : publicKeyForKid a kid w = (Ok key, w') ->
  exists raw keys k, jwks_source (JWKSURL (cfg a)) (JWKSTTL (cfg a)) (Jwt.has_cache a) w raw w'
    /\ parse_jwkSet raw = Some keys /\ k ∈ keys /\ publicKey k = Ok key
    /\ (kid <> EmptyString -> Kid k = kid) /\ (kid = EmptyString -> keys = [k]).
Proof.
  unfold publicKeyForKid. destruct (fetchJWKS a w) as [[raw|e] w1] eqn:Hraw; [|done].
  destruct (parse_jwkSet raw) as [keys|] eqn:Hp; [|done].
  destruct (match_kid _ _ _) as [k|] eqn:Hm; [|done]. intros [= Hk <-].
  apply fetchJWKS_Ok in Hraw.
  apply match_kid_Some in Hm as (Hin & Hkid & Honly). exists raw, keys, k. split_and!; try done.
  intros E. specialize (Honly E). apply Nat.eqb_eq in Honly.
  destruct keys as [|k1 [|]]; try done. by apply list_elem_of_singleton in Hin as ->.
Qed.

(** Past the parser: the checks and the principal. *)
Lemma JWT_Authenticate_Ok r w p w' : JWT_Authenticate a r w = (Ok p, w') ->
  exists claims w1 name, ParseWithClaims (extractBearer r) (keyFunc a) (parserOpts a) w = (Ok claims, w1)
    /\ (Issuer (cfg a) <> EmptyString -> GetIssuer claims = Issuer (cfg a))
    /\ (Audience (cfg a) <> EmptyString -> Audience (cfg a) ∈ GetAudience claims)
    /\ stringClaim claims (UserClaim (cfg a)) = Some name /\ name <> EmptyString
    /\ (if RequireUserRow (cfg a)
        then exists rec, LookupUserByUsername name w1 = (Ok rec, w') /\ ur_Enabled rec = true
             /\ p = {| AppUser := ur_AppUser rec; UserID := ur_UserID rec; Scopes := [] |}
        else p = {| AppUser := name; UserID := 0; Scopes := [] |} /\ w' = w1).
Proof.
  unfold JWT_Authenticate. destruct (String.eqb _ EmptyString); [done|].
  destruct (ParseWithClaims _ _ _ _) as [[claims|e] w1]; [|done].
  destruct (_ && negb (String.eqb (GetIssuer claims) _)) eqn:Hiss; [done|].
  destruct (_ && negb (containsString _ _)) eqn:Haud; [done|].
  destruct (stringClaim claims _) as [[|ch name]|] eqn:Hname; try done. intros Hrest.
  exists claims, w1, (String ch name). split; [done|]. split_and!; try done.
  - intros Hne. apply andb_false_iff in Hiss as [Hiss|Hiss]; breflect; congruence.
  - intros Hne. apply andb_false_iff in Haud as [Haud|Haud]; breflect; [congruence|].
    apply existsb_exists in Haud as (x & Hx & ->%String.eqb_eq). by apply list_elem_of_In.
  - destruct (RequireUserRow (cfg a)); [|by injection Hrest].
    destruct (LookupUserByUsername _ w1) as [[rec|e] w2] eqn:Hl; [|done].
    destruct (ur_Enabled rec) eqn:He; [|done]. injection Hrest as <- <-. by exists rec.
Qed.
End jwt.

Lemma not_HS alg :
  HasPrefix alg "RS" = true \/ HasPrefix alg "PS" = true \/ HasPrefix alg "ES" = true ->
  HasPrefix alg "HS" = false.
Proof.
  intros Hp. apply not_true_is_false. intros [t ->]%HasPrefix_spec.
  by destruct Hp as [Hp|[Hp|Hp]].
Qed.

(** C18: no algorithm confusion. A token that authenticates verified under a
    configured algorithm and the kind of key that algorithm calls for: the
    configured secret, never empty, for HMAC; for the others a key of the JWKS
    document of the configured URL, as cached under that URL or as just fetched
    from it with status 200, the key of the token's kid or the only one, and never
    the secret. Its issuer and audience are the expected ones, and the identity is
    its non-empty user claim, or the enabled user row of that name. *)
Theorem jwt_no_confusion {W} `{JWTLib W} `{HTTPClient W} `{Cache W} `{UserStore W}
    (doc : jwt_documented W) (c : JWTConfig) (has_store has_cache : bool) (a : JWTAuthenticator)
    (r : Request) (w w' : W) (p : Principal)
  (Hnew : NewJWTAuthenticator c has_store has_cache = Ok a)
  (Hauth : JWT_Authenticate a r w = (Ok p, w')) :
  exists alg t claims key name w1,
    parsed W doc (extractBearer r) = Some (alg, t, claims)
    /\ alg ∈ Algorithms c /\ verifies W doc (extractBearer r) key = true
    /\ (if is_HS alg then key = SecretKey (HS256Secret c) /\ HS256Secret c <> EmptyString /\ w1 = w
        else exists raw keys k, jwks_source (JWKSURL c) (JWKSTTL c) has_cache w raw w1
             /\ parse_jwkSet raw = Some keys /\ k ∈ keys /\ publicKey k = Ok key
             /\ key <> SecretKey (HS256Secret c)
             /\ (tok_kid t <> EmptyString -> Kid k = tok_kid t)
             /\ (tok_kid t = EmptyString -> keys = [k]))
    /\ (Issuer c <> EmptyString -> GetIssuer claims = Issuer c)
    /\ (Audience c <> EmptyString -> Audience c ∈ GetAudience claims)
    /\ stringClaim claims (UserClaim (with_UserClaim c)) = Some name /\ name <> EmptyString
    /\ (if RequireUserRow c
        then exists rec, LookupUserByUsername name w1 = (Ok rec, w') /\ ur_Enabled rec = true
             /\ p = {| AppUser := ur_AppUser rec; UserID := ur_UserID rec; Scopes := [] |}
        else p = {| AppUser := name; UserID := 0; Scopes := [] |} /\ w' = w1).
Proof.
  destruct (NewJWTAuthenticator_Ok _ _ _ _ Hnew) as (Hvalid & Hsec & Hjwks & Hnonempty & Hcfg & Hcache).
  destruct (with_UserClaim_keeps c) as (Hi & Ha & Hs & Hu & Hurl & Httl).
  apply JWT_Authenticate_Ok in Hauth as (claims & w1 & name & Hparse & Hiss & Haud & Hname & Hne & Hp).
  rewrite Hcfg in *. rewrite Hi, Ha, Hu in *. rewrite Hs in Hnonempty.
  destruct (doc_ParseWithClaims W doc _ _ _ _ _ _ Hparse) as (alg & t & key & Hpd & Hkf & Hver & Halgs).
  pose proof (parsed_method W doc _ _ _ _ Hpd) as Hmethod.
  exists alg, t, claims, key, name, w1. split_and!; try done; [by apply Halgs|].
  unfold keyFunc in Hkf. unfold is_HS.
  destruct (tok_method t) eqn:Hm; [|destruct (usesJWKS a); [|done]..|done].
  { rewrite Hmethod. destruct (usesSecret a) eqn:Hus; [|done]. injection Hkf as <- <-.
    rewrite Hcfg, Hs. auto. }
  all: rewrite (not_HS alg) by (rewrite Hmethod; auto);
    apply publicKeyForKid_Ok in Hkf as (raw & keys & k & Hsrc & Hraw & Hin & Hk & Hkid);
    rewrite Hcfg, Hurl, Httl, Hcache in Hsrc;
    exists raw, keys, k; split_and!; try done; try apply Hkid; by eapply publicKey_not_secret.
Qed.

(** ** Witnesses *)

Module Witness.
#[local] Existing Instance ascii_tables.

(** An instance of [lockout_evasion]. *)
Lemma lockout_evasion_witness :
  let r := evading_request "0123456789abcdef" "fresh-001" in
  extractKey "X-API-Key" r = "0123456789abcdef" /\ lockoutID r [] = "k:" +:+ keyPrefix "fresh-001".
Proof.
  apply (lockout_evasion "X-API-Key" "0123456789abcdef" "fresh-001" []).
  - split_and!; [discriminate|vm_compute; reflexivity..].
  - split; [discriminate|vm_compute; reflexivity].
Defined.

(** A library that knows one RS256 token, of the key with modulus and exponent
    65537, and an identity provider that publishes it. *)
Definition rs_token : jwt_token := {| tok_method := SigningMethodRSA; tok_kid := "k1" |}.
Definition alice : list (string * value) := [("sub", VString "alice")].
Definition signed_by (key : jwt_key) : bool :=
  match key with RSAKey n e => (n =? 65537)%Z && (e =? 65537)%Z | _ => false end.
Definition methods_ok (opts : list jwt_option) : bool :=
  forallb (fun o => match o with WithValidMethods algs => bool_decide ("RS256" ∈ algs) | _ => true end) opts.

#[local] Instance one_token : JWTLib unit := {|
  ParseWithClaims tok kf opts w :=
    if String.eqb tok "good" && methods_ok opts then
      match kf rs_token w with
      | (Ok key, w) => (if signed_by key then Ok alice else Err "signature", w)
      | (Err e, w) => (Err e, w)
      end
    else (Err "malformed", w);
  GetIssuer _ := EmptyString;
  GetAudience _ := []
|}.
Definition published : string :=
  js "{`keys`: [{`kty`: `RSA`, `kid`: `k0`, `n`: `Aw`, `e`: `AQAB`}, {`kty`: `RSA`, `kid`: `k1`, `n`: `AQAB`, `e`: `AQAB`}]}".
#[local] Instance provider : HTTPClient unit := {|
  HTTP_Get url w := (if String.eqb url "https://idp/jwks" then Ok (200%Z, (published, None)) else Err "offline", w)
|}.
#[local] Instance no_cache : Cache unit :=
  {| Increment _ _ _ w := (Err "none", w); Get _ w := (Err "none", w); Set_ _ _ _ w := (Err "none", w) |}.
#[local] Instance no_users : UserStore unit :=
  {| LookupAPIKeyByPrefix _ w := (Err ErrNotFound, w); LookupUserByUsername _ w := (Err ErrNotFound, w);
     TouchAPIKey _ _ w := (Ok tt, w) |}.

Definition one_token_doc : jwt_documented unit.
Proof.
  refine {| parsed tok := if String.eqb tok "good" then Some ("RS256", rs_token, alice) else None;
            verifies _ key := signed_by key |}.
  - intros tok alg t claims. case_match; [|done]. by intros [= <- <- <-].
  - intros tok kf opts w claims w'. simpl.
    destruct (String.eqb tok "good") eqn:Ht; [|done]. destruct (methods_ok opts) eqn:Hm; [|done]. simpl.
    destruct (kf rs_token w) as [[key|e] w1] eqn:Hk; [|done]. destruct (signed_by key) eqn:Hs; [|done].
    intros [= <- <-]. exists "RS256", rs_token, key. split_and!; try done.
    intros algs Hin. unfold methods_ok in Hm. rewrite forallb_forall in Hm.
    apply list_elem_of_In in Hin. specialize (Hm _ Hin). simpl in Hm. by apply bool_decide_eq_true in Hm.
Defined.

Definition rs_config : JWTConfig :=
  {| Algorithms := ["RS256"]; Issuer := ""; Audience := ""; UserClaim := ""; HS256Secret := "s";
     JWKSURL := "https://idp/jwks"; JWKSTTL := 0; RequireUserRow := false |}.
Definition rs_auth : JWTAuthenticator :=
  {| cfg := with_UserClaim rs_config; has_cache := false; usesSecret := false; usesJWKS := true;
     parserOpts := [WithValidMethods ["RS256"]] |}.
Definition bearer : Request :=
  {| r_Method := "POST"; r_Path := "/pathql"; r_RequestURI := "/pathql"; r_Host := "api";
     r_RemoteAddr := "192.0.2.1:1"; r_Header := {["Authorization" := ["Bearer good"]]}; r_TLS := true;
     r_Body := None; r_BodyLimit := None; r_PathValue := EmptyString |}.

(** An instance of [jwt_no_confusion]. *)
Lemma jwt_no_confusion_witness :
  exists alg t claims key name,
    parsed unit one_token_doc (extractBearer bearer) = Some (alg, t, claims)
    /\ alg ∈ ["RS256"] /\ signed_by key = true /\ name <> EmptyString.
Proof.
  destruct (jwt_no_confusion one_token_doc rs_config false false rs_auth bearer tt tt
              {| AppUser := "alice"; UserID := 0; Scopes := [] |})
    as (alg & t & claims & key & name & w1 & Hp & Hin & Hv & _ & _ & _ & _ & Hne & _).
  - reflexivity.
  - vm_compute. reflexivity.
  - exists alg, t, claims, key, name. split_and!; [exact Hp|exact Hin|exact Hv|exact Hne].
Defined.
End Witness.
