(* ===== verification/Config.v ===== *)
(** * Configuration (src/internal/config/config.go)

    The decoded file with its defaults, environment expansion, durations and
    validation. The TOML decoder and the environment are parameters. *)

From S2P Require Import Prelude GoStrings GoNet Http GoJson SqlGate Middleware Executor.
From Stdlib Require Import Ascii SpecFloat.

(** ** The structures *)

Record DatabaseConf := {
  MaxOpenConns : Z; MaxIdleConns : Z; ConnMaxLifetimeMs : Z; ConnMaxIdleTimeMs : Z;
  MaxTotalBackends : Z
}.
Record Security := {
  AuthTablePrefix : string; SecReadOnly : bool; TrustedProxies : list string;
  AllowIPs : list string; DenyIPs : list string; MetricsUser : string; StartupChecks : string;
  IdentityKind : string; AdminUser : string; SQLGate : string; XSRFMode : string; Writes : string
}.
Record AuthConf := {
  Methods : list string; APIKeyHeader : string; JWTAlgorithms : list string; JWTJWKSURL : string;
  JWTIssuer : string; JWTAudience : string; JWTUserClaim : string; JWTHS256Secret : string;
  ConfRequireUserRow : bool
}.
Record Limits := {
  MaxQueryMs : Z; MaxBodyBytes : Z; MaxResponseBytes : Z; MaxConcurrentPerUser : Z;
  MaxConcurrentGlobal : Z; MaxRequestsPerMinIP : Z; MaxAuthFailuresPerMin : Z; ConfWorkMemKB : Z;
  ConfMaxEstimatedCost : spec_float; ConfMaxEstimatedRows : Z; ConfMaxAffectedRows : Z
}.
Record CacheConf := {
  MemoryMB : Z; AuthTTL : string; ConfJWKSTTL : string; AuthTTLDuration : Z; JWKSTTLDuration : Z
}.
Record TLSConf := { Enabled : bool; CertFile : string; KeyFile : string; TLSHSTS : bool; RedirectHTTP : string }.
Record RolesConf := {
  BaseDSN : string; BaselineRole : string; Prefix : string; ReaderRole : string; WarmPoolLimit : Z;
  PasswordSecret : string
}.
Record Timeouts := { ReadMs : Z; WriteMs : Z; IdleMs : Z }.

Record Config := {
  Driver : string; DSN : string; Listen : string; Verbose : bool;
  Database : DatabaseConf; Sec : Security; AuthC : AuthConf; Lim : Limits; Times : Timeouts;
  CacheC : CacheConf; TLS : TLSConf; AllowedOrigins : list string; Roles : RolesConf
}.

(** toml.DecodeFile: the struct, the zero value where a key is not set, and
    whether tls.hsts is set; os.Getenv. *)
Class Environment := {
  DecodeFile : string -> result string (Config * bool);
  Getenv : string -> string
}.

(** ** Defaults *)

Definition or_int (z d : Z) : Z := if (z =? 0)%Z then d else z.
Definition or_string (s d : string) : string := if String.eqb s EmptyString then d else s.

Definition applyDefaults (c : Config) : Config :=
  {| Driver := Driver c; DSN := DSN c; Listen := or_string (Listen c) ":8000"; Verbose := Verbose c;
     Database := let d := Database c in
       {| MaxOpenConns := or_int (MaxOpenConns d) 50; MaxIdleConns := or_int (MaxIdleConns d) 10;
          ConnMaxLifetimeMs := or_int (ConnMaxLifetimeMs d) 300000;
          ConnMaxIdleTimeMs := or_int (ConnMaxIdleTimeMs d) 60000;
          MaxTotalBackends := or_int (MaxTotalBackends d) 200 |};
     Sec := let s := Sec c in
       {| AuthTablePrefix := or_string (AuthTablePrefix s) "pathql_auth_";
          SecReadOnly := SecReadOnly s; TrustedProxies := TrustedProxies s;
          AllowIPs := AllowIPs s; DenyIPs := DenyIPs s;
          MetricsUser := or_string (MetricsUser s) "metrics";
          StartupChecks := or_string (StartupChecks s) "warn";
          IdentityKind := or_string (IdentityKind s) "none"; AdminUser := AdminUser s;
          SQLGate := or_string (SQLGate s) "off"; XSRFMode := or_string (XSRFMode s) "off";
          Writes := or_string (Writes s) "off" |};
     AuthC := let a := AuthC c in
       {| Methods := Methods a; APIKeyHeader := or_string (APIKeyHeader a) "X-API-Key";
          JWTAlgorithms := JWTAlgorithms a; JWTJWKSURL := JWTJWKSURL a; JWTIssuer := JWTIssuer a;
          JWTAudience := JWTAudience a; JWTUserClaim := or_string (JWTUserClaim a) "sub";
          JWTHS256Secret := JWTHS256Secret a; ConfRequireUserRow := ConfRequireUserRow a |};
     Lim := let l := Lim c in
       {| MaxQueryMs := or_int (MaxQueryMs l) 5000; MaxBodyBytes := or_int (MaxBodyBytes l) 1048576;
          MaxResponseBytes := or_int (MaxResponseBytes l) (10 * 2 ^ 20);
          MaxConcurrentPerUser := or_int (MaxConcurrentPerUser l) 10;
          MaxConcurrentGlobal := or_int (MaxConcurrentGlobal l) 200;
          MaxRequestsPerMinIP := or_int (MaxRequestsPerMinIP l) 120;
          MaxAuthFailuresPerMin := or_int (MaxAuthFailuresPerMin l) 60;
          ConfWorkMemKB := ConfWorkMemKB l; ConfMaxEstimatedCost := ConfMaxEstimatedCost l;
          ConfMaxEstimatedRows := ConfMaxEstimatedRows l; ConfMaxAffectedRows := ConfMaxAffectedRows l |};
     Times := let t := Times c in
       {| ReadMs := or_int (ReadMs t) 10000; WriteMs := or_int (WriteMs t) 30000;
          IdleMs := or_int (IdleMs t) 60000 |};
     CacheC := let k := CacheC c in
       {| MemoryMB := or_int (MemoryMB k) 64; AuthTTL := or_string (AuthTTL k) "30s";
          ConfJWKSTTL := or_string (ConfJWKSTTL k) "1h"; AuthTTLDuration := AuthTTLDuration k;
          JWKSTTLDuration := JWKSTTLDuration k |};
     TLS := TLS c; AllowedOrigins := AllowedOrigins c;
     Roles := let r := Roles c in
       {| BaseDSN := BaseDSN r; BaselineRole := or_string (BaselineRole r) "pathql_auth";
          Prefix := or_string (Prefix r) "pathql_r_"; ReaderRole := or_string (ReaderRole r) "pathql_readers";
          WarmPoolLimit := or_int (WarmPoolLimit r) 64; PasswordSecret := PasswordSecret r |} |}.

(** ** Environment expansion *)

(** A token at the start of the text: its name and what follows. *)
Definition env_token (s : string) : option (string * string) :=
  match s with
  | String "$" (String "{" (String c _ as t)) =>
      if ident_start c then
        let '(name, rest) := span ident_byte t in
        match rest with String "}" rest => Some (name, rest) | _ => None end
      else None
  | _ => None
  end.
(** Every step takes a byte at least: the length is fuel enough. *)
Fixpoint expand_go (getenv : string -> string) (fuel : nat) (s : string) : string :=
  match fuel, s with
  | S n, String c s' =>
      match env_token s with
      | Some (name, rest) => getenv name +:+ expand_go getenv n rest
      | None => String c (expand_go getenv n s')
      end
  | _, _ => EmptyString
  end.
Definition expandEnv (getenv : string -> string) (s : string) : string :=
  expand_go getenv (String.length s) s.

(** ** time.ParseDuration *)

Definition duration_unit (u : string) : option Z :=
  if String.eqb u "ns" then Some 1%Z
  else if String.eqb u "us" || String.eqb u "µs" || String.eqb u "μs" then Some 1000%Z
  else if String.eqb u "ms" then Some 1000000%Z
  else if String.eqb u "s" then Some nanos_per_second
  else if String.eqb u "m" then Some (60 * nanos_per_second)%Z
  else if String.eqb u "h" then Some (3600 * nanos_per_second)%Z
  else None.

(** [leadingFraction]: digits that do not fit are dropped. *)
Fixpoint leading_fraction (x scale : Z) (overflow : bool) (s : string) : Z * Z :=
  match s with
  | EmptyString => (x, scale)
  | String c s =>
      if overflow || ((2 ^ 63 - 1) / 10 <? x)%Z then leading_fraction x scale true s
      else
        let y := (x * 10 + (Z.of_N (byte c) - 48))%Z in
        if (2 ^ 63 <? y)%Z then leading_fraction x scale true s
        else leading_fraction y (scale * 10)%Z false s
  end.
(** [uint64(float64(f) * (float64(unit) / scale))]. *)
Definition fraction_ns (f scale unit : Z) : Z :=
  let float z := binary_normalize 53 1024 z 0 false in
  int64_of_float (SFmul 53 1024 (float f) (SFdiv 53 1024 (float unit) (float scale))).

Definition duration_byte (c : ascii) : bool := isDigitByte c || Ascii.eqb c ".".

(** One number with its unit. *)
Definition duration_step (s : string) : option (Z * string) :=
  let '(int, s1) := span isDigitByte s in
  let '(frac, s2) := match s1 with
                     | String "." s1 => span isDigitByte s1
                     | _ => (EmptyString, s1)
                     end in
  if String.eqb int EmptyString && String.eqb frac EmptyString then None
  else
    let v := digits_of int in
    if (2 ^ 63 <? v)%Z then None
    else
      let '(u, rest) := span (fun c => negb (duration_byte c)) s2 in
      unit ← duration_unit u;
      if (2 ^ 63 / unit <? v)%Z then None
      else
        let '(f, scale) := leading_fraction 0 1 false frac in
        let v := (v * unit + (if (0 <? f)%Z then fraction_ns f scale unit else 0))%Z in
        if (2 ^ 63 <? v)%Z then None else Some (v, rest).
Fixpoint duration_go (fuel : nat) (d : Z) (s : string) : option Z :=
  match fuel, s with
  | _, EmptyString => Some d
  | 0, _ => None
  | S n, _ =>
      '(v, rest) ← duration_step s;
      let d := (d + v)%Z in
      if (2 ^ 63 <? d)%Z then None else duration_go n d rest
  end.
Definition ParseDuration (s : string) : option Z :=
  let '(neg, s) := match s with
                   | String "-" s => (true, s)
                   | String "+" s => (false, s)
                   | _ => (false, s)
                   end in
  if String.eqb s "0" then Some 0%Z
  else if String.eqb s EmptyString then None
  else
    d ← duration_go (String.length s) 0 s;
    if neg : bool then Some (- d)%Z
    else if (2 ^ 63 - 1 <? d)%Z then None else Some d.

(** ** Validation *)

(** The reasons a configuration is rejected. *)
Inductive config_error :=
| EDriver | EMethod (m : string) | EJWTAlgorithms | EJWTSecret | EJWTJWKS
| EAuthTablePrefix | EStartupChecks | ESQLGate | EXSRF | EWritesConflict | EWrites
| EDSN | ELoginMethods | EBaseDSN | EPrefix | EBaselineRole | EReaderRole | EPasswordSecret
| EIdentityKind | EIPList (name entry : string) | EMaxCost | EMaxRows | EMaxAffected | ETLS
| EDecode (msg : string) | EDuration (name text : string).

Definition one_of (s : string) (l : list string) : bool := bool_decide (s ∈ l).

Fixpoint validateIPList (name : string) (entries : list string) : option config_error :=
  match entries with
  | [] => None
  | raw :: entries =>
      let s := TrimSpace raw in
      if String.eqb s EmptyString then validateIPList name entries
      else match ParseCIDR s, ParseIP s with
           | None, None => Some (EIPList name raw)
           | _, _ => validateIPList name entries
           end
  end.

Definition validateJWT (a : AuthConf) : option config_error :=
  let needsSecret := existsb (fun alg => EqualFold alg "HS256") (JWTAlgorithms a) in
  let needsJWKS := existsb (fun alg => negb (EqualFold alg "HS256")) (JWTAlgorithms a) in
  if bool_decide (JWTAlgorithms a = []) then Some EJWTAlgorithms
  else if needsSecret && String.eqb (JWTHS256Secret a) EmptyString then Some EJWTSecret
  else if needsJWKS && String.eqb (JWTJWKSURL a) EmptyString then Some EJWTJWKS
  else None.

(** A check that ends validation, and what follows when it passes. *)
Definition reject_if (b : bool) (e : config_error) (rest : option config_error) : option config_error :=
  if b then Some e else rest.
Definition first_error (o rest : option config_error) : option config_error :=
  match o with Some e => Some e | None => rest end.

Definition validateIdentity (c : Config) : option config_error :=
  let s := Sec c in
  let r := Roles c in
  if String.eqb (IdentityKind s) "none" then
    reject_if (String.eqb (DSN c) EmptyString) EDSN None
  else if String.eqb (IdentityKind s) "login_role" then
    reject_if (bool_decide (Methods (AuthC c) = [])) ELoginMethods
    (reject_if (String.eqb (BaseDSN r) EmptyString) EBaseDSN
    (reject_if (negb (match_lower_ident (Prefix r))) EPrefix
    (reject_if (negb (match_ident (BaselineRole r))) EBaselineRole
    (reject_if (negb (match_ident (ReaderRole r))) EReaderRole
    (reject_if (String.eqb (PasswordSecret r) EmptyString) EPasswordSecret None)))))
  else Some EIdentityKind.

Definition validateWrites (s : Security) : option config_error :=
  if String.eqb (Writes s) "off" then None
  else if String.eqb (Writes s) "on" then reject_if (SecReadOnly s) EWritesConflict None
  else Some EWrites.

Definition known_method (m : string) : bool := one_of m ["apikey"; "basic"; "jwt"].

Definition validate (c : Config) : option config_error :=
  let s := Sec c in
  reject_if (String.eqb (Driver c) EmptyString) EDriver
  (first_error (match filter (fun m => known_method m = false) (Methods (AuthC c)) with
                | m :: _ => Some (EMethod m)
                | [] => None
                end)
  (first_error (if one_of "jwt" (Methods (AuthC c)) then validateJWT (AuthC c) else None)
  (reject_if (negb (match_ident (AuthTablePrefix s))) EAuthTablePrefix
  (reject_if (negb (one_of (StartupChecks s) ["off"; "warn"; "enforce"])) EStartupChecks
  (reject_if (negb (ValidMode (SQLGate s))) ESQLGate
  (reject_if (negb (one_of (XSRFMode s) ["off"; "on"])) EXSRF
  (first_error (validateWrites s)
  (first_error (validateIdentity c)
  (first_error (validateIPList "allow_ips" (AllowIPs s))
  (first_error (validateIPList "deny_ips" (DenyIPs s))
  (reject_if (SFltb (ConfMaxEstimatedCost (Lim c)) zero_float) EMaxCost
  (reject_if (ConfMaxEstimatedRows (Lim c) <? 0)%Z EMaxRows
  (reject_if (ConfMaxAffectedRows (Lim c) <? 0)%Z EMaxAffected
  (reject_if (Enabled (TLS c) && (String.eqb (CertFile (TLS c)) EmptyString
                                  || String.eqb (KeyFile (TLS c)) EmptyString)) ETLS None)))))))))))))).

(** ** Load *)

Definition with_HSTS (c : Config) : Config :=
  {| Driver := Driver c; DSN := DSN c; Listen := Listen c; Verbose := Verbose c;
     Database := Database c; Sec := Sec c; AuthC := AuthC c; Lim := Lim c; Times := Times c;
     CacheC := CacheC c;
     TLS := {| Enabled := Enabled (TLS c); CertFile := CertFile (TLS c); KeyFile := KeyFile (TLS c);
               TLSHSTS := true; RedirectHTTP := RedirectHTTP (TLS c) |};
     AllowedOrigins := AllowedOrigins c; Roles := Roles c |}.

(** The expansions, and the override of the DSN. *)
Definition expand_secrets (getenv : string -> string) (c : Config) : Config :=
  {| Driver := Driver c;
     DSN := (let override := getenv "PATHQL_DSN" in
             if negb (String.eqb override EmptyString) then override else expandEnv getenv (DSN c));
     Listen := Listen c; Verbose := Verbose c; Database := Database c; Sec := Sec c;
     AuthC := let a := AuthC c in
       {| Methods := Methods a; APIKeyHeader := APIKeyHeader a; JWTAlgorithms := JWTAlgorithms a;
          JWTJWKSURL := JWTJWKSURL a; JWTIssuer := JWTIssuer a; JWTAudience := JWTAudience a;
          JWTUserClaim := JWTUserClaim a; JWTHS256Secret := expandEnv getenv (JWTHS256Secret a);
          ConfRequireUserRow := ConfRequireUserRow a |};
     Lim := Lim c; Times := Times c; CacheC := CacheC c; TLS := TLS c;
     AllowedOrigins := AllowedOrigins c;
     Roles := let r := Roles c in
       {| BaseDSN := expandEnv getenv (BaseDSN r); BaselineRole := BaselineRole r; Prefix := Prefix r;
          ReaderRole := ReaderRole r; WarmPoolLimit := WarmPoolLimit r;
          PasswordSecret := expandEnv getenv (PasswordSecret r) |} |}.

Definition with_durations (auth jwks : Z) (c : Config) : Config :=
  {| Driver := Driver c; DSN := DSN c; Listen := Listen c; Verbose := Verbose c;
     Database := Database c; Sec := Sec c; AuthC := AuthC c; Lim := Lim c; Times := Times c;
     CacheC := let k := CacheC c in
       {| MemoryMB := MemoryMB k; AuthTTL := AuthTTL k; ConfJWKSTTL := ConfJWKSTTL k;
          AuthTTLDuration := auth; JWKSTTLDuration := jwks |};
     TLS := TLS c; AllowedOrigins := AllowedOrigins c; Roles := Roles c |}.

Definition Load `{Environment} (path : string) : result config_error Config :=
  match DecodeFile path with
  | Err e => Err (EDecode e)
  | Ok (c, hsts_defined) =>
      let c := if negb hsts_defined then with_HSTS c else c in
      let c := expand_secrets Getenv (applyDefaults c) in
      match ParseDuration (AuthTTL (CacheC c)) with
      | None => Err (EDuration "auth_ttl" (AuthTTL (CacheC c)))
      | Some auth =>
          match ParseDuration (ConfJWKSTTL (CacheC c)) with
          | None => Err (EDuration "jwks_ttl" (ConfJWKSTTL (CacheC c)))
          | Some jwks =>
              let c := with_durations auth jwks c in
              match validate c with Some e => Err e | None => Ok c end
          end
      end
  end.

Definition WritesEnabled (c : Config) : bool := String.eqb (Writes (Sec c)) "on".

(** ** The role password secret *)

Definition knownWeakRoleSecrets : list string :=
  ["login-role-demo-secret"; "changeme"; "change-me"; "changeit"; "secret"; "password";
   "password_secret"; "test"; "demo"; "example"].
Definition minRoleSecretLen : nat := 16.

Definition WeakRoleSecretFinding `{UnicodeTables} (c : Config) : option string :=
  let secret := PasswordSecret (Roles c) in
  if one_of (ToLower secret) knownWeakRoleSecrets then
    Some "roles.password_secret is a known placeholder/demo value: set a long, random secret (it derives every managed role's database password)"
  else if (String.length secret <? minRoleSecretLen)%nat then
    Some ("roles.password_secret is only " +:+ FormatInt (Z.of_nat (String.length secret))
          +:+ " characters: use at least 16 random characters (it derives every managed role's database password)")
  else None.
