(* ===== verification/ConfigSpec.v ===== *)
(** * What loading a configuration promises

    Validation accepts exactly the configurations of a declarative rule; a loaded
    configuration makes the start-up steps that depend on it succeed; and loading
    leaves read_only as it was decoded, false unless the file sets it. *)

From S2P Require Import Prelude GoStrings GoNet Http GoJson SqlGate Roles Middleware Executor Auth Config.
From Stdlib Require Import Ascii SpecFloat.

(** ** The rule *)

Definition valid_ip_list (l : list string) : Prop :=
  Forall (fun raw => TrimSpace raw = EmptyString \/ is_Some (proxy_net (TrimSpace raw))) l.

Record valid_jwt (a : AuthConf) : Prop := {
  vj_algs : JWTAlgorithms a <> [];
  vj_secret : (exists alg, alg ∈ JWTAlgorithms a /\ EqualFold alg "HS256" = true) ->
    JWTHS256Secret a <> EmptyString;
  vj_jwks : (exists alg, alg ∈ JWTAlgorithms a /\ EqualFold alg "HS256" = false) ->
    JWTJWKSURL a <> EmptyString
}.

Definition valid_identity (c : Config) : Prop :=
  (IdentityKind (Sec c) = "none" /\ DSN c <> EmptyString) \/
  (IdentityKind (Sec c) = "login_role" /\ Methods (AuthC c) <> [] /\ BaseDSN (Config.Roles c) <> EmptyString
   /\ match_lower_ident (Prefix (Config.Roles c)) = true /\ match_ident (BaselineRole (Config.Roles c)) = true
   /\ match_ident (ReaderRole (Config.Roles c)) = true /\ PasswordSecret (Config.Roles c) <> EmptyString).

Record valid (c : Config) : Prop := {
  v_driver : Driver c <> EmptyString;
  v_methods : Forall (fun m => m ∈ ["apikey"; "basic"; "jwt"]) (Methods (AuthC c));
  v_jwt : "jwt" ∈ Methods (AuthC c) -> valid_jwt (AuthC c);
  v_tables : match_ident (AuthTablePrefix (Sec c)) = true;
  v_checks : StartupChecks (Sec c) ∈ ["off"; "warn"; "enforce"];
  v_gate : ValidMode (SQLGate (Sec c)) = true;
  v_xsrf : XSRFMode (Sec c) ∈ ["off"; "on"];
  v_writes : Writes (Sec c) = "off" \/ Writes (Sec c) = "on" /\ SecReadOnly (Sec c) = false;
  v_identity : valid_identity c;
  v_allow : valid_ip_list (AllowIPs (Sec c));
  v_deny : valid_ip_list (DenyIPs (Sec c));
  v_cost : SFltb (ConfMaxEstimatedCost (Lim c)) zero_float = false;
  v_rows : (0 <= ConfMaxEstimatedRows (Lim c))%Z;
  v_affected : (0 <= ConfMaxAffectedRows (Lim c))%Z;
  v_tls : Enabled (TLS c) = true -> CertFile (TLS c) <> EmptyString /\ KeyFile (TLS c) <> EmptyString
}.

(** ** The checks *)

Lemma reject_if_None b e rest : reject_if b e rest = None <-> b = false /\ rest = None.
Proof. unfold reject_if. destruct b; naive_solver. Qed.

Lemma first_error_None o rest : first_error o rest = None <-> o = None /\ rest = None.
Proof. unfold first_error. destruct o; naive_solver. Qed.

Lemma one_of_true s l : one_of s l = true <-> s ∈ l.
Proof. apply bool_decide_eq_true. Qed.

Lemma eqb_empty_false s : String.eqb s EmptyString = false <-> s <> EmptyString.
Proof. apply String.eqb_neq. Qed.

Lemma proxy_net_Some s : is_Some (proxy_net s) <-> is_Some (ParseCIDR s) \/ is_Some (ParseIP s).
Proof.
  unfold proxy_net, is_Some. destruct (ParseCIDR s) as [n|], (ParseIP s) as [ip|]; naive_solver.
Qed.

Lemma validateIPList_None name l : validateIPList name l = None <-> valid_ip_list l.
Proof.
  unfold valid_ip_list. induction l as [|raw l IH]; simpl; [by split|].
  rewrite Forall_cons, proxy_net_Some, <- IH.
  destruct (String.eqb_spec (TrimSpace raw) EmptyString); [naive_solver|].
  unfold is_Some. destruct (ParseCIDR _), (ParseIP _); naive_solver.
Qed.

Lemma existsb_true {A} (f : A -> bool) l : existsb f l = true <-> exists x, x ∈ l /\ f x = true.
Proof. rewrite existsb_exists. by setoid_rewrite list_elem_of_In. Qed.

Lemma validateJWT_None a : validateJWT a = None <-> valid_jwt a.
Proof.
  unfold validateJWT. set (s := existsb _ _). set (j := existsb _ _).
  assert (s = true <-> exists alg, alg ∈ JWTAlgorithms a /\ EqualFold alg "HS256" = true) as Hs
    by apply existsb_true.
  assert (j = true <-> exists alg, alg ∈ JWTAlgorithms a /\ EqualFold alg "HS256" = false) as Hj.
  { unfold j. rewrite existsb_true. by setoid_rewrite negb_true_iff. }
  case_bool_decide as Ha; [split; [done|]; intros []; done|].
  split.
  - destruct s eqn:Es, j eqn:Ej; simpl;
      repeat case_match; try done; intros _; breflect; split; try done; naive_solver.
  - intros [_ H1 H2]. rewrite <- Hs in H1. rewrite <- Hj in H2.
    destruct s, j; simpl; rewrite ?(proj2 (eqb_empty_false _)) by auto; done.
Qed.

Lemma validateWrites_None s : validateWrites s = None <->
  Writes s = "off" \/ Writes s = "on" /\ SecReadOnly s = false.
Proof.
  unfold validateWrites. destruct (String.eqb_spec (Writes s) "off"); [naive_solver|].
  destruct (String.eqb_spec (Writes s) "on"); [rewrite reject_if_None|]; naive_solver.
Qed.

Lemma validateIdentity_None c : validateIdentity c = None <-> valid_identity c.
Proof.
  unfold validateIdentity, valid_identity.
  destruct (String.eqb_spec (IdentityKind (Sec c)) "none") as [->|];
    [rewrite reject_if_None, eqb_empty_false; naive_solver|].
  destruct (String.eqb_spec (IdentityKind (Sec c)) "login_role") as [->|]; [|naive_solver].
  rewrite !reject_if_None, !eqb_empty_false, !negb_false_iff, bool_decide_eq_false. naive_solver.
Qed.

Lemma unknown_methods l :
  match filter (fun m => known_method m = false) l with m :: _ => Some (EMethod m) | [] => None end = None
  <-> Forall (fun m => m ∈ ["apikey"; "basic"; "jwt"]) l.
Proof.
  rewrite Forall_forall. destruct (filter _ l) as [|m ms] eqn:Hf.
  - split; [|done]. intros _ m Hm. apply one_of_true. destruct (one_of _ _) eqn:E; [done|].
    assert (m ∈ filter (fun m => known_method m = false) l) as Hin by (by apply list_elem_of_filter).
    rewrite Hf in Hin. by apply not_elem_of_nil in Hin.
  - split; [done|]. intros Hall.
    assert (m ∈ filter (fun m => known_method m = false) l) as Hin by (rewrite Hf; by left).
    apply list_elem_of_filter in Hin as [Hk Hm]. apply Hall, one_of_true in Hm.
    unfold known_method in Hk. congruence.
Qed.

(** C27: [validate] accepts exactly the valid configurations. *)
Theorem validate_valid (c : Config) : validate c = None <-> valid c.
Proof.
  unfold validate.
  rewrite !reject_if_None, !first_error_None, !reject_if_None, !first_error_None, !reject_if_None.
  rewrite unknown_methods, !validateIPList_None, validateWrites_None, validateIdentity_None,
    eqb_empty_false, !negb_false_iff, !one_of_true, !Z.ltb_ge, andb_false_iff, orb_false_iff, !eqb_empty_false.
  assert ((if one_of "jwt" (Methods (AuthC c)) then validateJWT (AuthC c) else None) = None <->
          ("jwt" ∈ Methods (AuthC c) -> valid_jwt (AuthC c))) as ->.
  { rewrite <- (one_of_true "jwt"), <- validateJWT_None. destruct (one_of "jwt" _); naive_solver. }
  split.
  - intros (? & ? & ? & ? & ? & ? & ? & ? & ? & ? & ? & ? & ? & ? & Htls & _). split; try done.
    intros Hen. destruct Htls as [Hd|?]; [congruence|done].
  - intros [? ? ? ? ? ? ? ? ? ? ? ? ? ? Htls]. split_and!; try done.
    destruct (Enabled (TLS c)); [right; by apply Htls|by left].
Qed.

(** ** Start-up *)

Lemma ParseTrustedProxies_Ok l : valid_ip_list l -> exists nets, ParseTrustedProxies l = Ok nets.
Proof.
  unfold valid_ip_list. induction 1 as [|raw l Hraw _ [nets IH]]; simpl; [by eexists|].
  destruct (String.eqb_spec (TrimSpace raw) EmptyString); [eauto|].
  destruct Hraw as [|[net ->]]; [done|]. rewrite IH. eauto.
Qed.

Section load.
Context `{Environment}.

Lemma Load_decoded path c : Load path = Ok c ->
  valid c /\ exists d hsts, DecodeFile path = Ok (d, hsts) /\ SecReadOnly (Sec c) = SecReadOnly (Sec d)
    /\ Writes (Sec c) = or_string (Writes (Sec d)) "off" /\ SQLGate (Sec c) = or_string (SQLGate (Sec d)) "off".
Proof.
  unfold Load. destruct (DecodeFile path) as [[d hsts]|e]; [|done]. intros HL.
  destruct (ParseDuration _) as [t1|]; [|done]. destruct (ParseDuration _) as [t2|]; [|done].
  destruct (validate _) eqn:Hv; [done|]. injection HL as <-. split; [by apply validate_valid|].
  exists d, hsts. by destruct hsts.
Qed.

(** What Load accepts, start-up does not reject: the firewall lists parse, the
    authentication tables get their names, the role prefix is one the role names
    are made from, and a configuration that admits writes is not read-only. *)
Theorem Load_startup (path : string) (c : Config) (Hload : Load path = Ok c) :
  (exists allow deny, ParseTrustedProxies (AllowIPs (Sec c)) = Ok allow
                      /\ ParseTrustedProxies (DenyIPs (Sec c)) = Ok deny) /\
  (exists t, NewUserAdmin (AuthTablePrefix (Sec c)) = Ok t) /\
  (IdentityKind (Sec c) = "login_role" -> validatePrefix (Prefix (Config.Roles c)) = Ok tt) /\
  (WritesEnabled c = true -> SecReadOnly (Sec c) = false).
Proof.
  destruct (Load_decoded _ _ Hload) as [Hv _]. destruct Hv. split_and!.
  - destruct (ParseTrustedProxies_Ok _ v_allow0) as [allow Ha].
    destruct (ParseTrustedProxies_Ok _ v_deny0) as [deny Hd]. by exists allow, deny.
  - unfold NewUserAdmin, tables_of. rewrite v_tables0. eauto.
  - intros Hk. destruct v_identity0 as [[? _]|(_ & _ & _ & Hp & _)]; [congruence|].
    unfold validatePrefix. by rewrite Hp.
  - unfold WritesEnabled. intros Hw%String.eqb_eq. destruct v_writes0 as [?|[_ ?]]; congruence.
Qed.

(** A file that sets neither read_only nor writes loads as a configuration that
    admits no writes and yet is not read-only: with the gate off, its default, the
    queries are neither checked nor run in a read-only transaction. *)
Theorem default_not_read_only `{UnicodeTables} (path : string) (c d : Config) (hsts : bool)
  (Hfile : DecodeFile path = Ok (d, hsts))
  (Hunset : SecReadOnly (Sec d) = false /\ Writes (Sec d) = EmptyString /\ SQLGate (Sec d) = EmptyString)
  (Hload : Load path = Ok c) :
  WritesEnabled c = false /\ SecReadOnly (Sec c) = false /\
  forall query, Check query (to_Mode (SQLGate (Sec c))) = None.
Proof.
  destruct (Load_decoded _ _ Hload) as (_ & d' & hsts' & Hd & Hro & Hw & Hg).
  rewrite Hfile in Hd. injection Hd as <- <-. destruct Hunset as (Hro' & Hw' & Hg').
  rewrite Hw' in Hw. rewrite Hg' in Hg.
  split_and!; [unfold WritesEnabled; by rewrite Hw|congruence|]. intros query. by rewrite Hg.
Qed.
End load.

(** ** Witnesses *)

Module Witness.
(** The file [driver = "postgres"], [dsn = "host=db password=${PW}"], every other
    key unset. *)
Definition minimal : Config := {|
  Driver := "postgres"; DSN := "host=db password=${PW}"; Listen := ""; Verbose := false;
  Database := Build_DatabaseConf 0 0 0 0 0;
  Sec := Build_Security "" false [] [" 10.0.0.0/8 "; "2001:db8::1"] [] "" "" "" "" "" "" "";
  AuthC := Build_AuthConf [] "" [] "" "" "" "" "" false;
  Lim := Build_Limits 0 0 0 0 0 0 0 0 zero_float 0 0;
  Times := Build_Timeouts 0 0 0; CacheC := Build_CacheConf 0 "" "" 0 0;
  TLS := Build_TLSConf false "" "" false ""; AllowedOrigins := [];
  Roles := Build_RolesConf "" "" "" "" 0 ""
|}.

#[local] Instance files : Environment := {|
  DecodeFile path := if String.eqb path "config.ini" then Ok (minimal, false) else Err "no such file";
  Getenv name := if String.eqb name "PW" then "hunter2" else EmptyString
|}.

Definition loaded : Config :=
  with_durations (30 * nanos_per_second) (3600 * nanos_per_second)
    (expand_secrets Getenv (applyDefaults (with_HSTS minimal))).

Example minimal_dsn : DSN loaded = "host=db password=hunter2".
Proof. vm_compute. reflexivity. Qed.

Lemma minimal_loads : Load "config.ini" = Ok loaded.
Proof. vm_compute. reflexivity. Qed.

(** An instance of [Load_startup]. *)
Lemma Load_startup_witness :
  exists allow deny, ParseTrustedProxies (AllowIPs (Sec loaded)) = Ok allow
                     /\ ParseTrustedProxies (DenyIPs (Sec loaded)) = Ok deny.
Proof. exact (proj1 (Load_startup "config.ini" loaded minimal_loads)). Defined.

#[local] Existing Instance ascii_tables.

(** An instance of [default_not_read_only]. *)
Lemma default_not_read_only_witness :
  WritesEnabled loaded = false /\ SecReadOnly (Sec loaded) = false
  /\ Check "DELETE FROM accounts" (to_Mode (SQLGate (Sec loaded))) = None.
Proof.
  pose proof (default_not_read_only "config.ini" loaded minimal false eq_refl) as Hd.
  destruct Hd as (Hw & Hr & Hc); [split_and!; reflexivity|exact minimal_loads|].
  split_and!; [exact Hw|exact Hr|apply Hc].
Defined.
End Witness.
