(* ===== verification/Hardening.v ===== *)
(** * The start-up hardening check (src/internal/db/hardening.go)

    The catalog queries and what their answers are reported as. Queries run
    through the class [CatalogDB]. *)

From S2P Require Import Prelude GoStrings Http GoJson Auth.
From Stdlib Require Import Ascii.

(** A row that scans a bool; the rows of a query, each a scanned string or an
    error, and the error of [rows.Err]. *)
Class CatalogDB (W : Type) := {
  QueryRowBool : string -> W -> result string bool * W;
  QueryRows : string -> list value -> W ->
    result string (list (result string string) * option string) * W
}.

Record HardeningReport := { Critical : list string; Warnings : list string }.
Definition Report_Empty (rep : HardeningReport) : bool :=
  bool_decide (Critical rep = []) && bool_decide (Warnings rep = []).

Definition superuser_sql : string := "SELECT current_setting('is_superuser')::boolean".
Definition bypassrls_sql : string := "SELECT rolbypassrls FROM pg_roles WHERE rolname = current_user".

(** The part the table queries share. *)
Definition user_tables : list string :=
  ["SELECT n.nspname || '.' || c.relname";
   "FROM pg_class c JOIN pg_namespace n ON n.oid = c.relnamespace";
   "WHERE c.relkind IN ('r','p')";
   "  AND n.nspname NOT IN ('pg_catalog','information_schema')";
   "  AND n.nspname !~ '^pg_'";
   "  AND c.relname NOT LIKE $1"].

Definition writable_sql : string := lines (user_tables ++
  ["  AND (has_table_privilege(c.oid,'INSERT') OR has_table_privilege(c.oid,'UPDATE') OR has_table_privilege(c.oid,'DELETE'))";
   "ORDER BY 1"; "LIMIT 25"]).
Definition no_with_check_sql : string := lines (user_tables ++
  ["  AND (has_table_privilege(c.oid,'INSERT') OR has_table_privilege(c.oid,'UPDATE'))";
   "  AND NOT EXISTS (";
   "    SELECT 1 FROM pg_policy p";
   "    WHERE p.polrelid = c.oid AND p.polwithcheck IS NOT NULL";
   "  )";
   "ORDER BY 1"; "LIMIT 50"]).
Definition dangerous_sql : string := lines
  ["SELECT p.oid::regprocedure::text";
   "FROM pg_proc p";
   "WHERE p.proname IN ('pg_read_file','pg_read_binary_file','pg_ls_dir','pg_sleep','pg_sleep_for','lo_import','lo_export','lo_get','dblink','dblink_exec')";
   "  AND has_function_privilege(p.oid,'execute')";
   "ORDER BY 1"; "LIMIT 25"].
Definition no_rls_sql : string := lines (user_tables ++
  ["  AND has_table_privilege(c.oid,'SELECT')"; "  AND NOT c.relrowsecurity"; "ORDER BY 1"; "LIMIT 50"]).
Definition owned_unforced_sql : string := lines (user_tables ++
  ["  AND pg_get_userbyid(c.relowner) = current_user";
   "  AND c.relrowsecurity AND NOT c.relforcerowsecurity"; "ORDER BY 1"; "LIMIT 25"]).
Definition no_policy_sql : string := lines (user_tables ++
  ["  AND has_table_privilege(c.oid,'SELECT')"; "  AND c.relrowsecurity";
   "  AND NOT EXISTS (SELECT 1 FROM pg_policy p WHERE p.polrelid = c.oid)"; "ORDER BY 1"; "LIMIT 50"]).

(** ** The findings *)

Definition superuser_finding : string :=
  "connected database role is a SUPERUSER: it bypasses row-level security and read-only transactions - connect as a least-privilege login role instead".
Definition bypassrls_finding : string :=
  "connected database role has the BYPASSRLS attribute: it bypasses every row-level-security policy - run ALTER ROLE ... NOBYPASSRLS".
Definition count_of (l : list string) : string := FormatInt (Z.of_nat (length l)).
Definition writable_finding (l : list string) : string :=
  "connected role can write (INSERT/UPDATE/DELETE) to " +:+ count_of l +:+ " table(s): " +:+ Join l ", "
  +:+ " - grant it only SELECT".
Definition no_with_check_finding (l : list string) : string :=
  count_of l +:+ " writable table(s) have NO row-level-security WITH CHECK policy, so a caller could insert or update rows attributed to another identity: "
  +:+ Join l ", " +:+ " - add FOR INSERT/UPDATE policies WITH CHECK".
Definition dangerous_finding (l : list string) : string :=
  "connected role may EXECUTE " +:+ count_of l +:+ " sensitive function(s): " +:+ Join l ", "
  +:+ " - REVOKE EXECUTE from the role (see examples/rls_policy.sql)".
Definition no_rls_finding (l : list string) : string :=
  count_of l +:+ " readable table(s) have NO row-level security, so every authenticated caller can read all of their rows: "
  +:+ Join l ", ".
Definition owned_unforced_finding (l : list string) : string :=
  "connected role OWNS " +:+ count_of l +:+ " table(s) with row-level security enabled but NOT forced, so as the owner it bypasses their policies: "
  +:+ Join l ", " +:+ " - run ALTER TABLE ... FORCE ROW LEVEL SECURITY".
Definition no_policy_finding (l : list string) : string :=
  count_of l +:+ " readable table(s) have row-level security enabled but NO policy, so they return no rows (default-deny); confirm this is intended: "
  +:+ Join l ", ".

Definition critical (s : string) (rep : HardeningReport) : HardeningReport :=
  {| Critical := Critical rep ++ [s]; Warnings := Warnings rep |}.
Definition warning (s : string) (rep : HardeningReport) : HardeningReport :=
  {| Critical := Critical rep; Warnings := Warnings rep ++ [s] |}.
Definition report (is_critical : bool) : string -> HardeningReport -> HardeningReport :=
  if is_critical then critical else warning.
(** A finding about a list of names, when there are any. *)
Definition found (l : list string) (f : HardeningReport -> HardeningReport) (rep : HardeningReport) :
    HardeningReport :=
  match l with [] => rep | _ => f rep end.

Section check.
Context {W : Type} `{CatalogDB W}.

(** The rows until the first that does not scan. *)
Fixpoint scan_rows (rows : list (result string string)) : result string (list string) :=
  match rows with
  | [] => Ok []
  | Err e :: _ => Err e
  | Ok s :: rows => l ← scan_rows rows; Ok (s :: l)
  end.
Definition scanStrings (query : string) (args : list value) : M W (result string (list string)) :=
  let* r := lift (QueryRows query args) in
  ret match r with
      | Err e => Err e
      | Ok (rows, e) =>
          match scan_rows rows, e with
          | Ok l, None => Ok l
          | Ok _, Some e => Err e
          | Err e, _ => Err e
          end
      end.

(** The error of a check, wrapped with its name. *)
Definition wrapped {A} (check : string) (m : M W (result string A)) : M W (result string A) :=
  let* r := m in
  ret match r with Ok a => Ok a | Err e => Err ("hardening: " +:+ check +:+ ": " +:+ e) end.

Definition VerifyHardening (driver authTablePrefix : string)
    (noRLSIsCritical writesEnabled writeRLSIsCritical : bool) : M W (result string HardeningReport) :=
  let rep := {| Critical := []; Warnings := [] |} in
  if negb (String.eqb driver "postgres") then ret (Ok rep)
  else
    let like := [VString (authTablePrefix +:+ "%")] in
    let? isSuper := wrapped "superuser check" (lift (QueryRowBool superuser_sql)) in
    let rep := if isSuper : bool then critical superuser_finding rep else rep in
    let? bypassRLS := wrapped "bypassrls check" (lift (QueryRowBool bypassrls_sql)) in
    let rep := if bypassRLS : bool then critical bypassrls_finding rep else rep in
    let? writable := wrapped "write-privilege check" (scanStrings writable_sql like) in
    let rep := if negb writesEnabled then found writable (critical (writable_finding writable)) rep
               else rep in
    let? rep :=
      (if negb (bool_decide (writable = [])) && writesEnabled then
         let? noWithCheck := wrapped "with-check coverage check" (scanStrings no_with_check_sql like) in
         ret (Ok (found noWithCheck (report writeRLSIsCritical (no_with_check_finding noWithCheck)) rep))
       else ret (Ok rep)) in
    let? dangerous := wrapped "dangerous-function check" (scanStrings dangerous_sql []) in
    let rep := found dangerous (warning (dangerous_finding dangerous)) rep in
    let? noRLS := wrapped "rls-coverage check" (scanStrings no_rls_sql like) in
    let rep := found noRLS (report noRLSIsCritical (no_rls_finding noRLS)) rep in
    let? ownedUnforced := wrapped "force-rls check" (scanStrings owned_unforced_sql like) in
    let rep := found ownedUnforced (warning (owned_unforced_finding ownedUnforced)) rep in
    let? noPolicy := wrapped "rls-policy check" (scanStrings no_policy_sql like) in
    ret (Ok (found noPolicy (warning (no_policy_finding noPolicy)) rep)).
End check.
