(* ===== verification/Footprint.v ===== *)
(** * Footprints of handlers

    What a computation may do to the world, as a preorder it stays within, and
    which computations make no call on the response: closed under the operations
    of the monad and under every middleware. The lemmas are the hint database
    [footprint]. *)

From S2P Require Import Prelude GoStrings GoNet Http GoHttp Cache Middleware Concurrency Auth.

Create HintDb footprint.

(** ** Within a preorder *)

Section within.
Context {W : Type} (R : relation W) `{!PreOrder R}.

Definition within {A} (m : M W A) : Prop := forall h w, R w (world_of (m h w)).

Lemma within_ret {A} (a : A) : within (ret a).
Proof. by intros h w. Qed.
Lemma within_call c : within (call c).
Proof. by intros h w. Qed.
Lemma within_panic {A} v : within (panic (A := A) v).
Proof. by intros h w. Qed.
Lemma within_resp_header key : within (resp_header key).
Proof. by intros h w. Qed.
Lemma within_lift {A} (f : W -> A * W) : (forall w, R w (snd (f w))) -> within (lift f).
Proof. intros Hf h w. unfold lift. specialize (Hf w). by destruct (f w). Qed.
Lemma within_get {A} (f : W -> A) : within (lift (fun w => (f w, w))).
Proof. by apply within_lift. Qed.

(** After [m], with the value it gave. *)
Lemma within_bind_val {A B} (m : M W A) (f : A -> M W B) :
  within m -> (forall a h w, (m h w).2 = Val a -> forall h', R (world_of (m h w)) (world_of (f a h' (world_of (m h w))))) ->
  within (bind m f).
Proof.
  intros Hm Hf h w. unfold bind. specialize (Hm h w).
  destruct (m h w) as [[cs w'] [a|v]] eqn:E; [|done].
  specialize (Hf a h w). rewrite E in Hf. specialize (Hf eq_refl (apply_calls h cs)). cbn in *.
  destruct (f a _ w') as [[cs' w''] r]. by transitivity w'.
Qed.
Lemma within_bind {A B} (m : M W A) (f : A -> M W B) :
  within m -> (forall a, within (f a)) -> within (bind m f).
Proof. intros Hm Hf. apply within_bind_val; [done|]. intros a h w _ h'. apply Hf. Qed.
Lemma within_finally {A} (m : M W A) f : within m -> within f -> within (finally m f).
Proof.
  intros Hm Hf h w. unfold finally. specialize (Hm h w). destruct (m h w) as [[cs w'] r].
  specialize (Hf (apply_calls h cs) w'). destruct (f _ w') as [[cs' w''] r'].
  by transitivity w'.
Qed.
Lemma within_listen {A} (m : M W A) : within m -> within (listen m).
Proof. intros Hm h w. unfold listen. specialize (Hm h w). by destruct (m h w) as [[cs w'] []]. Qed.
Lemma within_try {A} (m : M W A) : within m -> within (try_ m).
Proof. intros Hm h w. unfold try_. specialize (Hm h w). by destruct (m h w) as [[cs w'] r]. Qed.
Lemma within_if {A} (b : bool) (m1 m2 : M W A) : within m1 -> within m2 -> within (if b then m1 else m2).
Proof. by destruct b. Qed.
End within.

#[export] Hint Resolve within_ret within_call within_panic within_resp_header within_lift within_get
  within_bind within_finally within_listen within_try within_if : footprint.
#[export] Hint Extern 1 (PreOrder _) => apply _ : footprint.

Lemma within_mono {W A} (R S : relation W) (m : M W A) :
  within R m -> (forall w w', R w w' -> S w w') -> within S m.
Proof. intros Hm HRS h w. apply HRS, Hm. Qed.

#[export] Instance within_proper {W A} (R : relation W) : Proper (handler_eq ==> iff) (within R (A := A)).
Proof. intros m1 m2 E. split; intros Hm h w; [rewrite <- E|rewrite E]; apply Hm. Qed.

(** The world an operation leaves is where its continuation starts. *)
Lemma world_bind_lift {W A B} (f : W -> A * W) (k : A -> M W B) h w :
  world_of (bind (lift f) k h w) = world_of (k (fst (f w)) h (snd (f w))).
Proof. unfold bind, lift. destruct (f w) as [a w1]. cbn. by destruct (k a h w1) as [[]]. Qed.
Lemma world_finally_lift {W A} (m : M W A) (f : W -> W) h w :
  world_of (finally m (lift (fun w => (tt, f w))) h w) = f (world_of (m h w)).
Proof. unfold finally, lift. by destruct (m h w) as [[cs w1] r]. Qed.

(** ** No calls *)

Section silent.
Context {W : Type}.

Definition silent {A} (m : M W A) : Prop := forall h w, calls_of (m h w) = [].

Lemma silent_ret {A} (a : A) : silent (ret a).
Proof. done. Qed.
Lemma silent_panic {A} v : silent (panic (A := A) v).
Proof. done. Qed.
Lemma silent_lift {A} (f : W -> A * W) : silent (lift f).
Proof. intros h w. unfold lift. by destruct (f w). Qed.
Lemma silent_lift_outcome {A} (f : W -> outcome A * W) : silent (lift_outcome f).
Proof. intros h w. unfold lift_outcome. by destruct (f w). Qed.
Lemma silent_bind {A B} (m : M W A) (f : A -> M W B) :
  silent m -> (forall a, silent (f a)) -> silent (bind m f).
Proof.
  intros Hm Hf h w. unfold bind. specialize (Hm h w).
  destruct (m h w) as [[cs w'] [a|v]]; [|done]. cbn in Hm. subst cs.
  specialize (Hf a (apply_calls h []) w'). by destruct (f a _ w') as [[cs' w''] r].
Qed.
Lemma silent_bind_ok {E A B} (m : M W (result E A)) (f : A -> M W (result E B)) :
  silent m -> (forall a, silent (f a)) -> silent (bind_ok m f).
Proof. intros Hm Hf. apply silent_bind; [done|]. by intros [a|e]. Qed.
Lemma silent_if {A} (b : bool) (m1 m2 : M W A) : silent m1 -> silent m2 -> silent (if b then m1 else m2).
Proof. by destruct b. Qed.
End silent.

#[export] Hint Resolve silent_ret silent_panic silent_lift silent_lift_outcome silent_bind silent_bind_ok
  silent_if : footprint.

(** ** The middlewares *)

Section middlewares.
Context {W C : Type} (R : relation W) `{!PreOrder R}.

(** A handler whose runs stay within [R], for the contexts of [P]. *)
Definition within_for (P : C -> Prop) (next : Handler W C) : Prop :=
  forall c r, P c -> within R (next c r).

Lemma within_reject code body : within R (reject code body).
Proof. unfold reject. auto 10 with footprint. Qed.
Lemma within_reject_retry code retry body : within R (reject_retry code retry body).
Proof. unfold reject_retry. auto 10 with footprint. Qed.

Lemma within_Recover P (next : Handler W C) : within_for P next -> within_for P (Recover next).
Proof.
  intros Hn c r Hc. apply within_bind; [done|by apply within_try, Hn|].
  intros [cs [a|v]]; cbn; auto 10 with footprint.
Qed.
Lemma within_BodyLimit P n (next : Handler W C) : within_for P next -> within_for P (BodyLimit n next).
Proof. intros Hn c r Hc. by apply Hn. Qed.
Lemma within_SecurityHeaders P (next : Handler W C) :
  within_for P next -> within_for P (SecurityHeaders next).
Proof. intros Hn c r Hc. unfold SecurityHeaders. auto 10 with footprint. Qed.
Lemma within_HSTS P (next : Handler W C) : within_for P next -> within_for P (HSTS next).
Proof. intros Hn c r Hc. unfold HSTS. auto 10 with footprint. Qed.
Lemma within_RequireContentTypeJSON `{UnicodeTables} P (next : Handler W C) :
  within_for P next -> within_for P (RequireContentTypeJSON next).
Proof.
  intros Hn c r Hc. unfold RequireContentTypeJSON.
  repeat case_match; auto using within_reject.
Qed.
Lemma within_CORS P origins (next : Handler W C) : within_for P next -> within_for P (CORS origins next).
Proof. intros Hn c r Hc. unfold CORS. auto 20 with footprint. Qed.
Lemma within_Firewall P allow deny tp (next : Handler W C) :
  within_for P next -> within_for P (Firewall allow deny tp next).
Proof.
  intros Hn. unfold Firewall. repeat case_match; try done; intros c r Hc;
    (case_match; [by apply within_reject|by apply Hn]).
Qed.

Section random.
Context `{Rand W} (Hrand : forall n w, R w (snd (rand_Read n w))).

Lemma within_newRequestID : within R newRequestID.
Proof.
  apply within_bind; [done|by apply within_lift|]. intros [b|e]; auto with footprint.
Qed.
Lemma within_RequestID P (next : Handler W C) : within_for P next -> within_for P (RequestID next).
Proof. intros Hn c r Hc. unfold RequestID. auto 20 using within_newRequestID with footprint. Qed.
Lemma within_XSRF P on (next : Handler W C) : within_for P next -> within_for P (XSRF on next).
Proof.
  intros Hn. unfold XSRF. destruct (negb on); [done|]. intros c r Hc.
  apply within_bind; [done| |].
  - apply within_if; [|by apply within_ret].
    apply within_bind; [done|apply within_newRequestID|]. intros tok. unfold setXSRFCookie.
    auto with footprint.
  - intros tok. repeat case_match; auto using within_reject.
Qed.
End random.

Section counted.
Context `{Clock W} (Hnow : forall w, R w (snd (Now w))).
Context `{Cache W} (Hinc : forall key d ttl w, R w (snd (Increment key d ttl w))).
Context `{UnicodeTables}.

Lemma within_RateLimitPerIP P has n tp (next : Handler W C) :
  within_for P next -> within_for P (RateLimitPerIP has n tp next).
Proof.
  intros Hn. unfold RateLimitPerIP. case_match; [done|]. intros c r Hc.
  apply within_bind; [done|by apply within_lift|]. intros now.
  apply within_bind; [done|by apply within_lift|]. intros [count|e]; [|by apply Hn].
  case_match; [by apply within_reject_retry|by apply Hn].
Qed.
Lemma within_BruteForceLockout P has n tp (next : Handler W C) :
  within_for P next -> within_for P (BruteForceLockout has n tp next).
Proof.
  intros Hn. unfold BruteForceLockout. case_match; [done|]. intros c r Hc.
  apply within_bind; [done|by apply within_lift|]. intros now.
  apply within_bind; [done|by apply within_lift|]. intros count.
  apply within_if; [by apply within_reject_retry|].
  apply within_bind; [done|by apply within_listen, Hn|]. intros [cs []].
  apply within_if; [|by apply within_ret].
  apply within_bind; [done|by apply within_lift|]. intros x. by apply within_ret.
Qed.
End counted.

Lemma within_GlobalInflight P try_send receive n (next : Handler W C) :
  (forall w, R w (snd (try_send w))) -> (forall w, R w (snd (receive w))) ->
  within_for P next -> within_for P (GlobalInflight try_send receive n next).
Proof.
  intros Hs Hr Hn. unfold GlobalInflight. case_match; [done|]. intros c r Hc.
  apply within_bind; [done|by apply within_lift|]. intros [].
  - apply within_finally; [done|by apply Hn|by apply within_lift].
  - by apply within_reject_retry.
Qed.
Lemma within_PerUserConcurrency P acquire release n key (next : Handler W C) :
  (forall k w, R w (snd (acquire k w))) -> (forall k w, R w (snd (release k w))) ->
  within_for P next -> within_for P (PerUserConcurrency acquire release n key next).
Proof.
  intros Hs Hr Hn. unfold PerUserConcurrency. case_match; [done|]. intros c r Hc.
  case_match; [by apply Hn|].
  apply within_bind; [done|by apply within_lift|]. intros [].
  - apply within_finally; [done|by apply Hn|by apply within_lift].
  - by apply within_reject_retry.
Qed.
End middlewares.
