(* ===== verification/Server.v ===== *)
(** * The query endpoint and the metrics (src/pathql.go)

    [PathQlEndpoint] with its request decoding, its answers and the metrics
    middleware, over the components of the other files. The role pools are an interface here
    ([PoolManager]), whose implementation is the file RolePool. *)

From S2P Require Import Prelude GoStrings GoNet Http GoHttp GoJson GoCrypto Cache Middleware.
From S2P Require Import Concurrency SqlGate Roles TopQueries Executor Auth Config Hardening.
From Stdlib Require Import Ascii SpecFloat.

(** ** The state *)

Inductive counter :=
| status200 | status400 | status500 | statusOther
| latencyLt1ms | latencyLt5ms | latencyLt10ms | latencyLt50ms | latencyLt100ms | latencyLt500ms
| latencyLt1000ms | latencyLt5000ms | latencyLt10000ms | latencyGte10000ms
| reject429 | reject503.

#[export] Instance counter_eq_dec : EqDecision counter.
Proof. solve_decision. Defined.

Definition Metrics : Type := counter -> Z.
(** [atomic.AddUint64(&c, 1)]. *)
Definition bump (c : counter) (m : Metrics) : Metrics :=
  fun c' => if decide (c' = c) then wrap_u64 (m c' + 1) else m c'.

(** The package variables the handlers change. *)
Class ServerState (W : Type) := {
  metrics : W -> Metrics;
  set_metrics : Metrics -> W -> W;
  topQueries : W -> TopQueries.TopQueries;
  set_topQueries : TopQueries.TopQueries -> W -> W;
  topUsers : W -> TopQueries.TopQueries;
  set_topUsers : TopQueries.TopQueries -> W -> W
}.

(** db.RolePools: a pool and the function that gives its slot back. *)
Class PoolManager (W Pool : Type) := {
  Acquire : string -> W -> result db_err (Pool * (W -> W)) * W;
  Evict : string -> W -> W
}.

(** ** Metrics *)

(** [responseWriter.statusCode]: the last WriteHeader. *)
Definition rw_status (cs : list wcall) : Z :=
  foldl (fun s c => match c with WriteHeader code => code | _ => s end) 200%Z cs.

Definition status_counters (code : Z) : list counter :=
  if (code =? 200)%Z then [status200]
  else if (code =? 400)%Z then [status400]
  else if (code =? 500)%Z then [status500]
  else if (code =? 429)%Z then [reject429; statusOther]
  else if (code =? 503)%Z then [reject503; statusOther]
  else [statusOther].
Definition latency_counter (duration : Z) : counter :=
  if (duration <? 1)%Z then latencyLt1ms
  else if (duration <? 5)%Z then latencyLt5ms
  else if (duration <? 10)%Z then latencyLt10ms
  else if (duration <? 50)%Z then latencyLt50ms
  else if (duration <? 100)%Z then latencyLt100ms
  else if (duration <? 500)%Z then latencyLt500ms
  else if (duration <? 1000)%Z then latencyLt1000ms
  else if (duration <? 5000)%Z then latencyLt5000ms
  else if (duration <? 10000)%Z then latencyLt10000ms
  else latencyGte10000ms.

Section metrics.
Context {W C : Type} `{Clock W} `{ServerState W}.

Definition count (cs : list counter) : M W unit :=
  lift (fun w => (tt, set_metrics (foldr bump (metrics w) (rev cs)) w)).
(** [time.Since(start).Milliseconds()]. *)
Definition since_ms (start : Z) : M W Z :=
  let* now := lift Now in ret (Z.quot (now - start) 1000000).

(** Nothing is counted when the handler panics. *)
Definition metricsMiddleware (next : Handler W C) : Handler W C := fun c r =>
  let* start := lift Now in
  let* ca := listen (next c r) in
  let* duration := since_ms start in
  count (status_counters (rw_status (fst ca)) ++ [latency_counter duration]).
End metrics.

(** ** Errors and bodies *)

Definition genericInternalErrorMsg : string := "internal error".
Definition forbiddenBody : string := js "{`type`:`Error`,`message`:`forbidden`}".

Definition ErrorResponse (msg : string) : value :=
  VStruct [("type", VString "Error"); ("message", VString msg)].

Section bodies.
Context {W : Type} `{FloatFormat}.

(** [json.NewEncoder(w).Encode(v)]: one Write, or none when [v] cannot be encoded. *)
Definition encode_to (v : value) : M W unit :=
  match Encode v with Some s => call (Write s) | None => ret tt end.
Definition writeJSON (status : Z) (v : value) : M W unit :=
  call (HSet "Content-Type" "application/json") ;;
  call (WriteHeader status) ;;
  encode_to v.
(** The cause is only logged. *)
Definition writeError (status : Z) (clientMsg : string) : M W unit :=
  writeJSON status (ErrorResponse clientMsg).
Definition writeForbidden : M W unit :=
  call (HSet "Content-Type" "application/json") ;;
  call (WriteHeader 403) ;;
  call (Write forbiddenBody).
End bodies.

(** [cappedBuffer.Write] on a buffer with [buf] in it: [None] is
    errResponseTooLarge. *)
Definition capped_Write (limit : Z) (buf p : string) : option string :=
  if (0 <? limit)%Z && (limit <? Z.of_nat (String.length buf + String.length p))%Z then None
  else Some (buf +:+ p).

(** ** Request bodies *)

(** What the body reader yields, and whether it was cut off: http.MaxBytesReader
    gives the allowed bytes and then an error. *)
Definition body_content (r : Request) : string * bool :=
  let content := default EmptyString (r_Body r) in
  match r_BodyLimit r with
  | Some n =>
      if (n <? Z.of_nat (String.length content))%Z
      then (str_take (Z.to_nat n) content, true) else (content, false)
  | None => (content, false)
  end.
Definition is_composite (j : json) : bool := match j with JArray _ | JObject _ => true | _ => false end.
(** [json.NewDecoder(body).Decode]: the first value; the end of a scalar only
    shows at the next byte, which a cut-off body does not have. *)
Definition decode_body (r : Request) : option json :=
  let '(content, cut) := body_content r in
  '(v, rest) ← parse_value (json_fuel content) 0 content;
  if cut && negb (is_composite v) && String.eqb rest EmptyString then None else Some v.

(** The request of /pathql. *)
Record QLRequest := { q_Query : string; q_Params : value; q_Paths : option (list (string * string)) }.
Definition decode_QLRequest (r : Request) : option QLRequest :=
  match decode_body r with
  | Some JNull => Some {| q_Query := EmptyString; q_Params := VNil; q_Paths := None |}
  | Some (JObject l) =>
      query ← assign set_string EmptyString (field "query" l);
      params ← assign set_any VNil (field "params" l);
      paths ← assign set_string_map None (field "paths" l);
      Some {| q_Query := query; q_Params := params; q_Paths := paths |}
  | _ => None
  end.

(** ** /pathql (pathql.go) *)

Section server.
Context {W Pool Tx : Type} `{Clock W} `{Rand W} `{Cache W} `{ServerState W} `{AuthCounters W}.
Context `{PathSqlx W Pool Tx} `{PoolManager W Pool} `{FloatFormat} `{UnicodeTables} `{MapOrder}.
Context (cfg : Config) (pool : Pool).

Local Abbreviation handler := (Handler W (option Principal)).

(** Recording is a nil dereference only for a tracker without capacity. *)
Definition record_query (query : string) (start : Z) : M W unit :=
  let* ms := since_ms start in
  let* t := lift (fun w => (topQueries w, w)) in
  match Record_ query (wrap_u64 ms) t with
  | Some t => lift (fun w => (tt, set_topQueries t w))
  | None => panic "nil pointer dereference"
  end.
Definition record_user (user : string) (start : Z) : M W unit :=
  let* ms := since_ms start in
  let* t := lift (fun w => (topUsers w, w)) in
  match Record_ user (wrap_u64 ms) t with
  | Some t => lift (fun w => (tt, set_topUsers t w))
  | None => panic "nil pointer dereference"
  end.

(** [errors.Is(err, DeadlineExceeded) || errors.Is(ctx.Err(), DeadlineExceeded)]. *)
Definition timed_out (in_err : bool) (deadline : Z) : M W bool :=
  if in_err then ret true else let* now := lift Now in ret (deadline <=? now)%Z.

(** The pool of a caller and how to release it; [None] after an error response. *)
Definition selectQueryPool (deadline : Z) (principal : option Principal) :
    M W (option (Pool * M W unit)) :=
  if negb (String.eqb (IdentityKind (Sec cfg)) "login_role") then ret (Some (pool, ret tt))
  else
    match principal with
    | None => writeError 401 "authentication required" ;; ret None
    | Some p =>
        match RoleName (Prefix (Config.Roles cfg)) (UserID p) with
        | Err _ => writeError 500 genericInternalErrorMsg ;; ret None
        | Ok role =>
            let* r := lift (Acquire role) in
            match r with
            | Err e =>
                let* late := timed_out (is_deadline e) deadline in
                (if late : bool then writeError 503 "server busy"
                 else writeError 500 genericInternalErrorMsg) ;; ret None
            | Ok (rp, rel) => ret (Some (rp, lift (fun w => (tt, rel w))))
            end
        end
    end.

(** Read or write, by the gate or the classification. *)
Definition admission (query : string) : result gate_error (SqlGate.Class * bool) :=
  if WritesEnabled cfg then
    class ← Classify query;
    Ok (class, match class with ClassWrite => HasReturning query | _ => false end)
  else
    match Check query (to_Mode (SQLGate (Sec cfg))) with
    | Some e => Err e
    | None => Ok (ClassRead, false)
    end.

Definition query_options : QueryOptions :=
  let statementTimeout := wrap_i64 (MaxQueryMs (Lim cfg) * 1000000) in
  let postgres := String.eqb (Driver cfg) "postgres" in
  {| ReadOnly := SecReadOnly (Sec cfg);
     StatementTimeout := statementTimeout; IdleInTxTimeout := statementTimeout;
     WorkMemKB := ConfWorkMemKB (Lim cfg);
     MaxEstimatedCost := if postgres then ConfMaxEstimatedCost (Lim cfg) else zero_float;
     MaxEstimatedRows := if postgres then ConfMaxEstimatedRows (Lim cfg) else 0%Z;
     MaxAffectedRows := ConfMaxAffectedRows (Lim cfg) |}.
Definition read_only_options (o : QueryOptions) : QueryOptions :=
  {| ReadOnly := true; StatementTimeout := StatementTimeout o; IdleInTxTimeout := IdleInTxTimeout o;
     WorkMemKB := WorkMemKB o; MaxEstimatedCost := MaxEstimatedCost o;
     MaxEstimatedRows := MaxEstimatedRows o; MaxAffectedRows := MaxAffectedRows o |}.

Definition run_statement (queryPool : Pool) (request : QLRequest) (class : SqlGate.Class)
    (hasReturning : bool) : M W (result exec_error value) :=
  let params := named_params (q_Params request) in
  let paths := default [] (q_Paths request) in
  if WritesEnabled cfg && bool_decide (class = ClassWrite) then
    RunWrite queryPool (q_Query request) params paths query_options hasReturning
  else
    RunQuery queryPool (q_Query request) params paths
      (if WritesEnabled cfg then read_only_options query_options else query_options).

Definition err_deadline (e : exec_error) : bool :=
  match e with ErrDriver e => is_deadline e | _ => false end.

Definition answer (deadline : Z) (r : result exec_error value) : M W unit :=
  match r with
  | Err e =>
      let* late := timed_out (err_deadline e) deadline in
      if late : bool then writeError 503 "query timed out"
      else if is_ErrQueryTooExpensive e then
        writeError 400 "query rejected: estimated cost or row count exceeds the configured limit"
      else if is_ErrTooManyRowsAffected e then
        writeError 400 "write rejected: affected row count exceeds the configured limit"
      else writeError 500 genericInternalErrorMsg
  | Ok response =>
      match Encode response with
      | None => writeError 500 genericInternalErrorMsg
      | Some s =>
          match capped_Write (MaxResponseBytes (Lim cfg)) EmptyString s with
          | None => writeError 413 "response too large"
          | Some buf =>
              call (HSet "Content-Type" "application/json") ;;
              call (Write buf)
          end
      end
  end.

Definition run_request (principal : option Principal) (request : QLRequest)
    (class : SqlGate.Class) (hasReturning : bool) : M W unit :=
  let* now := lift Now in
  let deadline := (now + StatementTimeout query_options)%Z in
  let* sel := selectQueryPool deadline principal in
  match sel with
  | None => ret tt
  | Some (queryPool, release) =>
      finally (let* r := run_statement queryPool request class hasReturning in answer deadline r)
              release
  end.

Definition serve_request (start : Z) (principal : option Principal) (request : QLRequest) : M W unit :=
  match q_Params request with
  | VSlice _ => writeError 400 "params must be an object, not an array"
  | _ =>
      match admission (q_Query request) with
      | Err e => writeError 400 (gate_error_text e)
      | Ok (class, hasReturning) =>
          match principal with
          | Some p => finally (run_request principal request class hasReturning)
                              (record_user (AppUser p) start)
          | None => run_request principal request class hasReturning
          end
      end
  end.

Definition PathQlEndpoint : handler := fun principal req =>
  let* start := lift Now in
  match decode_QLRequest req with
  | None => writeError 400 "invalid request body"
  | Some request =>
      if negb (String.eqb (q_Query request) EmptyString) then
        finally (serve_request start principal request) (record_query (q_Query request) start)
      else serve_request start principal request
  end.
End server.
