(* ===== verification/Endpoints.v ===== *)
(** * The other endpoints (src/pathql.go, schema.go, health.go, admin.go)

    [/metrics], [/schema], [/health] and the three [/admin] endpoints. Schema
    reflection (dbml-tools) and the database ping are parameters. *)

From S2P Require Import Prelude GoStrings Http GoJson GoCrypto TopQueries Roles Executor Auth Config Server.
From Stdlib Require Import Ascii.

(** ** /metrics *)

Definition load_counters (m : Metrics) (l : list (string * counter)) : value :=
  VMap (map (fun kc => (kc.1, VInt (m kc.2))) l).
Definition stat_value (name : string) (s : QueryStat) : value :=
  VStruct [(name, VString (Query s)); ("count", VInt (Count s)); ("total_ms", VInt (TotalMs s))].

Section metrics.
Context {W : Type} `{ServerState W} `{AuthCounters W} `{FloatFormat} `{MapOrder}.

Definition metrics_value (w : W) : value :=
  let m := metrics w in
  VMap
    [("status_codes", load_counters m
        [("200", status200); ("400", status400); ("500", status500); ("other", statusOther)]);
     ("latency_ms", load_counters m
        [("<1", latencyLt1ms); ("<5", latencyLt5ms); ("<10", latencyLt10ms); ("<50", latencyLt50ms);
         ("<100", latencyLt100ms); ("<500", latencyLt500ms); ("<1000", latencyLt1000ms);
         ("<5000", latencyLt5000ms); ("<10000", latencyLt10000ms); (">=10000", latencyGte10000ms)]);
     ("auth", VMap [("success", VInt (authCounts w).1); ("failure", VInt (authCounts w).2)]);
     ("rejections", load_counters m [("429", reject429); ("503", reject503)]);
     ("top_queries", VSlice (map (stat_value "query") (Top 10 (topQueries w))));
     ("top_users", VSlice (map (stat_value "user") (Top 10 (topUsers w))))].

Definition MetricsEndpoint : Handler W (option Principal) := fun _ _ =>
  let* response := lift (fun w => (metrics_value w, w)) in
  call (HSet "Content-Type" "application/json") ;;
  encode_to response.
End metrics.

(** ** /health (health.go) *)

Definition healthCacheTTL : Z := nanos_per_second.

(** The last ping: when, and whether it failed; [None] before the first. *)
Record healthChecker := { checkedAt : Z; lastErr : option string }.

Class Health (W : Type) := {
  health : W -> option healthChecker;
  set_health : option healthChecker -> W -> W;
  ping : W -> option string * W
}.

Section health.
Context {W : Type} `{Health W} `{Clock W} `{FloatFormat}.

(** [time.Since] is only read when there is a result. *)
Definition recent_result : M W (option (option string)) :=
  let* hc := lift (fun w => (health w, w)) in
  match hc with
  | None => ret None
  | Some hc =>
      let* now := lift Now in
      ret (if (now - checkedAt hc <? healthCacheTTL)%Z then Some (lastErr hc) else None)
  end.
Definition dbReachable : M W (option string) :=
  let* recent := recent_result in
  match recent with
  | Some err => ret err
  | None =>
      let* err := lift ping in
      let* now := lift Now in
      lift (fun w => (tt, set_health (Some {| checkedAt := now; lastErr := err |}) w)) ;;
      ret err
  end.

Definition health_value (up : bool) : value :=
  VMap (if up then [("status", VString "ok"); ("database", VString "up")]
        else [("status", VString "unavailable"); ("database", VString "down")]).
Definition HealthEndpoint {C} : Handler W C := fun _ _ =>
  let* err := dbReachable in
  match err with
  | None => writeJSON 200 (health_value true)
  | Some _ => writeJSON 503 (health_value false)
  end.
End health.

(** *** Many probes

    The two critical sections of [dbReachable] and the ping between them, outside
    the mutex, as the steps of a system of probes. *)

Inductive hphase :=
| HPinging                         (* in h.ping *)
| HPinged (err : option string)    (* before the second critical section *)
| HAnswered (err : option string). (* returned err *)

Record hsystem := HSystem {
  hs_time : Z;
  hs_result : option healthChecker;
  hs_calls : gmap nat hphase;
  hs_pings : nat                   (* pings begun *)
}.
Definition is_recent (now : Z) (hc : option healthChecker) : option (option string) :=
  match hc with
  | Some hc => if (now - checkedAt hc <? healthCacheTTL)%Z then Some (lastErr hc) else None
  | None => None
  end.

Inductive hstep : hsystem -> hsystem -> Prop :=
| hstep_time t' s :
    (hs_time s <= t')%Z -> hstep s (HSystem t' (hs_result s) (hs_calls s) (hs_pings s))
| hstep_recent t err s :
    hs_calls s !! t = None -> is_recent (hs_time s) (hs_result s) = Some err ->
    hstep s (HSystem (hs_time s) (hs_result s) (<[t := HAnswered err]> (hs_calls s)) (hs_pings s))
| hstep_ping t s :
    hs_calls s !! t = None -> is_recent (hs_time s) (hs_result s) = None ->
    hstep s (HSystem (hs_time s) (hs_result s) (<[t := HPinging]> (hs_calls s)) (S (hs_pings s)))
| hstep_pinged t err s :
    hs_calls s !! t = Some HPinging ->
    hstep s (HSystem (hs_time s) (hs_result s) (<[t := HPinged err]> (hs_calls s)) (hs_pings s))
| hstep_store t err s :
    hs_calls s !! t = Some (HPinged err) ->
    hstep s (HSystem (hs_time s) (Some {| checkedAt := hs_time s; lastErr := err |})
               (<[t := HAnswered err]> (hs_calls s)) (hs_pings s)).

(** ** /schema (schema.go) *)

Class Introspection (W Pool Engine Schema : Type) := {
  EnginePostgres : Engine;
  Introspect : Pool -> Engine -> string -> W -> result db_err Schema * W;
  GenerateDBML : Schema -> string -> bool -> string
}.

Section schema.
Context {W Pool Engine Schema : Type} `{Clock W} `{PoolManager W Pool} `{FloatFormat}.
Context `{Introspection W Pool Engine Schema}.

Definition schemaEngine (driver : string) : option (Engine * string) :=
  if String.eqb driver "postgres" then Some (EnginePostgres, "public") else None.

Definition schema_answer (cfg : Config) (deadline : Z) (r : result db_err Schema) : M W unit :=
  match r with
  | Err e =>
      let* late := timed_out (is_deadline e) deadline in
      if late : bool then writeError 503 "query timed out"
      else writeError 500 genericInternalErrorMsg
  | Ok schema =>
      let dbml := GenerateDBML schema "PostgreSQL" false in
      if (0 <? MaxResponseBytes (Lim cfg))%Z
         && (MaxResponseBytes (Lim cfg) <? Z.of_nat (String.length dbml))%Z
      then writeError 413 "response too large"
      else
        call (HSet "Content-Type" "text/plain; charset=utf-8") ;;
        call (Write dbml)
  end.

Definition SchemaEndpoint (cfg : Config) (pool : Pool) : Handler W (option Principal) :=
  fun principal _ =>
  match schemaEngine (Driver cfg) with
  | None => writeError 501 "schema reflection is only available for the postgres driver"
  | Some (engine, schemaName) =>
      let* now := lift Now in
      let deadline := (now + wrap_i64 (MaxQueryMs (Lim cfg) * 1000000))%Z in
      let* sel := selectQueryPool cfg pool deadline principal in
      match sel with
      | None => ret tt
      | Some (queryPool, release) =>
          finally (let* r := lift (Introspect queryPool engine schemaName) in
                   schema_answer cfg deadline r)
                  release
      end
  end.
End schema.

(** ** /admin (admin.go) *)

Record adminAddUserRequest := {
  au_Username : string; au_AppUser : string; au_Password : string; au_GenerateAPIKey : bool
}.
Definition decode_adminAddUserRequest (r : Request) : option adminAddUserRequest :=
  match decode_body r with
  | Some JNull => Some (Build_adminAddUserRequest "" "" "" false)
  | Some (JObject l) =>
      username ← assign set_string EmptyString (field "username" l);
      app_user ← assign set_string EmptyString (field "app_user" l);
      password ← assign set_string EmptyString (field "password" l);
      generate ← assign set_bool false (field "generate_api_key" l);
      Some {| au_Username := username; au_AppUser := app_user; au_Password := password;
              au_GenerateAPIKey := generate |}
  | _ => None
  end.

Definition adminAddUserResponse (id : Z) (role api_key : string) : value :=
  VStruct ([("id", VInt id); ("role", VString role)]
           ++ (if String.eqb api_key EmptyString then [] else [("api_key", VString api_key)])
           ++ [("note", VString "role is created on the next roles sync")]).

(** [hex.EncodeToString(mac.Sum(nil))[:32]]. *)
Definition rolePassword (secret role : string) : string :=
  str_take 32 (hex_encode (hmac_sha256 secret role)).
Definition rolePasswordFunc (cfg : Config) : string -> string := rolePassword (PasswordSecret (Config.Roles cfg)).

Section admin.
Context {W Pool Tx : Type} `{Rand W} `{AuthDB W Tx} `{Bcrypt W} `{RolesDB W} `{PoolManager W Pool}.
Context `{FloatFormat} `{PqQuote} `{MapOrder} (cfg : Config) (tables : auth_tables).

Local Abbreviation handler := (Handler W (option Principal)).

Definition newAPIKey : M W (result string string) :=
  let* b := lift (rand_Read 24) in
  ret match b with Ok b => Ok (hex_encode b) | Err e => Err e end.

(** The hash of a password; none for the empty one. *)
Definition hash_password (password : string) : M W (result string string) :=
  if String.eqb password EmptyString then ret (Ok EmptyString)
  else lift (GenerateFromPassword password).

Definition role_or_empty (id : Z) : string :=
  match RoleName (Prefix (Config.Roles cfg)) id with Ok role => role | Err _ => EmptyString end.

Definition add_key (id : Z) : M W (result string string) :=
  let* key := newAPIKey in
  match key with
  | Err e => ret (Err e)
  | Ok key =>
      let* r := lift (AddAPIKey tables id (str_take 8 key) (Sum256 key) "admin-created") in
      ret match r with Ok _ => Ok key | Err _ => Err "auth: add api key" end
  end.

Definition adminAddUser : handler := fun _ req =>
  match decode_adminAddUserRequest req with
  | None => writeError 400 "invalid request body"
  | Some body =>
      if String.eqb (au_Username body) EmptyString then writeError 400 "username is required"
      else
        let* hash := hash_password (au_Password body) in
        match hash with
        | Err _ => writeError 500 genericInternalErrorMsg
        | Ok passwordHash =>
            let* id := lift (AddUser tables (au_Username body) (au_AppUser body) passwordHash) in
            match id with
            | Err _ => writeError 400 "could not create user"
            | Ok id =>
                if au_GenerateAPIKey body then
                  let* key := add_key id in
                  match key with
                  | Err _ => writeError 500 genericInternalErrorMsg
                  | Ok key => writeJSON 201 (adminAddUserResponse id (role_or_empty id) key)
                  end
                else writeJSON 201 (adminAddUserResponse id (role_or_empty id) EmptyString)
            end
        end
  end.

(** [rolePools] exists only with identity_kind "login_role". *)
Definition evict (role : string) : M W unit :=
  if String.eqb (IdentityKind (Sec cfg)) "login_role" then lift (fun w => (tt, Evict role w))
  else ret tt.
Definition adminDeleteUser : handler := fun _ req =>
  match ParseInt (r_PathValue req) with
  | None => writeError 400 "invalid user id"
  | Some id =>
      if (id <=? 0)%Z then writeError 400 "invalid user id"
      else
        let* deleted := lift (DeleteUser tables id) in
        match deleted with
        | Err _ => writeError 500 genericInternalErrorMsg
        | Ok false => writeError 404 "no such user"
        | Ok true =>
            let resp := [("deleted", VBool true); ("note", VString "run the roles sync to drop the role")] in
            match RoleName (Prefix (Config.Roles cfg)) id with
            | Err _ => writeJSON 200 (VMap resp)
            | Ok role => evict role ;; writeJSON 200 (VMap (resp ++ [("role", VString role)]))
            end
        end
  end.

(** A nil slice where there is nothing to list; [DDL] is never nil. *)
Definition strings_value (l : list string) : value :=
  match l with [] => VNil | _ => VSlice (map VString l) end.
Definition plan_value (plan : Plan) : value :=
  VMap [("create", strings_value (plan_Create plan));
        ("grant_reader", strings_value (plan_GrantReader plan));
        ("alter_password", strings_value (plan_AlterPassword plan));
        ("drop", strings_value (plan_Drop plan));
        ("ddl", VSlice (map VString (plan_DDL plan)))].

Definition adminRolesSync : handler := fun _ _ =>
  let r := Config.Roles cfg in
  let* plan := lift (LoadAndCompute (AuthTablePrefix (Sec cfg)) (Prefix r) (ReaderRole r)
                       (Some (rolePasswordFunc cfg))) in
  match plan with
  | Err _ => writeError 500 genericInternalErrorMsg
  | Ok plan => writeJSON 200 (plan_value plan)
  end.
End admin.

