(* ===== verification/Routes.v ===== *)
(** * Routes and start-up (src/pathql.go, schema.go, health.go, admin.go)

    The handler chain of every route, in the order of the code; the router behind
    the firewall; the authentication chain of a configuration; the start-up
    hardening decision; the redirect listener. The matching of net/http.ServeMux
    is a parameter, and so are the semaphores, whose interleavings are the file
    Concurrency. *)

From S2P Require Import Prelude GoStrings GoNet Http GoHttp GoJson GoCrypto Cache Middleware.
From S2P Require Import Concurrency Roles Executor Auth Jwt Config Hardening Server Endpoints.
From Stdlib Require Import Ascii.

(** The semaphores of one route: every chain makes its own. *)
Record Limiters (W : Type) := {
  global_try_send : W -> bool * W;
  global_receive : W -> unit * W;
  user_acquire : string -> W -> bool * W;
  user_release : string -> W -> unit * W
}.
Arguments global_try_send {W} _ _.
Arguments global_receive {W} _ _.
Arguments user_acquire {W} _ _ _.
Arguments user_release {W} _ _ _.

(** ** Authorization *)

Section authorize.
Context {W : Type}.
Local Abbreviation handler := (Handler W (option Principal)).

Definition principalKey (c : option Principal) (r : Request) : string :=
  match c with Some p => AppUser p | None => EmptyString end.

Definition denyAppUser (name : string) (next : handler) : handler :=
  if String.eqb name EmptyString then next
  else fun c r =>
    match c with
    | Some p => if String.eqb (AppUser p) name then writeForbidden else next c r
    | None => next c r
    end.

Definition requireAppUser (name : string) (next : handler) : handler := fun c r =>
  if String.eqb name EmptyString then writeForbidden
  else
    match c with
    | Some p => if negb (String.eqb (AppUser p) name) then writeForbidden else next c r
    | None => writeForbidden
    end.
End authorize.

(** ** The chains *)

Section chains.
Context {W : Type} `{Clock W} `{Rand W} `{Cache W} `{UnicodeTables} `{ServerState W} `{AuthCounters W}.
Context (c : Config) (chain : option (list (Authenticator W))) (trustedProxies : list IPNet).
Context (lims : Limiters W).

Local Abbreviation handler := (Handler W (option Principal)).

(** [if cond { h = mw(h) }]. *)
Definition when (cond : bool) (mw : handler -> handler) (h : handler) : handler :=
  if cond then mw h else h.

Definition authenticated (h : handler) : handler :=
  match chain with Some auths => Chain_Middleware auths h | None => h end.
Definition hsts (h : handler) : handler := when (Enabled (TLS c) && TLSHSTS (TLS c)) HSTS h.
Definition globalInflight (h : handler) : handler :=
  GlobalInflight (global_try_send lims) (global_receive lims) (MaxConcurrentGlobal (Lim c)) h.
Definition perUser (h : handler) : handler :=
  PerUserConcurrency (user_acquire lims) (user_release lims) (MaxConcurrentPerUser (Lim c)) principalKey h.
Definition rateLimit (h : handler) : handler :=
  RateLimitPerIP true (MaxRequestsPerMinIP (Lim c)) trustedProxies h.
Definition lockout (h : handler) : handler :=
  BruteForceLockout true (MaxAuthFailuresPerMin (Lim c)) trustedProxies h.
Definition xsrf (h : handler) : handler := XSRF (String.eqb (XSRFMode (Sec c)) "on") h.

(** What the public and the schema chain have between metrics and endpoint. *)
Definition data_access (endpoint : handler) : handler :=
  let h := perUser endpoint in
  let h := denyAppUser (MetricsUser (Sec c)) h in
  let h := denyAppUser (AdminUser (Sec c)) h in
  let h := authenticated h in
  lockout h.

Definition publicHandler (PathQlEndpoint : handler) : handler :=
  let h := data_access PathQlEndpoint in
  let h := metricsMiddleware h in
  let h := rateLimit h in
  let h := globalInflight h in
  let h := BodyLimit (MaxBodyBytes (Lim c)) h in
  let h := RequireContentTypeJSON h in
  let h := xsrf h in
  let h := RequestID h in
  let h := CORS (AllowedOrigins c) h in
  let h := hsts h in
  let h := SecurityHeaders h in
  Recover h.

Definition schemaHandler (SchemaEndpoint : handler) : handler :=
  let h := data_access SchemaEndpoint in
  let h := metricsMiddleware h in
  let h := rateLimit h in
  let h := globalInflight h in
  let h := RequestID h in
  let h := CORS (AllowedOrigins c) h in
  let h := hsts h in
  let h := SecurityHeaders h in
  Recover h.

Definition metricsHandler (MetricsEndpoint : handler) : handler :=
  let h := requireAppUser (MetricsUser (Sec c)) MetricsEndpoint in
  let h := authenticated h in
  let h := lockout h in
  let h := rateLimit h in
  let h := globalInflight h in
  let h := RequestID h in
  let h := hsts h in
  let h := SecurityHeaders h in
  Recover h.

Definition adminHandler (endpoint : handler) : handler :=
  let h := requireAppUser (AdminUser (Sec c)) endpoint in
  let h := authenticated h in
  let h := lockout h in
  let h := rateLimit h in
  let h := globalInflight h in
  let h := BodyLimit (MaxBodyBytes (Lim c)) h in
  let h := RequireContentTypeJSON h in
  let h := xsrf h in
  let h := RequestID h in
  let h := hsts h in
  let h := SecurityHeaders h in
  Recover h.

Definition healthHandler (HealthEndpoint : handler) : handler :=
  Recover (SecurityHeaders (RequestID HealthEndpoint)).
End chains.

(** ** The authentication chain of a configuration *)

Section auth_chain.
Context {W Tx : Type} `{Clock W} `{Cache W} `{AuthDB W Tx} `{Bcrypt W} `{JWTLib W} `{HTTPClient W} `{UnicodeTables}.
Context (dummyBcryptHash : string).

Definition jwt_config (c : Config) : JWTConfig :=
  {| Algorithms := JWTAlgorithms (AuthC c); Issuer := JWTIssuer (AuthC c);
     Audience := JWTAudience (AuthC c); UserClaim := JWTUserClaim (AuthC c);
     HS256Secret := JWTHS256Secret (AuthC c); JWKSURL := JWTJWKSURL (AuthC c);
     JWKSTTL := JWKSTTLDuration (CacheC c); RequireUserRow := ConfRequireUserRow (AuthC c) |}.

(** The authenticator of a method; none for a name the switch does not have. *)
Definition method_auth (c : Config) (store : UserStore W) (m : string) :
    result string (list (Authenticator W)) :=
  if String.eqb m "apikey" then Ok [APIKey_Authenticate (APIKeyHeader (AuthC c))]
  else if String.eqb m "basic" then Ok [Basic_Authenticate dummyBcryptHash]
  else if String.eqb m "jwt" then
    a ← NewJWTAuthenticator (jwt_config c) true true; Ok [JWT_Authenticate a]
  else Ok [].
Fixpoint method_auths (c : Config) (store : UserStore W) (ms : list string) :
    result string (list (Authenticator W)) :=
  match ms with
  | [] => Ok []
  | m :: ms => a ← method_auth c store m; auths ← method_auths c store ms; Ok (a ++ auths)
  end.

Definition buildAuthChain (c : Config) : result string (option (list (Authenticator W))) :=
  match Methods (AuthC c) with
  | [] => Ok None
  | ms =>
      store ← NewSQLUserStore (AuthTablePrefix (Sec c));
      auths ← method_auths c store ms;
      Ok (Some auths)
  end.
End auth_chain.

(** ** The router *)

(** net/http.ServeMux: the pattern that matches a request, and what it answers
    itself where none does. *)
Class ServeMux (W : Type) := {
  mux_match : list string -> Request -> option string;
  mux_other : list string -> Handler W (option Principal)
}.

Section router.
Context {W Pool Engine Schema Tx : Type} `{Clock W} `{Rand W} `{Cache W} `{UnicodeTables}.
Context `{ServerState W} `{AuthCounters W} `{PathSqlx W Pool Tx} `{PoolManager W Pool} `{FloatFormat}.
Context `{MapOrder} `{Health W} `{Introspection W Pool Engine Schema} `{AuthDB W Tx} `{Bcrypt W}.
Context `{RolesDB W} `{PqQuote} `{ServeMux W}.
Context (c : Config) (pool : Pool) (tables : auth_tables) (chain : option (list (Authenticator W))).
Context (trustedProxies firewallAllow firewallDeny : list IPNet).
(* the semaphores made for each chain *)
Context (lims : string -> Limiters W).

Local Abbreviation handler := (Handler W (option Principal)).

Definition route_table : list (string * handler) :=
  let pathqlH := publicHandler c chain trustedProxies (lims "/pathql") (PathQlEndpoint c pool) in
  let schemaH := schemaHandler c chain trustedProxies (lims "/schema") (SchemaEndpoint c pool) in
  let admin name := adminHandler c chain trustedProxies (lims name) in
  [("POST /pathql", pathqlH);
   ("OPTIONS /pathql", pathqlH);
   ("GET /health", healthHandler HealthEndpoint);
   ("GET /schema", schemaH);
   ("OPTIONS /schema", schemaH);
   ("GET /metrics", metricsHandler c chain trustedProxies (lims "/metrics") MetricsEndpoint);
   ("POST /admin/users", admin "POST /admin/users" (adminAddUser c tables));
   ("DELETE /admin/users/{id}", admin "DELETE /admin/users/{id}" (adminDeleteUser c tables));
   ("GET /admin/roles/sync", admin "GET /admin/roles/sync" (adminRolesSync c))].

Fixpoint route_of (pattern : string) (l : list (string * handler)) : option handler :=
  match l with
  | [] => None
  | (p, h) :: l => if String.eqb p pattern then Some h else route_of pattern l
  end.

Definition router : handler := fun p r =>
  let patterns := map fst route_table in
  match pattern ← mux_match patterns r; route_of pattern route_table with
  | Some h => h p r
  | None => mux_other patterns p r
  end.
Definition rootHandler : handler := Firewall firewallAllow firewallDeny trustedProxies router.
End router.

(** ** Start-up *)

(** What [runStartupChecks] logs, and whether it aborts the process. *)
Record startup := { su_warnings : list string; su_critical : list string; su_dbChecked : bool; su_abort : bool }.

Section startup.
Context {W : Type} `{CatalogDB W} `{UnicodeTables}.

(** [None] when the checks are off. *)
Definition runStartupChecks (c : Config) : M W (option startup) :=
  let s := Sec c in
  if String.eqb (StartupChecks s) "off" then ret None
  else
    let critical := match WeakRoleSecretFinding c with Some finding => [finding] | None => [] end in
    let enforce := String.eqb (StartupChecks s) "enforce" in
    let rls_is_critical := enforce && String.eqb (IdentityKind s) "login_role" in
    let* rep := VerifyHardening (Driver c) (AuthTablePrefix s) rls_is_critical (WritesEnabled c)
                  rls_is_critical in
    let '(warnings, critical, dbChecked) :=
      match rep with
      | Err _ => ([], critical, false)
      | Ok rep => (Warnings rep, critical ++ Critical rep, true)
      end in
    ret (Some {| su_warnings := warnings; su_critical := critical; su_dbChecked := dbChecked;
                 su_abort := enforce && negb (bool_decide (critical = [])) |}).
End startup.

(** The connection string of [pool], and the role the auth look-ups run as. *)
Definition baseline_dsn (cfg : Config) : string :=
  if String.eqb (IdentityKind (Sec cfg)) "login_role" then
    let role := BaselineRole (Config.Roles cfg) in
    BaseDSN (Config.Roles cfg) +:+ " user=" +:+ role +:+ " password=" +:+ rolePasswordFunc cfg role
  else DSN cfg.

(** ** The redirect listener *)

(** net/http's [hexEscapeNonASCII] and [htmlEscape]. *)
Fixpoint hexEscapeNonASCII (s : string) : string :=
  match s with
  | EmptyString => EmptyString
  | String c s =>
      if is_ascii_byte c then String c (hexEscapeNonASCII s)
      else "%" +:+ hex_encode (String c EmptyString) +:+ hexEscapeNonASCII s
  end.
Definition html_escape_byte (c : ascii) : string :=
  if Ascii.eqb c "&" then "&amp;" else if Ascii.eqb c "<" then "&lt;"
  else if Ascii.eqb c ">" then "&gt;" else if Ascii.eqb c dquote then "&#34;"
  else if Ascii.eqb c "'" then "&#39;" else String c EmptyString.
Fixpoint htmlEscape (s : string) : string :=
  match s with EmptyString => EmptyString | String c s => html_escape_byte c +:+ htmlEscape s end.

(** [http.Redirect] to an absolute URL, on a response without Content-Type. *)
Definition redirect_to {W} (r : Request) (url : string) (code : Z) (status_text : string) : M W unit :=
  call (HSet "Location" (hexEscapeNonASCII url)) ;;
  (if bool_decide (r_Method r ∈ ["GET"; "HEAD"])
   then call (HSet "Content-Type" "text/html; charset=utf-8") else ret tt) ;;
  call (WriteHeader code) ;;
  if String.eqb (r_Method r) "GET" then
    call (Write (js "<a href=`" +:+ htmlEscape url +:+ js "`>" +:+ status_text +:+ "</a>." +:+ newline +:+ newline))
  else ret tt.

Definition redirectToHTTPS {W C} : Handler W C := fun _ r =>
  let host := match SplitHostPort (r_Host r) with Some (h, _) => h | None => r_Host r end in
  redirect_to r ("https://" +:+ host +:+ r_RequestURI r) 301 "Moved Permanently".
