(* ===== verification/Startup.v ===== *)
(** * The start of the process (src/pathql.go main, internal/db/db.go, internal/cache/cache.go)

    What [main] does between reading the configuration and serving, up to the
    first step that is fatal, and the servers it then runs. The pools live in the
    heap of [RolePool]; log lines, signals and the shutdown are left out. *)

From S2P Require Import Prelude GoStrings GoNet Http GoHttp GoJson GoCrypto Cache Middleware RolePool.
From S2P Require Import Concurrency Roles Executor Auth Jwt Config Hardening Server Endpoints Routes.
From Stdlib Require Import Ascii.

(** ** The cache and the shared pool *)

(** tqmemory.NewSharded, of a memory cap, a stale multiplier and a number of
    workers, and runtime.NumCPU: only whether there is an error. *)
Class TQConstruct := {
  NumCPU : Z;
  NewSharded : Z -> Z -> Z -> result string unit
}.

Definition NewEmbedded `{TQConstruct} (memoryMB : Z) : result string unit :=
  let workers := if (NumCPU <? 1)%Z then 1%Z else NumCPU in
  NewSharded (wrap_i64 (Z.shiftl memoryMB 20)) 0 workers.

Definition OpenPool `{Opener} (driver dsn : string) (maxOpen maxIdle connMaxLifetime : Z) (h : heap) :
    result string nat * heap :=
  match open_db driver dsn h with
  | (Err e, h) => (Err e, h)
  | (Ok k, h) =>
      (Ok k, alter (fun d => SetConnMaxLifetime connMaxLifetime
                               (SetMaxIdleConns maxIdle (SetMaxOpenConns maxOpen d))) k h)
  end.

(** ** Fatal errors, and the process they did not stop *)

Inductive fatal :=
| FConfig (e : config_error)
| FCache (e : string)
| FTrustedProxies (entry : string)
| FFirewall (entry : string)
| FRolePools (e : db_error)
| FOpen (e : string)
| FUserAdmin (e : string)
| FHardening (findings : nat)
| FAuthChain (e : string).

Definition or_fatal {E A} (f : E -> fatal) (r : result E A) : result fatal A :=
  match r with Ok a => Ok a | Err e => Err (f e) end.

Record nets := Nets { n_trusted : list IPNet; n_allow : list IPNet; n_deny : list IPNet }.

(** [time.Duration(ms) * time.Millisecond]. *)
Definition ms (n : Z) : Z := wrap_i64 (n * 1000000).

(** The steps before the database. *)
Definition prepare `{Environment} `{TQConstruct} (path : string) : result fatal (Config * nets) :=
  c ← or_fatal FConfig (Load path);
  _ ← or_fatal FCache (NewEmbedded (MemoryMB (CacheC c)));
  trusted ← or_fatal FTrustedProxies (ParseTrustedProxies (TrustedProxies (Sec c)));
  allow ← or_fatal FFirewall (ParseTrustedProxies (AllowIPs (Sec c)));
  deny ← or_fatal FFirewall (ParseTrustedProxies (DenyIPs (Sec c)));
  Ok (c, Nets trusted allow deny).

Definition pool_params (c : Config) : PoolParams :=
  let d := Database c in
  {| MaxOpen := MaxOpenConns d; MaxIdle := MaxIdleConns d;
     ConnMaxLifetime := ms (ConnMaxLifetimeMs d); ConnMaxIdleTime := ms (ConnMaxIdleTimeMs d) |}.

Definition open_rolePools (c : Config) : result fatal (option RolePools) :=
  if String.eqb (IdentityKind (Sec c)) "login_role" then
    p ← or_fatal FRolePools
          (NewRolePools (Driver c) (BaseDSN (Config.Roles c)) (MaxTotalBackends (Database c))
             (WarmPoolLimit (Config.Roles c)) (pool_params c));
    Ok (Some (UseRolePassword (Some (rolePasswordFunc c)) p))
  else Ok None.

Definition open_pool `{Opener} (c : Config) (h : heap) : result fatal nat * heap :=
  let d := Database c in
  let '(r, h) := OpenPool (Driver c) (baseline_dsn c) (MaxOpenConns d) (MaxIdleConns d)
                   (ms (ConnMaxLifetimeMs d)) h in
  (or_fatal FOpen r, h).

(** ** The start *)

(** What [main] has in its variables when it builds the router. *)
Record process (W : Type) := Process {
  pr_cfg : Config;
  pr_nets : nets;
  pr_rolePools : option RolePools;
  pr_pool : nat;
  pr_tables : auth_tables;
  pr_startup : option startup;
  pr_chain : option (list (Authenticator W))
}.
Arguments Process {W}.
Arguments pr_cfg {W}.
Arguments pr_nets {W}.
Arguments pr_rolePools {W}.
Arguments pr_pool {W}.
Arguments pr_tables {W}.
Arguments pr_startup {W}.
Arguments pr_chain {W}.

(** The number of critical findings the checks abort with. *)
Definition aborts (su : option startup) : option nat :=
  match su with
  | Some su => if su_abort su then Some (length (su_critical su)) else None
  | None => None
  end.

Section start.
Context {W Tx : Type} `{Environment} `{TQConstruct} `{Opener} `{Health W} `{CatalogDB W}.
Context `{Clock W} `{Cache W} `{AuthDB W Tx} `{Bcrypt W} `{JWTLib W} `{HTTPClient W} `{UnicodeTables}.
Context (dummyBcryptHash : string).

(** The steps that use the opened pool. *)
Definition checked (c : Config) (n : nets) (rolePools : option RolePools) (pool : nat) :
    M W (result fatal (process W)) :=
  let? tables := ret (or_fatal FUserAdmin (NewUserAdmin (AuthTablePrefix (Sec c)))) in
  lift ping ;;
  let* su := runStartupChecks c in
  match aborts su with
  | Some findings => ret (Err (FHardening findings))
  | None =>
      ret (chain ← or_fatal FAuthChain (buildAuthChain dummyBcryptHash c);
           Ok (Process c n rolePools pool tables su chain))
  end.

Definition start (path : string) (h : heap) : M W (result fatal (process W) * heap) :=
  match c_n ← prepare path; rolePools ← open_rolePools c_n.1; Ok (c_n, rolePools) with
  | Err e => ret (Err e, h)
  | Ok ((c, n), rolePools) =>
      match open_pool c h with
      | (Err e, h) => ret (Err e, h)
      | (Ok pool, h) => let* r := checked c n rolePools pool in ret (r, h)
      end
  end.
End start.

(** ** The servers *)

Record http_server (W : Type) := HTTPServer {
  srv_Addr : string;
  srv_TLS : option (string * string);   (* certificate and key file *)
  srv_ReadTimeout : Z; srv_WriteTimeout : Z; srv_IdleTimeout : Z;
  srv_Handler : Handler W (option Principal)
}.
Arguments HTTPServer {W}.
Arguments srv_Addr {W}.
Arguments srv_TLS {W}.
Arguments srv_Handler {W}.

Section servers.
Context {W : Type} (c : Config) (root : Handler W (option Principal)).

Definition server_of (addr : string) (tls : option (string * string)) (h : Handler W (option Principal)) :
    http_server W :=
  HTTPServer addr tls (ms (ReadMs (Times c))) (ms (WriteMs (Times c))) (ms (IdleMs (Times c))) h.

Definition publicSrv : http_server W :=
  server_of (Listen c) (if Enabled (TLS c) then Some (CertFile (TLS c), KeyFile (TLS c)) else None) root.
Definition redirectSrv : option (http_server W) :=
  if Enabled (TLS c) && negb (String.eqb (RedirectHTTP (TLS c)) EmptyString)
  then Some (server_of (RedirectHTTP (TLS c)) None redirectToHTTPS)
  else None.
End servers.
