(* ===== verification/Lifecycle.v ===== *)
(** * Serving and shutting down (the end of main in src/pathql.go)

    The listening goroutines, the select they and the signal are waited for with,
    the graceful shutdown and the deferred calls, as a step relation. Of net/http
    it has what the code relies on: [ListenAndServe] returns only with an error,
    http.ErrServerClosed once [Shutdown] was called; [Shutdown] takes no new
    request and returns when those under way are done or its context is. *)

From S2P Require Import Prelude GoStrings Config Routes Startup.

(** ** The state *)

(** A listening goroutine: in [ListenAndServe], at the send of its error, ended. *)
Inductive goroutine := Serving | Sending (e : string) | Ended.

(** A server and its goroutine: whether [Shutdown] was called, and how many
    requests are under way. *)
Record listener := Listener { ls_go : goroutine; ls_shut : bool; ls_active : nat }.

(** What [main] deferred, the last first. *)
Inductive deferred_call := CancelShutdown | StopSignals | ClosePool | CloseRolePools | CloseCache.

Definition deferred (c : Config) : list deferred_call :=
  [CancelShutdown; StopSignals; ClosePool]
  ++ (if String.eqb (IdentityKind (Sec c)) "login_role" then [CloseRolePools] else [])
  ++ [CloseCache].

Inductive main_phase :=
| AtSelect
| ShutPublic                              (* in publicSrv.Shutdown *)
| ShutRedirect                            (* in redirectSrv.Shutdown *)
| Returning (calls : list deferred_call)  (* still to run *)
| Exited.

Record life := Life {
  lf_public : listener;
  lf_redirect : option listener;
  lf_serveErr : list string;    (* the buffer of serveErr *)
  lf_signal : bool;             (* ctx is done *)
  lf_late : bool;               (* shutdownCtx is done *)
  lf_main : main_phase
}.

(** [cap(serveErr)]. *)
Definition serveErr_cap : nat := 2.

Definition serving : listener := Listener Serving false 0.
Definition serve_start (c : Config) : life :=
  Life serving (match redirectSrv (W := unit) c with Some _ => Some serving | None => None end) [] false false AtSelect.

(** ** The steps *)

Definition with_public (l : listener) (s : life) : life :=
  Life l (lf_redirect s) (lf_serveErr s) (lf_signal s) (lf_late s) (lf_main s).
Definition with_redirect (l : listener) (s : life) : life :=
  Life (lf_public s) (Some l) (lf_serveErr s) (lf_signal s) (lf_late s) (lf_main s).
Definition with_main (m : main_phase) (s : life) : life :=
  Life (lf_public s) (lf_redirect s) (lf_serveErr s) (lf_signal s) (lf_late s) m.
Definition with_serveErr (l : list string) (s : life) : life :=
  Life (lf_public s) (lf_redirect s) l (lf_signal s) (lf_late s) (lf_main s).

(** [s'] is [s] with one of its listeners gone from [l] to [l']. *)
Inductive at_listener (l l' : listener) (s : life) : life -> Prop :=
| at_public : lf_public s = l -> at_listener l l' s (with_public l' s)
| at_redirect : lf_redirect s = Some l -> at_listener l l' s (with_redirect l' s).

Definition shut (l : listener) : listener := Listener (ls_go l) true (ls_active l).

(** What [main] calls next once [publicSrv.Shutdown] has returned. *)
Definition after_public (c : Config) (s : life) : life :=
  match lf_redirect s with
  | Some r => with_main ShutRedirect (with_redirect (shut r) s)
  | None => with_main (Returning (deferred c)) s
  end.

(** From outside: a signal, a failing listener, a new request. *)
Inductive outside : life -> life -> Prop :=
| out_signal s :
    lf_signal s = false ->
    outside s (Life (lf_public s) (lf_redirect s) (lf_serveErr s) true (lf_late s) (lf_main s))
| out_fail e n sh s s' :
    at_listener (Listener Serving sh n) (Listener (Sending e) sh n) s s' -> outside s s'
| out_request n s s' :
    at_listener (Listener Serving false n) (Listener Serving false (S n)) s s' -> outside s s'.

(** The process itself, and time. What goroutines do after [Exited] does not
    matter: the process is gone. *)
Inductive inside (c : Config) : life -> life -> Prop :=
| in_send e sh n s s' :
    length (lf_serveErr s) < serveErr_cap ->
    at_listener (Listener (Sending e) sh n) (Listener Ended sh n) s s' ->
    inside c s (with_serveErr (lf_serveErr s ++ [e]) s')
| in_closed n s s' :
    (* ErrServerClosed is not sent *)
    at_listener (Listener Serving true n) (Listener Ended true n) s s' -> inside c s s'
| in_done g sh n s s' :
    at_listener (Listener g sh (S n)) (Listener g sh n) s s' -> inside c s s'
| in_select_signal s :
    lf_main s = AtSelect -> lf_signal s = true ->
    inside c s (with_main ShutPublic (with_public (shut (lf_public s)) s))
| in_select_error e es s :
    lf_main s = AtSelect -> lf_serveErr s = e :: es ->
    inside c s (with_main ShutPublic (with_public (shut (lf_public s)) (with_serveErr es s)))
| in_timeout s :
    lf_main s = ShutPublic \/ lf_main s = ShutRedirect -> lf_late s = false ->
    inside c s (Life (lf_public s) (lf_redirect s) (lf_serveErr s) (lf_signal s) true (lf_main s))
| in_shut_public s :
    lf_main s = ShutPublic -> ls_active (lf_public s) = 0 \/ lf_late s = true ->
    inside c s (after_public c s)
| in_shut_redirect r s :
    lf_main s = ShutRedirect -> lf_redirect s = Some r -> ls_active r = 0 \/ lf_late s = true ->
    inside c s (with_main (Returning (deferred c)) s)
| in_deferred d ds s :
    lf_main s = Returning (d :: ds) -> inside c s (with_main (Returning ds) s)
| in_exit s :
    lf_main s = Returning [] -> inside c s (with_main Exited s).

Definition live_step (c : Config) (s s' : life) : Prop := outside s s' \/ inside c s s'.
