(* ===== verification/Manager.v ===== *)
(** * The role pools behind the interface of the endpoints

    [RolePools.Acquire], its release function and [RolePools.Evict]
    (src/internal/db/rolepool.go) as whole calls over the state of the interleaved
    system, with the steps of other requests where a call waits: the instance of
    [PoolManager] the endpoints run with. The texts of its errors, which are
    only logged, are shortened. *)

From S2P Require Import Prelude GoStrings Http RolePool GoJson Executor Server.

(** A world that holds the manager. While call [t] waits, for a slot or for the
    mutex, the other calls go on ([others]), and its context may end, by its
    deadline or not ([ctx_done]); the clock leaves the manager alone. *)
Class PoolHost (W : Type) `{MapOrder} `{Opener} `{Clock W} := {
  host : W -> system;
  set_host : system -> W -> W;
  others : nat -> W -> W;
  ctx_done : nat -> W -> option bool;
  host_set s w : host (set_host s w) = s;
  host_Now w : host (snd (Now w)) = host w;
  others_steps t w : rtc step (host w) (host (others t w));
  others_call t w : sys_calls (host (others t w)) !! t = sys_calls (host w) !! t
}.

Section manager.
Context {W : Type} `{MapOrder} `{Opener} `{Clock W} `{!PoolHost W}.

(** Call [t] moves to [ph], the semaphore to [sem] slots in use. *)
Definition move (t : nat) (ph : phase) (sem : Z) (w : W) : W :=
  let s := host w in
  set_host (System (set_sem (sys_p s) sem) (sys_heap s) (<[t := ph]> (sys_calls s)) (sys_closing s)) w.
Definition slots_used (w : W) : Z := p_sem (sys_p (host w)).

(** The release function: [once.Do]. *)
Definition release_slot (t : nat) (w : W) : W :=
  match sys_calls (host w) !! t with
  | Some (Holding role db) => move t (Released role db) (slots_used w - 1) w
  | _ => w
  end.

(** With the slot: the critical section, and the slot back on failure. *)
Definition acquire_with_slot (t : nat) (role : string) (w : W) : result db_err (nat * (W -> W)) * W :=
  let '(now, w) := Now (others t w) in
  let s := host w in
  let '(r, p, h) := acquire_locked role now (sys_p s) (sys_heap s) in
  let enter ph := set_host (System p h (<[t := ph]> (sys_calls s)) (sys_closing s)) w in
  match r with
  | Ok db => (Ok (db, release_slot t), enter (Holding role db))
  | Err e =>
      let w := others t (enter (Failing e)) in
      (Err (DbErr false "db: role pool"), move t (Returned e) (slots_used w - 1) w)
  end.

(** A call that can neither take a slot nor see its context end goes on waiting,
    until its deadline. *)
Definition Acquire_ (role : string) (w : W) : result db_err (nat * (W -> W)) * W :=
  let t := fresh (dom (sys_calls (host w))) in
  if negb (match_ident role) then
    (Err (DbErr false "db: invalid role"), move t (Returned (InvalidRole role)) (slots_used w) w)
  else
    let w := others t (move t (Waiting role) (slots_used w) w) in
    match ctx_done t w, (slots_used w <? p_cap (sys_p (host w)))%Z with
    | None, true => acquire_with_slot t role (move t (HasSlot role) (slots_used w + 1) w)
    | d, _ => (Err (DbErr (default true d) "context"), move t (Returned ContextDone) (slots_used w) w)
    end.

Definition Evict_ (role : string) (w : W) : W :=
  let s := host w in
  match Evict_locked role (sys_p s) with
  | (Some db, p) =>
      set_host (System p (alter CloseDB db (sys_heap s)) (sys_calls s)
                  (filter (fun d => d <> db) (db :: sys_closing s))) w
  | (None, p) => set_host (System p (sys_heap s) (sys_calls s) (sys_closing s)) w
  end.

#[export] Instance role_pools : PoolManager W nat := {| Acquire := Acquire_; Evict := Evict_ |}.
End manager.

(** ** Every call is a run of the interleaved system *)

Section refines.
Context {W : Type} `{MapOrder} `{Opener} `{Clock W} `{!PoolHost W}.

Local Abbreviation steps w w' := (rtc step (host w) (host w')).

Lemma set_sem_same (p : RolePools) : set_sem p (p_sem p) = p.
Proof. by destruct p. Qed.

Lemma move_call t ph n w : sys_calls (host (move t ph n w)) !! t = Some ph.
Proof. unfold move. rewrite host_set. apply lookup_insert_eq. Qed.

(** A move that is a step of the system. *)
Lemma move_step t ph n w :
  step (host w) (System (set_sem (sys_p (host w)) n) (sys_heap (host w)) (<[t := ph]> (sys_calls (host w)))
                        (sys_closing (host w))) ->
  steps w (move t ph n w).
Proof. intros Hs. unfold move. rewrite host_set. by apply rtc_once. Qed.

Lemma release_steps t w : steps w (release_slot t w).
Proof.
  unfold release_slot. destruct (sys_calls (host w) !! t) as [[]|] eqn:Ht; try done.
  apply move_step. by apply step_release.
Qed.

Lemma acquire_with_slot_steps t role w :
  sys_calls (host w) !! t = Some (HasSlot role) ->
  let x := acquire_with_slot t role w in
  steps w (snd x) /\
  match fst x with
  | Ok (db, rel) => sys_calls (host (snd x)) !! t = Some (Holding role db) /\ rel = release_slot t
  | Err _ => True
  end.
Proof.
  intros Ht. unfold acquire_with_slot. pose proof (others_steps t w) as Ho.
  pose proof (host_Now (others t w)) as Hn. rewrite <- (others_call t w) in Ht.
  destruct (Now (others t w)) as [now w1]. cbn in Hn. rewrite <- Hn in Ho, Ht.
  destruct (acquire_locked role now (sys_p (host w1)) (sys_heap (host w1))) as [[r p] h] eqn:Ha.
  pose proof (step_critical t role now r p h (host w1) Ht Ha) as Hs.
  destruct r as [db|e]; cbn [fst snd].
  - split; [|split; [|done]].
    + etrans; [exact Ho|]. apply rtc_once. by rewrite host_set.
    + rewrite host_set. apply lookup_insert_eq.
  - split; [|done]. set (w2 := set_host _ w1).
    assert (host w2 = System p h (<[t := Failing e]> (sys_calls (host w1))) (sys_closing (host w1))) as E2
      by apply host_set.
    etrans; [exact Ho|]. etrans; [apply rtc_once, Hs|]. rewrite <- E2.
    etrans; [apply (others_steps t)|]. apply move_step, step_fail.
    rewrite others_call, E2. apply lookup_insert_eq.
Qed.

Lemma Acquire_steps role w :
  let x := Acquire_ role w in
  steps w (snd x) /\
  match fst x with
  | Ok (db, rel) => exists t, sys_calls (host (snd x)) !! t = Some (Holding role db)
                     /\ rel = release_slot t
  | Err _ => True
  end.
Proof.
  cbv zeta. unfold Acquire_. set (t := fresh _).
  assert (sys_calls (host w) !! t = None) as Ht by (apply not_elem_of_dom, is_fresh).
  pose proof (step_call t role (host w) Ht) as Hcall.
  destruct (match_ident role) eqn:Hm; cbn [negb].
  2:{ split; [|done]. apply move_step. unfold slots_used. by rewrite set_sem_same. }
  set (w1 := move t (Waiting role) (slots_used w) w).
  assert (steps w w1) as Hs1.
  { apply move_step. unfold slots_used. by rewrite set_sem_same. }
  pose proof (others_steps t w1) as Hs2. pose proof (others_call t w1) as Hw.
  set (w2 := others t w1) in *. unfold w1 in Hw. rewrite move_call in Hw.
  assert (steps w w2) as H12 by by etrans.
  assert (forall d, steps w (move t (Returned ContextDone) (slots_used w2) w2)
    /\ match (Err (DbErr d "context") : result db_err (nat * (W -> W))) with Ok _ => False | Err _ => True end)
    as Hcancel.
  { intros d. split; [|done]. etrans; [exact H12|]. apply move_step. unfold slots_used.
    rewrite set_sem_same. by eapply step_cancel. }
  destruct (ctx_done t w2) as [d|]; [apply (Hcancel d)|].
  destruct (Z.ltb_spec (slots_used w2) (p_cap (sys_p (host w2)))) as [Hlt|_]; [|apply (Hcancel true)].
  set (w3 := move t (HasSlot role) _ w2).
  assert (steps w2 w3) as Hs3 by (apply move_step; by apply step_slot).
  destruct (acquire_with_slot_steps t role w3 (move_call _ _ _ _)) as [Hs4 Hr].
  split; [etrans; [exact H12|]; by etrans|].
  destruct (fst _) as [[db rel]|]; [by exists t|done].
Qed.

Lemma Evict_steps role w : steps w (Evict_ role w).
Proof.
  unfold Evict_. destruct (Evict_locked role (sys_p (host w))) as [[db|] p] eqn:E; rewrite host_set.
  - eapply rtc_l; [by apply (step_evict role)|]. apply rtc_once.
    apply (step_close db (System p (sys_heap (host w)) (sys_calls (host w)) ([db] ++ sys_closing (host w)))).
    by left.
  - apply rtc_once. exact (step_evict role None p (host w) E).
Qed.
End refines.
