(* ===== verification/ServerSpec.v ===== *)
(** * What /pathql promises

    The endpoint as an abstract run: steps that touch no data, then at most one
    statement, admitted by the gate and on the pool of the caller's own role, then
    such steps again. From it: when data can change, and that a request the
    endpoint rejects changed nothing. *)

From S2P Require Import Prelude GoStrings Http GoJson Cache SqlGate Roles.
From S2P Require Import TopQueries Executor ExecutorSpec Auth Config Footprint Server.

(** ** The executor makes no call on the response *)

Section silent.
Context {W Pool Tx : Type} `{PathSqlx W Pool Tx}.

Lemma silent_db_call {A} (f : W -> result db_err A * W) : silent (db_call f).
Proof. unfold db_call. auto with footprint. Qed.
Lemma silent_set_setting tx on name val : silent (set_setting tx on name val).
Proof. unfold set_setting. auto using silent_db_call with footprint. Qed.
Lemma silent_settings tx opts : silent (applySessionSettings tx opts).
Proof. unfold applySessionSettings. auto 10 using silent_set_setting with footprint. Qed.
Lemma silent_ceiling tx query params maxCost maxRows :
  silent (enforceCostCeiling tx query params maxCost maxRows).
Proof. unfold enforceCostCeiling. auto 20 using silent_db_call with footprint. Qed.
Lemma silent_path_query pool tx query params hints : silent (path_query pool tx query params hints).
Proof. unfold path_query. auto with footprint. Qed.
Lemma silent_deferred {A} tx (m : M W (result exec_error A)) : silent m -> silent (deferred_rollback tx m).
Proof.
  intros Hm h w. unfold deferred_rollback. specialize (Hm h w).
  destruct (m h w) as [[cs w'] [[a|e]|v]]; cbn in *; [done| |]; by destruct (Rollback tx w').
Qed.
Lemma silent_RunQuery pool query params hints opts : silent (RunQuery pool query params hints opts).
Proof.
  apply silent_bind_ok; [apply silent_db_call|]. intros tx. apply silent_deferred.
  auto 20 using silent_settings, silent_ceiling, silent_path_query, silent_db_call with footprint.
Qed.
Lemma silent_RunWrite pool query params hints opts hr : silent (RunWrite pool query params hints opts hr).
Proof.
  apply silent_bind_ok; [apply silent_db_call|]. intros tx. apply silent_deferred.
  apply silent_bind_ok; [apply silent_settings|]. intros _.
  apply silent_bind_ok; [apply silent_ceiling|]. intros _.
  apply silent_bind_ok; [unfold write_statement|];
    auto 20 using silent_path_query, silent_db_call with footprint.
Qed.
End silent.

(** ** Answers and recording within a preorder *)

Section answers.
Context {W : Type} (R : relation W) `{!PreOrder R} `{FloatFormat}.

Lemma within_writeJSON code v : within R (writeJSON (W := W) code v).
Proof. unfold writeJSON, encode_to. auto 10 with footprint. case_match; auto 10 with footprint. Qed.
Lemma within_writeError code msg : within R (writeError (W := W) code msg).
Proof. apply within_writeJSON. Qed.

Context `{Clock W} (Hnow : forall w, R w (snd (Now w))).
Lemma within_timed_out b deadline : within R (timed_out b deadline).
Proof.
  unfold timed_out. apply within_if; [auto with footprint|].
  apply within_bind; [apply _|by apply within_lift|auto with footprint].
Qed.
Lemma within_since_ms start : within R (since_ms start).
Proof. apply within_bind; [done|by apply within_lift|]. intros now. by apply within_ret. Qed.
Lemma within_answer cfg deadline r : within R (answer cfg deadline r).
Proof.
  unfold answer. destruct r as [v|e].
  - repeat case_match; try apply within_writeError. auto 10 with footprint.
  - apply within_bind; [done|apply within_timed_out|]. intros late.
    repeat case_match; apply within_writeError.
Qed.

Context `{ServerState W} `{MapOrder}.
Lemma within_record_query q start :
  (forall t w, R w (set_topQueries t w)) -> within R (record_query q start).
Proof.
  intros Hset. apply within_bind; [done|apply within_since_ms|]. intros ms.
  apply within_bind; [done|by apply within_get|]. intros t.
  case_match; [apply within_lift; intros w; apply Hset|by apply within_panic].
Qed.
Lemma within_record_user q start :
  (forall t w, R w (set_topUsers t w)) -> within R (record_user q start).
Proof.
  intros Hset. apply within_bind; [done|apply within_since_ms|]. intros ms.
  apply within_bind; [done|by apply within_get|]. intros t.
  case_match; [apply within_lift; intros w; apply Hset|by apply within_panic].
Qed.
End answers.

(** ** The abstract run *)

Section spec.
Context {W Pool Tx : Type} `{Clock W} `{ServerState W} `{PathSqlx W Pool Tx} `{PoolManager W Pool}.
Context `{FloatFormat} `{UnicodeTables} `{MapOrder} (cfg : Config) (pool : Pool).

(** The database role of a caller, with identity_kind "login_role". *)
Definition own_role (principal : option Principal) (role : string) : Prop :=
  IdentityKind (Sec cfg) = "login_role" /\
  exists p, principal = Some p /\ RoleName (Prefix (Config.Roles cfg)) (UserID p) = Ok role.

(** What happens besides the statement: clock readings, the toplists, and the
    acquisition and release of the own role's pool. *)
Inductive aux_step (principal : option Principal) : W -> W -> Prop :=
| aux_Now w : aux_step principal w (snd (Now w))
| aux_topQueries t w : aux_step principal w (set_topQueries t w)
| aux_topUsers t w : aux_step principal w (set_topUsers t w)
| aux_acquire role w : own_role principal role -> aux_step principal w (snd (Acquire role w))
| aux_release role w0 w1 w qp rel : own_role principal role -> Acquire role w0 = (Ok (qp, rel), w1) ->
    aux_step principal w (rel w).

(** The pools a caller's statement may run on at [w], in a request that began at
    [w0]: the shared one without an identity model, else the one just acquired for
    the caller's own role. *)
Definition own_pool (principal : option Principal) (w0 w : W) (qp : Pool) : Prop :=
  (IdentityKind (Sec cfg) <> "login_role" /\ qp = pool) \/
  (exists role w1 rel, own_role principal role /\ rtc (aux_step principal) w0 w1
     /\ Acquire role w1 = (Ok (qp, rel), w)).

(** One statement: reads are admitted by the gate, or by Classify where writes are
    enabled, and then run read-only whatever the configuration says; writes run
    only where they are enabled and the statement is classified as one. *)
Inductive ran (principal : option Principal) (request : QLRequest) (w0 : W) (h : Header) (w : W) :
    list wcall * W * outcome (result exec_error value) -> Prop :=
| ran_read qp opts :
    own_pool principal w0 w qp ->
    (if WritesEnabled cfg then Classify (q_Query request) = Ok ClassRead
     else Check (q_Query request) (to_Mode (SQLGate (Sec cfg))) = None) ->
    ReadOnly opts = SecReadOnly (Sec cfg) || WritesEnabled cfg ->
    ran principal request w0 h w
      (RunQuery qp (q_Query request) (named_params (q_Params request)) (default [] (q_Paths request)) opts h w)
| ran_write qp :
    own_pool principal w0 w qp -> WritesEnabled cfg = true -> Classify (q_Query request) = Ok ClassWrite ->
    ran principal request w0 h w
      (RunWrite qp (q_Query request) (named_params (q_Params request)) (default [] (q_Paths request))
         (query_options cfg) (HasReturning (q_Query request)) h w).

(** A whole request: the calls made and the world left. *)
Inductive served (principal : option Principal) (req : Request) (w : W) (cs : list wcall) (w' : W) : Prop :=
| sv_none : rtc (aux_step principal) w w' -> served principal req w cs w'
| sv_ran request h w1 w2 r :
    decode_QLRequest req = Some request -> rtc (aux_step principal) w w1 ->
    ran principal request w h w1 ([], w2, r) -> rtc (aux_step principal) w2 w' ->
    match r with
    | Panic _ => cs = []
    | Val r => exists deadline h' w3, cs = calls_of (answer cfg deadline r h' w3)
    end ->
    served principal req w cs w'.

(** ** The endpoint is such a run *)

Section fixed.
Context (principal : option Principal).
Local Abbreviation aux := (rtc (aux_step principal)).

#[local] Hint Constructors aux_step : core.

Lemma aux_step_Now w : aux w (snd (Now w)).
Proof. apply rtc_once. constructor. Qed.
Lemma aux_lift_Now : within aux (lift Now).
Proof. apply within_lift, aux_step_Now. Qed.
Lemma silent_since start : silent (since_ms (W := W) start).
Proof. unfold since_ms. auto with footprint. Qed.
Lemma silent_record_query q start : silent (record_query (W := W) q start).
Proof.
  apply silent_bind; [apply silent_since|]. intros ms. apply silent_bind; [auto with footprint|].
  intros t. destruct (Record_ _ _ _); auto with footprint.
Qed.
Lemma silent_record_user q start : silent (record_user (W := W) q start).
Proof.
  apply silent_bind; [apply silent_since|]. intros ms. apply silent_bind; [auto with footprint|].
  intros t. destruct (Record_ _ _ _); auto with footprint.
Qed.

(** Steps of a caller before and after it is served. *)
Lemma own_pool_after w0 w w' qp : aux w0 w -> own_pool principal w w' qp -> own_pool principal w0 w' qp.
Proof.
  intros Ha [Hs|(role & w1 & rel & Hown & Hw & Hacq)]; [by left|right].
  exists role, w1, rel. split_and!; [done|by transitivity w|done].
Qed.
Lemma ran_after request w0 w h w1 x :
  aux w0 w -> ran principal request w h w1 x -> ran principal request w0 h w1 x.
Proof. intros Ha []; constructor; try done; by eapply own_pool_after. Qed.
Lemma served_after req w0 w cs w' : aux w0 w -> served principal req w cs w' -> served principal req w0 cs w'.
Proof.
  intros Ha [Hw|request h w1 w2 r Hq Hw Hr Hw' Hc]; [apply sv_none; by transitivity w|].
  eapply sv_ran; [done| |by eapply ran_after|done..]. by transitivity w.
Qed.
Lemma served_before req w cs w' w'' : served principal req w cs w' -> aux w' w'' -> served principal req w cs w''.
Proof.
  intros [Hw|request h w1 w2 r Hq Hw Hr Hw' Hc] Ha; [apply sv_none; by transitivity w'|].
  eapply sv_ran; [done..| |done]. by transitivity w'.
Qed.

Definition serves {A} (req : Request) (m : M W A) : Prop :=
  forall h w, served principal req w (calls_of (m h w)) (world_of (m h w)).

Lemma serves_within {A} req (m : M W A) : within aux m -> serves req m.
Proof. intros Hm h w. apply sv_none, Hm. Qed.
Lemma serves_bind {A B} req (m : M W A) (f : A -> M W B) :
  within aux m -> silent m -> (forall a, serves req (f a)) -> serves req (bind m f).
Proof.
  intros Hm Hs Hf h w. unfold bind. specialize (Hm h w). specialize (Hs h w).
  destruct (m h w) as [[cs w'] [a|v]]; cbn in *; [|by apply sv_none].
  subst cs. specialize (Hf a h w'). simpl. destruct (f a h w') as [[cs' w''] r].
  by eapply served_after.
Qed.
Lemma served_finally {A} req w0 (m : M W A) f h w :
  served principal req w0 (calls_of (m h w)) (world_of (m h w)) -> within aux f -> silent f ->
  served principal req w0 (calls_of (finally m f h w)) (world_of (finally m f h w)).
Proof.
  intros Hm Hf Hs. unfold finally. destruct (m h w) as [[cs w'] r].
  specialize (Hf (apply_calls h cs) w'). specialize (Hs (apply_calls h cs) w').
  destruct (f _ w') as [[cs' w''] r']. cbn in *. subst cs'. rewrite app_nil_r.
  by eapply served_before.
Qed.
Lemma serves_finally {A} req (m : M W A) f :
  serves req m -> within aux f -> silent f -> serves req (finally m f).
Proof. intros Hm Hf Hs h w. by apply served_finally. Qed.

(** The pool of a caller: its own, or an answer without a statement. *)
Lemma error_then_none (R : relation W) `{!PreOrder R} code msg :
  within R (writeError code msg ;; ret (None : option (Pool * M W unit))).
Proof. apply within_bind; [done|by apply within_writeError|]. intros _. apply within_ret, _. Qed.

(** After a failed acquisition: an answer, no statement. *)
Lemma acquire_failed_within deadline e :
  within aux (let* late := timed_out (is_deadline e) deadline in
              (if late : bool then writeError 503 "server busy" else writeError 500 genericInternalErrorMsg) ;;
              ret (None : option (Pool * M W unit))).
Proof.
  apply within_bind; [apply _|apply within_timed_out; [apply _|apply aux_step_Now]|]. intros late.
  apply within_bind; [apply _|destruct late; apply (within_writeError aux)|]. intros _. apply within_ret, _.
Qed.

(** A computation that ends in [None], unless it panics. *)
Definition ends_None {A} (m : M W (option A)) : Prop :=
  forall h w, match (m h w).2 with Val (Some _) => False | _ => True end.
Lemma ends_None_bind {A B} (m : M W A) (f : A -> M W (option B)) :
  (forall a, ends_None (f a)) -> ends_None (bind m f).
Proof.
  intros Hf h w. unfold bind. destruct (m h w) as [[cs w'] [a|v]]; [|done].
  specialize (Hf a (apply_calls h cs) w'). by destruct (f a _ w') as [[cs' w''] r].
Qed.

Definition pool_selected (w : W) (x : list wcall * W * outcome (option (Pool * M W unit))) : Prop :=
  match x.2 with
  | Val (Some (qp, release)) =>
      calls_of x = [] /\ own_pool principal w (world_of x) qp /\ within aux release /\ silent release
  | _ => True
  end.
Lemma ends_None_selected w0 m h w : ends_None m -> pool_selected w0 (m h w).
Proof. intros Hm. specialize (Hm h w). unfold pool_selected. by destruct (m h w).2 as [[[]|]|]. Qed.

Lemma selectQueryPool_own deadline h w :
  let x := selectQueryPool cfg pool deadline principal h w in
  aux w (world_of x) /\ pool_selected w x.
Proof.
  cbv zeta. unfold selectQueryPool.
  destruct (String.eqb_spec (IdentityKind (Sec cfg)) "login_role") as [Hk|Hk]; simpl.
  2:{ split; [done|]. split_and!; [done|by left|apply within_ret, _|apply silent_ret]. }
  assert (forall code msg h w, let x := (writeError code msg ;; ret (None : option (Pool * M W unit))) h w in
    aux w (world_of x) /\ pool_selected w x) as Herr.
  { intros code msg h1 w1. split; [apply (error_then_none aux)|].
    apply ends_None_selected, ends_None_bind. by intros []. }
  destruct principal as [p|] eqn:Hp; [|apply Herr].
  destruct (RoleName _ _) as [role|e] eqn:Hrole; [|apply Herr].
  rewrite <- Hp. assert (own_role principal role) as Hown by (split; [done|]; by exists p).
  set (m := bind _ _). assert (m h w = let '(r, w1) := Acquire role w in
    match r with
    | Err e => (let* late := timed_out (is_deadline e) deadline in
                (if late : bool then writeError 503 "server busy" else writeError 500 genericInternalErrorMsg) ;;
                ret None) h w1
    | Ok (rp, rel) => ([], w1, Val (Some (rp, lift (fun w => (tt, rel w)))))
    end) as ->.
  { subst m. unfold bind at 1, lift at 1. destruct (Acquire role w) as [[[rp rel]|e] w1]; [done|].
    cbn. by destruct (bind _ _ _ _) as [[]]. }
  clear m. destruct (Acquire role w) as [[[qp rel]|e] w1] eqn:Ha;
    pose proof (aux_acquire principal role w Hown) as Hw1; rewrite Ha in Hw1; cbn in Hw1.
  - split; [by apply rtc_once|]. split_and!; [done| | |apply silent_lift].
    + right. by exists role, w, rel.
    + apply within_lift. intros w2. apply rtc_once. by eapply aux_release.
  - split; [eapply rtc_l; [done|]; apply acquire_failed_within|].
    apply ends_None_selected, ends_None_bind. intros late. apply ends_None_bind. by intros [].
Qed.

Lemma silent_run_statement qp request class hr : silent (run_statement cfg qp request class hr).
Proof. unfold run_statement. apply silent_if; [apply silent_RunWrite|apply silent_RunQuery]. Qed.

(** An admitted statement on the caller's own pool is one the abstract run has. *)
Lemma run_statement_ran qp request class hr w0 h w :
  own_pool principal w0 w qp -> admission cfg (q_Query request) = Ok (class, hr) ->
  ran principal request w0 h w (run_statement cfg qp request class hr h w).
Proof.
  intros Hown Hadm. unfold run_statement, admission in *.
  destruct (WritesEnabled cfg) eqn:Hw; cbn [andb].
  - destruct (Classify (q_Query request)) as [[]|e] eqn:Hc; simplify_eq/=.
    + apply ran_read; [done|by rewrite Hw|]. by rewrite Hw, orb_true_r.
    + by apply ran_write.
  - destruct (Check _ _) eqn:Hc; simplify_eq/=. apply ran_read; [done|by rewrite Hw|].
    by rewrite Hw, orb_false_r.
Qed.

Lemma served_statement req request class hr qp release deadline h w0 w :
  decode_QLRequest req = Some request -> aux w0 w -> own_pool principal w0 w qp ->
  admission cfg (q_Query request) = Ok (class, hr) -> within aux release -> silent release ->
  let x := finally (let* r := run_statement cfg qp request class hr in answer cfg deadline r) release h w in
  served principal req w0 (calls_of x) (world_of x).
Proof.
  intros Hdec Haux Hown Hadm Hrel Hsil. apply served_finally; [|done|done].
  pose proof (run_statement_ran qp request class hr w0 h w Hown Hadm) as Hran.
  pose proof (silent_run_statement qp request class hr h w) as Hs.
  unfold bind. destruct (run_statement cfg qp request class hr h w) as [[cs w1] [r|v]];
    cbn in Hs; subst cs; cbn.
  - pose proof (within_answer aux aux_step_Now cfg deadline r h w1) as Ha.
    destruct (answer cfg deadline r h w1) as [[cs w2] o] eqn:E. cbn in *.
    eapply sv_ran; [done|exact Haux|exact Hran|exact Ha|]. exists deadline, h, w1. by rewrite E.
  - by eapply sv_ran; [done|exact Haux|exact Hran|reflexivity|].
Qed.

Lemma serves_run_request req request class hr :
  decode_QLRequest req = Some request -> admission cfg (q_Query request) = Ok (class, hr) ->
  serves req (run_request cfg pool principal request class hr).
Proof.
  intros Hdec Hadm. unfold run_request.
  apply serves_bind; [apply aux_lift_Now|apply silent_lift|]. intros now h w.
  set (deadline := (now + StatementTimeout (query_options cfg))%Z).
  destruct (selectQueryPool_own deadline h w) as [Haux Hsel]. unfold pool_selected in Hsel.
  destruct (bind _ _ h w) as [[cs0 w0] r0] eqn:E. unfold bind at 1 in E.
  destruct (selectQueryPool cfg pool deadline principal h w) as [[cs w1] [[[qp release]|]|v]]; cbn in *;
    [|injection E as <- <- <-; by apply sv_none..].
  destruct Hsel as (-> & Hown & Hrel & Hsil).
  pose proof (served_statement req request class hr qp release deadline h w w1
    Hdec Haux Hown Hadm Hrel Hsil) as Hs. cbv zeta in Hs.
  destruct (finally _ _ _ w1) as [[cs' w2] r] eqn:Ef in E; simplify_eq/=.
  by rewrite Ef in Hs.
Qed.

Lemma serves_request req request start :
  decode_QLRequest req = Some request -> serves req (serve_request cfg pool start principal request).
Proof.
  intros Hdec. unfold serve_request.
  assert (forall code msg, serves req (writeError code msg)) as Herr
    by (intros; apply serves_within; apply (within_writeError aux)).
  destruct (q_Params request); try apply Herr;
    (destruct (admission cfg (q_Query request)) as [[class hr]|e] eqn:Hadm; [|apply Herr]);
    pose proof (serves_run_request req request class hr Hdec Hadm) as Hrun;
    (destruct principal as [p|] eqn:Hp; [rewrite <- Hp in *|done]);
    (apply serves_finally; [done|apply within_record_user; [apply _|apply aux_step_Now|intros; by apply rtc_once, aux_topUsers]|apply silent_record_user]).
Qed.

Lemma serves_PathQlEndpoint req : serves req (PathQlEndpoint cfg pool principal req).
Proof.
  unfold PathQlEndpoint. apply serves_bind; [apply aux_lift_Now|apply silent_lift|]. intros start.
  destruct (decode_QLRequest req) as [request|] eqn:Hdec;
    [|apply serves_within; apply (within_writeError (rtc (aux_step principal)))].
  pose proof (serves_request req request start Hdec) as Hs.
  destruct (negb _); [|done].
  apply serves_finally; [done|apply within_record_query; [apply _|apply aux_step_Now|intros; by apply rtc_once, aux_topQueries]|apply silent_record_query].
Qed.
End fixed.

(** ** What the client is told *)

(** The status of a response is that of its first commitment. *)
Definition first_status (cs : list wcall) : Z :=
  match filter (fun c => commits c = true) cs with WriteHeader code :: _ => code | _ => 200%Z end.

Lemma committed_fixed s cs code hdr :
  committed s = Some (code, hdr) -> committed (foldl resp_step s cs) = Some (code, hdr).
Proof.
  revert s. induction cs as [|c cs IH]; intros s Hs; [done|]. simpl. apply IH.
  by destruct c; simpl; rewrite Hs.
Qed.

Lemma status_first h cs : status (response_of h cs) = first_status cs.
Proof.
  unfold response_of. generalize EmptyString as b. revert h. induction cs as [|c cs IH]; intros h b; [done|].
  destruct c as [k v|k v|code|body]; simpl; [apply IH..| |].
  - by erewrite committed_fixed by done.
  - by erewrite committed_fixed by done.
Qed.

Lemma writeError_status code msg h (w : W) :
  first_status (calls_of (writeError code msg h w)) = code.
Proof. unfold writeError, writeJSON, encode_to. by destruct (Encode (ErrorResponse msg)). Qed.

Lemma answer_status deadline r h w :
  first_status (calls_of (answer cfg deadline r h w)) =
  match r with
  | Ok v => match Encode v with
            | None => 500
            | Some s => match capped_Write (MaxResponseBytes (Lim cfg)) EmptyString s with Some _ => 200 | None => 413 end
            end
  | Err e =>
      if match (timed_out (err_deadline e) deadline h w).2 with Val b => b | Panic _ => false end then 503
      else if is_ErrQueryTooExpensive e || is_ErrTooManyRowsAffected e then 400 else 500
  end%Z.
Proof.
  unfold answer. destruct r as [v|e].
  - destruct (Encode v); [|apply writeError_status].
    destruct (capped_Write _ _ _); [done|apply writeError_status].
  - unfold bind. assert (exists w' b, timed_out (err_deadline e) deadline h w = ([], w', Val b)) as (w' & b & ->).
    { unfold timed_out. destruct (err_deadline e); [by do 2 eexists|]. unfold bind, lift.
      destruct (Now w) as [now w']. by do 2 eexists. }
    cbn. destruct b.
    + pose proof (writeError_status 503 "query timed out" (apply_calls h []) w') as Hs.
      by destruct (writeError _ _ _ _) as [[cs1 w1] r1].
    + destruct (is_ErrQueryTooExpensive e); [|destruct (is_ErrTooManyRowsAffected e)];
        match goal with |- context [writeError ?c ?m ?h1 ?w1] =>
          pose proof (writeError_status c m h1 w1) as Hs; by destruct (writeError c m h1 w1) as [[]]
        end.
Qed.

(** ** The data *)

Section data.
Context {D : Type} `{EqDecision Tx} (doc : sql_documented W Pool Tx D).
Local Abbreviation durable := (durable W Pool Tx D doc).

(** Nothing but a statement changes the data: not the clock, the toplists or the
    pools. *)
Record aux_documented : Prop := {
  ad_Now w : durable (snd (Now w)) = durable w;
  ad_topQueries t w : durable (set_topQueries t w) = durable w;
  ad_topUsers t w : durable (set_topUsers t w) = durable w;
  ad_Acquire role w : durable (snd (Acquire role w)) = durable w;
  ad_release role w0 qp rel w1 w : Acquire role w0 = (Ok (qp, rel), w1) -> durable (rel w) = durable w
}.

Lemma aux_durable principal w w' :
  aux_documented -> rtc (aux_step principal) w w' -> durable w' = durable w.
Proof.
  intros [Hn Hq Hu Ha Hr]. induction 1 as [|w w1 w2 Hstep _ IH]; [done|]. rewrite IH.
  destruct Hstep; eauto.
Qed.

(** The query, where the configuration admits it, stays within its transaction: of
    one that the gate or the classification rejects nothing is asked. *)
Definition admitted_confined (request : QLRequest) : Prop :=
  is_Ok (admission cfg (q_Query request)) = true ->
  text_confined doc (q_Query request) (named_params (q_Params request)).

Lemma ran_admitted principal request w0 h w x :
  ran principal request w0 h w x -> is_Ok (admission cfg (q_Query request)) = true.
Proof.
  intros [qp opts _ Hadm _|qp _ Hw Hc]; unfold admission; [|by rewrite Hw, Hc].
  destruct (WritesEnabled cfg); by rewrite Hadm.
Qed.

Lemma ran_untouched principal request w0 h w w2 r :
  admitted_confined request -> ran principal request w0 h w ([], w2, r) -> untouched_unless_driver doc w w2 r.
Proof.
  intros Hconf Hran. specialize (Hconf (ran_admitted _ _ _ _ _ _ Hran)).
  inversion Hran as [qp opts Hown Hadm Hro E|qp Hown Hw Hc E]; clear Hran; subst.
  - pose proof (RunQuery_ended doc qp (q_Query request) (named_params (q_Params request))
      (default [] (q_Paths request)) opts w h) as Hend.
    rewrite E in Hend. destruct Hend as [_ Hend]. eapply ended_untouched; [exact Hconf|exact Hend].
  - pose proof (RunWrite_ended doc qp (q_Query request) (named_params (q_Params request))
      (default [] (q_Paths request)) (query_options cfg) (HasReturning (q_Query request)) w h) as Hend.
    rewrite E in Hend. destruct Hend as [_ Hend]. eapply ended_untouched; [exact Hconf|exact Hend].
Qed.

(** A statement that the configuration does not admit as a write. *)
Definition not_a_write (query : string) : Prop :=
  if WritesEnabled cfg then Classify query <> Ok ClassWrite else SecReadOnly (Sec cfg) = true.

Lemma ran_read_only principal request w0 h w w2 r :
  admitted_confined request -> not_a_write (q_Query request) ->
  ran principal request w0 h w ([], w2, r) -> durable w2 = durable w.
Proof.
  unfold not_a_write. intros Hconf Hnw Hran. specialize (Hconf (ran_admitted _ _ _ _ _ _ Hran)).
  inversion Hran as [qp opts Hown Hadm Hro E|qp Hown Hw Hc E]; clear Hran; subst.
  - pose proof (RunQuery_ended doc qp (q_Query request) (named_params (q_Params request))
      (default [] (q_Paths request)) opts w h) as Hend.
    rewrite E in Hend. destruct Hend as [_ (es & _ & _ & _ & Hset)].
    destruct (Hset Hconf) as [_ Hs]. assert (ReadOnly opts = true) as Hr.
    { rewrite Hro. destruct (WritesEnabled cfg); [apply orb_true_r|by rewrite Hnw]. }
    rewrite Hr in Hs. by eapply settled_read.
  - by rewrite Hw in Hnw.
Qed.
End data.
(** C5: the endpoint refines the abstract run: whatever the request and the
    configuration, there is at most one statement, the gate or the classification
    admitted it, it runs on the shared pool or, with identity_kind "login_role",
    on the pool just acquired for the caller's own database role and never without a
    caller, reads are read-only where the configuration says so or writes are
    enabled, and everything else is the clock, the toplists and that pool. *)
Theorem pathql_refines (principal : option Principal) (req : Request) (h : Header) (w : W) :
  let x := PathQlEndpoint cfg pool principal req h w in
  served principal req w (calls_of x) (world_of x).
Proof. apply serves_PathQlEndpoint. Qed.

(** C13: the data changes only by admitted writes: with writes off and read_only
    set, or with writes on and a query that Classify does not take for a write, a
    request changes nothing, if its query, should the configuration admit it, stays
    within its transaction, which a read-only one then confines. A request the gate
    or the classification rejects changes nothing whatever its text is. *)
Theorem pathql_read_only {D} `{EqDecision Tx} (doc : sql_documented W Pool Tx D)
    (principal : option Principal) (req : Request) (h : Header) (w : W)
  (Haux : aux_documented doc)
  (Hread : forall request, decode_QLRequest req = Some request ->
     admitted_confined doc request /\ not_a_write (q_Query request)) :
  durable _ _ _ _ doc (world_of (PathQlEndpoint cfg pool principal req h w)) = durable _ _ _ _ doc w.
Proof.
  destruct (serves_PathQlEndpoint principal req h w) as [Hw|request h1 w1 w2 r Hq Ha1 Hr Ha2 _].
  - by eapply aux_durable.
  - destruct (Hread _ Hq) as [Hconf Hnw].
    rewrite (aux_durable doc _ _ _ Haux Ha2), (ran_read_only doc _ _ _ _ _ _ _ Hconf Hnw Hr).
    by eapply aux_durable.
Qed.

(** C20: a rejected request changed nothing: where the endpoint answers 400, for a
    malformed body, the gate, the cost ceiling or the blast-radius cap, or 401,
    the data is what it was; for the two that come after the query has reached the
    database, where the query stays within its transaction. *)
Theorem pathql_rejected_untouched {D} `{EqDecision Tx} (doc : sql_documented W Pool Tx D)
    (principal : option Principal) (req : Request) (h : Header) (w : W)
  (Haux : aux_documented doc)
  (Hconf : forall request, decode_QLRequest req = Some request -> admitted_confined doc request)
  (Hstatus : status (response_of h (calls_of (PathQlEndpoint cfg pool principal req h w))) ∈ [400; 401]%Z) :
  durable _ _ _ _ doc (world_of (PathQlEndpoint cfg pool principal req h w)) = durable _ _ _ _ doc w.
Proof.
  rewrite status_first in Hstatus.
  destruct (serves_PathQlEndpoint principal req h w) as [Hw|request h1 w1 w2 r Hq Ha1 Hr Ha2 Hcs];
    [by eapply aux_durable|].
  rewrite (aux_durable doc _ _ _ Haux Ha2), <- (aux_durable doc _ _ _ Haux Ha1).
  pose proof (ran_untouched doc _ _ _ _ _ _ _ (Hconf _ Hq) Hr) as Hun.
  destruct r as [r|v]; [|done]. destruct Hcs as (deadline & h' & w3 & Hcs).
  rewrite Hcs, answer_status in Hstatus. destruct r as [v|[]]; try done; exfalso;
    repeat case_match; set_solver.
Qed.
End spec.

(** ** A concrete server

    The sample database behind the shared pool, a clock, and the toplists. *)

Module Witness.
Import ExecutorSpec.Witness.

Record server := Server {
  sv_db : sample_db; sv_time : Z; sv_metrics : Metrics; sv_queries : TopQueries; sv_users : TopQueries
}.
Definition with_db (d : sample_db) (w : server) : server :=
  Server d (sv_time w) (sv_metrics w) (sv_queries w) (sv_users w).
Definition on_db {A} (f : sample_db -> A * sample_db) (w : server) : A * server :=
  let '(a, d) := f (sv_db w) in (a, with_db d w).

#[export] Instance server_clock : Clock server :=
  {| Now w := (sv_time w, Server (sv_db w) (sv_time w + 1000000) (sv_metrics w) (sv_queries w) (sv_users w)) |}.
#[export] Instance server_state : ServerState server := {|
  metrics := sv_metrics;
  set_metrics m w := Server (sv_db w) (sv_time w) m (sv_queries w) (sv_users w);
  topQueries := sv_queries;
  set_topQueries t w := Server (sv_db w) (sv_time w) (sv_metrics w) t (sv_users w);
  topUsers := sv_users;
  set_topUsers t w := Server (sv_db w) (sv_time w) (sv_metrics w) (sv_queries w) t
|}.
#[export] Instance server_sql : PathSqlx server unit unit := {|
  BeginTxx pool ro := on_db (BeginTxx pool ro);
  ExecContext tx q args := on_db (ExecContext tx q args);
  QueryRowBytes tx q args := on_db (QueryRowBytes tx q args);
  PathQueryTx pool tx q params hints := on_db (PathQueryTx pool tx q params hints);
  Commit tx := on_db (Commit tx);
  Rollback tx := on_db (Rollback tx);
  Named := Named;
  Rebind := Rebind
|}.
#[export] Instance server_pools : PoolManager server unit :=
  {| Acquire _ w := (Ok (tt, fun w => w), w); Evict _ w := w |}.
#[export] Instance no_floats : FloatFormat := {| FormatFloat _ := "0" |}.
#[local] Existing Instance ascii_tables.
#[local] Existing Instance elements_order.

(** The sample database's documentation, lifted to the server. *)
Definition server_doc : sql_documented server unit unit nat.
Proof.
  refine {| durable w := sd_data (sv_db w); view w _ := sd_open (sv_db w);
            history w := sd_history (sv_db w);
            confined := confined _ _ _ _ sample_doc;
            effect := effect _ _ _ _ sample_doc; query_effect := query_effect _ _ _ _ sample_doc |}.
  - apply (doc_set_config _ _ _ _ sample_doc).
  - intros [] ro [[d [o|] es] t m q u]; [done|]. simpl. split_and!; done || by intros [].
  - intros [] q args w. apply (doc_Exec _ _ _ _ sample_doc tt q args (sv_db w)).
  - intros [] q args w. apply (doc_Explain _ _ _ _ sample_doc tt q args (sv_db w)).
  - intros [] [] q params hints w. apply (doc_PathQuery _ _ _ _ sample_doc tt tt q params hints (sv_db w)).
  - intros [] [[d0 o es] t m tq tu] ro d Ho. simpl in *. subst. by left.
  - intros [] [[d0 [[ro d]|] es] t m tq tu]; simpl; split_and!; done || by intros [].
  - intros [] [[d0 o es] t m tq tu]. split_and!; done || by intros [].
Defined.

Lemma server_aux : aux_documented server_doc.
Proof. split; try done. intros role w0 qp rel w1 w [= <- <- <-]. done. Qed.

Definition w0 : server :=
  Server (SampleDB 0 None []) 0 (fun _ => 0%Z) (NewTopQueries 10) (NewTopQueries 10).

(** A configuration with the given read_only, writes and max_response_bytes. *)
Definition config (ro : bool) (writes : string) (maxResponse : Z) : Config := {|
  Driver := "sqlite"; DSN := "file.db"; Listen := ":8000"; Verbose := false;
  Database := Build_DatabaseConf 50 10 300000 60000 200;
  Sec := Build_Security "pathql_auth_" ro [] [] [] "metrics" "warn" "none" "" "off" "off" writes;
  AuthC := Build_AuthConf [] "X-API-Key" [] "" "" "" "sub" "" false;
  Lim := Build_Limits 5000 1048576 maxResponse 10 200 120 60 0 zero_float 0 1;
  Times := Build_Timeouts 10000 30000 60000; CacheC := Build_CacheConf 64 "30s" "1h" 0 0;
  TLS := Build_TLSConf false "" "" true ""; AllowedOrigins := [];
  Roles := Build_RolesConf "" "pathql_auth" "pathql_r_" "pathql_readers" 64 ""
|}.

Definition post (body : string) : Request :=
  {| r_Method := "POST"; r_Path := "/pathql"; r_RequestURI := "/pathql"; r_Host := "api";
     r_RemoteAddr := "192.0.2.1:1"; r_Header := ∅; r_TLS := false; r_Body := Some body;
     r_BodyLimit := None; r_PathValue := EmptyString |}.

Definition delete_request : Request := post (js "{`query`: `DELETE FROM t RETURNING 1`}").

Lemma sample_confined q params : q <> stacked -> text_confined server_doc q params.
Proof. intros Hq [] q' args [= <- <-]. exact Hq. Qed.

(** An instance of [pathql_read_only]. *)
Lemma pathql_read_only_witness :
  sd_data (sv_db (world_of (PathQlEndpoint (config true "off" 1000) tt None delete_request ∅ w0))) = 0.
Proof.
  pose proof (pathql_read_only (config true "off" 1000) tt server_doc None delete_request ∅ w0
    server_aux) as Hd.
  apply Hd. intros request Hq. split; [|reflexivity]. intros _. apply sample_confined.
  vm_compute in Hq. injection Hq as <-. discriminate.
Defined.

Definition stacked_request : Request := post (js "{`query`: `SELECT 1; COMMIT; DELETE FROM t`}").

Definition on_conf : Config := config false "on" 1000.
Definition run_on (r : Request) := PathQlEndpoint on_conf tt None r ∅ w0.

(** Two instances of [pathql_rejected_untouched]: a delete of more rows than the
    cap allows, and a text that would leave its transaction, which the
    classification stops. *)
Lemma pathql_rejected_untouched_witness :
  Forall (fun r => status (response_of ∅ (calls_of (run_on r))) = 400%Z
                   /\ sd_data (sv_db (world_of (run_on r))) = 0) [delete_request; stacked_request].
Proof.
  pose proof (fun r => pathql_rejected_untouched on_conf tt server_doc None r ∅ w0 server_aux) as Hd.
  apply Forall_cons; split; [|apply Forall_cons; split; [|apply Forall_nil_2]].
  - assert (status (response_of ∅ (calls_of (run_on delete_request))) = 400%Z) as Hs by (vm_compute; reflexivity).
    split; [exact Hs|]. refine (Hd delete_request _ _); [|unfold run_on in Hs; rewrite Hs; left].
    intros request Hq _. apply sample_confined. vm_compute in Hq. injection Hq as <-. discriminate.
  - assert (status (response_of ∅ (calls_of (run_on stacked_request))) = 400%Z) as Hs by (vm_compute; reflexivity).
    split; [exact Hs|]. refine (Hd stacked_request _ _); [|unfold run_on in Hs; rewrite Hs; left].
    intros request Hq Hadm. vm_compute in Hq. injection Hq as <-. vm_compute in Hadm. discriminate Hadm.
Defined.

(** With the gate off and read_only set nothing stops it: the condition of
    [pathql_read_only] on the query is needed. *)
Example stacked_writes :
  sd_data (sv_db (world_of (PathQlEndpoint (config true "off" 1000) tt None stacked_request ∅ w0))) = 1.
Proof. vm_compute. reflexivity. Qed.

(** The other direction fails: a write whose answer is larger than
    max_response_bytes is committed and then answered 413. *)
Definition insert_request : Request := post (js "{`query`: `INSERT INTO t VALUES (1)`}").
Example committed_write_413 :
  let x := PathQlEndpoint (config false "on" 5) tt None insert_request ∅ w0 in
  status (response_of ∅ (calls_of x)) = 413%Z /\ sd_data (sv_db (world_of x)) = 1.
Proof. vm_compute. auto. Qed.

(** And the toplist has recorded the query. *)
Example toplist_records :
  dom (tq_stats (sv_queries (world_of
    (PathQlEndpoint (config false "on" 5) tt None insert_request ∅ w0)))) = {["INSERT INTO t VALUES (1)"]}.
Proof. vm_compute. reflexivity. Qed.
End Witness.
