(* ===== verification/HealthSpec.v ===== *)
(** * What the health endpoint promises

    How often the database is pinged, whatever the probes: with at most [k] of them
    under way at a time, at most [k] pings for every second begun. Without such a
    bound there is none on the pings, which run outside the mutex. *)

From S2P Require Import Prelude GoStrings Http GoJson TopQueries Executor Auth Config Server Endpoints.

(** ** The whole call is a run of the system *)

Section refines.
Context {W : Type} `{Clock W} `{Health W} (time : W -> Z) (pings : W -> nat).

(** The clock is read at a moment of the step and never goes back; pinging takes
    time; the remembered result is a variable of its own. *)
Record health_documented : Prop := {
  hd_Now w : let '(t, w') := Now w in
    t = time w' /\ (time w <= time w')%Z /\ health w' = health w /\ pings w' = pings w;
  hd_ping w : let '(_, w') := ping w in
    (time w <= time w')%Z /\ health w' = health w /\ pings w' = S (pings w);
  hd_set hc w : health (set_health hc w) = hc /\ time (set_health hc w) = time w
    /\ pings (set_health hc w) = pings w
}.

Definition probes (w : W) (calls : gmap nat hphase) : hsystem :=
  HSystem (time w) (health w) calls (pings w).

(** A ping, and its result remembered. *)
Lemma ping_steps (t : nat) (calls : gmap nat hphase) w :
  health_documented -> calls !! t = None -> is_recent (time w) (health w) = None ->
  exists err w1 w2, ping w = (err, w1) /\ Now w1 = (time w2, w2) /\
    rtc hstep (probes w calls)
      (probes (set_health (Some {| checkedAt := time w2; lastErr := err |}) w2) (<[t := HAnswered err]> calls)).
Proof.
  intros Hdoc Ht Hold. pose proof (hd_ping Hdoc w) as Hping. destruct (ping w) as [err w1].
  pose proof (hd_Now Hdoc w1) as HNow. destruct (Now w1) as [now w2] eqn:En.
  destruct Hping as (Hle1 & Hh1 & Hp1). destruct HNow as (-> & Hle2 & Hh2 & Hp2).
  exists err, w1, w2. split_and!; [done|done|].
  destruct (hd_set Hdoc (Some {| checkedAt := time w2; lastErr := err |}) w2) as (Hh3 & Ht3 & Hp3).
  unfold probes. rewrite Hh3, Ht3, Hp3, Hp2, Hp1.
  eapply rtc_l; [by apply (hstep_ping t)|]. cbn.
  eapply rtc_l; [apply (hstep_time (time w2)); cbn; lia|]. cbn.
  eapply rtc_l; [apply (hstep_pinged t err); apply lookup_insert_eq|]. cbn.
  apply rtc_once. rewrite insert_insert_eq.
  match goal with |- hstep ?s _ => pose proof (hstep_store t err s) as Hst end.
  cbn in Hst. rewrite insert_insert_eq in Hst. apply Hst, lookup_insert_eq.
Qed.

Lemma dbReachable_steps (t : nat) (calls : gmap nat hphase) h w :
  health_documented -> calls !! t = None ->
  exists err w', dbReachable h w = ([], w', Val err) /\
    rtc hstep (probes w calls) (probes w' (<[t := HAnswered err]> calls)).
Proof.
  intros Hdoc Ht. pose proof (ping_steps t calls w Hdoc Ht) as Hping.
  unfold dbReachable, recent_result, bind, lift, ret. destruct (health w) as [hc|] eqn:Eh.
  - pose proof (hd_Now Hdoc w) as Hn. destruct (Now w) as [now w1] eqn:En. destruct Hn as (-> & Hle & Hh & Hp).
    assert (rtc hstep (probes w calls) (probes w1 calls)) as Hs1.
    { apply rtc_once. unfold probes. rewrite Hh, Hp. by apply (hstep_time (time w1) (probes w calls)). }
    destruct (time w1 - checkedAt hc <? healthCacheTTL)%Z eqn:El.
    + exists (lastErr hc), w1. split; [done|]. eapply rtc_r; [exact Hs1|].
      apply (hstep_recent t (lastErr hc) (probes w1 calls)); [done|]. unfold is_recent. cbn [hs_time hs_result probes]. by rewrite Hh, Eh, El.
    + destruct (ping_steps t calls w1 Hdoc Ht) as (err & w2 & w3 & Ep & En' & Hs); [unfold is_recent; by rewrite Hh, Eh, El|].
      rewrite Ep, En'. exists err. eexists. split; [done|]. etrans; [exact Hs1|exact Hs].
  - destruct Hping as (err & w2 & w3 & Ep & En' & Hs); [done|].
    rewrite Ep, En'. exists err. eexists. split; [done|exact Hs].
Qed.
End refines.

(** ** How often *)

(** The probes between the start of their ping and its result. *)
Definition is_pinging (ph : hphase) : bool :=
  match ph with HPinging | HPinged _ => true | HAnswered _ => false end.
Definition in_flight (s : hsystem) : nat := count_if is_pinging (hs_calls s).

Definition health_start (t0 : Z) : hsystem := HSystem t0 None ∅ 0.

Section bound.
Context (k : nat) (t0 : Z).

(** Steps that keep at most [k] probes pinging. *)
Definition bounded_step (s s' : hsystem) : Prop := hstep s s' /\ in_flight s' <= k.

(** The pings come in rounds: those of a round begin before any of them is
    remembered, so they are all under way at once; after that the next round begins
    a second later at the earliest. [r] rounds are over; one is open, or the last
    one closed when its first result was remembered. *)
Inductive rounds (s : hsystem) : Prop :=
| open_round r :
    hs_pings s <= r * k + in_flight s -> (t0 + Z.of_nat r * healthCacheTTL <= hs_time s)%Z -> rounds s
| closed_round r hc :
    hs_pings s <= r * k -> hs_result s = Some hc ->
    (t0 + Z.of_nat r * healthCacheTTL <= checkedAt hc + healthCacheTTL)%Z -> (checkedAt hc <= hs_time s)%Z ->
    rounds s.

Lemma in_flight_insert s t ph tm res n :
  Z.of_nat (in_flight (HSystem tm res (<[t := ph]> (hs_calls s)) n)) =
  (Z.of_nat (in_flight s) + (if is_pinging ph then 1 else 0)
   - match hs_calls s !! t with Some old => if is_pinging old then 1 else 0 | None => 0 end)%Z.
Proof. apply count_if_insert. Qed.

Lemma not_recent now hc : is_recent now (Some hc) = None -> (checkedAt hc + healthCacheTTL <= now)%Z.
Proof. unfold is_recent. destruct (Z.ltb_spec (now - checkedAt hc) healthCacheTTL); [done|lia]. Qed.

Lemma rounds_step s s' : bounded_step s s' -> in_flight s <= k -> rounds s -> rounds s'.
Proof.
  intros [Hstep Hk'] Hk Hr.
  destruct Hstep as [t' s Ht'|t err s Ht _|t s Ht Hold|t err s Ht|t err s Ht].
  - destruct Hr as [r Hp Hb|r hc Hp Hres Hb Hc]; [eapply open_round|eapply closed_round]; cbn in *; [done|lia|done..|lia].
  - pose proof (in_flight_insert s t (HAnswered err) (hs_time s) (hs_result s) (hs_pings s)) as Hi.
    rewrite Ht in Hi. destruct Hr as [r Hp Hb|r hc Hp Hres Hb Hc]; [apply (open_round _ r)|by eapply closed_round];
      cbn [hs_time hs_pings]; [cbn in Hi; lia|done].
  - pose proof (in_flight_insert s t HPinging (hs_time s) (hs_result s) (S (hs_pings s))) as Hi.
    rewrite Ht in Hi. cbn [is_pinging] in Hi.
    destruct Hr as [r Hp Hb|r hc Hp Hres Hb Hc]; apply (open_round _ r); cbn [hs_time hs_pings]; try lia.
    rewrite Hres in Hold. apply not_recent in Hold. lia.
  - pose proof (in_flight_insert s t (HPinged err) (hs_time s) (hs_result s) (hs_pings s)) as Hi.
    rewrite Ht in Hi. cbn [is_pinging] in Hi.
    destruct Hr as [r Hp Hb|r hc Hp Hres Hb Hc]; [apply (open_round _ r)|by eapply closed_round];
      cbn [hs_time hs_pings]; [lia|done].
  - destruct Hr as [r Hp Hb|r hc Hp Hres Hb Hc].
    + apply (closed_round _ (S r) {| checkedAt := hs_time s; lastErr := err |}); cbn [hs_pings hs_time hs_result checkedAt]; nia || done.
    + apply (closed_round _ r {| checkedAt := hs_time s; lastErr := err |}); cbn [hs_pings hs_time hs_result checkedAt]; nia || done.
Qed.

(** C40: the database is shielded from probes. Whatever probes come to GET /health,
    as long as at most [k] of them are pinging at any time, the database was asked
    at most [k] times for each second since the start that has begun. *)
Theorem health_ping_bound (s : hsystem) (Hrun : rtc bounded_step (health_start t0) s) :
  (t0 <= hs_time s)%Z /\
  (Z.of_nat (hs_pings s) <= Z.of_nat k * (1 + (hs_time s - t0) / healthCacheTTL))%Z.
Proof.
  assert (in_flight s <= k /\ rounds s /\ (t0 <= hs_time s)%Z) as (Hk & Hr & Ht).
  { apply (rtc_invariant bounded_step (fun s => in_flight s <= k /\ rounds s /\ (t0 <= hs_time s)%Z)
      (health_start t0)); [| |exact Hrun].
    - split_and!; [|apply (open_round _ 0); cbn; lia|cbn; lia].
      change (in_flight (health_start t0)) with (count_if is_pinging ∅). rewrite count_if_empty. lia.
    - intros a b Hab (Hk & Hr & Ht). split_and!; [apply Hab|by eapply rounds_step|].
      destruct Hab as [Hab _]. destruct Hab; cbn in *; lia. }
  split; [done|].
  assert (exists r, hs_pings s <= (1 + r) * k /\ (Z.of_nat r * healthCacheTTL <= hs_time s - t0)%Z) as (r & Hp & Hb).
  { destruct Hr as [r Hp Hb|[|r] hc Hp Hres Hb Hc]; [exists r; nia|exists 0; lia|exists r; nia]. }
  assert (Z.of_nat r <= (hs_time s - t0) / healthCacheTTL)%Z as Hr' by (apply Z.div_le_lower_bound; [done|lia]).
  nia.
Qed.
End bound.

(** ** A flood *)

(** Any number of probes at one moment, and as many pings. *)
Lemma health_flood (n : nat) (t0 : Z) :
  exists s, rtc hstep (health_start t0) s /\ hs_pings s = n /\ hs_time s = t0 /\ hs_result s = None.
Proof.
  enough (exists s, rtc hstep (health_start t0) s /\ hs_pings s = n /\ hs_time s = t0 /\ hs_result s = None
    /\ forall t, n <= t -> hs_calls s !! t = None) as (s & ? & ? & ? & ? & _) by eauto.
  induction n as [|n (s & Hs & Hp & Ht & Hr & Hc)].
  { exists (health_start t0). split_and!; [done..|]. intros t _. apply lookup_empty. }
  eexists. split; [eapply rtc_r; [exact Hs|]|].
  - apply (hstep_ping n); [by apply Hc|by rewrite Hr].
  - cbn. split_and!; [lia|done|done|]. intros t Hle. rewrite lookup_insert_ne by lia. apply Hc. lia.
Qed.

(** ** Two probes, one ping *)

Module Witness.
Definition at_once : hsystem :=
  HSystem 5 (Some {| checkedAt := 5; lastErr := None |}) {[0 := HAnswered None; 1 := HAnswered None]} 1.

Lemma at_once_run : rtc (bounded_step 1) (health_start 0) at_once.
Proof.
  eapply rtc_l; [split; [by apply (hstep_ping 0)|vm_compute; lia]|].
  eapply rtc_l; [split; [apply (hstep_time 5); cbn; lia|vm_compute; lia]|].
  eapply rtc_l; [split; [apply (hstep_pinged 0 None); reflexivity|vm_compute; lia]|].
  eapply rtc_l; [split; [apply (hstep_store 0 None); reflexivity|vm_compute; lia]|].
  apply rtc_once. split; [|vm_compute; lia].
  exact (hstep_recent 1 None (HSystem 5 (Some {| checkedAt := 5; lastErr := None |}) {[0 := HAnswered None]} 1)
    eq_refl eq_refl).
Qed.

(** An instance of [health_ping_bound]. *)
Lemma health_ping_bound_witness : (Z.of_nat (hs_pings at_once) <= 1 * (1 + (5 - 0) / healthCacheTTL))%Z.
Proof. exact (proj2 (health_ping_bound 1 0 at_once at_once_run)). Defined.
End Witness.
