(* ===== verification/RoutesSpec.v ===== *)
(** * What the routes promise

    Which requests reach an endpoint: the public and schema routes only those of
    a caller the authentication chain vouched for, who is neither the metrics nor
    the admin principal; the metrics and admin routes only that one principal.
    And what the order of the chain costs: rejections of the outer limiters are
    not counted. *)

From S2P Require Import Prelude GoStrings GoNet Http GoHttp GoJson Cache Middleware MiddlewareSpec.
From S2P Require Import SampleWorld Concurrency TopQueries Executor Auth Config Footprint Server ServerSpec.
From S2P Require Import Endpoints Routes.

(** ** Authorization middlewares *)

Section authorize.
Context {W : Type} (R : relation W) `{!PreOrder R}.
Local Abbreviation handler := (Handler W (option Principal)).

Lemma within_writeForbidden : within R writeForbidden.
Proof. unfold writeForbidden. auto 10 with footprint. Qed.

(** A principal other than [name]; every one when [name] is empty. *)
Definition is_not (name : string) (c : option Principal) : Prop :=
  match c with Some p => name <> EmptyString -> AppUser p <> name | None => True end.
Definition is_user (name : string) (c : option Principal) : Prop :=
  exists p, c = Some p /\ AppUser p = name /\ name <> EmptyString.

Lemma within_denyAppUser P name (next : handler) :
  within_for R (fun c => P c /\ is_not name c) next -> within_for R P (denyAppUser name next).
Proof.
  intros Hn. unfold denyAppUser. destruct (String.eqb_spec name EmptyString) as [He|He].
  { intros c r Hc. apply Hn. split; [done|]. destruct c; simpl; [by intros Hne|done]. }
  intros [p|] r Hc; [|by apply Hn].
  destruct (String.eqb_spec (AppUser p) name) as [|Hne]; [apply within_writeForbidden|].
  apply Hn. split; [done|]. by intros _.
Qed.

Lemma within_requireAppUser P name (next : handler) :
  within_for R (fun c => P c /\ is_user name c) next -> within_for R P (requireAppUser name next).
Proof.
  intros Hn c r Hc. unfold requireAppUser.
  destruct (String.eqb_spec name EmptyString) as [He|He]; [apply within_writeForbidden|].
  destruct c as [p|]; [|apply within_writeForbidden].
  destruct (String.eqb_spec (AppUser p) name) as [Heq|]; [|apply within_writeForbidden].
  apply Hn. split; [done|]. by exists p.
Qed.

(** The contexts behind the chain: the principals it vouches for, or the empty
    context where there is no chain. *)
Definition vouched_for (chain : option (list (Authenticator W))) `{AuthCounters W} (c : option Principal) : Prop :=
  match chain with
  | None => c = None
  | Some auths => exists p r w w', c = Some p /\ Chain_Authenticate auths r w = (Ok p, w')
  end.

Section auth.
Context `{AuthCounters W} (Hcounts : forall n w, R w (setAuthCounts n w)).

Lemma within_count_auth b : within R (count_auth b).
Proof. apply within_lift. intros w. destruct (authCounts w) as [s f]. apply Hcounts. Qed.
Lemma within_writeUnauthorized : within R writeUnauthorized.
Proof. unfold writeUnauthorized. auto 10 with footprint. Qed.

Lemma within_Chain auths r w :
  Forall (fun a : Authenticator W => forall r w, R w (snd (a r w))) auths ->
  R w (snd (Chain_Authenticate auths r w)).
Proof.
  unfold Chain_Authenticate. generalize false as saw. intros saw Hall. revert saw w.
  induction Hall as [|a auths Ha _ IH]; intros saw w; [done|]. simpl. specialize (Ha r w).
  destruct (a r w) as [[p|[]] w1]; [done| |]; (etransitivity; [exact Ha|apply IH]).
Qed.

Lemma within_authenticated chain (next : handler) :
  match chain with
  | Some auths => Forall (fun a : Authenticator W => forall r w, R w (snd (a r w))) auths
  | None => True
  end ->
  within_for R (vouched_for chain) next -> within_for R (eq None) (authenticated chain next).
Proof.
  intros Hauths Hn. unfold authenticated. destruct chain as [auths|]; [|by intros c r <-; apply Hn].
  intros c r _ h w. unfold Chain_Middleware, bind at 1, lift at 1.
  pose proof (within_Chain auths r w Hauths) as Hc.
  destruct (Chain_Authenticate auths r w) as [[p|e] w1] eqn:E; cbn in *.
  - assert (within R (count_auth true ;; next (Some p) r)) as Hw.
    { apply within_bind; [done|apply within_count_auth|]. intros _. apply Hn. by exists p, r, w, w1. }
    specialize (Hw h w1). destruct (bind _ _ h w1) as [[cs w2] o]. etransitivity; [exact Hc|exact Hw].
  - assert (within R (count_auth false ;; writeUnauthorized)) as Hw
      by (apply within_bind; [done|apply within_count_auth|intros _; apply within_writeUnauthorized]).
    specialize (Hw h w1). destruct (bind _ _ h w1) as [[cs w2] o]. etransitivity; [exact Hc|exact Hw].
Qed.
End auth.
End authorize.

(** ** The routes *)

Section routes.
Context {W : Type} `{Clock W} `{Rand W} `{Cache W} `{UnicodeTables} `{ServerState W} `{AuthCounters W}.

(** What the chains do to the world besides the endpoint stays within [R]. *)
Record outer_within (R : relation W) (lims : Limiters W) (chain : option (list (Authenticator W))) : Prop := {
  ow_Now w : R w (snd (Now w));
  ow_rand n w : R w (snd (rand_Read n w));
  ow_Increment key d ttl w : R w (snd (Increment key d ttl w));
  ow_counts n w : R w (setAuthCounts n w);
  ow_send w : R w (snd (global_try_send lims w));
  ow_receive w : R w (snd (global_receive lims w));
  ow_acquire k w : R w (snd (user_acquire lims k w));
  ow_release k w : R w (snd (user_release lims k w));
  ow_chain : match chain with
             | Some auths => Forall (fun a : Authenticator W => forall r w, R w (snd (a r w))) auths
             | None => True
             end
}.

Section fixed.
Context (R : relation W) `{!PreOrder R} (c : Config) (chain : option (list (Authenticator W))).
Context (tp : list IPNet) (lims : Limiters W) (Houter : outer_within R lims chain).
(* a request counted *)
Context (Hmetrics : forall code ms w,
  R w (set_metrics (foldr bump (metrics w) (rev (status_counters code ++ [latency_counter ms]))) w)).
Local Abbreviation handler := (Handler W (option Principal)).

Lemma within_metricsMiddleware P (next : handler) :
  within_for R P next -> within_for R P (metricsMiddleware next).
Proof.
  intros Hn ctx r Hc. unfold metricsMiddleware.
  apply within_bind; [done|apply within_lift, (ow_Now _ _ _ Houter)|]. intros start.
  apply within_bind; [done|by apply within_listen, Hn|]. intros [cs []].
  apply within_bind; [done| |].
  - apply within_bind; [done|apply within_lift, (ow_Now _ _ _ Houter)|]. intros now.
    by apply within_ret.
  - intros d. apply within_lift. intros w. apply (Hmetrics (rw_status cs) d).
Qed.

Lemma within_hsts P (h : handler) : within_for R P h -> within_for R P (hsts c h).
Proof. intros Hh. unfold hsts, when. case_match; [by apply within_HSTS|done]. Qed.
Lemma within_global P (h : handler) : within_for R P h -> within_for R P (globalInflight c lims h).
Proof. apply within_GlobalInflight; [done|apply Houter|apply Houter]. Qed.
Lemma within_perUser P (h : handler) : within_for R P h -> within_for R P (perUser c lims h).
Proof. apply within_PerUserConcurrency; [done|apply Houter|apply Houter]. Qed.
Lemma within_rateLimit P (h : handler) : within_for R P h -> within_for R P (rateLimit c tp h).
Proof. apply within_RateLimitPerIP; [done|apply Houter|apply Houter]. Qed.
Lemma within_lockout P (h : handler) : within_for R P h -> within_for R P (lockout c tp h).
Proof. apply within_BruteForceLockout; [done|apply Houter|apply Houter]. Qed.
Lemma within_xsrf P (h : handler) : within_for R P h -> within_for R P (xsrf c h).
Proof. apply within_XSRF; [done|apply Houter]. Qed.
Lemma within_reqid P (h : handler) : within_for R P h -> within_for R P (RequestID h).
Proof. apply within_RequestID; [done|apply Houter]. Qed.

#[local] Hint Resolve within_metricsMiddleware within_hsts within_global within_rateLimit within_lockout
  within_xsrf within_reqid within_Recover within_SecurityHeaders within_CORS within_BodyLimit
  within_RequireContentTypeJSON : footprint.

(** The callers who may run queries and reflect the schema. *)
Definition data_caller (ctx : option Principal) : Prop :=
  vouched_for chain ctx /\ is_not (AdminUser (Sec c)) ctx /\ is_not (MetricsUser (Sec c)) ctx.

Lemma within_data_access (endpoint : handler) :
  within_for R data_caller endpoint -> within_for R (eq None) (data_access c chain tp lims endpoint).
Proof.
  intros He. unfold data_access. apply within_lockout.
  apply within_authenticated; [done|apply Houter|apply Houter|].
  apply within_denyAppUser, within_denyAppUser, within_perUser; [done..|].
  intros ctx r [[Hv Ha] Hm]. by apply He.
Qed.

Lemma within_publicHandler (endpoint : handler) :
  within_for R data_caller endpoint -> within_for R (eq None) (publicHandler c chain tp lims endpoint).
Proof. intros He. pose proof (within_data_access _ He). unfold publicHandler. auto 20 with footprint. Qed.
Lemma within_schemaHandler (endpoint : handler) :
  within_for R data_caller endpoint -> within_for R (eq None) (schemaHandler c chain tp lims endpoint).
Proof. intros He. pose proof (within_data_access _ He). unfold schemaHandler. auto 20 with footprint. Qed.

Lemma within_restricted name (endpoint : handler) :
  within_for R (fun ctx => vouched_for chain ctx /\ is_user name ctx) endpoint ->
  within_for R (eq None) (lockout c tp (authenticated chain (requireAppUser name endpoint))).
Proof.
  intros He. apply within_lockout, within_authenticated; [done|apply Houter|apply Houter|].
  by apply within_requireAppUser.
Qed.
Lemma within_metricsHandler (endpoint : handler) :
  within_for R (fun ctx => vouched_for chain ctx /\ is_user (MetricsUser (Sec c)) ctx) endpoint ->
  within_for R (eq None) (metricsHandler c chain tp lims endpoint).
Proof. intros He. pose proof (within_restricted _ _ He). unfold metricsHandler. auto 20 with footprint. Qed.
Lemma within_adminHandler (endpoint : handler) :
  within_for R (fun ctx => vouched_for chain ctx /\ is_user (AdminUser (Sec c)) ctx) endpoint ->
  within_for R (eq None) (adminHandler c chain tp lims endpoint).
Proof. intros He. pose proof (within_restricted _ _ He). unfold adminHandler. auto 20 with footprint. Qed.
End fixed.

(** ** Rejections outside the metrics *)

(** A limiter that rejects every request: the metrics stay what they were. *)
Definition saturated (c : Config) (lims : Limiters W) : Prop :=
  ((0 < MaxConcurrentGlobal (Lim c))%Z /\ forall w, fst (global_try_send lims w) = false) \/
  ((0 < MaxRequestsPerMinIP (Lim c))%Z /\
   forall key d ttl w, exists n, fst (Increment key d ttl w) = Ok n /\ (MaxRequestsPerMinIP (Lim c) < n)%Z).

Definition same_metrics (w w' : W) : Prop := metrics w' = metrics w.
#[export] Instance same_metrics_preorder : PreOrder same_metrics.
Proof. split; [by intros w|]. intros w1 w2 w3 H12 H23. unfold same_metrics in *. congruence. Qed.

Lemma saturated_limits c chain tp lims P (next : Handler W (option Principal)) :
  outer_within same_metrics lims chain -> saturated c lims ->
  within_for same_metrics P (globalInflight c lims (rateLimit c tp next)).
Proof.
  intros Houter [[Hpos Hfull]|[Hpos Hfull]].
  - unfold globalInflight, GlobalInflight. rewrite (proj2 (Z.leb_gt _ _)) by done. intros ctx r _ h w.
    unfold bind, lift. specialize (Hfull w). pose proof (ow_send _ _ _ Houter w) as Hs.
    destruct (global_try_send lims w) as [ok w1]. cbn in *. subst ok. exact Hs.
  - eapply within_global; [apply _|done|]. intros ctx r _ h w.
    unfold rateLimit, RateLimitPerIP. rewrite (proj2 (Z.leb_gt _ _)) by done. cbn [negb orb].
    unfold bind, lift. pose proof (ow_Now _ _ _ Houter w) as Hn. destruct (Now w) as [now w1].
    cbn in *.
    match goal with |- context [Increment ?k 1 ?t w1] =>
      destruct (Hfull k 1%Z t w1) as (n & Hr & Hlt); pose proof (ow_Increment _ _ _ Houter k 1%Z t w1) as Hi;
      destruct (Increment k 1%Z t w1) as [r' w2] end.
    cbn in *. subst r'. rewrite (proj2 (Z.ltb_lt _ _)) by done. unfold same_metrics in *.
    cbn. congruence.
Qed.

(** The middlewares outside the limiters. *)
Ltac peel Hrand :=
  repeat first [exact _ | apply within_Recover | apply within_SecurityHeaders | apply within_hsts
    | apply within_CORS | apply (within_RequestID _ Hrand) | apply (within_XSRF _ Hrand)
    | apply within_RequireContentTypeJSON | apply within_BodyLimit].

(** ** Properties *)

Local Abbreviation handler := (Handler W (option Principal)).

(** C7: who reaches an endpoint. For any preorder [R] on worlds that the limiters,
    the clock, the metrics and the authentication methods stay within, a request
    on the public or the schema route leaves [R] only if its endpoint does, run
    for a principal whom the configured chain vouched for and who is neither the
    metrics nor the admin user; on the metrics and admin routes only for that one
    user, so not at all where none is configured or there is no chain. *)
Theorem route_gates (R : relation W) `{!PreOrder R} (c : Config) (chain : option (list (Authenticator W)))
    (tp : list IPNet) (lims : Limiters W) (data metrics_ep admin_ep : handler)
  (Houter : outer_within R lims chain) (Hmetrics : forall m w, R w (set_metrics m w))
  (Hdata : forall ctx r h w, data_caller c chain ctx -> R w (world_of (data ctx r h w)))
  (Hm : forall ctx r h w, vouched_for chain ctx -> is_user (MetricsUser (Sec c)) ctx ->
          R w (world_of (metrics_ep ctx r h w)))
  (Ha : forall ctx r h w, vouched_for chain ctx -> is_user (AdminUser (Sec c)) ctx ->
          R w (world_of (admin_ep ctx r h w))) (r : Request) (h : Header) (w : W) :
  R w (world_of (publicHandler c chain tp lims data None r h w)) /\
  R w (world_of (schemaHandler c chain tp lims data None r h w)) /\
  R w (world_of (metricsHandler c chain tp lims metrics_ep None r h w)) /\
  R w (world_of (adminHandler c chain tp lims admin_ep None r h w)).
Proof.
  assert (within_for R (data_caller c chain) data) as Hd by (intros ctx r' Hc h' w'; auto).
  pose proof (fun code ms w => Hmetrics (foldr bump (metrics w) (rev (status_counters code ++ [latency_counter ms]))) w)
    as Hcount.
  split_and!.
  - by apply (within_publicHandler R c chain tp lims Houter Hcount _ Hd).
  - by apply (within_schemaHandler R c chain tp lims Houter Hcount _ Hd).
  - apply (within_metricsHandler R c chain tp lims Houter); [|done]. intros ctx r' [? ?] h' w'. auto.
  - apply (within_adminHandler R c chain tp lims Houter); [|done]. intros ctx r' [? ?] h' w'. auto.
Qed.

(** While the global cap or the per-address rate limit rejects every request,
    no request on the public or the schema route is counted: the metrics, the
    counters of 429 and 503 included, stay what they were. *)
Theorem limiter_rejections_uncounted (c : Config) (chain : option (list (Authenticator W)))
    (tp : list IPNet) (lims : Limiters W) (endpoint : handler)
  (Houter : outer_within same_metrics lims chain) (Hfull : saturated c lims)
  (r : Request) (h : Header) (w : W) :
  metrics (world_of (publicHandler c chain tp lims endpoint None r h w)) = metrics w /\
  metrics (world_of (schemaHandler c chain tp lims endpoint None r h w)) = metrics w.
Proof.
  pose proof (saturated_limits c chain tp lims (eq None)
    (metricsMiddleware (data_access c chain tp lims endpoint)) Houter Hfull) as Hl.
  split.
  - assert (within_for same_metrics (eq None) (publicHandler c chain tp lims endpoint)) as Hw;
      [|by apply Hw]. unfold publicHandler, xsrf. by peel (ow_rand _ _ _ Houter).
  - assert (within_for same_metrics (eq None) (schemaHandler c chain tp lims endpoint)) as Hw;
      [|by apply Hw]. unfold schemaHandler. by peel (ow_rand _ _ _ Houter).
Qed.
End routes.

(** ** A concrete server with one endpoint that counts its requests *)

Module Witness.
#[local] Existing Instance ascii_tables.

Record site := Site { st_time : Z; st_metrics : Metrics; st_auth : Z * Z; st_count : Z; st_hits : nat }.

#[local] Instance site_clock : Clock site :=
  {| Now w := (st_time w, Site (st_time w + 1000000) (st_metrics w) (st_auth w) (st_count w) (st_hits w)) |}.
#[local] Instance site_rand : Rand site := {| rand_Read n w := (Ok (str_concat (replicate n "r")), w) |}.
#[local] Instance site_cache : Cache site := {|
  Increment _ d _ w :=
    (Ok (st_count w + d)%Z, Site (st_time w) (st_metrics w) (st_auth w) (st_count w + d) (st_hits w));
  Get _ w := (Ok None, w);
  Set_ _ _ _ w := (Ok tt, w)
|}.
#[local] Instance site_state : ServerState site := {|
  metrics := st_metrics;
  set_metrics m w := Site (st_time w) m (st_auth w) (st_count w) (st_hits w);
  topQueries _ := NewTopQueries 10; set_topQueries _ w := w;
  topUsers _ := NewTopQueries 10; set_topUsers _ w := w
|}.
#[local] Instance site_auth : AuthCounters site := {|
  authCounts := st_auth;
  setAuthCounts n w := Site (st_time w) (st_metrics w) n (st_count w) (st_hits w)
|}.

Definition hit : Handler site (option Principal) := fun _ _ _ w =>
  ([Write "ok"], Site (st_time w) (st_metrics w) (st_auth w) (st_count w) (S (st_hits w)), Val tt).

(** Every request is the metrics user's. *)
Definition monitor : Authenticator site := fun _ w =>
  (Ok {| AppUser := "metrics"; UserID := 7; Scopes := [] |}, w).

Definition limiters (free : bool) : Limiters site := {|
  global_try_send w := (free, w); global_receive w := (tt, w);
  user_acquire _ w := (true, w); user_release _ w := (tt, w)
|}.

Definition cfg : Config := ServerSpec.Witness.config true "off" 1000.
Definition site0 : site := Site 0 (fun _ => 0%Z) (0, 0)%Z 0 0.
Definition json_post : Request :=
  {| r_Method := "POST"; r_Path := "/pathql"; r_RequestURI := "/pathql"; r_Host := "api";
     r_RemoteAddr := "192.0.2.1:1"; r_Header := {["Content-Type" := ["application/json"]]}; r_TLS := false;
     r_Body := Some (js "{`query`: `SELECT 1`}"); r_BodyLimit := None; r_PathValue := EmptyString |}.

(** The metrics user reaches /metrics. *)
Example monitor_reaches :
  st_hits (world_of (metricsHandler cfg (Some [monitor]) [] (limiters true) hit None json_post ∅ site0)) = 1.
Proof. vm_compute. reflexivity. Qed.

Definition same_hits (w w' : site) : Prop := st_hits w' = st_hits w.
#[local] Instance same_hits_preorder : PreOrder same_hits.
Proof. split; [by intros w|]. intros w1 w2 w3 H12 H23. unfold same_hits in *. congruence. Qed.

Lemma site_outer R lims chain :
  (forall w w', st_hits w' = st_hits w -> st_metrics w' = st_metrics w -> R w w') ->
  (forall w, snd (global_try_send lims w) = w) -> (forall w, snd (global_receive lims w) = w) ->
  (forall k w, snd (user_acquire lims k w) = w) -> (forall k w, snd (user_release lims k w) = w) ->
  chain = Some [monitor] -> outer_within R lims chain.
Proof.
  intros HR Hs Hr Ha Hl ->. split; intros; try (apply HR; by rewrite ?Hs, ?Hr, ?Ha, ?Hl).
  repeat constructor. intros r w. by apply HR.
Qed.

(** An instance of [route_gates]. *)
Lemma route_gates_witness :
  st_hits (world_of (publicHandler cfg (Some [monitor]) [] (limiters true) hit None json_post ∅ site0)) = 0.
Proof.
  assert (outer_within same_hits (limiters true) (Some [monitor])) as Houter by (apply site_outer; done).
  assert (forall ctx, data_caller cfg (Some [monitor]) ctx -> False) as Hnone.
  { intros ctx ((p & r' & w1 & w2 & -> & Hp) & _ & Hm).
    injection Hp as <- <-. apply Hm; reflexivity || discriminate. }
  assert (forall m w, same_hits w (set_metrics m w)) as Hset by done.
  destruct (route_gates same_hits cfg (Some [monitor]) [] (limiters true) hit
    (fun _ _ => ret tt) (fun _ _ => ret tt) Houter Hset
    (fun ctx r h w Hc => False_ind _ (Hnone ctx Hc)) (fun _ _ _ w _ _ => reflexivity w)
    (fun _ _ _ w _ _ => reflexivity w) json_post ∅ site0) as [Hp _].
  unfold same_hits in Hp. rewrite Hp. reflexivity.
Defined.

(** An instance of [limiter_rejections_uncounted]. *)
Lemma limiter_rejections_uncounted_witness :
  status (response_of ∅ (calls_of
    (publicHandler cfg (Some [monitor]) [] (limiters false) hit None json_post ∅ site0))) = 503%Z /\
  metrics (world_of (publicHandler cfg (Some [monitor]) [] (limiters false) hit None json_post ∅ site0)) reject503
    = 0%Z.
Proof.
  split; [vm_compute; reflexivity|].
  pose proof (limiter_rejections_uncounted cfg (Some [monitor]) [] (limiters false) hit) as Hl.
  rewrite (proj1 (Hl ltac:(apply site_outer; done) ltac:(left; done) json_post ∅ site0)). reflexivity.
Defined.
End Witness.
