(* ===== verification/HardeningSpec.v ===== *)
(** * What the start-up hardening check decides

    Over a catalog whose answers are a posture of the connected role: the findings
    that make "enforce" abort, exactly. *)

From S2P Require Import Prelude GoStrings Http GoJson Executor Auth Config Hardening Routes.
From Stdlib Require Import Ascii.

(** What the connected role may do, as the catalog says. *)
Record posture := {
  po_super : bool; po_bypass : bool;
  po_writable : list string; po_no_check : list string; po_dangerous : list string;
  po_no_rls : list string; po_unforced : list string; po_no_policy : list string
}.

Section catalog.
Context {W : Type} `{CatalogDB W} `{UnicodeTables}.

(** At [w] every query of the check answers as [po] says, and changes nothing. *)
Record answers (prefix : string) (w : W) (po : posture) : Prop := {
  an_super : QueryRowBool superuser_sql w = (Ok (po_super po), w);
  an_bypass : QueryRowBool bypassrls_sql w = (Ok (po_bypass po), w);
  an_rows q args l :
    (q, args, l) ∈ (let like := [VString (prefix +:+ "%")] in
      [(writable_sql, like, po_writable po); (no_with_check_sql, like, po_no_check po);
       (dangerous_sql, [], po_dangerous po); (no_rls_sql, like, po_no_rls po);
       (owned_unforced_sql, like, po_unforced po); (no_policy_sql, like, po_no_policy po)]) ->
    QueryRows q args w = (Ok (map Ok l, None), w)
}.

(** [m] gives [a] at [w], and nothing else happens. *)
Definition gives {A} (m : M W A) (w : W) (a : A) : Prop := forall h, m h w = ([], w, Val a).

Lemma gives_ret {A} w (a : A) : gives (ret a) w a.
Proof. done. Qed.
Lemma gives_bind {A B} (m : M W A) (f : A -> M W B) w a b :
  gives m w a -> gives (f a) w b -> gives (bind m f) w b.
Proof. intros Hm Hf h. unfold bind. rewrite Hm. simpl. by rewrite Hf. Qed.
Lemma gives_bind_ok {E A B} (m : M W (result E A)) (f : A -> M W (result E B)) w a b :
  gives m w (Ok a) -> gives (f a) w b -> gives (bind_ok m f) w b.
Proof. intros Hm Hf. eapply gives_bind; [exact Hm|exact Hf]. Qed.
Lemma gives_lift {A} (f : W -> A * W) w a : f w = (a, w) -> gives (lift f) w a.
Proof. intros E h. unfold lift. by rewrite E. Qed.
Lemma gives_wrapped {A} check (m : M W (result string A)) w a :
  gives m w (Ok a) -> gives (wrapped check m) w (Ok a).
Proof. intros Hm. eapply gives_bind; [exact Hm|]. apply gives_ret. Qed.

Lemma scan_rows_all l : scan_rows (map Ok l) = Ok l.
Proof. induction l as [|s l IH]; [done|]. simpl. by rewrite IH. Qed.

Lemma gives_scan q args l w :
  QueryRows q args w = (Ok (map Ok l, None), w) -> gives (scanStrings q args) w (Ok l).
Proof.
  intros E. eapply gives_bind; [by apply gives_lift|]. simpl. rewrite scan_rows_all. apply gives_ret.
Qed.

Lemma gives_query q args l prefix w po check :
  answers prefix w po ->
  (q, args, l) ∈ (let like := [VString (prefix +:+ "%")] in
      [(writable_sql, like, po_writable po); (no_with_check_sql, like, po_no_check po);
       (dangerous_sql, [], po_dangerous po); (no_rls_sql, like, po_no_rls po);
       (owned_unforced_sql, like, po_unforced po); (no_policy_sql, like, po_no_policy po)]) ->
  gives (wrapped check (scanStrings q args)) w (Ok l).
Proof. intros Ha Hin. apply gives_wrapped, gives_scan. by apply (an_rows _ _ _ Ha). Qed.

(** ** The report *)

(** What a finding adds to the critical ones. *)
Definition has_critical (rep : HardeningReport) : Prop := Critical rep <> [].

Lemma has_critical_report l b s rep :
  has_critical (found l (report b s) rep) <-> has_critical rep \/ b = true /\ l <> [].
Proof. unfold has_critical. destruct l, b, rep as [[] ?]; simpl; naive_solver. Qed.
Lemma has_critical_warning l s rep : has_critical (found l (warning s) rep) <-> has_critical rep.
Proof. by destruct l. Qed.
Lemma has_critical_if (b : bool) s rep :
  has_critical (if b then critical s rep else rep) <-> has_critical rep \/ b = true.
Proof. unfold has_critical. destruct b, rep as [[] ?]; simpl; naive_solver. Qed.

Lemma has_critical_none : has_critical {| Critical := []; Warnings := [] |} <-> False.
Proof. by split. Qed.

(** The critical findings of a posture. *)
Definition critical_posture (po : posture) (noRLS writes writeRLS : bool) : Prop :=
  po_super po = true \/ po_bypass po = true
  \/ (writes = false /\ po_writable po <> [])
  \/ (writes = true /\ writeRLS = true /\ po_writable po <> [] /\ po_no_check po <> [])
  \/ (noRLS = true /\ po_no_rls po <> []).

Ltac answer Ha :=
  eapply gives_bind_ok;
  [eapply (gives_query _ _ _ _ _ _ _ Ha); repeat (first [left; reflexivity|right])|]; cbv beta iota.

Lemma VerifyHardening_posture prefix w po noRLS writes writeRLS :
  answers prefix w po ->
  exists rep, gives (VerifyHardening "postgres" prefix noRLS writes writeRLS) w (Ok rep)
    /\ (has_critical rep <-> critical_posture po noRLS writes writeRLS).
Proof.
  intros Ha. unfold VerifyHardening. simpl negb. cbv iota zeta. eexists. split.
  - eapply gives_bind_ok; [apply gives_wrapped, gives_lift, (an_super _ _ _ Ha)|]. cbv beta iota.
    eapply gives_bind_ok; [apply gives_wrapped, gives_lift, (an_bypass _ _ _ Ha)|]. cbv beta iota.
    answer Ha. eapply gives_bind_ok.
    { match goal with |- gives (if ?b then ?m else ret (Ok ?rep)) _ _ =>
        instantiate (1 := if b then found (po_no_check po) (report writeRLS
          (no_with_check_finding (po_no_check po))) rep else rep) end.
      destruct (negb _ && writes); [|apply gives_ret]. answer Ha. apply gives_ret. }
    answer Ha. answer Ha. answer Ha. answer Ha. apply gives_ret.
  - rewrite !has_critical_warning, has_critical_report, has_critical_warning.
    unfold critical_posture.
    destruct writes; simpl negb; cbv iota; [rewrite andb_true_r|rewrite andb_false_r].
    + case_bool_decide; simpl negb; cbv iota; rewrite ?has_critical_report, !has_critical_if, has_critical_none;
        naive_solver.
    + change (critical (writable_finding (po_writable po)))
        with (report true (writable_finding (po_writable po))).
      rewrite has_critical_report, !has_critical_if, has_critical_none. naive_solver.
Qed.
(** C39: under a catalog that answers, the start-up checks abort the process
    exactly under "enforce" and with a critical finding: a weak role password
    secret, a superuser or BYPASSRLS role, a writable table while writes are off,
    under "login_role" a readable table without row-level security, or, with
    writes on, a table without a WITH CHECK policy. *)
Theorem enforce_exact (c : Config) (po : posture) (w : W)
  (Hdriver : Driver c = "postgres") (Hon : StartupChecks (Sec c) <> "off")
  (Hcat : answers (AuthTablePrefix (Sec c)) w po) :
  let login := bool_decide (IdentityKind (Sec c) = "login_role") in
  exists su, gives (runStartupChecks c) w (Some su) /\ su_dbChecked su = true
    /\ (su_abort su = true <-> StartupChecks (Sec c) = "enforce"
        /\ (WeakRoleSecretFinding c <> None \/ critical_posture po login (WritesEnabled c) login)).
Proof.
  unfold runStartupChecks. rewrite Hdriver, (proj2 (String.eqb_neq _ _) Hon).
  set (enforce := String.eqb _ "enforce"). set (rls := enforce && _).
  destruct (VerifyHardening_posture _ _ _ rls (WritesEnabled c) rls Hcat) as (rep & Hrep & Hcrit).
  eexists. split; [eapply gives_bind; [exact Hrep|]; apply gives_ret|]. split; [done|]. simpl.
  rewrite andb_true_iff, negb_true_iff, bool_decide_eq_false. unfold enforce at 1. rewrite String.eqb_eq.
  assert (StartupChecks (Sec c) = "enforce" -> rls = bool_decide (IdentityKind (Sec c) = "login_role")) as Hrls.
  { intros He. unfold rls, enforce. rewrite He. simpl. apply eq_true_iff_eq.
    by rewrite String.eqb_eq, bool_decide_eq_true. }
  unfold has_critical in Hcrit.
  split; intros [He Hc]; (split; [done|]); rewrite <- Hrls in * by done; rewrite <- Hcrit in *;
    destruct (WeakRoleSecretFinding c), (Critical rep); naive_solver.
Qed.
End catalog.

(** ** Witnesses *)

Module Witness.
#[local] Existing Instance ascii_tables.

Definition conf (secret : string) : Config := {|
  Driver := "postgres"; DSN := ""; Listen := ":8000"; Verbose := false;
  Database := Build_DatabaseConf 4 2 0 0 2;
  Sec := Build_Security "pathql_auth_" false [] [] [] "metrics" "enforce" "login_role" "admin" "off" "off" "off";
  AuthC := Build_AuthConf ["apikey"] "X-API-Key" [] "" "" "" "sub" "" false;
  Lim := Build_Limits 0 0 0 0 0 0 0 0 zero_float 0 0;
  Times := Build_Timeouts 0 0 0; CacheC := Build_CacheConf 64 "30s" "1h" 0 0;
  TLS := Build_TLSConf false "" "" false ""; AllowedOrigins := [];
  Roles := Build_RolesConf "host=db" "pathql_auth" "r_" "readers" 1 secret
|}.

(** A role that reads one table without row-level security. *)
Definition po : posture := Build_posture false false [] [] [] ["public.accounts"] [] [].
#[local] Instance catalog : CatalogDB unit := {|
  QueryRowBool _ w := (Ok false, w);
  QueryRows q _ w := (Ok (if String.eqb q no_rls_sql then [Ok "public.accounts"] else [], None), w)
|}.

Lemma catalog_answers : answers "pathql_auth_" tt po.
Proof.
  split; [reflexivity..|]. intros q args l Hin. rewrite !elem_of_cons, elem_of_nil in Hin.
  repeat destruct Hin as [Hin|Hin]; try done; injection Hin as -> -> ->; vm_compute; reflexivity.
Qed.

(** An instance of [enforce_exact]. *)
Lemma enforce_exact_witness :
  exists su, runStartupChecks (conf "0123456789abcdef") ∅ tt = ([], tt, Val (Some su)) /\ su_abort su = true.
Proof.
  destruct (enforce_exact (conf "0123456789abcdef") po tt eq_refl ltac:(discriminate) catalog_answers)
    as (su & Hsu & _ & Habort).
  exists su. split; [apply Hsu|]. apply Habort. split; [reflexivity|]. right. do 4 right.
  split; [reflexivity|discriminate].
Defined.

(** One query that fails discards what the earlier ones found: a superuser role
    starts under "enforce" when the last catalog query times out. *)
Definition failing : CatalogDB unit := {|
  QueryRowBool _ w := (Ok true, w);
  QueryRows q _ w := (if String.eqb q no_policy_sql then Err "timeout" else Ok ([], None), w)
|}.
Example superuser_starts :
  exists su, @runStartupChecks _ failing _ (conf "0123456789abcdef") ∅ tt = ([], tt, Val (Some su))
    /\ su_abort su = false /\ su_critical su = [].
Proof. eexists. split_and!; vm_compute; reflexivity. Qed.
End Witness.
