(* ===== verification/StartupSpec.v ===== *)
(** * What a started process is, and why one does not start

    A process that starts is the one its configuration describes; one that does
    not was stopped by a library, by a setting validation leaves alone or by the
    hardening check. *)

From S2P Require Import Prelude GoStrings GoNet Http GoHttp GoJson GoCrypto Cache Middleware RolePool RolePoolSpec.
From S2P Require Import Roles RolesSpec Executor Auth Jwt Config ConfigSpec Hardening Server Endpoints Routes Startup.
From Stdlib Require Import Ascii.

(** ** Errors *)

Lemma or_fatal_Ok {E A} (f : E -> fatal) (r : result E A) a : or_fatal f r = Ok a <-> r = Ok a.
Proof. destruct r; simpl; naive_solver. Qed.
Lemma or_fatal_Err {E A} (f : E -> fatal) (r : result E A) e :
  or_fatal f r = Err e <-> exists e', r = Err e' /\ e = f e'.
Proof. destruct r; simpl; naive_solver. Qed.

(** The cases of a chain of steps that may fail. *)
Lemma bind_cases {E A B} (r : result E A) (f : A -> result E B) :
  (exists a, r = Ok a /\ (r ≫= f) = f a) \/ (exists e, r = Err e /\ (r ≫= f) = Err e).
Proof. destruct r; simpl; eauto. Qed.

Section auth_chain.
Context {W Tx : Type} `{Clock W} `{Cache W} `{AuthDB W Tx} `{Bcrypt W} `{JWTLib W} `{HTTPClient W} `{UnicodeTables}.

(** An asymmetric algorithm is not a spelling of HS256. *)
Lemma asymmetric_not_HS256 alg : is_asymmetric alg = true -> EqualFold alg "HS256" = false.
Proof.
  unfold is_asymmetric. rewrite !orb_true_iff, !HasPrefix_spec.
  intros [[[t ->]|[t ->]]|[t ->]]; apply bool_decide_eq_false; intros E;
    apply (f_equal head) in E; by vm_compute in E.
Qed.

Lemma existsb_elem {A} (f : A -> bool) l : existsb f l = true -> exists x, x ∈ l /\ f x = true.
Proof. rewrite existsb_exists. by setoid_rewrite <- list_elem_of_In. Qed.

(** The algorithms the JWT method takes without further settings. *)
Definition plain_alg (alg : string) : Prop := alg = "HS256" \/ is_asymmetric alg = true.
#[local] Instance plain_alg_dec alg : Decision (plain_alg alg).
Proof. unfold plain_alg. apply _. Defined.

Lemma plain_known alg : plain_alg alg -> is_HS alg || is_asymmetric alg = true.
Proof. intros [-> | ->]; [done|apply orb_true_r]. Qed.

(** With a valid configuration only an algorithm that is not plain makes the JWT
    method fail. *)
Lemma NewJWTAuthenticator_valid c e :
  valid_jwt (AuthC c) -> NewJWTAuthenticator (jwt_config c) true true = Err e ->
  exists alg, alg ∈ JWTAlgorithms (AuthC c) /\ ~ plain_alg alg.
Proof.
  intros [Hne Hsecret Hjwks] He.
  destruct (decide (Forall plain_alg (JWTAlgorithms (AuthC c)))) as [Hall|Hx];
    [exfalso|apply not_Forall_Exists, Exists_exists in Hx; [naive_solver|apply _]].
  rewrite Forall_forall in Hall. revert He. unfold NewJWTAuthenticator, jwt_config.
  cbn [Algorithms HS256Secret JWKSURL RequireUserRow].
  destruct (JWTAlgorithms (AuthC c)) as [|a l] eqn:Ealgs; [done|].
  cbv beta iota. rewrite <- Ealgs in *.
  destruct (filter _ _) as [|alg rest] eqn:Ef.
  2:{ assert (alg ∈ filter (fun alg => is_HS alg || is_asymmetric alg = false)
                           (JWTAlgorithms (AuthC c))) as [Hf Ha]%list_elem_of_filter
        by (rewrite Ef; by left).
      by rewrite plain_known in Hf by auto. }
  rewrite andb_false_r. destruct (existsb is_HS _) eqn:Es; cbn [andb].
  - rewrite (proj2 (eqb_empty_false _)).
    2:{ apply existsb_elem in Es as (alg & Ha & Hs). apply Hsecret. exists alg. split; [done|].
        destruct (Hall alg Ha) as [->|Has]; [done|]. unfold is_HS, is_asymmetric in *.
        apply HasPrefix_spec in Hs as [t ->]. by vm_compute in Has. }
    destruct (existsb is_asymmetric _) eqn:Ea; cbn [andb]; [|done].
    rewrite (proj2 (eqb_empty_false _)); [done|].
    apply existsb_elem in Ea as (alg & Ha & Has%asymmetric_not_HS256). eauto.
  - destruct (existsb is_asymmetric _) eqn:Ea; cbn [andb]; [|done].
    rewrite (proj2 (eqb_empty_false _)); [done|].
    apply existsb_elem in Ea as (alg & Ha & Has%asymmetric_not_HS256). eauto.
Qed.


Context (dummyBcryptHash : string).

Lemma method_auths_Err c store ms e :
  valid_jwt (AuthC c) \/ ~ ("jwt" ∈ ms) -> method_auths dummyBcryptHash c store ms = Err e ->
  "jwt" ∈ ms /\ exists alg, alg ∈ JWTAlgorithms (AuthC c) /\ ~ plain_alg alg.
Proof.
  induction ms as [|m ms IH]; intros Hv; [done|]. rewrite elem_of_cons in Hv |- *.
  simpl. unfold method_auth.
  destruct (String.eqb_spec m "apikey"); simpl; [destruct (method_auths _ _ _ ms); naive_solver|].
  destruct (String.eqb_spec m "basic"); simpl; [destruct (method_auths _ _ _ ms); naive_solver|].
  destruct (String.eqb_spec m "jwt") as [->|]; simpl; [|destruct (method_auths _ _ _ ms); naive_solver].
  destruct Hv as [Hv|Hn]; [|by destruct Hn; left].
  destruct (NewJWTAuthenticator _ _ _) as [a|e'] eqn:Ej; simpl.
  - destruct (method_auths _ _ _ ms); naive_solver.
  - intros _. split; [by left|]. by eapply NewJWTAuthenticator_valid.
Qed.

Lemma buildAuthChain_spec c :
  valid c ->
  match buildAuthChain dummyBcryptHash c with
  | Ok chain => chain = None <-> Methods (AuthC c) = []
  | Err _ => "jwt" ∈ Methods (AuthC c) /\ exists alg, alg ∈ JWTAlgorithms (AuthC c) /\ ~ plain_alg alg
  end.
Proof.
  intros Hv. unfold buildAuthChain, NewSQLUserStore, tables_of. rewrite (v_tables _ Hv).
  destruct (Methods (AuthC c)) as [|m ms] eqn:Em; [done|]. cbv beta iota. rewrite <- Em. simpl.
  destruct (method_auths _ _ _ _) as [auths|e] eqn:Ea; simpl; [by rewrite Em|].
  eapply method_auths_Err; [|exact Ea].
  destruct (decide ("jwt" ∈ Methods (AuthC c))); [left; by apply (v_jwt _ Hv)|by right].
Qed.
End auth_chain.

(** ** Computations that only read *)

(** [m] makes no call, does not panic, and its value satisfies [Q]. *)
Definition yields {W A} (Q : A -> Prop) (m : M W A) : Prop :=
  forall h w, exists w' a, m h w = ([], w', Val a) /\ Q a.

Create HintDb yields.

Section yields.
Context {W : Type}.

Lemma yields_ret {A} (Q : A -> Prop) (a : A) : Q a -> yields Q (ret (W := W) a).
Proof. intros Ha h w. by exists w, a. Qed.
Lemma yields_lift {A} (f : W -> A * W) : yields (fun _ => True) (lift f).
Proof. intros h w. unfold lift. destruct (f w) as [a w']. by exists w', a. Qed.
Lemma yields_bind {A B} (P : A -> Prop) (Q : B -> Prop) (m : M W A) (f : A -> M W B) :
  yields P m -> (forall a, P a -> yields Q (f a)) -> yields Q (bind m f).
Proof.
  intros Hm Hf h w. destruct (Hm h w) as (w1 & a & E & Ha).
  destruct (Hf a Ha h w1) as (w2 & b & E' & Hb). exists w2, b. split; [|done].
  unfold bind. rewrite E. simpl. by rewrite E'.
Qed.
Lemma yields_bind_ok {E A B} (m : M W (result E A)) (f : A -> M W (result E B)) :
  yields (fun _ => True) m -> (forall a, yields (fun _ => True) (f a)) ->
  yields (fun _ => True) (bind_ok m f).
Proof.
  intros Hm Hf. eapply yields_bind; [done|]. intros [a|e] _; [apply Hf|by apply yields_ret].
Qed.
End yields.

#[export] Hint Resolve yields_ret yields_lift yields_bind_ok : yields.

(** ** The hardening check *)

Section hardening.
Context {W : Type} `{CatalogDB W} `{UnicodeTables}.

Lemma yields_scanStrings q args : yields (fun _ => True) (scanStrings (W := W) q args).
Proof. eapply yields_bind; [apply yields_lift|]. intros r _. by apply yields_ret. Qed.
Lemma yields_wrapped {A} check (m : M W (result string A)) :
  yields (fun _ => True) m -> yields (fun _ => True) (wrapped check m).
Proof. intros Hm. eapply yields_bind; [done|]. intros r _. by apply yields_ret. Qed.

#[local] Hint Resolve yields_scanStrings yields_wrapped : yields.

Lemma yields_VerifyHardening driver prefix b1 b2 b3 :
  yields (fun _ => True) (VerifyHardening (W := W) driver prefix b1 b2 b3).
Proof.
  unfold VerifyHardening. case_match; [auto with yields|].
  repeat first [apply yields_bind_ok; [|intros ?] | case_match]; auto with yields.
Qed.

(** What the outcome of the checks means for a configuration that runs them. *)
Definition checks_meaning (c : Config) (su : option startup) : Prop :=
  match su with
  | None => StartupChecks (Sec c) = "off"
  | Some su =>
      su_abort su = bool_decide (StartupChecks (Sec c) = "enforce" /\ su_critical su <> [])
      /\ (WeakRoleSecretFinding c <> None -> su_critical su <> [])
  end.

Lemma yields_runStartupChecks c : yields (checks_meaning c) (runStartupChecks (W := W) c).
Proof.
  unfold runStartupChecks. destruct (String.eqb_spec (StartupChecks (Sec c)) "off") as [Hoff|Hoff];
    [by apply yields_ret|].
  eapply yields_bind; [apply yields_VerifyHardening|]. intros rep _.
  destruct rep as [rep|e]; apply yields_ret; unfold checks_meaning; simpl; split;
    try (destruct (WeakRoleSecretFinding c); done);
    apply eq_true_iff_eq; rewrite andb_true_iff, negb_true_iff, String.eqb_eq, bool_decide_eq_false,
      bool_decide_eq_true; done.
Qed.

Lemma aborts_meaning c su :
  checks_meaning c su ->
  match aborts su with
  | Some n => StartupChecks (Sec c) = "enforce" /\ 0 < n
  | None => StartupChecks (Sec c) = "enforce" ->
      WeakRoleSecretFinding c = None /\ exists s, su = Some s /\ su_critical s = []
  end.
Proof.
  destruct su as [su|]; simpl; [|by intros ->]. intros [Ha Hw]. rewrite Ha. case_bool_decide as Hc.
  - destruct Hc as [He Hne]. split; [done|]. destruct (su_critical su); [done|simpl; lia].
  - intros He. assert (su_critical su = []) as Hnil by (apply dec_stable; tauto).
    split; [apply dec_stable; tauto|eauto].
Qed.
End hardening.

(** ** The started process *)

Lemma SetMaxOpenConns_static n d :
  sd_driver (SetMaxOpenConns n d) = sd_driver d /\ sd_dsn (SetMaxOpenConns n d) = sd_dsn d
  /\ sd_maxOpen (SetMaxOpenConns n d) = Z.max 0 n
  /\ sd_closed (SetMaxOpenConns n d) = sd_closed d.
Proof.
  unfold SetMaxOpenConns. case_match; [|done].
  destruct (SetMaxIdleConns_static n (SqlDB (sd_driver d) (sd_dsn d) (Z.max 0 n) (sd_maxIdleCount d)
    (sd_maxLifetime d) (sd_maxIdleTime d) (sd_closed d))) as (-> & -> & -> & ->). done.
Qed.

Section start.
Context {W Tx : Type} `{Environment} `{TQConstruct} `{Opener} `{Health W} `{CatalogDB W}.
Context `{Clock W} `{Cache W} `{AuthDB W Tx} `{Bcrypt W} `{JWTLib W} `{HTTPClient W} `{UnicodeTables}.
Context (dummyBcryptHash : string) (path : string).

(** The shared pool: opened with the baseline connection string, and the limits
    of the configuration. *)
Definition shared_pool (c : Config) (h : heap) (db : nat) : Prop :=
  exists d, h !! db = Some d /\ sd_driver d = Driver c /\ sd_dsn d = baseline_dsn c
    /\ sd_closed d = false /\ sd_maxOpen d = Z.max 0 (MaxOpenConns (Database c)).

(** The identity model: per-role pools and authentication, or one shared role. *)
Definition identity_model (c : Config) (rolePools : option RolePools) (authenticates : Prop) : Prop :=
  if String.eqb (IdentityKind (Sec c)) "login_role" then
    authenticates /\ (1 <= MaxTotalBackends (Database c))%Z /\
    exists p, rolePools = Some (UseRolePassword (Some (rolePasswordFunc c)) p)
      /\ NewRolePools (Driver c) (BaseDSN (Config.Roles c)) (MaxTotalBackends (Database c))
           (WarmPoolLimit (Config.Roles c)) (pool_params c) = Ok p
  else rolePools = None.

Record started (h : heap) (pr : process W) : Prop := {
  st_load : Load path = Ok (pr_cfg pr);
  st_trusted : ParseTrustedProxies (TrustedProxies (Sec (pr_cfg pr))) = Ok (n_trusted (pr_nets pr));
  st_allow : ParseTrustedProxies (AllowIPs (Sec (pr_cfg pr))) = Ok (n_allow (pr_nets pr));
  st_deny : ParseTrustedProxies (DenyIPs (Sec (pr_cfg pr))) = Ok (n_deny (pr_nets pr));
  st_pool : shared_pool (pr_cfg pr) h (pr_pool pr);
  st_identity : identity_model (pr_cfg pr) (pr_rolePools pr) (pr_chain pr <> None);
  st_chain : pr_chain pr = None <-> Methods (AuthC (pr_cfg pr)) = [];
  st_tables : NewUserAdmin (AuthTablePrefix (Sec (pr_cfg pr))) = Ok (pr_tables pr);
  st_enforce : StartupChecks (Sec (pr_cfg pr)) = "enforce" ->
    WeakRoleSecretFinding (pr_cfg pr) = None
    /\ exists su, pr_startup pr = Some su /\ su_critical su = []
}.

(** Why a process stops, [h] being the heap it starts with. *)
Definition stopped (h : heap) (e : fatal) : Prop :=
  match e with
  | FConfig e => Load path = Err e
  | FFirewall _ | FUserAdmin _ => False
  | _ => exists c, Load path = Ok c /\
      match e with
      | FCache e => NewEmbedded (MemoryMB (CacheC c)) = Err e
      | FTrustedProxies _ => ~ valid_ip_list (TrustedProxies (Sec c))
      | FRolePools e => IdentityKind (Sec c) = "login_role" /\ (MaxTotalBackends (Database c) < 1)%Z
          /\ e = BadMaxTotalBackends (MaxTotalBackends (Database c))
      | FOpen e => exists h', open_db (Driver c) (baseline_dsn c) h = (Err e, h')
      | FHardening n => StartupChecks (Sec c) = "enforce" /\ 0 < n
      | _ => "jwt" ∈ Methods (AuthC c)
          /\ exists alg, alg ∈ JWTAlgorithms (AuthC c) /\ ~ plain_alg alg
      end
  end.

Lemma Load_valid c : Load path = Ok c -> valid c.
Proof. intros Hl. apply (Load_decoded _ _ Hl). Qed.

(** The steps before the database. *)
Lemma prepare_spec h :
  match prepare path with
  | Err e => stopped h e
  | Ok (c, n) => Load path = Ok c
      /\ ParseTrustedProxies (TrustedProxies (Sec c)) = Ok (n_trusted n)
      /\ ParseTrustedProxies (AllowIPs (Sec c)) = Ok (n_allow n)
      /\ ParseTrustedProxies (DenyIPs (Sec c)) = Ok (n_deny n)
  end.
Proof.
  unfold prepare. destruct (Load path) as [c|e] eqn:Hl; simpl; [|done].
  destruct (Load_valid _ Hl).
  destruct (NewEmbedded _) as [[]|e] eqn:Hc; simpl; [|by exists c].
  destruct (ParseTrustedProxies (TrustedProxies _)) as [t|e] eqn:Ht; simpl.
  2:{ exists c. split; [done|]. intros [nets Hn]%ParseTrustedProxies_Ok. congruence. }
  destruct (ParseTrustedProxies_Ok _ v_allow) as [a Ha].
  destruct (ParseTrustedProxies_Ok _ v_deny) as [d Hd]. rewrite Ha, Hd. simpl. by rewrite Ha, Hd.
Qed.

Lemma open_rolePools_spec c h :
  Load path = Ok c ->
  match open_rolePools c with
  | Err e => stopped h e
  | Ok rolePools => identity_model c rolePools (Methods (AuthC c) <> [])
  end.
Proof.
  intros Hl. destruct (Load_valid _ Hl). unfold open_rolePools, identity_model.
  destruct (String.eqb_spec (IdentityKind (Sec c)) "login_role") as [Hk|Hk]; [|done].
  destruct v_identity as [[? _]|(_ & Hm & Hdsn & _)]; [congruence|].
  unfold NewRolePools. rewrite (proj2 (eqb_empty_false _) Hdsn).
  destruct (Z.ltb_spec (MaxTotalBackends (Database c)) 1); simpl; [by exists c|eauto].
Qed.

Lemma open_pool_spec c h :
  Load path = Ok c ->
  match open_pool c h with
  | (Err e, _) => stopped h e
  | (Ok db, h') => shared_pool c h' db
  end.
Proof.
  intros Hl. unfold open_pool, OpenPool.
  destruct (open_db _ _ h) as [[k|e] h'] eqn:Eo; simpl; [|by exists c; eauto].
  destruct (open_db_Ok _ _ _ _ _ Eo) as [_ ->]. eexists. split.
  { rewrite lookup_alter_eq, lookup_insert_eq. done. }
  simpl. destruct (SetMaxIdleConns_static (MaxIdleConns (Database c))
    (SetMaxOpenConns (MaxOpenConns (Database c)) (new_sqlDB (Driver c) (baseline_dsn c))))
    as (-> & -> & -> & ->).
  destruct (SetMaxOpenConns_static (MaxOpenConns (Database c)) (new_sqlDB (Driver c) (baseline_dsn c)))
    as (-> & -> & -> & ->). done.
Qed.

(** The steps that use the pool. *)
Lemma checked_spec c n rolePools db h :
  Load path = Ok c ->
  yields (fun r => match r with
                   | Err e => stopped h e
                   | Ok pr => pr_cfg pr = c /\ pr_nets pr = n /\ pr_rolePools pr = rolePools
                       /\ pr_pool pr = db
                       /\ NewUserAdmin (AuthTablePrefix (Sec c)) = Ok (pr_tables pr)
                       /\ (pr_chain pr = None <-> Methods (AuthC c) = [])
                       /\ (StartupChecks (Sec c) = "enforce" -> WeakRoleSecretFinding c = None
                           /\ exists su, pr_startup pr = Some su /\ su_critical su = [])
                   end)
         (checked dummyBcryptHash c n rolePools db).
Proof.
  intros Hl. pose proof (Load_valid _ Hl) as Hv.
  assert (exists t, NewUserAdmin (AuthTablePrefix (Sec c)) = Ok t) as [t Ht].
  { unfold NewUserAdmin, tables_of. rewrite (v_tables _ Hv). eauto. }
  unfold checked. rewrite Ht. simpl.
  eapply yields_bind; [by apply (yields_ret (eq (Ok t)))|]. intros ? <-.
  eapply yields_bind; [apply yields_lift|]. intros _ _.
  eapply yields_bind; [apply yields_runStartupChecks|]. intros su Hsu%aborts_meaning.
  destruct (aborts su) as [k|]; apply yields_ret; simpl; [by exists c|].
  pose proof (buildAuthChain_spec dummyBcryptHash c Hv) as Hb.
  destruct (buildAuthChain dummyBcryptHash c) as [chain|e]; simpl; [done|by exists c].
Qed.

(** C26: what starting the process comes to: either every step of [main] succeeds
    and the process is the one its configuration describes (shared pool as the
    baseline role, role pools and authentication under "login_role", no critical
    finding under "enforce"), or the first fatal step is one validation does not
    exclude: a library, the trusted proxies, a negative [max_total_backends], the
    hardening findings, or a JWT algorithm that is neither HS256 nor asymmetric.
    Nothing is sent on any connection, and nothing panics. *)
Theorem start_outcome (h : heap) (hd : Header) (w : W) :
  exists w' r h', start dummyBcryptHash path h hd w = ([], w', Val (r, h'))
    /\ match r with Ok pr => started h' pr | Err e => stopped h e end.
Proof.
  unfold start. pose proof (prepare_spec h) as Hp.
  destruct (prepare path) as [[c n]|e]; simpl; [|by eauto 6]. destruct Hp as (Hl & Ht & Ha & Hd).
  pose proof (open_rolePools_spec c h Hl) as Hr. destruct (open_rolePools c) as [rps|e]; simpl; [|by eauto 6].
  pose proof (open_pool_spec c h Hl) as Ho. destruct (open_pool c h) as [[db|e] h']; [|by eauto 6].
  destruct (checked_spec c n rps db h Hl hd w) as (w' & r & Hc & Hr').
  exists w', r, h'. unfold bind. rewrite Hc. split; [done|].
  destruct r as [pr|e]; [|done]. destruct Hr' as (<- & <- & <- & <- & Htb & Hch & He).
  split; try done. unfold identity_model in *. destruct (String.eqb _ _); [|done].
  by rewrite Hch.
Qed.
End start.

(** ** Two configurations *)

Module Witness.
#[local] Existing Instance ascii_tables.
#[local] Existing Instance RolePoolSpec.Witness.opener.

(** A login_role configuration with the JWT algorithms [algs]. *)
Definition conf (algs : list string) : Config := {|
  Driver := "postgres"; DSN := ""; Listen := ""; Verbose := false;
  Database := Build_DatabaseConf 0 0 0 0 0;
  Sec := Build_Security "" false [" 10.0.0.1 "] [] [] "" "" "login_role" "admin" "" "" "";
  AuthC := Build_AuthConf ["apikey"; "jwt"] "" algs "https://idp/keys" "" "" "" "" false;
  Lim := Build_Limits 0 0 0 0 0 0 0 0 zero_float 0 0;
  Times := Build_Timeouts 0 0 0; CacheC := Build_CacheConf 0 "" "" 0 0;
  TLS := Build_TLSConf false "" "" false ""; AllowedOrigins := [];
  Roles := Build_RolesConf "host=db" "" "" "" 0 "${ROLE_SECRET}"
|}.
Definition files (algs : list string) : Environment := {|
  DecodeFile _ := Ok (conf algs, false);
  Getenv name := if String.eqb name "ROLE_SECRET" then "0123456789abcdef" else EmptyString
|}.

#[local] Instance tq : TQConstruct := {| NumCPU := 4; NewSharded _ _ _ := Ok tt |}.
#[local] Instance no_health : Health unit :=
  {| health _ := None; set_health _ w := w; ping w := (Some "down", w) |}.
#[local] Instance no_catalog : CatalogDB unit :=
  {| QueryRowBool _ w := (Err "down", w); QueryRows _ _ w := (Err "down", w) |}.
#[local] Instance clock : Clock unit := {| Now w := (0%Z, w) |}.
#[local] Instance cache : Cache unit :=
  {| Increment _ _ _ w := (Err "none", w); Get _ w := (Err "none", w); Set_ _ _ _ w := (Err "none", w) |}.
#[local] Instance no_db : AuthDB unit unit := {|
  Get_apiKeyRow _ _ w := (Err (ErrGet "down"), w); Get_userRow _ _ w := (Err (ErrGet "down"), w);
  Get_id _ _ w := (Err (ErrGet "down"), w); Exec _ _ w := (Err "down", w); Begin w := (Err "down", w);
  Tx_Exec _ _ _ w := (Err "down", w); Tx_Commit _ w := (Err "down", w); Tx_Rollback _ w := (Err "down", w)
|}.
#[local] Instance no_bcrypt : Bcrypt unit :=
  {| CompareHashAndPassword _ _ := false; GenerateFromPassword _ w := (Err "none", w) |}.
#[local] Instance no_jwt : JWTLib unit :=
  {| ParseWithClaims _ _ _ w := (Err "malformed", w); GetIssuer _ := EmptyString; GetAudience _ := [] |}.
#[local] Instance no_client : HTTPClient unit := {| HTTP_Get _ w := (Err "offline", w) |}.

Definition run (algs : list string) : result fatal (process unit) * heap :=
  match start (H := files algs) "" "config.ini" ∅ ∅ tt with
  | (_, _, Val r) => r
  | (_, _, Panic v) => (Err (FOpen v), ∅)
  end.

(** With the database down the process starts, authenticating and with role
    pools, the shared pool logged in as the baseline role. *)
Example login_role_starts :
  match run ["RS256"] with
  | (Ok pr, h) => bool_decide (length <$> pr_chain pr = Some 2)
      && bool_decide (p_cap <$> pr_rolePools pr = Some 200%Z)
      && bool_decide (sd_dsn <$> h !! pr_pool pr = Some (baseline_dsn (pr_cfg pr)))
  | (Err _, _) => false
  end = true.
Proof. vm_compute. reflexivity. Qed.

(** Validation takes HS384 for an algorithm that needs a JWKS URL; the method
    itself then asks for the secret, and the process stops. *)
Example HS384_stops :
  is_Ok (Load (H := files ["HS384"]) "config.ini") = true
  /\ match (run ["HS384"]).1 with
     | Err (FAuthChain e) =>
         String.eqb e "auth: jwt: an HS* algorithm is configured but no HS256 secret was provided"
     | _ => false
     end = true.
Proof. split; vm_compute; reflexivity. Qed.
End Witness.
