(* ===== verification/LifecycleSpec.v ===== *)
(** * What serving and shutting down promise

    Once a signal or a listener's error ends the serving, every run of the process
    ends, and it ends by leaving [main]: no goroutine waits for a send, no wait
    lacks its time-out. The pools are closed only after both servers stopped
    taking requests, and before the time-out only with none under way. *)

From S2P Require Import Prelude GoStrings Config Routes Startup StartupSpec Lifecycle.

Section lifecycle.
Context (c : Config).

Local Abbreviation reachable s := (rtc (live_step c) (serve_start c) s).

(** ** The invariant *)

(** Errors a goroutine may still send. *)
Definition pending (l : listener) : nat := match ls_go l with Ended => 0 | _ => 1 end.
Definition pendings (s : life) : nat :=
  pending (lf_public s) + from_option pending 0 (lf_redirect s).

(** [main] is past the shutdown of the public, of the redirect server. *)
Definition past_public (m : main_phase) : bool :=
  match m with AtSelect | ShutPublic => false | _ => true end.
Definition past_redirect (m : main_phase) : bool :=
  match m with Returning _ | Exited => true | _ => false end.

(** A server that [Shutdown] was called on, and that is done unless it timed out. *)
Definition stopping (done : bool) (s : life) (l : listener) : Prop :=
  ls_shut l = true /\ (done = true -> lf_late s = false -> ls_active l = 0).

Record life_inv (s : life) : Prop := {
  li_room : length (lf_serveErr s) + pendings s <= serveErr_cap;
  li_public : lf_main s <> AtSelect -> stopping (past_public (lf_main s)) s (lf_public s);
  li_redirect r : lf_redirect s = Some r ->
    past_public (lf_main s) = true -> stopping (past_redirect (lf_main s)) s r;
  li_both : lf_main s = ShutRedirect -> is_Some (lf_redirect s)
}.

Lemma life_inv_start : life_inv (serve_start c).
Proof.
  unfold serve_start. split; simpl; try done. unfold pendings, serveErr_cap. simpl.
  case_match; unfold pending; simpl; lia.
Qed.

(** A listener moves on: it may only lose its pending error, its shutdown stays,
    and once shut it gets no new request. *)
Definition moves (l l' : listener) : Prop :=
  pending l' <= pending l /\ (ls_shut l = true -> ls_shut l' = true /\ ls_active l' <= ls_active l).

Lemma life_inv_at l l' s s' :
  moves l l' -> at_listener l l' s s' -> life_inv s ->
  life_inv s' /\ pendings s' + pending l = pendings s + pending l'
  /\ lf_serveErr s' = lf_serveErr s /\ lf_main s' = lf_main s /\ lf_late s' = lf_late s.
Proof.
  intros [Hp Hs] Hat [Hroom Hpub Hred Hboth]. unfold stopping in *.
  destruct Hat as [<-|Hr]; unfold pendings in *; cbn in *.
  - split; [|split_and!; (done || lia)]. split; unfold stopping, pendings; cbn; [lia| |done|done].
    intros Hm. destruct (Hpub Hm) as [Hsh Hact]. destruct (Hs Hsh) as [Hsh' Hle]. split; [done|].
    intros Hd Hl. specialize (Hact Hd Hl). lia.
  - rewrite Hr in *. cbn in *. split; [|split_and!; (done || lia)].
    split; unfold stopping, pendings; cbn; [lia|done| |done].
    intros r [= <-] Hpast. destruct (Hred l eq_refl Hpast) as [Hsh Hact].
    destruct (Hs Hsh) as [Hsh' Hle]. split; [done|]. intros Hd Hl. specialize (Hact Hd Hl). lia.
Qed.

Lemma life_inv_outside s s' : outside s s' -> life_inv s -> life_inv s'.
Proof.
  intros Hstep Hinv. destruct Hstep as [s _|e n sh s s' Hat|n s s' Hat].
  - by destruct Hinv.
  - eapply life_inv_at; [|done..]. by split.
  - eapply life_inv_at; [|done..]. by split.
Qed.

Lemma life_inv_inside s s' : inside c s s' -> life_inv s -> life_inv s'.
Proof.
  intros Hstep Hinv. destruct Hstep as [e sh n s s' Hlen Hat|n s s' Hat|g sh n s s' Hat
    |s Hm Hsig|e es s Hm He|s Hm Hl|s Hm Hdone|r s Hm Hr Hdone|d ds s Hm|s Hm].
  - pose proof (li_room _ Hinv) as Hroom.
    assert (moves (Listener (Sending e) sh n) (Listener Ended sh n)) as Hmv by (split; unfold pending; simpl; [lia|auto]).
    destruct (life_inv_at _ _ _ _ Hmv Hat Hinv) as ([_ H2 H3 H4] & Hp & He & _).
    split; try done. unfold pendings in *. cbn in *. rewrite length_app. cbn. lia.
  - eapply life_inv_at; [|done..]. split; unfold pending; simpl; [lia|auto].
  - eapply life_inv_at; [|done..]. split; unfold pending; simpl; [done|auto with lia].
  - destruct Hinv as [Hroom _ _ _]. by split.
  - destruct Hinv as [Hroom _ _ _]. rewrite He in Hroom. split; try done.
    unfold pendings in *. cbn in *. change (pending (shut (lf_public s))) with (pending (lf_public s)). lia.
  - destruct Hinv as [Hroom Hpub Hred Hboth]. split; unfold stopping in *; cbn in *; try done.
    + intros Hne. destruct (Hpub Hne) as [Hsh _]. by split.
    + intros r Hr Hpast. destruct (Hred r Hr Hpast) as [Hsh _]. by split.
  - destruct Hinv as [Hroom Hpub _ _]. rewrite Hm in Hpub. destruct (Hpub ltac:(done)) as [Hsh _].
    unfold after_public. destruct (lf_redirect s) as [r|] eqn:Hr.
    + split; unfold stopping in *; cbn in *; try done.
      * unfold pendings in *. rewrite Hr in Hroom. exact Hroom.
      * intros _. split; [done|]. intros _ Hl. destruct Hdone; [done|congruence].
      * by intros ? [= <-] _.
    + split; unfold stopping in *; cbn in *; try done.
      * intros _. split; [done|]. intros _ Hl. destruct Hdone; [done|congruence].
      * intros r. by rewrite Hr.
  - destruct Hinv as [Hroom Hpub Hred _]. rewrite Hm in Hpub, Hred.
    destruct (Hpub ltac:(done)) as [Hsh Hact]. destruct (Hred r Hr eq_refl) as [Hshr _].
    split; unfold stopping in *; cbn in *; try done.
    intros r' Hr' _. rewrite Hr in Hr'. injection Hr' as <-. split; [done|].
    intros _ Hl. destruct Hdone; [done|congruence].
  - destruct Hinv as [Hroom Hpub Hred _]. rewrite Hm in Hpub, Hred.
    split; unfold stopping in *; cbn in *; auto; done.
  - destruct Hinv as [Hroom Hpub Hred _]. rewrite Hm in Hpub, Hred.
    split; unfold stopping in *; cbn in *; auto; done.
Qed.

Lemma life_inv_reachable s : reachable s -> life_inv s.
Proof.
  apply (rtc_invariant (live_step c) life_inv); [apply life_inv_start|].
  intros s1 s2 [Ho|Hin] Hi; [by eapply life_inv_outside|by eapply life_inv_inside].
Qed.
(** ** The process ends *)

Definition listener_weight (l : listener) : nat :=
  ls_active l + match ls_go l with Serving => 2 | Sending _ => 1 | Ended => 0 end.
(** At most five calls are deferred. *)
Definition phase_weight (m : main_phase) : nat :=
  match m with
  | AtSelect => 10 | ShutPublic => 9 | ShutRedirect => 8
  | Returning calls => 1 + length calls
  | Exited => 0
  end.
Definition life_weight (s : life) : nat :=
  listener_weight (lf_public s) + from_option listener_weight 0 (lf_redirect s)
  + (if lf_late s then 0 else 1) + phase_weight (lf_main s).

Lemma deferred_weight : phase_weight (Returning (deferred c)) < 8.
Proof. unfold deferred. case_match; simpl; lia. Qed.

Lemma weight_at l l' s s' :
  at_listener l l' s s' -> life_weight s' + listener_weight l = life_weight s + listener_weight l'.
Proof.
  intros [<-|Hr]; unfold life_weight; cbn; [lia|]. rewrite Hr. cbn. lia.
Qed.

Lemma inside_weight s s' : inside c s s' -> life_weight s' < life_weight s.
Proof.
  pose proof deferred_weight as Hd.
  intros [e sh n s1 s2 _ Hat|n s1 s2 Hat|g sh n s1 s2 Hat|s1 Hm _|e es s1 Hm _|s1 _ Hl|s1 Hm _|r s1 Hm _ _
    |d ds s1 Hm|s1 Hm].
  1-3: pose proof (weight_at _ _ _ _ Hat) as Hw; unfold life_weight, listener_weight in *; cbn in *; lia.
  all: unfold after_public, life_weight, listener_weight in *; cbn in *; try rewrite Hm; try rewrite Hl; cbn; try lia.
  destruct (lf_redirect s1) as [r|] eqn:Hr; cbn; rewrite ?Hr; cbn; lia.
Qed.

(** What ends the serving. *)
Definition is_sending (l : listener) : Prop := exists e, ls_go l = Sending e.
Definition ending (s : life) : Prop :=
  lf_main s <> AtSelect \/ lf_signal s = true \/ lf_serveErr s <> []
  \/ is_sending (lf_public s) \/ exists r, lf_redirect s = Some r /\ is_sending r.

(** A goroutine with an error has room for it. *)
Lemma sending_steps s l :
  life_inv s -> is_sending l -> lf_public s = l \/ lf_redirect s = Some l -> red (inside c) s.
Proof.
  intros Hinv [e He] Hl. destruct l as [g sh n]. cbn in He. subst g.
  assert (exists s', at_listener (Listener (Sending e) sh n) (Listener Ended sh n) s s') as [s' Hat].
  { destruct Hl; eexists; by constructor. }
  exists (with_serveErr (lf_serveErr s ++ [e]) s'). eapply in_send; [|exact Hat].
  pose proof (li_room _ Hinv) as Hroom. unfold pendings in Hroom.
  destruct Hl as [Hl|Hl]; rewrite Hl in Hroom; unfold pending in Hroom at 1; cbn in Hroom; lia.
Qed.

Lemma ending_steps s : life_inv s -> ending s -> lf_main s = Exited \/ red (inside c) s.
Proof.
  intros Hinv Hend. destruct (lf_main s) as [| | |[|d ds]|] eqn:Hm; [right|right|right|right|right|by left].
  - destruct Hend as [?|[Hsig|[He|[Hs|(r & Hr & Hs)]]]]; [congruence| | | |].
    + eexists. by apply in_select_signal.
    + destruct (lf_serveErr s) as [|e es] eqn:Ees; [done|]. eexists. by eapply in_select_error.
    + eapply sending_steps; [done|done|by left].
    + eapply sending_steps; [done|done|by right].
  - destruct (lf_late s) eqn:Hl; eexists; [apply in_shut_public|apply in_timeout]; auto.
  - destruct (li_both _ Hinv Hm) as [r Hr].
    destruct (lf_late s) eqn:Hl; eexists; [apply (in_shut_redirect c r)|apply in_timeout]; auto.
  - eexists. by apply in_exit.
  - eexists. by eapply in_deferred.
Qed.

Lemma ending_inside s s' : inside c s s' -> ending s -> ending s'.
Proof.
  assert (forall l l' s1 s2, at_listener l l' s1 s2 -> (is_sending l -> is_sending l') -> ending s1 -> ending s2)
    as Hother.
  { intros l l' s1 s2 [<-|Hr] Hl [?|[?|[?|[?|(r & Hr' & ?)]]]]; unfold ending; cbn;
      first [by left|by right; left|by right; right; left|right; right; right].
    1, 3: left; auto.
    1: right; by exists r.
    right. exists l'. rewrite Hr in Hr'. injection Hr' as <-. auto. }
  intros [e sh n s1 s2 _ Hat|n s1 s2 Hat|g sh n s1 s2 Hat|s1 Hm _|e es s1 Hm _|s1 Hm Hl|s1 Hm _|r s1 Hm _ _
    |d ds s1 Hm|s1 Hm] Hend; try (left; cbn; congruence).
  - right; right; left. cbn. by destruct (lf_serveErr s1).
  - eapply Hother; [exact Hat| |done]. intros [e He]. discriminate He.
  - eapply Hother; [exact Hat| |done]. intros [e He]. by exists e.
  - left. cbn. destruct Hm as [->| ->]; done.
  - left. unfold after_public. by case_match.
Qed.

Lemma inside_sn s : sn (inside c) s.
Proof.
  remember (life_weight s) as n eqn:Hn. revert s Hn. induction (lt_wf n) as [n _ IH]. intros s ->.
  constructor. intros s' Hs%inside_weight. by eapply IH.
Qed.

(** C22: serving ends, and gracefully. From every state the process can reach, it
    takes finitely many steps of its own; once a signal arrived, a listener failed
    or the shutdown began, these can only end with [main] returning: no goroutine
    is stuck at its send, no shutdown without its time-out. And when [main] runs
    its deferred calls, which close the pools, both servers have stopped taking
    requests and, unless the ten seconds ran out, have none under way. *)
Theorem shutdown_ends (s : life) (Hreach : reachable s) :
  sn (inside c) s
  /\ (ending s -> forall s', rtc (inside c) s s' -> nf (inside c) s' -> lf_main s' = Exited)
  /\ (past_redirect (lf_main s) = true ->
       forall l, lf_public s = l \/ lf_redirect s = Some l -> stopping true s l).
Proof.
  split_and!; [apply inside_sn| |].
  - intros Hend s' Hs Hnf. assert (life_inv s' /\ ending s') as [Hi He].
    { apply (rtc_invariant (inside c) (fun s => life_inv s /\ ending s) s s'); [|clear|exact Hs].
      - split; [by apply life_inv_reachable|done].
      - intros a b Hab [Hi He]. split; [by eapply life_inv_inside|by eapply ending_inside]. }
    by destruct (ending_steps s' Hi He).
  - intros Hpast l Hl. apply life_inv_reachable in Hreach as [_ Hpub Hred _].
    destruct (lf_main s) eqn:Hm; try done; cbn in *;
      (destruct Hl as [<-|Hl]; [by apply Hpub|by apply Hred]).
Qed.
End lifecycle.

(** ** A signal at an idle server *)

Module Witness.
Definition conf : Config := StartupSpec.Witness.conf ["RS256"].

Definition signalled : life :=
  Life serving None [] true false AtSelect.

Lemma reach_signalled : rtc (live_step conf) (serve_start conf) signalled.
Proof. apply rtc_once. left. by apply (out_signal (serve_start conf)). Qed.

(** An instance of [shutdown_ends]. *)
Lemma shutdown_ends_witness :
  sn (inside conf) signalled
  /\ forall s', rtc (inside conf) signalled s' -> nf (inside conf) s' -> lf_main s' = Exited.
Proof.
  destruct (shutdown_ends conf signalled reach_signalled) as (Hsn & Hend & _).
  split; [exact Hsn|]. apply Hend. right. left. reflexivity.
Defined.

(** One such run: shut down, and the five deferred calls. *)
Example run_to_exit :
  exists s, nsteps (inside conf) 8 signalled s /\ lf_main s = Exited.
Proof.
  eexists. split.
  - eapply nsteps_l; [by apply in_select_signal|].
    eapply nsteps_l; [apply in_shut_public; [done|by left]|].
    do 5 (eapply nsteps_l; [by eapply in_deferred|]).
    eapply nsteps_l; [by apply in_exit|apply nsteps_O].
  - done.
Qed.
End Witness.
