(* ===== verification/IdentitySpec.v ===== *)
(** * Managed roles as login identities

    Where the pieces meet: the name [Roles] gives a user is one [RolePool] accepts
    and names no other user; and the password a pool logs in with is the one the
    sync leaves in the catalog. *)

From S2P Require Import Prelude GoStrings GoCrypto RolePool RolePoolSpec Roles RolesSpec.
From S2P Require Import Executor Config Endpoints Startup.
From Stdlib Require Import Ascii.

(** ** Names *)

Lemma str_forall_impl (p q : ascii -> bool) s :
  (forall c, p c = true -> q c = true) -> str_forall p s = true -> str_forall q s = true.
Proof.
  intros Hpq. induction s as [|c s IH]; simpl; [done|]. rewrite !andb_true_iff. naive_solver.
Qed.

Lemma lower_ident_byte c : isLower c || isDigitByte c || Ascii.eqb c "_" = true -> ident_byte c = true.
Proof. destruct c as [[] [] [] [] [] [] [] []]; vm_compute; done. Qed.
Lemma lower_ident_start c : isLower c || Ascii.eqb c "_" = true -> ident_start c = true.
Proof. destruct c as [[] [] [] [] [] [] [] []]; vm_compute; done. Qed.
Lemma digit_ident_byte c : isDigitByte c = true -> ident_byte c = true.
Proof. destruct c as [[] [] [] [] [] [] [] []]; vm_compute; done. Qed.

(** A valid prefix followed by [rest] is an identifier when [rest] is made of
    identifier bytes. *)
Lemma match_ident_prefix prefix rest :
  match_lower_ident prefix = true -> match_ident (prefix +:+ rest) = str_forall ident_byte rest.
Proof.
  destruct prefix as [|c s]; simpl; [done|]. rewrite andb_true_iff.
  intros [Hc%lower_ident_start Hs%(str_forall_impl _ _ _ lower_ident_byte)].
  by rewrite str_forall_app, Hc, Hs.
Qed.

Lemma FormatInt_ident id :
  is_i64 id -> str_forall ident_byte (FormatInt id) = negb (id <? 0)%Z.
Proof.
  intros (ds & Hd & Hne & _ & ->)%FormatInt_spec. apply (str_forall_impl _ _ _ digit_ident_byte) in Hd.
  by destruct (id <? 0)%Z.
Qed.

(** No two users share a role. *)
Lemma RoleName_inj prefix id id' role :
  RoleName prefix id = Ok role -> RoleName prefix id' = Ok role -> id' = id.
Proof.
  intros (_ & -> & _)%RoleName_Ok (_ & Heq & _)%RoleName_Ok.
  symmetry. by apply FormatInt_inj, (inj (String.append prefix)).
Qed.

(** C29: the role of a user is a name of its own: it carries the managed prefix,
    has the 63 bytes of a PostgreSQL identifier, is what no other user id maps to,
    and is a role the connection manager opens a pool for exactly when the id is
    not negative (a minus sign would need quoting). *)
Theorem managed_role_wf (prefix role base : string) (id : Z)
  (Hid : is_i64 id) (Hrole : RoleName prefix id = Ok role) :
  hasManagedPrefix role prefix = true /\ String.length role <= maxRoleNameBytes
  /\ (forall id', RoleName prefix id' = Ok role -> id' = id)
  /\ roleDSN base role = if (id <? 0)%Z then Err (InvalidRole role) else Ok (base +:+ " user=" +:+ role).
Proof.
  split_and!; [by eapply RoleName_managed| |intros id'; by apply RoleName_inj|];
    apply RoleName_Ok in Hrole as (Hp & -> & Hlen); [done|].
  unfold roleDSN. rewrite match_ident_prefix, FormatInt_ident by done. by destruct (id <? 0)%Z.
Qed.

(** ** Passwords *)

Definition lower_hex (c : ascii) : bool := isDigitByte c || bool_decide (c ∈ ["a"; "b"; "c"; "d"; "e"; "f"]%char).

Lemma hex_digits_lower c :
  lower_hex (hex_digit (byte c / 16)) && lower_hex (hex_digit (byte c mod 16)) = true.
Proof. destruct c as [[] [] [] [] [] [] [] []]; vm_compute; done. Qed.

Lemma hex_encode_lower s : str_forall lower_hex (hex_encode s) = true.
Proof.
  induction s as [|c s IH]; [done|]. cbn [hex_encode str_forall].
  by rewrite andb_assoc, hex_digits_lower, IH.
Qed.

Lemma str_forall_take p n s : str_forall p s = true -> str_forall p (str_take n s) = true.
Proof.
  rewrite <- (str_take_drop n s) at 1. rewrite str_forall_app, andb_true_iff. by intros [? _].
Qed.

Lemma rolePassword_shape secret role :
  String.length (rolePassword secret role) = 32
  /\ str_forall lower_hex (rolePassword secret role) = true.
Proof.
  unfold rolePassword. split.
  - by rewrite str_take_length, hex_encode_length, hmac_sha256_length.
  - apply str_forall_take, hex_encode_lower.
Qed.

Section logins.
Context `{PqQuote} `{MapOrder} `{Opener}.
(** A started login_role process and a reachable state of its role pools. *)
Context (c : Config) (p : RolePools) (h : heap) (s : system).
Hypothesis (Hpools : open_rolePools c = Ok (Some p)) (Hreach : rtc step (init_system p h) s).

(** A caller that holds a pool holds one logged in with the role's password. *)
Lemma held_dsn t role k :
  sys_calls s !! t = Some (Holding role k) ->
  exists d, sys_heap s !! k = Some d
    /\ sd_dsn d = BaseDSN (Config.Roles c) +:+ " user=" +:+ role +:+ " password="
                    +:+ rolePasswordFunc c role.
Proof.
  intros Ht. unfold open_rolePools in Hpools. destruct (String.eqb _ _); [|done].
  destruct (NewRolePools _ _ _ _ _) as [q|e] eqn:Hnew; [|done].
  injection Hpools as <-. destruct (sys_inv_reachable _ _ _ _ _ _ _ _ _ Hnew Hreach) as [_ _ _ _ _ Hheld _].
  destruct (Hheld _ _ _ Ht) as [_ (d & Hd & _ & Hdsn)]. exists d. split; [done|].
  rewrite Hdsn. unfold conn_string, UseRolePassword, password_param. simpl. unfold NewRolePools in Hnew.
  by repeat case_match; simplify_eq/=.
Qed.

(** C14: a request logs in with exactly what the sync provisioned. After the DDL of
    the plan for this configuration has run on the catalog it was computed from,
    the pool a caller holds for the role of an enabled user was opened with the
    base connection string, that role, and the very password the catalog has for
    it; the role is a member of the reader role and nobody else's, and the password
    is 32 lower-case hexadecimal digits, so the connection string needs no
    quoting. *)
Theorem login_password_agrees (inp : Inputs) (plan : Plan) (db db' : roledb) (id : Z) (role : string)
    (t k : nat)
  (Hinp : in_Prefix inp = Prefix (Config.Roles c) /\ in_Password inp = Some (rolePasswordFunc c))
  (Hplan : Compute inp = Ok plan) (Hsnap : snapshot inp db)
  (Hexec : exec_all (plan_stmts inp plan) db = Some db')
  (Huser : id ∈ in_ExpectedUserIDs inp) (Hrole : RoleName (Prefix (Config.Roles c)) id = Ok role)
  (Hheld : sys_calls s !! t = Some (Holding role k)) :
  exists d pw, sys_heap s !! k = Some d
    /\ sd_dsn d = BaseDSN (Config.Roles c) +:+ " user=" +:+ role +:+ " password=" +:+ pw
    /\ db_roles db' !! role = Some (Some pw) /\ (in_ReaderRole inp, role) ∈ db_members db'
    /\ (forall id', RoleName (Prefix (Config.Roles c)) id' = Ok role -> id' = id)
    /\ String.length pw = 32 /\ str_forall lower_hex pw = true.
Proof.
  destruct Hinp as [Hprefix Hpw]. destruct (held_dsn _ _ _ Hheld) as (d & Hd & Hdsn).
  exists d, (rolePasswordFunc c role).
  pose proof (exec_plan inp plan db (Compute_plan_ok _ _ Hplan) Hsnap) as Hsync.
  rewrite Hexec in Hsync. destruct Hsync as [Hsync _].
  assert (expected inp role) as Hexp by (exists id; by rewrite Hprefix).
  destruct (sync_expected _ _ _ Hsync _ Hexp) as [Hcat Hmem]. rewrite Hpw in Hcat.
  destruct (rolePassword_shape (PasswordSecret (Config.Roles c)) role). split_and!; try done.
  intros id'. by apply RoleName_inj.
Qed.

(** One caller alone gets its pool. *)
Lemma reach_holding (q q' : RolePools) (h1 h2 : heap) (role : string) (now : Z) (k : nat) :
  match_ident role = true -> (p_sem q < p_cap q)%Z ->
  acquire_locked role now (set_sem q (p_sem q + 1)) h1 = (Ok k, q', h2) ->
  rtc step (init_system q h1) (System q' h2 {[0 := Holding role k]} []).
Proof.
  intros Hm Hcap Hacq.
  eapply rtc_l; [exact (step_call 0 role (init_system q h1) (lookup_empty 0))|]. rewrite Hm.
  eapply rtc_l; [eapply (step_slot 0 role); [apply lookup_insert_eq|exact Hcap]|].
  eapply rtc_l; [eapply (step_critical 0 role now (Ok k)); [apply lookup_insert_eq|exact Hacq]|].
  simpl. by rewrite !insert_insert_eq.
Qed.
End logins.

(** ** Witnesses *)

Module Witness.
#[local] Existing Instance elements_order.
#[local] Existing Instance RolesSpec.Witness.quote.
#[local] Existing Instance RolePoolSpec.Witness.opener.

(** An instance of [managed_role_wf]. *)
Lemma managed_role_wf_witness : roleDSN "host=db" "pathql_r_7" = Ok "host=db user=pathql_r_7".
Proof.
  refine (proj2 (proj2 (proj2 (managed_role_wf "pathql_r_" "pathql_r_7" "host=db" 7 _ _))));
    [unfold is_i64; lia|vm_compute; reflexivity].
Defined.

Definition conf : Config := {|
  Driver := "postgres"; DSN := ""; Listen := ":8000"; Verbose := false;
  Database := Build_DatabaseConf 4 2 0 0 2;
  Sec := Build_Security "pathql_auth_" false [] [] [] "metrics" "warn" "login_role" "admin" "off" "off" "off";
  AuthC := Build_AuthConf ["apikey"] "X-API-Key" [] "" "" "" "sub" "" false;
  Lim := Build_Limits 0 0 0 0 0 0 0 0 zero_float 0 0;
  Times := Build_Timeouts 0 0 0; CacheC := Build_CacheConf 64 "30s" "1h" 0 0;
  TLS := Build_TLSConf false "" "" false ""; AllowedOrigins := [];
  Roles := Build_RolesConf "host=db" "pathql_auth" "r_" "readers" 1 "a long and random secret"
|}.

Definition inp : Inputs :=
  let i := RolesSpec.Witness.inp in
  {| in_Prefix := in_Prefix i; in_ReaderRole := in_ReaderRole i; in_ExistingRoles := in_ExistingRoles i;
     in_ExpectedUserIDs := in_ExpectedUserIDs i; in_ReaderMembers := in_ReaderMembers i;
     in_Password := Some (rolePasswordFunc conf) |}.

Lemma snapshot_login : snapshot inp RolesSpec.Witness.db.
Proof. destruct RolesSpec.Witness.snapshot_inp. by split. Qed.

Definition pools : RolePools :=
  UseRolePassword (Some (rolePasswordFunc conf)) RolePoolSpec.Witness.mgr.

Lemma acquire_first fn :
  (acquire_locked "r_2" 5 (set_sem (UseRolePassword (Some fn) RolePoolSpec.Witness.mgr) 1) ∅).1.1 = Ok 0.
Proof. vm_compute. reflexivity. Qed.

Lemma reach_r_2 : exists s, rtc step (init_system pools ∅) s /\ sys_calls s !! 0 = Some (Holding "r_2" 0).
Proof.
  pose proof (acquire_first (rolePasswordFunc conf)) as Ha.
  destruct (acquire_locked _ _ _ _) as [[r p'] h'] eqn:E. cbn [fst snd] in Ha. subst r.
  eexists. split; [by eapply (reach_holding pools); [| |exact E]|]. reflexivity.
Qed.

(** User 2 of that catalog, whose role the sync creates, and its request. *)
Lemma login_password_agrees_witness :
  exists s d pw, sys_heap s !! 0 = Some d /\ sd_dsn d = "host=db user=r_2 password=" +:+ pw
    /\ String.length pw = 32.
Proof.
  destruct reach_r_2 as (s & Hreach & Ht). exists s.
  assert (exists plan, Compute inp = Ok plan) as [plan Hplan] by (eexists; vm_compute; reflexivity).
  pose proof (exec_plan inp plan _ (Compute_plan_ok _ _ Hplan) snapshot_login) as Hrun.
  destruct (exec_all (plan_stmts inp plan) RolesSpec.Witness.db) as [db'|] eqn:Hexec;
    [|by apply RolesSpec.Witness.sync_free in Hrun].
  assert (open_rolePools conf = Ok (Some pools)) as Hpools by reflexivity.
  assert (RoleName (Prefix (Config.Roles conf)) 2 = Ok "r_2") as Hrole by (vm_compute; reflexivity).
  assert (2%Z ∈ in_ExpectedUserIDs inp) as Huser by left.
  destruct (login_password_agrees conf pools ∅ s Hpools Hreach inp plan RolesSpec.Witness.db db' 2 "r_2" 0 0
    (conj eq_refl eq_refl) Hplan snapshot_login Hexec Huser Hrole Ht)
    as (d & pw & Hd & Hdsn & _ & _ & _ & Hlen & _).
  exists d, pw. split; [exact Hd|]. split; [exact Hdsn|exact Hlen].
Defined.
End Witness.
