(* ===== verification/Limits.v ===== *)
(** * The limiters, interleaved (src/internal/middleware)

    What the chain of a route does before and after the authentication, for many
    requests at a time: the slot of GlobalInflight, the fixed window of
    RateLimitPerIP, the check and the count of BruteForceLockout. Every route has
    a semaphore of its own; the cache is one. The atomic steps are the code's: a
    channel operation, a reading of the clock, one operation of tqmemory (an
    Increment of the cache is two, [Add] and [Increment]), the whole of what runs
    behind the lockout. *)

From S2P Require Import Prelude GoStrings GoNet Http GoHttp Cache Middleware Config Jwt.

(** The routes whose chain has the limiters, by the name of their semaphore. *)
Definition limited_routes : list string :=
  ["/pathql"; "/schema"; "/metrics"; "POST /admin/users"; "DELETE /admin/users/{id}"; "GET /admin/roles/sync"].

(** Where a request stands. The keys are those of the counters. *)
Inductive pphase :=
| RateStart                      (* entering RateLimitPerIP *)
| RateAdd (key : string)         (* in cache.Increment(key, 1): before Add *)
| RateInc (key : string)         (* before tqmemory's Increment *)
| LockStart                      (* entering BruteForceLockout *)
| LockAdd (key : string)         (* in cache.Increment(key, 0) *)
| LockRead (key : string)
| Trying (key : option string)   (* behind the lockout; with its key if there is one *)
| FailAdd (key : string)         (* answered 401: in cache.Increment(key, 1) *)
| FailInc (key : string)
| Leaving                        (* before the deferred receive *)
| Gone.

(** A request in flight, and what was decided about it: the rate limiter's key
    and whether it let the request pass, the key the lockout refused it at, the
    key its failure was counted at. *)
Record pcall := PCall {
  pc_route : string;
  pc_req : Request;
  pc_phase : pphase;
  pc_rate : option (string * bool);
  pc_locked : option string;
  pc_failed : option string
}.
Definition at_phase (ph : pphase) (x : pcall) : pcall :=
  PCall (pc_route x) (pc_req x) ph (pc_rate x) (pc_locked x) (pc_failed x).
Definition rated (key : string) (pass : bool) (x : pcall) : pcall :=
  PCall (pc_route x) (pc_req x) (pc_phase x) (Some (key, pass)) (pc_locked x) (pc_failed x).
Definition refused (key : string) (x : pcall) : pcall :=
  PCall (pc_route x) (pc_req x) (pc_phase x) (pc_rate x) (Some key) (pc_failed x).
Definition failed (key : string) (x : pcall) : pcall :=
  PCall (pc_route x) (pc_req x) (pc_phase x) (pc_rate x) (pc_locked x) (Some key).

(** An [Add] after which [Increment] goes on. *)
Definition add_goes_on (r : result tq_error unit) : bool :=
  match r with Ok _ | Err ErrKeyExists => true | Err _ => false end.

(** The decisions on the count, or on its error. *)
Definition rate_passes (perMinute : Z) (count : result tq_error Z) : bool :=
  match count with Ok n => negb (perMinute <? n)%Z | Err _ => true end.
Definition lock_refuses (maxFailures : Z) (count : result tq_error Z) : bool :=
  match count with Ok n => (maxFailures <=? n)%Z | Err _ => false end.

Section limiters.
Context `{UnicodeTables} (l : Limits) (tp : list IPNet).

(** The layers that are switched on, from the outside in. *)
Definition to_lockout : pphase := if (MaxAuthFailuresPerMin l <=? 0)%Z then Trying None else LockStart.
Definition to_rate : pphase := if (MaxRequestsPerMinIP l <=? 0)%Z then to_lockout else RateStart.

(** One request's next step at time [now], with the cache it finds and leaves. *)
Inductive cstep (now : Z) (st : store) (x : pcall) : store -> pcall -> Prop :=
| c_rate_now :
    pc_phase x = RateStart ->
    cstep now st x st (at_phase (RateAdd (rate_key (ClientIP (pc_req x) tp) (Unix now / 60))) x)
| c_rate_add key r st' :
    pc_phase x = RateAdd key -> store_Add key "0" minute_ns now st = (r, st') -> add_goes_on r ->
    cstep now st x st' (at_phase (RateInc key) x)
| c_rate_inc key count st' :
    pc_phase x = RateInc key -> store_Increment key 1 now st = (count, st') ->
    let pass := rate_passes (MaxRequestsPerMinIP l) count in
    cstep now st x st' (rated key pass (at_phase (if pass then to_lockout else Leaving) x))
| c_lock_now :
    pc_phase x = LockStart ->
    cstep now st x st (at_phase (LockAdd (lockout_key (lockoutID (pc_req x) tp) (Unix now / 60))) x)
| c_lock_add key r st' :
    pc_phase x = LockAdd key -> store_Add key "0" minute_ns now st = (r, st') -> add_goes_on r ->
    cstep now st x st' (at_phase (LockRead key) x)
| c_lock_read key count st' :
    pc_phase x = LockRead key -> store_Increment key 0 now st = (count, st') ->
    cstep now st x st'
      (if lock_refuses (MaxAuthFailuresPerMin l) count then refused key (at_phase Leaving x)
       else at_phase (Trying (Some key)) x)
| c_answered code key :
    pc_phase x = Trying key ->
    cstep now st x st
      (at_phase match key with Some k => if (code =? 401)%Z then FailAdd k else Leaving | None => Leaving end x)
| c_panicked key :
    pc_phase x = Trying key -> cstep now st x st (at_phase Leaving x)
| c_fail_add key r st' :
    pc_phase x = FailAdd key -> store_Add key "0" minute_ns now st = (r, st') -> add_goes_on r ->
    cstep now st x st' (at_phase (FailInc key) x)
| c_fail_inc key count st' :
    pc_phase x = FailInc key -> store_Increment key 1 now st = (count, st') ->
    cstep now st x st' (failed key (at_phase Leaving x)).

(** ** Many requests *)

Record psystem := PSystem {
  ps_time : Z;
  ps_store : store;
  ps_len : gmap string Z;          (* len(sem), by route *)
  ps_calls : gmap nat pcall
}.
Definition len_of (s : psystem) (route : string) : Z := default 0%Z (ps_len s !! route).

(** A channel of no capacity is not made: GlobalInflight is off. *)
Definition has_sem : bool := negb (MaxConcurrentGlobal l <=? 0)%Z.

Inductive pstep : psystem -> psystem -> Prop :=
| p_time t' s :
    (ps_time s <= t')%Z -> pstep s (PSystem t' (ps_store s) (ps_len s) (ps_calls s))
| p_jwks url body ttl st' s :
    (* the JWT authenticator caches the keys of its provider *)
    store_Set (jwksCacheKey url) body ttl (ps_time s) (ps_store s) = (Ok tt, st') ->
    pstep s (PSystem (ps_time s) st' (ps_len s) (ps_calls s))
| p_enter t route req s :
    ps_calls s !! t = None -> route ∈ limited_routes ->
    (has_sem -> (len_of s route < MaxConcurrentGlobal l)%Z) ->
    pstep s (PSystem (ps_time s) (ps_store s)
               (if has_sem then <[route := (len_of s route + 1)%Z]> (ps_len s) else ps_len s)
               (<[t := PCall route req to_rate None None None]> (ps_calls s)))
| p_overloaded t route req s :
    ps_calls s !! t = None -> route ∈ limited_routes ->
    has_sem -> (MaxConcurrentGlobal l <= len_of s route)%Z ->
    pstep s (PSystem (ps_time s) (ps_store s) (ps_len s)
               (<[t := PCall route req Gone None None None]> (ps_calls s)))
| p_move t x x' st' s :
    ps_calls s !! t = Some x -> cstep (ps_time s) (ps_store s) x st' x' ->
    pstep s (PSystem (ps_time s) st' (ps_len s) (<[t := x']> (ps_calls s)))
| p_leave t x s :
    ps_calls s !! t = Some x -> pc_phase x = Leaving ->
    pstep s (PSystem (ps_time s) (ps_store s)
               (if has_sem then <[pc_route x := (len_of s (pc_route x) - 1)%Z]> (ps_len s) else ps_len s)
               (<[t := at_phase Gone x]> (ps_calls s))).

Definition init_psystem (now : Z) : psystem := PSystem now ∅ ∅ ∅.
End limiters.
