(* ===== verification/LimitsSpec.v ===== *)
(** * What the limiters promise under every interleaving

    While a minute lasts, the rate limiter lets exactly its first [perMinute]
    requests of an address pass, however their cache operations interleave; the
    lockout, which checks before and counts after the authentication, lets
    [maxFailures - 1] failures through and one for every slot of the server. The
    entry of a key is the sum of what the requests contributed to it. *)

From S2P Require Import Prelude GoStrings GoNet Http GoHttp Cache Middleware MiddlewareSpec Config Jwt Limits.
From Stdlib Require Import Ascii.

(** ** The keys *)

Definition no_colon (c : ascii) : bool := negb (Ascii.eqb c ":").
Lemma FormatInt_no_colon z : str_forall no_colon (FormatInt z) = true.
Proof.
  assert (forall p, str_forall no_colon (pretty_N_go (N.pos p) EmptyString) = true) as Hpos.
  { intros p. destruct (pretty_N_go_spec (N.to_nat (N.pos p)) (N.pos p) EmptyString) as (ds & -> & Hd & _).
    { rewrite N2Nat.id. by apply N.pow_gt_lin_r. }
    rewrite app_empty_r. revert Hd. clear. induction ds as [|c ds IH]; [done|]. cbn.
    intros [Hc Hd]%andb_true_iff. rewrite IH by done. apply andb_true_iff. split; [|done].
    destruct (Ascii.eqb_spec c ":") as [->|]; [done|]. unfold no_colon. by rewrite (proj2 (Ascii.eqb_neq _ _)). }
  destruct z as [|p|p]; [done|apply Hpos|]. exact (Hpos p).
Qed.

(** What follows the last colon of a text. *)
Lemma last_field_inj s1 s2 d1 d2 :
  str_forall no_colon d1 = true -> str_forall no_colon d2 = true ->
  s1 +:+ String ":" d1 = s2 +:+ String ":" d2 -> s1 = s2 /\ d1 = d2.
Proof.
  intros H1 H2. revert s2. induction s1 as [|c s1 IH]; intros [|c2 s2]; cbn.
  - by intros [= ->].
  - intros [= <- ->]. rewrite str_forall_app in H1. cbn in H1. by rewrite andb_false_r in H1.
  - intros [= -> <-]. rewrite str_forall_app in H2. cbn in H2. by rewrite andb_false_r in H2.
  - intros [= -> E]. destruct (IH s2 E) as [-> ->]. done.
Qed.

Lemma rate_key_inj ip m ip' m' : rate_key ip m = rate_key ip' m' -> ip = ip' /\ m = m'.
Proof.
  unfold rate_key. intros E%(inj (String.append "ratelimit:")).
  apply last_field_inj in E as [-> E%FormatInt_inj]; auto using FormatInt_no_colon.
Qed.
Lemma lockout_key_inj id m id' m' : lockout_key id m = lockout_key id' m' -> id = id' /\ m = m'.
Proof.
  unfold lockout_key. intros E%(inj (String.append "authfail:")).
  apply last_field_inj in E as [-> E%FormatInt_inj]; auto using FormatInt_no_colon.
Qed.
Lemma rate_lockout_key ip m id m' : rate_key ip m <> lockout_key id m'.
Proof. done. Qed.

(** The counters of minute [m]. *)
Definition of_minute (m : Z) (key : string) : Prop :=
  (exists ip, key = rate_key ip m) \/ (exists id, key = lockout_key id m).
Lemma of_minute_jwks m url : ~ of_minute m (jwksCacheKey url).
Proof. by intros [[x Hx]|[x Hx]]. Qed.

(** Keys made in a minute that has begun by [now]. *)
Definition rate_at (now : Z) (key : string) : Prop := exists ip m, key = rate_key ip m /\ (m * minute_ns <= now)%Z.
Definition lock_at (now : Z) (key : string) : Prop := exists id m, key = lockout_key id m /\ (m * minute_ns <= now)%Z.

Lemma made_in_minute now m key :
  rate_at now key \/ lock_at now key -> of_minute m key -> (m * minute_ns <= now)%Z.
Proof.
  intros [(x & m' & -> & Hm)|(x & m' & -> & Hm)] [[y E]|[y E]].
  - by apply rate_key_inj in E as [_ <-].
  - by apply rate_lockout_key in E.
  - symmetry in E. by apply rate_lockout_key in E.
  - by apply lockout_key_inj in E as [_ <-].
Qed.
Lemma now_in_minute now : (Unix now / 60 * minute_ns <= now)%Z.
Proof.
  unfold Unix, minute_ns, nanos_per_second. rewrite Z.div_div by lia.
  pose proof (Z.mul_div_le now (1000000000 * 60)). lia.
Qed.

(** ** One entry *)

(** The entry of [key] holds the count [n], and outlasts minute [m]; without an
    entry nothing is counted and nobody has passed his [Add]. *)
Definition entry_ok (st : store) (m : Z) (key : string) (n waiting : Z) : Prop :=
  match st !! key with
  | None => n = 0%Z /\ waiting = 0%Z
  | Some (v, e) => v = FormatInt n /\ ((m + 1) * minute_ns <= e)%Z
  end.

Section entry.
Context (m now : Z) (Hlive : (now < (m + 1) * minute_ns)%Z).

Lemma entry_Add st key key' n w w' r st' :
  entry_ok st m key n w -> store_Add key' "0" minute_ns now st = (r, st') ->
  (key' = key -> (m * minute_ns <= now)%Z) -> (key' <> key -> w' = w) ->
  entry_ok st' m key n w'.
Proof.
  unfold entry_ok, store_Add, live_entry. intros He Ha Hm Hw.
  destruct (decide (key' = key)) as [->|Hne].
  - specialize (Hm eq_refl). destruct (st !! key) as [[v e]|] eqn:Es.
    + destruct He as [-> He]. rewrite (proj2 (Z.ltb_lt _ _)) in Ha by lia. injection Ha as <- <-. by rewrite Es.
    + destruct He as [-> _]. injection Ha as <- <-. rewrite lookup_insert_eq. split; [done|].
      unfold minute_ns, nanos_per_second in *. lia.
  - rewrite Hw by done. case_match; injection Ha as <- <-; [done|]. by rewrite lookup_insert_ne.
Qed.

Lemma entry_Increment st key n w w' d count st' :
  entry_ok st m key n w -> store_Increment key d now st = (count, st') ->
  (0 < w)%Z -> (0 <= n)%Z -> (0 <= d)%Z -> (n + d <= u64_max)%Z ->
  count = Ok (n + d)%Z /\ entry_ok st' m key (n + d) w'.
Proof.
  unfold entry_ok, store_Increment, live_entry. intros He Hi Hw Hn Hd Hmax.
  destruct (st !! key) as [[v e]|] eqn:Es; [|lia]. destruct He as [-> He].
  rewrite (proj2 (Z.ltb_lt _ _)), parse_uint_FormatInt in Hi by (unfold is_u64; lia).
  rewrite wrap_u64_id in Hi by (unfold is_u64; lia). injection Hi as <- <-.
  split; [done|]. by rewrite lookup_insert_eq.
Qed.

Lemma entry_Increment_ne st key key' d count st' n w :
  key' <> key -> store_Increment key' d now st = (count, st') -> entry_ok st m key n w ->
  entry_ok st' m key n w.
Proof.
  unfold entry_ok, store_Increment. intros Hne Hi. repeat case_match; simplify_eq; try done.
  all: rewrite lookup_insert_ne in * by done; congruence.
Qed.
End entry.

(** ** The contributions *)

Definition tallied (key : string) (x : pcall) : bool :=
  match pc_rate x with Some (k, _) => String.eqb k key | None => false end.
Definition passed (key : string) (x : pcall) : bool :=
  match pc_rate x with Some (k, pass) => String.eqb k key && pass | None => false end.
Definition locked (key : string) (x : pcall) : bool :=
  match pc_locked x with Some k => String.eqb k key | None => false end.
Definition recorded (key : string) (x : pcall) : bool :=
  match pc_failed x with Some k => String.eqb k key | None => false end.
(** Let through by the lockout, and its failure, if it is one, not yet counted. *)
Definition trying (key : string) (x : pcall) : bool :=
  match pc_phase x with Trying (Some k) | FailAdd k | FailInc k => String.eqb k key | _ => false end.
(** Between the two operations of an Increment. *)
Definition awaits (key : string) (x : pcall) : bool :=
  match pc_phase x with RateInc k | LockRead k | FailInc k => String.eqb k key | _ => false end.
(** Answered 401 behind the lockout. *)
Definition denied (key : string) (x : pcall) : bool :=
  recorded key x || match pc_phase x with FailAdd k | FailInc k => String.eqb k key | _ => false end.
Definition inside (x : pcall) : bool := match pc_phase x with Gone => false | _ => true end.
Definition holds (route : string) (x : pcall) : bool := String.eqb (pc_route x) route && inside x.

Definition total (P : pcall -> bool) (calls : gmap nat pcall) : Z := Z.of_nat (count_if P calls).
Definition b2z (b : bool) : Z := if b then 1 else 0.

Lemma total_pos P calls : (0 <= total P calls)%Z.
Proof. unfold total. lia. Qed.
Lemma total_add P calls t x : calls !! t = None -> total P (<[t := x]> calls) = (total P calls + b2z (P x))%Z.
Proof. intros Ht. unfold total. rewrite count_if_insert, Ht. unfold b2z. lia. Qed.
Lemma total_move P calls t x x' :
  calls !! t = Some x -> total P (<[t := x']> calls) = (total P calls + b2z (P x') - b2z (P x))%Z.
Proof. intros Ht. unfold total. rewrite count_if_insert, Ht. unfold b2z. lia. Qed.
Lemma total_size P calls : (total P calls <= Z.of_nat (size calls))%Z.
Proof. unfold total, count_if. apply inj_le, map_size_filter. Qed.
Lemma total_0 P calls : (forall t x, calls !! t = Some x -> P x = false) -> total P calls = 0%Z.
Proof. intros Hp. unfold total. by rewrite (proj2 (count_if_0 P calls) Hp). Qed.

(** Sums over a list. *)
Definition sumz {I} (f : I -> Z) (js : list I) : Z := foldr (fun i acc => f i + acc)%Z 0%Z js.
Lemma sumz_plus {I} (f g : I -> Z) js : sumz (fun i => f i + g i)%Z js = (sumz f js + sumz g js)%Z.
Proof. induction js as [|i js IH]; cbn; [done|]. unfold sumz in IH. rewrite IH. lia. Qed.
Lemma sumz_bound {I} (f : I -> Z) bound js :
  (forall i, i ∈ js -> f i <= bound)%Z -> (sumz f js <= Z.of_nat (length js) * bound)%Z.
Proof.
  induction js as [|i js IH]; intros Hb; cbn; [done|].
  pose proof (Hb i ltac:(left)). specialize (IH ltac:(intros j Hj; apply Hb; by right)). unfold sumz in IH. lia.
Qed.
Lemma sumz_elem {I} (f : I -> Z) i js : (forall j, 0 <= f j)%Z -> i ∈ js -> (f i <= sumz f js)%Z.
Proof.
  intros Hf. assert (forall js, 0 <= sumz f js)%Z as Hpos
    by (intros ks; induction ks as [|j ks IH]; cbn; [done|]; specialize (Hf j); unfold sumz in IH; lia).
  induction 1 as [j ks|j k ks _ IH]; cbn; [specialize (Hpos ks)|pose proof (Hf k)]; unfold sumz in *; lia.
Qed.

(** A count is covered by counts that between them see every one of its calls. *)
Lemma total_cover {I} (Q : I -> pcall -> bool) P calls (js : list I) :
  (forall t x, calls !! t = Some x -> P x = true -> exists i, i ∈ js /\ Q i x = true) ->
  (total P calls <= sumz (fun i => total (Q i) calls) js)%Z.
Proof.
  assert (forall b, 0 <= b2z b)%Z as Hb by (by intros []).
  induction calls as [|t x calls Ht IH] using map_ind; intros Hcov.
  { rewrite total_0 by (intros t x; by rewrite lookup_empty).
    induction js as [|i js IH]; cbn; [done|]. pose proof (total_pos (Q i) ∅).
    unfold sumz in IH. specialize (IH ltac:(intros t x; by rewrite lookup_empty)). lia. }
  rewrite total_add by done.
  transitivity (sumz (fun i => total (Q i) calls + b2z (Q i x)) js)%Z.
  2:{ clear -Ht. induction js as [|i js IH]; cbn; [done|]. rewrite total_add by done. unfold sumz in IH. lia. }
  rewrite sumz_plus. apply Z.add_le_mono.
  - apply IH. intros t' x' Ht'. apply (Hcov t'). rewrite lookup_insert_ne; [done|congruence].
  - destruct (P x) eqn:Hp; cbn.
    + destruct (Hcov t x (lookup_insert_eq _ _ _) Hp) as (i & Hi & Hq).
      transitivity (b2z (Q i x)); [by rewrite Hq|]. by apply (sumz_elem (fun i => b2z (Q i x))).
    + clear -Hb. induction js as [|i js IH]; cbn; [done|]. pose proof (Hb (Q i x)). unfold sumz in IH. lia.
Qed.

(** ** The calls and their slots *)

Lemma rate_at_mono now now' k : (now <= now')%Z -> rate_at now k -> rate_at now' k.
Proof. intros Hle (ip & m & -> & Hm). exists ip, m. split; [done|lia]. Qed.
Lemma lock_at_mono now now' k : (now <= now')%Z -> lock_at now k -> lock_at now' k.
Proof. intros Hle (id & m & -> & Hm). exists id, m. split; [done|lia]. Qed.

Record call_wf (now : Z) (x : pcall) : Prop := {
  cw_route : pc_route x ∈ limited_routes;
  cw_phase : match pc_phase x with
             | RateStart => pc_rate x = None
             | RateAdd k | RateInc k => pc_rate x = None /\ rate_at now k
             | LockAdd k | LockRead k | Trying (Some k) | FailAdd k | FailInc k => lock_at now k
             | _ => True
             end;
  cw_open : match pc_phase x with Leaving | Gone => True | _ => pc_locked x = None /\ pc_failed x = None end;
  cw_rate k b : pc_rate x = Some (k, b) -> rate_at now k;
  cw_failed k : pc_failed x = Some k -> lock_at now k
}.

Lemma call_wf_mono now now' x : (now <= now')%Z -> call_wf now x -> call_wf now' x.
Proof.
  intros Hle [Hr Hp Hu Hrate Hfail]. split; eauto using rate_at_mono, lock_at_mono.
  repeat case_match; intuition eauto using rate_at_mono, lock_at_mono.
Qed.

Section limits.
Context `{UnicodeTables} (l : Limits) (tp : list IPNet).
Context (Hrate : (0 < MaxRequestsPerMinIP l)%Z) (Hlock : (0 < MaxAuthFailuresPerMin l)%Z).
Context (Hcap : (0 < MaxConcurrentGlobal l)%Z).

Local Abbreviation cstep := (cstep l tp).
Local Abbreviation pstep := (pstep l tp).

Lemma limits_on : has_sem l = true /\ to_rate l = RateStart /\ to_lockout l = LockStart.
Proof.
  unfold has_sem, to_rate, to_lockout. by rewrite !(proj2 (Z.leb_gt _ _)) by done.
Qed.

Lemma cstep_wf now st x st' x' : cstep now st x st' x' -> call_wf now x -> call_wf now x'.
Proof.
  destruct limits_on as (_ & _ & El).
  assert (forall key, rate_at now (rate_key key (Unix now / 60))) as Hr
    by (intros ip; exists ip, (Unix now / 60)%Z; split; [done|apply now_in_minute]).
  assert (forall key, lock_at now (lockout_key key (Unix now / 60))) as Hl
    by (intros id; exists id, (Unix now / 60)%Z; split; [done|apply now_in_minute]).
  intros Hs [Hroute Hp Hu Hrt Hf]. destruct Hs as [Hph|key r st' Hph|key count st' Hph ? pass|Hph|key r st' Hph|key count st' Hph|code key Hph|key Hph|key r st' Hph|key count st' Hph];
    rewrite Hph in Hp, Hu; try (by split; cbn; intuition eauto).
  - destruct Hp as [_ Hk]. split; cbn; try done.
    + destruct pass; [by rewrite El|done].
    + destruct pass; [by rewrite El|done].
    + by intros k b [= <- _].
  - destruct (lock_refuses _ _); by split.
  - split; cbn; try done; repeat case_match; simplify_eq; done.
  - split; cbn; try done. by intros k [= <-].
Qed.

(** A step moves neither the route nor the slot. *)
Lemma cstep_holds now st x st' x' route : cstep now st x st' x' -> holds route x' = holds route x.
Proof.
  destruct limits_on as (_ & _ & El). unfold holds, inside.
  intros Hs. destruct Hs; unfold at_phase, rated, refused, failed;
    repeat match goal with Hph : pc_phase x = _ |- _ => rewrite Hph end; cbn;
    rewrite ?El; repeat case_match; simplify_eq; cbn in *; congruence || done.
Qed.

Record psys_ok (s : psystem) : Prop := {
  po_wf t x : ps_calls s !! t = Some x -> call_wf (ps_time s) x;
  po_len route : len_of s route = total (holds route) (ps_calls s);
  po_cap route : (len_of s route <= MaxConcurrentGlobal l)%Z
}.

Lemma len_insert s now st calls route route' n :
  len_of (PSystem now st (<[route := n]> (ps_len s)) calls) route'
  = if String.eqb route route' then n else len_of s route'.
Proof.
  unfold len_of. cbn. destruct (String.eqb_spec route route') as [->|Hne].
  - by rewrite lookup_insert_eq.
  - by rewrite lookup_insert_ne.
Qed.

Lemma psys_ok_init now : psys_ok (init_psystem now).
Proof.
  split; cbn.
  - intros t x. by rewrite lookup_empty.
  - intros route. unfold len_of. cbn. rewrite lookup_empty, total_0; [done|]. intros t x. by rewrite lookup_empty.
  - intros route. unfold len_of. cbn. rewrite lookup_empty. cbn. lia.
Qed.

Lemma psys_ok_step s s' : pstep s s' -> psys_ok s -> psys_ok s'.
Proof.
  destruct limits_on as (Es & Er & _).
  intros Hs [Hwf Hlen Hmax]. destruct Hs as [t' s Ht|url body ttl st' s _|t route req s Ht Hin Hroom|t route req s Ht Hin _ _|t x x' st' s Ht Hc|t x s Ht Hph].
  - split; [|done..]. intros t x Hx. eapply call_wf_mono; [done|by eapply Hwf].
  - by split.
  - rewrite Es in Hroom |- *. specialize (Hroom I). split; cbn [ps_time ps_calls].
    + intros t' x [[<- <-]|[_ Hx]]%lookup_insert_Some; [|by eapply Hwf]. rewrite Er. by split.
    + intros route'. rewrite len_insert, total_add, <- Hlen by done. unfold holds. cbn. rewrite Er.
      destruct (String.eqb_spec route route') as [->|]; cbn; lia.
    + intros route'. rewrite len_insert. pose proof (Hmax route'). case_match; lia.
  - split; cbn [ps_time ps_calls].
    + intros t' x [[<- <-]|[_ Hx]]%lookup_insert_Some; [|by eapply Hwf]. by split.
    + intros route'. rewrite total_add by done. unfold holds. cbn. rewrite andb_false_r. cbn. rewrite Z.add_0_r. apply Hlen.
    + apply Hmax.
  - split; cbn [ps_time ps_calls].
    + intros t' y [[<- <-]|[_ Hy]]%lookup_insert_Some; [|by eapply Hwf]. eapply cstep_wf; [done|by eapply Hwf].
    + intros route. rewrite (total_move _ _ t x) by done. rewrite (cstep_holds _ _ _ _ _ route Hc), Z.add_simpl_r.
      apply Hlen.
    + apply Hmax.
  - rewrite Es. split; cbn [ps_time ps_calls].
    + intros t' y [[<- <-]|[_ Hy]]%lookup_insert_Some; [|by eapply Hwf]. destruct (Hwf t x Ht). by split.
    + intros route. rewrite len_insert, (total_move _ _ t x), <- Hlen by done. unfold holds, inside. rewrite Hph. cbn.
      destruct (String.eqb_spec (pc_route x) route) as [->|]; cbn; lia.
    + intros route. rewrite len_insert. pose proof (Hmax (pc_route x)). case_match; [lia|apply Hmax].
Qed.

(** Behind the lockout of one key is at most what the semaphores let in. *)
Definition all_slots : Z := Z.of_nat (length limited_routes) * MaxConcurrentGlobal l.
Lemma trying_slots s key : psys_ok s -> (total (trying key) (ps_calls s) <= all_slots)%Z.
Proof.
  intros [Hwf Hlen Hmax]. etransitivity; [|apply (sumz_bound (fun route => total (holds route) (ps_calls s)))].
  - apply total_cover. intros t x Ht Hx. exists (pc_route x). split; [apply (Hwf t x Ht)|].
    unfold holds, inside, trying in *. rewrite String.eqb_refl. cbn. by repeat case_match.
  - intros route _. by rewrite <- Hlen.
Qed.

(** ** The counters *)

Record key_inv (m : Z) (key : string) (s : psystem) : Prop := {
  kv_entry : entry_ok (ps_store s) m key
    (total (tallied key) (ps_calls s) + total (recorded key) (ps_calls s)) (total (awaits key) (ps_calls s));
  kv_passed : total (passed key) (ps_calls s) = Z.min (total (tallied key) (ps_calls s)) (MaxRequestsPerMinIP l);
  kv_tries : (total (recorded key) (ps_calls s) + total (trying key) (ps_calls s)
              <= MaxAuthFailuresPerMin l - 1 + all_slots)%Z;
  kv_locked : (0 < total (locked key) (ps_calls s) -> MaxAuthFailuresPerMin l <= total (recorded key) (ps_calls s))%Z
}.

(** While the minute lasts, and fewer than 2^64 requests have been made. *)
Definition lasts (m : Z) (s : psystem) : Prop :=
  (ps_time s < (m + 1) * minute_ns)%Z /\ (Z.of_nat (size (ps_calls s)) <= u64_max)%Z.

Lemma lasts_before m s s' : pstep s s' -> lasts m s' -> lasts m s.
Proof.
  intros Hs [Ht Hn]. split.
  - destruct Hs; cbn in *; lia.
  - etransitivity; [|exact Hn]. apply inj_le. destruct Hs; cbn; try done;
      (rewrite map_size_insert; destruct (_ !! _); unfold id; lia).
Qed.

Lemma recorded_rate s ip m : psys_ok s -> total (recorded (rate_key ip m)) (ps_calls s) = 0%Z.
Proof.
  intros [Hwf _ _]. apply total_0. intros t x Hx. unfold recorded. destruct (pc_failed x) as [k|] eqn:Hf; [|done].
  destruct (cw_failed _ _ (Hwf t x Hx) k Hf) as (id & m' & -> & _). by apply String.eqb_neq.
Qed.
Lemma tallied_lockout s id m : psys_ok s -> total (tallied (lockout_key id m)) (ps_calls s) = 0%Z.
Proof.
  intros [Hwf _ _]. apply total_0. intros t x Hx. unfold tallied. destruct (pc_rate x) as [[k b]|] eqn:Hf; [|done].
  destruct (cw_rate _ _ (Hwf t x Hx) k b Hf) as (ip & m' & -> & _). by apply String.eqb_neq.
Qed.
Lemma total_elem P (calls : gmap nat pcall) t x : calls !! t = Some x -> P x = true -> (0 < total P calls)%Z.
Proof.
  intros Ht Hp. unfold total. destruct (count_if P calls) eqn:Hc; [|lia].
  rewrite (proj1 (count_if_0 P calls) Hc t x Ht) in Hp. done.
Qed.

Lemma key_inv_init m key now : key_inv m key (init_psystem now).
Proof.
  assert (forall P, total P ∅ = 0%Z) as H0 by (intros P; apply total_0; intros t x; by rewrite lookup_empty).
  split; cbn; rewrite !H0; unfold entry_ok; rewrite ?lookup_empty; try done; try lia.
  unfold all_slots. lia.
Qed.

(** A new call contributes nothing yet. *)
Lemma key_inv_enter m key s t x len :
  key_inv m key s -> ps_calls s !! t = None -> pc_rate x = None -> pc_locked x = None -> pc_failed x = None ->
  pc_phase x = RateStart \/ pc_phase x = Gone ->
  key_inv m key (PSystem (ps_time s) (ps_store s) len (<[t := x]> (ps_calls s))).
Proof.
  intros [He Hp Ht Hl] Hnew Hr Hk Hf Hph.
  split; cbn; rewrite !total_add by done; unfold tallied, passed, locked, recorded, trying, awaits;
    destruct Hph as [Hph|Hph]; rewrite ?Hph, ?Hr, ?Hk, ?Hf; cbn; rewrite ?Z.add_0_r; done.
Qed.

(** One call's step, seen from one counter. *)
Section move.
Context (m : Z) (key : string) (s : psystem) (t : nat) (x : pcall) (len : gmap string Z).
Context (Hok : psys_ok s) (Hm : of_minute m key) (Hlast : lasts m s) (Hinv : key_inv m key s).
Context (Ht : ps_calls s !! t = Some x).

Local Abbreviation calls' x' := (<[t := x']> (ps_calls s)).
Local Abbreviation after st' x' := (PSystem (ps_time s) st' len (calls' x')).
Local Abbreviation count P := (total P (ps_calls s)).

(** Another phase, and the entry that goes with it. *)
Lemma move_phase st' ph :
  (trying key (at_phase ph x) = true -> trying key x = true) ->
  entry_ok st' m key (count (tallied key) + count (recorded key)) (total (awaits key) (calls' (at_phase ph x))) ->
  key_inv m key (after st' (at_phase ph x)).
Proof.
  intros Htry He. destruct Hinv as [_ Hp Hn Hl].
  assert (b2z (trying key (at_phase ph x)) <= b2z (trying key x))%Z
    by (destruct (trying key (at_phase ph x)); [by rewrite Htry|by destruct (trying key x)]).
  split; cbn [ps_store ps_calls].
  - rewrite !(total_move (tallied key) _ _ _ _ Ht), !(total_move (recorded key) _ _ _ _ Ht), !Z.add_simpl_r. exact He.
  - by rewrite !(total_move _ _ _ _ _ Ht), !Z.add_simpl_r.
  - rewrite !(total_move _ _ _ _ _ Ht), Z.add_simpl_r. lia.
  - by rewrite !(total_move _ _ _ _ _ Ht), !Z.add_simpl_r.
Qed.

Lemma move_quietly ph :
  (trying key (at_phase ph x) = true -> trying key x = true) -> awaits key (at_phase ph x) = awaits key x ->
  key_inv m key (after (ps_store s) (at_phase ph x)).
Proof.
  intros Htry Haw. apply move_phase; [done|]. rewrite (total_move _ _ _ _ _ Ht), Haw, Z.add_simpl_r. apply Hinv.
Qed.

(** The [Add] of an Increment. *)
Lemma move_Add ph key' r st' :
  (trying key (at_phase ph x) = true -> trying key x = true) ->
  (forall k, awaits k (at_phase ph x) = String.eqb key' k) -> (forall k, awaits k x = false) ->
  rate_at (ps_time s) key' \/ lock_at (ps_time s) key' ->
  store_Add key' "0" minute_ns (ps_time s) (ps_store s) = (r, st') ->
  key_inv m key (after st' (at_phase ph x)).
Proof.
  intros Htry Haw Haw' Hkey Ha. apply move_phase; [done|].
  eapply (entry_Add m _ (proj1 Hlast)); [apply Hinv|exact Ha|..].
  - intros ->. by eapply made_in_minute.
  - intros Hne. rewrite (total_move _ _ _ _ _ Ht), Haw, Haw', (proj2 (String.eqb_neq _ _) Hne). cbn. lia.
Qed.

Lemma move_size x' : size (calls' x') = size (ps_calls s).
Proof. by rewrite map_size_insert, Ht. Qed.

Lemma sum_le_size P Q : count P = 0%Z \/ count Q = 0%Z -> (count P + count Q <= Z.of_nat (size (ps_calls s)))%Z.
Proof. pose proof (total_size P (ps_calls s)). pose proof (total_size Q (ps_calls s)). intros [-> | ->]; lia. Qed.

(** The counts after a move, by what the call contributed before and after. *)
Lemma move_counts st' x' :
  let d P := (b2z (P x') - b2z (P x))%Z in
  entry_ok st' m key (count (tallied key) + count (recorded key) + (d (tallied key) + d (recorded key)))
    (total (awaits key) (calls' x')) ->
  (count (passed key) + d (passed key) = Z.min (count (tallied key) + d (tallied key)) (MaxRequestsPerMinIP l))%Z ->
  (count (recorded key) + d (recorded key) + (count (trying key) + d (trying key))
   <= MaxAuthFailuresPerMin l - 1 + all_slots)%Z ->
  (0 < count (locked key) + d (locked key) ->
   MaxAuthFailuresPerMin l <= count (recorded key) + d (recorded key))%Z ->
  key_inv m key (after st' x').
Proof.
  intros d He Hp Hn Hl. assert (forall P, total P (calls' x') = count P + d P)%Z as Hd
    by (intros P; rewrite (total_move _ _ _ _ _ Ht); unfold d; lia).
  split; cbn [ps_store ps_calls].
  - rewrite (Hd (tallied key)), (Hd (recorded key)). by rewrite (Z.add_shuffle1 (count (tallied key))).
  - by rewrite !Hd.
  - rewrite !Hd. lia.
  - by rewrite !Hd.
Qed.

(** A step at another counter. *)
Lemma move_other key' n c st' x' :
  key' <> key -> store_Increment key' n (ps_time s) (ps_store s) = (c, st') ->
  tallied key x' = tallied key x -> passed key x' = passed key x -> locked key x' = locked key x ->
  recorded key x' = recorded key x -> awaits key x' = awaits key x ->
  (trying key x' = true -> trying key x = true) ->
  key_inv m key (after st' x').
Proof.
  intros Hne Hi ET EP EL ER EA Htry. destruct Hinv as [He Hp Hn Hl].
  assert (b2z (trying key x') <= b2z (trying key x))%Z
    by (destruct (trying key x'); [by rewrite Htry|by destruct (trying key x)]).
  apply move_counts; cbv zeta; rewrite ?ET, ?EP, ?EL, ?ER, ?Z.sub_diag, ?Z.add_0_r; try done; [|lia].
  rewrite (total_move _ _ _ _ _ Ht), EA, Z.add_simpl_r.
  eapply entry_Increment_ne; done.
Qed.

(** A step at this counter: [n] is added to what was tallied. *)
Lemma move_Increment n c st' x' :
  awaits key x = true -> (0 <= n)%Z ->
  (count (tallied key) + count (recorded key) + n <= u64_max)%Z ->
  store_Increment key n (ps_time s) (ps_store s) = (c, st') ->
  c = Ok (count (tallied key) + count (recorded key) + n)%Z
  /\ entry_ok st' m key (count (tallied key) + count (recorded key) + n) (total (awaits key) (calls' x')).
Proof.
  intros Haw Hn Hmax Hi. pose proof (total_pos (tallied key) (ps_calls s)). pose proof (total_pos (recorded key) (ps_calls s)).
  eapply (entry_Increment m _ (proj1 Hlast)); [apply Hinv|exact Hi| |lia..].
  by eapply total_elem.
Qed.

(** What is not contributed yet leaves room in the bound. *)
Lemma room P x' : P x = false -> P x' = true -> (count P + 1 <= u64_max)%Z.
Proof.
  intros Hx Hx'. pose proof (total_size P (calls' x')) as Hs.
  rewrite move_size, (total_move _ _ _ _ _ Ht), Hx, Hx' in Hs. cbn in Hs. destruct Hlast. lia.
Qed.
End move.

Section increments.
Context (m : Z) (key : string) (s : psystem) (t : nat) (len : gmap string Z).
Context (Hok : psys_ok s) (Hm : of_minute m key) (Hlast : lasts m s) (Hinv : key_inv m key s).
Context (route : string) (req : Request) (key' : string).
Local Abbreviation count P := (total P (ps_calls s)).

Lemma move_rate_inc rt lk fl c st' :
  let x := PCall route req (RateInc key') rt lk fl in
  ps_calls s !! t = Some x -> store_Increment key' 1 (ps_time s) (ps_store s) = (c, st') ->
  let pass := rate_passes (MaxRequestsPerMinIP l) c in
  key_inv m key (PSystem (ps_time s) st' len
    (<[t := PCall route req (if pass then to_lockout l else Leaving) (Some (key', pass)) lk fl]> (ps_calls s))).
Proof.
  intros x Ht Hi pass. destruct limits_on as (_ & _ & ->).
  destruct (po_wf _ Hok t x Ht) as [_ [Hr Hat] [Hk Hf] _ _]. cbn in Hr, Hk, Hf. subst rt lk fl.
  destruct (decide (key' = key)) as [->|Hne].
  2:{ eapply (move_other m key s t x len Hinv Ht key'); [done|exact Hi|..]; subst x; cbn;
        rewrite ?(proj2 (String.eqb_neq _ _) Hne); by destruct pass. }
  assert (count (recorded key) = 0%Z) as HR by (destruct Hat as (ip & m' & -> & _); by apply recorded_rate).
  destruct (move_Increment m key s t x Hlast Hinv Ht 1 c st'
    (PCall route req (if pass then LockStart else Leaving) (Some (key, pass)) None None)) as [-> He];
    [by cbn; rewrite String.eqb_refl|done| |done|].
  { rewrite HR, Z.add_0_r. apply (room m s t x Hlast Ht _ (PCall route req Leaving (Some (key, true)) None None)); [done|].
    cbn. by rewrite String.eqb_refl. }
  destruct Hinv as [_ Hp Hn Hl].
  apply (move_counts m key s t x len Ht); cbv zeta; subst x; cbn -[Z.min]; unfold pass, rate_passes in *; rewrite HR in *;
    destruct (Z.ltb_spec (MaxRequestsPerMinIP l) (count (tallied key) + 0 + 1)); cbn -[Z.min] in *;
    rewrite ?String.eqb_refl; cbn -[Z.min]; rewrite ?Z.sub_diag, ?Z.add_0_r in *; try done; try lia.
Qed.

Lemma move_lock_read rt lk fl c st' :
  let x := PCall route req (LockRead key') rt lk fl in
  ps_calls s !! t = Some x -> store_Increment key' 0 (ps_time s) (ps_store s) = (c, st') ->
  let s' := PSystem (ps_time s) st' len
    (<[t := if lock_refuses (MaxAuthFailuresPerMin l) c then PCall route req Leaving rt (Some key') fl
            else PCall route req (Trying (Some key')) rt lk fl]> (ps_calls s)) in
  psys_ok s' -> key_inv m key s'.
Proof.
  intros x Ht Hi s' Hok'. pose proof (trying_slots s' key Hok') as Hslots.
  destruct (po_wf _ Hok t x Ht) as [_ Hat [Hk Hf] _ _]. cbn in Hat, Hk, Hf. subst lk fl. unfold s' in *.
  set (x' := if lock_refuses _ c then _ else _) in *.
  destruct (decide (key' = key)) as [->|Hne].
  2:{ eapply (move_other m key s t x len Hinv Ht key'); [done|exact Hi|..]; subst x x'; case_match; cbn;
        by rewrite ?(proj2 (String.eqb_neq _ _) Hne). }
  assert (count (tallied key) = 0%Z) as HT by (destruct Hat as (id & m' & -> & _); by apply tallied_lockout).
  destruct (move_Increment m key s t x Hlast Hinv Ht 0 c st' x') as [-> He];
    [by cbn; rewrite String.eqb_refl|done| |done|].
  { rewrite HT. pose proof (total_size (recorded key) (ps_calls s)). destruct Hlast. lia. }
  destruct Hinv as [_ Hp Hn Hl]. cbn [ps_calls] in Hslots. rewrite (total_move _ _ _ _ _ Ht) in Hslots.
  apply (move_counts m key s t x len Ht); cbv zeta; subst x x'; cbn -[Z.min] in *; rewrite HT in *;
    destruct (Z.leb_spec (MaxAuthFailuresPerMin l) (0 + count (recorded key) + 0)); cbn -[Z.min] in *;
    rewrite ?String.eqb_refl in *; cbn -[Z.min] in *; rewrite ?Z.sub_diag, ?Z.add_0_r in *; try done; try lia.
Qed.

Lemma move_fail_inc rt lk fl c st' :
  let x := PCall route req (FailInc key') rt lk fl in
  ps_calls s !! t = Some x -> store_Increment key' 1 (ps_time s) (ps_store s) = (c, st') ->
  key_inv m key (PSystem (ps_time s) st' len
    (<[t := PCall route req Leaving rt lk (Some key')]> (ps_calls s))).
Proof.
  intros x Ht Hi. destruct (po_wf _ Hok t x Ht) as [_ Hat [Hk Hf] _ _]. cbn in Hat, Hk, Hf. subst lk fl.
  destruct (decide (key' = key)) as [->|Hne].
  2:{ eapply (move_other m key s t x len Hinv Ht key'); [done|exact Hi|..]; subst x; cbn;
        by rewrite ?(proj2 (String.eqb_neq _ _) Hne). }
  assert (count (tallied key) = 0%Z) as HT by (destruct Hat as (id & m' & -> & _); by apply tallied_lockout).
  destruct (move_Increment m key s t x Hlast Hinv Ht 1 c st' (PCall route req Leaving rt None (Some key)))
    as [-> He]; [by cbn; rewrite String.eqb_refl|done| |done|].
  { rewrite HT. apply (room m s t x Hlast Ht _ (PCall route req Leaving rt None (Some key))); [done|].
    cbn. by rewrite String.eqb_refl. }
  destruct Hinv as [_ Hp Hn Hl].
  apply (move_counts m key s t x len Ht); cbv zeta; subst x; cbn -[Z.min] in *; rewrite HT in *;
    rewrite ?String.eqb_refl in *; cbn -[Z.min] in *; rewrite ?Z.sub_diag, ?Z.add_0_r in *; try done; try lia.
Qed.
End increments.

Lemma key_inv_move m key s t x x' st' :
  let s' := PSystem (ps_time s) st' (ps_len s) (<[t := x']> (ps_calls s)) in
  psys_ok s -> psys_ok s' -> of_minute m key -> lasts m s -> key_inv m key s ->
  ps_calls s !! t = Some x -> cstep (ps_time s) (ps_store s) x st' x' -> key_inv m key s'.
Proof.
  intros s' Hok Hok' Hm Hlast Hinv Ht Hc. unfold s' in *. clear s'.
  pose proof (cw_phase _ _ (po_wf _ Hok t x Ht)) as Hph'.
  destruct x as [route req ph rt lk fl]; destruct Hc; cbn in *; subst ph.
  - by apply (move_quietly m key s t _ _ Hinv Ht).
  - eapply (move_Add m key s t _ _ Hm Hlast Hinv Ht); try done. left. apply Hph'.
  - by eapply move_rate_inc.
  - by apply (move_quietly m key s t _ _ Hinv Ht).
  - eapply (move_Add m key s t _ _ Hm Hlast Hinv Ht); try done. by right.
  - unfold refused, at_phase in *. cbn in *. by eapply move_lock_read.
  - apply (move_quietly m key s t _ _ Hinv Ht); unfold trying, awaits; cbn;
      destruct key0 as [k|]; try destruct (code =? 401)%Z; try done; auto.
  - by apply (move_quietly m key s t _ _ Hinv Ht).
  - eapply (move_Add m key s t _ _ Hm Hlast Hinv Ht); try done. by right.
  - by eapply move_fail_inc.
Qed.

Lemma key_inv_step m key s s' :
  pstep s s' -> psys_ok s -> psys_ok s' -> of_minute m key -> lasts m s -> key_inv m key s -> key_inv m key s'.
Proof.
  intros Hs Hok Hok' Hm Hlast Hinv. destruct limits_on as (_ & Er & _).
  destruct Hs as [t' s _|url body ttl st' s Hj|t route req s Ht _ _|t route req s Ht _ _ _|t x x' st' s Ht Hc|t x s Ht Hph].
  - by destruct Hinv.
  - injection Hj as <-. destruct Hinv as [He Hp Hn Hl]. split; try done. cbn. unfold entry_ok in *.
    rewrite lookup_insert_ne; [done|]. intros <-. by apply (of_minute_jwks m url).
  - apply key_inv_enter; try done. left. by rewrite <- Er.
  - apply key_inv_enter; try done. by right.
  - by eapply key_inv_move.
  - destruct x as [route req ph rt lk fl]. cbn in *. subst ph.
    apply (move_quietly m key s t _ _ Hinv Ht); done.
Qed.

Lemma reachable_inv now s : rtc pstep (init_psystem now) s ->
  psys_ok s /\ forall m key, of_minute m key -> lasts m s -> key_inv m key s.
Proof.
  intros Hr. apply (rtc_invariant pstep (fun s => psys_ok s /\ forall m key, of_minute m key -> lasts m s -> key_inv m key s)
    (init_psystem now)); [|intros a b Hs [Hok Hk]|done].
  - split; [apply psys_ok_init|]. intros m key _ _. apply key_inv_init.
  - assert (psys_ok b) as Hok' by (by eapply psys_ok_step). split; [done|]. intros m key Hm Hl.
    pose proof (lasts_before m a b Hs Hl). eapply key_inv_step; eauto.
Qed.

(** C24: the rate limit holds under every interleaving of requests on every route:
    while the minute lasts, of the requests of one address that the limiter has
    decided on, exactly the first [max_requests_per_min_per_ip] have passed; no
    request passes because an entry expired between [Add] and [Increment]. *)
Theorem rate_limit_interleaved now s ip m
  (Hreach : rtc pstep (init_psystem now) s) (Hlast : lasts m s) :
  let decided := total (tallied (rate_key ip m)) (ps_calls s) in
  total (passed (rate_key ip m)) (ps_calls s) = Z.min decided (MaxRequestsPerMinIP l).
Proof.
  destruct (reachable_inv now s Hreach) as [_ Hk]. apply (Hk m); [|done]. left. by eexists.
Qed.

(** C25: the lockout under every interleaving: it checks the count of failures
    before the authentication and adds to it after, so while the minute lasts up
    to one failure for every slot of the server's semaphores comes on top of
    [max_auth_failures_per_min - 1]; and nobody is refused before that many
    failures are counted. *)
Theorem lockout_interleaved now s id m
  (Hreach : rtc pstep (init_psystem now) s) (Hlast : lasts m s) :
  let key := lockout_key id m in
  (total (denied key) (ps_calls s)
     <= MaxAuthFailuresPerMin l - 1 + Z.of_nat (length limited_routes) * MaxConcurrentGlobal l)%Z
  /\ (forall t x, ps_calls s !! t = Some x -> pc_locked x = Some key ->
        MaxAuthFailuresPerMin l <= total (recorded key) (ps_calls s))%Z.
Proof.
  intros key. destruct (reachable_inv now s Hreach) as [_ Hk].
  destruct (Hk m key) as [_ _ Hn Hl]; [right; by eexists|done|]. split.
  - etransitivity; [|exact Hn]. transitivity (sumz (fun P => total P (ps_calls s)) [recorded key; trying key]); [|cbn; lia].
    apply total_cover. intros t x _. unfold denied. intros [Hx|Hx]%orb_true_iff.
    + exists (recorded key). split; [left|done].
    + exists (trying key). split; [right; left|]. unfold trying. by repeat case_match.
  - intros t x Ht Hx. apply Hl. apply (total_elem _ _ t x Ht). unfold locked. by rewrite Hx, String.eqb_refl.
Qed.
End limits.
