(* ===== verification/LimitsRun.v ===== *)
(** * The limiters at work

    RateLimitPerIP and BruteForceLockout, undisturbed, are runs of the system of
    Limits; its steps as a function of a schedule, and the schedules at which the
    theorems of LimitsSpec are witnessed. *)

From S2P Require Import Prelude GoStrings GoNet Http GoHttp Cache Middleware MiddlewareSpec Executor Config Jwt Limits LimitsSpec.

(** ** The middlewares run by these steps *)

(** A request that nobody disturbs: what RateLimitPerIP and BruteForceLockout do
    over the documented tqmemory is a run of the system. *)
Section alone.
Context {W C : Type} `{TQMemory W, Clock W, Rand W, UnicodeTables} (D : tq_documented W).
Context (l : Limits) (tp : list IPNet).
Context (Hrate : (0 < MaxRequestsPerMinIP l)%Z) (Hlock : (0 < MaxAuthFailuresPerMin l)%Z).

Local Abbreviation steps := (rtc (pstep l tp)).

Definition agrees (w : W) (s : psystem) : Prop := ps_time s = time D w /\ ps_store s = entries D w.
Definition moved (t : nat) (x : pcall) (s s' : psystem) : Prop :=
  ps_calls s' = <[t := x]> (ps_calls s) /\ ps_len s' = ps_len s.

Definition map_count (count : result tq_error Z) : result string Z :=
  match count with Ok n => Ok n | Err e => Err (tq_message e) end.

(** The two operations behind one Increment of the cache. *)
Lemma embedded_Increment_ops key d w :
  exists r st1 count,
    store_Add key "0" minute_ns (time D w) (entries D w) = (r, st1) /\ add_goes_on r
    /\ store_Increment key d (time D w) st1 = (count, entries D (snd (embedded_Increment key d minute_ns w)))
    /\ time D (snd (embedded_Increment key d minute_ns w)) = time D w
    /\ fst (embedded_Increment key d minute_ns w) = map_count count.
Proof.
  pose proof (embedded_Increment_time D key d minute_ns w) as Ht. revert Ht. unfold embedded_Increment.
  pose proof (tq_Add_doc D key "0" minute_ns w) as Ha.
  destruct (store_Add key "0" minute_ns (time D w) (entries D w)) as [r st1] eqn:Es.
  destruct (tq_Add key "0" minute_ns w) as [r' w1]. cbn in Ha. destruct Ha as (-> & He1 & Ht1).
  pose proof (tq_Increment_doc D key d w1) as Hi. rewrite He1, Ht1 in Hi.
  destruct (store_Increment key d (time D w) st1) as [count st2] eqn:Ei.
  destruct (tq_Increment key d w1) as [c w2]. cbn in Hi. destruct Hi as (-> & He2 & Ht2).
  assert (add_goes_on r) as Hr by (unfold store_Add in Es; destruct (live_entry _ _ _); by injection Es as <- <-).
  intros _. exists r, st1, count.
  destruct r as [u|[]]; try done; destruct count; cbn; rewrite ?He2; split_and!; congruence || done.
Qed.

Lemma insert_twice t (x y : pcall) (calls : gmap nat pcall) : <[t := y]> (<[t := x]> calls) = <[t := y]> calls.
Proof. apply insert_insert_eq. Qed.
Lemma step_move t x x' st' s :
  ps_calls s !! t = Some x -> cstep l tp (ps_time s) (ps_store s) x st' x' ->
  steps s (PSystem (ps_time s) st' (ps_len s) (<[t := x']> (ps_calls s))).
Proof. intros Ht Hc. by apply rtc_once, (p_move l tp t x). Qed.

(** [Add] and [Increment], from the phase before the one to the phase after the
    other. *)
Lemma increment_alone t x add_ph (after_ : result tq_error Z -> pcall) key d w s :
  ps_calls s !! t = Some x -> agrees w s ->
  (forall r st', store_Add key "0" minute_ns (ps_time s) (ps_store s) = (r, st') -> add_goes_on r ->
     cstep l tp (ps_time s) (ps_store s) x st' (at_phase add_ph x)) ->
  (forall st count st', store_Increment key d (ps_time s) st = (count, st') ->
     cstep l tp (ps_time s) st (at_phase add_ph x) st' (after_ count)) ->
  exists count s', fst (embedded_Increment key d minute_ns w) = map_count count
    /\ steps s s' /\ agrees (snd (embedded_Increment key d minute_ns w)) s' /\ moved t (after_ count) s s'.
Proof.
  intros Ht [Etime Estore] Hadd Hinc.
  destruct (embedded_Increment_ops key d w) as (r & st1 & count & Ha & Hr & Hi & Htime & Hc).
  rewrite <- Etime, <- Estore in Ha. rewrite <- Etime in Hi.
  exists count. eexists. split; [done|]. split; [|split].
  - etransitivity; [by eapply step_move, Hadd|]. eapply (step_move t); cbn; [by rewrite lookup_insert_eq|by apply Hinc].
  - split; cbn; congruence.
  - split; cbn; [|done]. by rewrite insert_twice.
Qed.

(** The clock is read, then the cache asked. *)
Lemma now_alone t x x' now w1 w s :
  ps_calls s !! t = Some x -> agrees w s -> Now w = (now, w1) ->
  cstep l tp now (ps_store s) x (ps_store s) x' ->
  exists s', steps s s' /\ agrees w1 s' /\ moved t x' s s'.
Proof.
  intros Ht [Etime Estore] Hn Hc. destruct (Now_doc D w) as [Hstore Htime]. rewrite Hn in Hstore, Htime. cbn in Hstore, Htime.
  exists (PSystem (time D w1) (ps_store s) (ps_len s) (<[t := x']> (ps_calls s))). split; [|split; [split; cbn; congruence|done]].
  eapply rtc_l; [apply (p_time l tp now); lia|].
  eapply rtc_l; [by apply (p_move l tp t x)|]. apply rtc_once. by apply (p_time l tp (time D w1)); cbn; lia.
Qed.

Lemma moved_moved t x y s1 s2 s3 : moved t x s1 s2 -> moved t y s2 s3 -> moved t y s1 s3.
Proof. intros [E1 L1] [E2 L2]. split; [by rewrite E2, E1, insert_twice|congruence]. Qed.
Lemma moved_lookup t x s s' : moved t x s s' -> ps_calls s' !! t = Some x.
Proof. intros [-> _]. apply lookup_insert_eq. Qed.

Lemma rate_alone (next : Handler W C) c t x hd w s :
  ps_calls s !! t = Some x -> pc_phase x = RateStart -> agrees w s ->
  exists key pass retry w' s', steps s s' /\ agrees w' s'
    /\ moved t (rated key pass (at_phase (if pass then to_lockout l else Leaving) x)) s s'
    /\ RateLimitPerIP true (MaxRequestsPerMinIP l) tp next c (pc_req x) hd w
       = if pass then next c (pc_req x) hd w' else reject_retry 429 retry genericRateLimited hd w'.
Proof.
  intros Ht Hph Hag. rewrite RateLimitPerIP_run by done. destruct (Now w) as [now w1] eqn:Hn.
  destruct (now_alone t x _ now w1 w s Ht Hag Hn (c_rate_now _ _ _ _ _ Hph)) as (s1 & Hs1 & Hag1 & Hm1).
  set (key := rate_key _ _) in *.
  destruct (increment_alone t (at_phase (RateAdd key) x) (RateInc key)
    (fun count => let pass := rate_passes (MaxRequestsPerMinIP l) count in
       rated key pass (at_phase (if pass then to_lockout l else Leaving) (at_phase (RateInc key) (at_phase (RateAdd key) x))))
    key 1 w1 s1 (moved_lookup _ _ _ _ Hm1) Hag1) as (count & s2 & Hc & Hs2 & Hag2 & Hm2).
  { intros r st' Ha Hr. by eapply c_rate_add. }
  { intros st c' st' Hi. by apply c_rate_inc. }
  destruct (embedded_Increment key 1 minute_ns w1) as [c2 w2]. cbn in Hc, Hag2. subst c2.
  exists key, (rate_passes (MaxRequestsPerMinIP l) count), (FormatInt (secondsToNextMinute now)), w2, s2.
  split; [by etransitivity|]. split; [done|]. split; [by eapply moved_moved|].
  destruct count as [n|e]; cbn; [|done]. by destruct (_ <? n)%Z.
Qed.

(** The lockout: refused, or let through to a handler after which a 401 is
    counted. *)
Lemma lockout_alone (next : Handler W C) c t x hd w s :
  ps_calls s !! t = Some x -> pc_phase x = LockStart -> agrees w s ->
  exists key retry w' s', steps s s' /\ agrees w' s'
    /\ (moved t (refused key (at_phase Leaving x)) s s'
         /\ BruteForceLockout true (MaxAuthFailuresPerMin l) tp next c (pc_req x) hd w
            = reject_retry 429 retry genericLockedOut hd w'
        \/ moved t (at_phase (Trying (Some key)) x) s s'
         /\ BruteForceLockout true (MaxAuthFailuresPerMin l) tp next c (pc_req x) hd w
            = (let* ca := listen (next c (pc_req x)) in
               if (statusWriter (fst ca) =? 401)%Z then let* _ := lift (Increment key 1 minute_ns) in ret tt
               else ret tt) hd w').
Proof.
  intros Ht Hph Hag. rewrite BruteForceLockout_run by done. destruct (Now w) as [now w1] eqn:Hn.
  destruct (now_alone t x _ now w1 w s Ht Hag Hn (c_lock_now _ _ _ _ _ Hph)) as (s1 & Hs1 & Hag1 & Hm1).
  cbv zeta. set (key := lockout_key _ _) in *.
  destruct (increment_alone t (at_phase (LockAdd key) x) (LockRead key)
    (fun count => if lock_refuses (MaxAuthFailuresPerMin l) count
       then refused key (at_phase Leaving (at_phase (LockRead key) (at_phase (LockAdd key) x)))
       else at_phase (Trying (Some key)) (at_phase (LockRead key) (at_phase (LockAdd key) x)))
    key 0 w1 s1 (moved_lookup _ _ _ _ Hm1) Hag1) as (count & s2 & Hc & Hs2 & Hag2 & Hm2).
  { intros r st' Ha Hr. by eapply c_lock_add. }
  { intros st c' st' Hi. by apply c_lock_read. }
  destruct (embedded_Increment key 0 minute_ns w1) as [c2 w2]. cbn in Hc, Hag2. subst c2.
  exists key, (FormatInt (secondsToNextMinute now)), w2, s2. split; [by etransitivity|]. split; [done|].
  assert (moved t (if lock_refuses (MaxAuthFailuresPerMin l) count then refused key (at_phase Leaving x)
                   else at_phase (Trying (Some key)) x) s s2) as Hm by (eapply moved_moved; [exact Hm1|]; exact Hm2).
  unfold lockout_on, lock_refuses in *. destruct count as [n|e]; cbn [map_count];
    [destruct (MaxAuthFailuresPerMin l <=? n)%Z; [by left|]|]; by right.
Qed.

(** The 401 behind it is counted. *)
Lemma failure_alone t x key w s :
  ps_calls s !! t = Some x -> pc_phase x = Trying (Some key) -> agrees w s ->
  exists s', steps s s' /\ agrees (snd (embedded_Increment key 1 minute_ns w)) s'
    /\ moved t (failed key (at_phase Leaving x)) s s'.
Proof.
  intros Ht Hph Hag.
  pose proof (step_move t x _ _ s Ht (c_answered l tp (ps_time s) (ps_store s) x 401 (Some key) Hph)) as Hs1. cbn in Hs1.
  set (s1 := PSystem _ _ _ _) in Hs1.
  destruct (increment_alone t (at_phase (FailAdd key) x) (FailInc key)
    (fun count => failed key (at_phase Leaving (at_phase (FailInc key) (at_phase (FailAdd key) x))))
    key 1 w s1 ltac:(apply lookup_insert_eq) Hag) as (count & s2 & _ & Hs2 & Hag2 & Hm2).
  { intros r st' Ha Hr. by eapply c_fail_add. }
  { intros st c' st' Hi. by eapply c_fail_inc. }
  exists s2. split; [by etransitivity|]. split; [done|]. eapply (moved_moved t (at_phase (FailAdd key) x) _ s s1); [split; reflexivity|exact Hm2].
Qed.
End alone.

(** ** Schedules *)

(** The steps as a function of a schedule, to compute with. *)
Inductive event :=
| ETime (t' : Z)
| EEnter (t : nat) (route : string) (req : Request)
| EMove (t : nat) (code : Z)      (* the status, where the handler answers *)
| ELeave (t : nat).

Section schedules.
Context `{UnicodeTables} (l : Limits) (tp : list IPNet).

Definition adds (key : string) (now : Z) (st : store) (x : pcall) (ph : pphase) : option (store * pcall) :=
  let '(r, st) := store_Add key "0" minute_ns now st in
  if add_goes_on r then Some (st, at_phase ph x) else None.
Definition advance (now : Z) (code : Z) (st : store) (x : pcall) : option (store * pcall) :=
  match pc_phase x with
  | RateStart => Some (st, at_phase (RateAdd (rate_key (ClientIP (pc_req x) tp) (Unix now / 60))) x)
  | RateAdd key => adds key now st x (RateInc key)
  | RateInc key =>
      let '(count, st) := store_Increment key 1 now st in
      let pass := rate_passes (MaxRequestsPerMinIP l) count in
      Some (st, rated key pass (at_phase (if pass then to_lockout l else Leaving) x))
  | LockStart => Some (st, at_phase (LockAdd (lockout_key (lockoutID (pc_req x) tp) (Unix now / 60))) x)
  | LockAdd key => adds key now st x (LockRead key)
  | LockRead key =>
      let '(count, st) := store_Increment key 0 now st in
      Some (st, if lock_refuses (MaxAuthFailuresPerMin l) count then refused key (at_phase Leaving x)
                else at_phase (Trying (Some key)) x)
  | Trying key =>
      Some (st, at_phase match key with Some k => if (code =? 401)%Z then FailAdd k else Leaving | None => Leaving end x)
  | FailAdd key => adds key now st x (FailInc key)
  | FailInc key =>
      let '(_, st) := store_Increment key 1 now st in Some (st, failed key (at_phase Leaving x))
  | Leaving | Gone => None
  end.
Definition perform (s : psystem) (e : event) : option psystem :=
  match e with
  | ETime t' => if (ps_time s <=? t')%Z then Some (PSystem t' (ps_store s) (ps_len s) (ps_calls s)) else None
  | EEnter t route req =>
      if bool_decide (ps_calls s !! t = None) && bool_decide (route ∈ limited_routes)
         && (negb (has_sem l) || (len_of s route <? MaxConcurrentGlobal l)%Z) then
        Some (PSystem (ps_time s) (ps_store s)
               (if has_sem l then <[route := (len_of s route + 1)%Z]> (ps_len s) else ps_len s)
               (<[t := PCall route req (to_rate l) None None None]> (ps_calls s)))
      else None
  | EMove t code =>
      x ← ps_calls s !! t; '(st', x') ← advance (ps_time s) code (ps_store s) x;
      Some (PSystem (ps_time s) st' (ps_len s) (<[t := x']> (ps_calls s)))
  | ELeave t =>
      x ← ps_calls s !! t;
      if match pc_phase x with Leaving => true | _ => false end then
        Some (PSystem (ps_time s) (ps_store s)
               (if has_sem l then <[pc_route x := (len_of s (pc_route x) - 1)%Z]> (ps_len s) else ps_len s)
               (<[t := at_phase Gone x]> (ps_calls s)))
      else None
  end.

Lemma adds_ok key now st x ph st' x' :
  adds key now st x ph = Some (st', x') ->
  exists r, store_Add key "0" minute_ns now st = (r, st') /\ add_goes_on r /\ x' = at_phase ph x.
Proof.
  unfold adds. destruct (store_Add _ _ _ _ _) as [r st1]. destruct (add_goes_on r) eqn:Hr; [|done].
  intros [= <- <-]. exists r. by rewrite Hr.
Qed.
Lemma advance_cstep now code st x st' x' :
  advance now code st x = Some (st', x') -> cstep l tp now st x st' x'.
Proof.
  unfold advance. destruct (pc_phase x) eqn:Hph; try (destruct (store_Increment _ _ _ _) as [c st1] eqn:Hi);
    try (by intros [= <- <-]; econstructor);
    try (intros (r & Ha & Hr & ->)%adds_ok; by econstructor).
Qed.
Lemma perform_pstep s e s' : perform s e = Some s' -> pstep l tp s s'.
Proof.
  destruct e as [t'|t route req|t code|t]; cbn.
  - destruct (Z.leb_spec (ps_time s) t'); [|done]. intros [= <-]. by constructor.
  - case_match eqn:Hg; [|done]. intros [= <-]. breflect. constructor; [done..|]. intros Hs.
    destruct (has_sem l); [|done]. by apply Z.ltb_lt.
  - destruct (ps_calls s !! t) as [x|] eqn:Ht; [|done]. cbn.
    destruct (advance _ _ _ _) as [[st' x']|] eqn:Ha; [|done]. intros [= <-].
    eapply p_move; [done|]. by eapply advance_cstep.
  - destruct (ps_calls s !! t) as [x|] eqn:Ht; [|done]. cbn. destruct (pc_phase x) eqn:Hph; try done.
    intros [= <-]. by eapply p_leave.
Qed.

Definition schedule (es : list event) (s : psystem) : option psystem := foldl (fun s e => s ≫= fun s => perform s e) (Some s) es.
Lemma schedule_reachable es s s' : schedule es s = Some s' -> rtc (pstep l tp) s s'.
Proof.
  unfold schedule. revert s. induction es as [|e es IH]; intros s; cbn; [by intros [= <-]|].
  destruct (perform s e) as [s1|] eqn:He; [intros Hs; eapply rtc_l; [by eapply perform_pstep|by apply IH]|].
  assert (foldl (fun s e => s ≫= fun s => perform s e) None es = None) as -> by (clear; induction es; done). done.
Qed.
End schedules.

Module Witness.
#[local] Existing Instance ascii_tables.

(** One slot per route; [n] requests and [k] failures in a minute. *)
Definition limits (n k : Z) : Limits := Build_Limits 5000 1048576 1000 10 1 n k 0 zero_float 0 1.
Definition minute : Z := 7.
Definition bob : Request :=
  {| r_Method := "POST"; r_Path := "/pathql"; r_RequestURI := "/pathql"; r_Host := "api";
     r_RemoteAddr := "192.0.2.1:1"; r_Header := {["Authorization" := ["Basic Ym9iOng="]]}; r_TLS := false;
     r_Body := Some EmptyString; r_BodyLimit := None; r_PathValue := EmptyString |}.
Definition run (n k : Z) (es : list event) : option psystem :=
  schedule (limits n k) [] es (init_psystem (minute * minute_ns)).
Definition moves (n t : nat) (code : Z) : list event := replicate n (EMove t code).

(** Two requests of one address whose cache operations alternate. *)
Definition alternating : list event :=
  [EEnter 0 "/pathql" bob; EEnter 1 "/schema" bob; EMove 0 0; EMove 1 0; EMove 0 0; EMove 1 0; EMove 1 0; EMove 0 0].
Definition after_alternating : psystem := default (init_psystem 0) (run 1 60 alternating).

(** An instance of [rate_limit_interleaved]. *)
Lemma rate_limit_interleaved_witness :
  total (passed (rate_key "192.0.2.1" minute)) (ps_calls after_alternating) = 1%Z.
Proof.
  rewrite (rate_limit_interleaved (limits 1 60) [] eq_refl eq_refl eq_refl (minute * minute_ns) after_alternating
             "192.0.2.1" minute).
  - vm_compute. reflexivity.
  - apply (schedule_reachable _ _ alternating). vm_compute. reflexivity.
  - split; vm_compute; [reflexivity|discriminate].
Defined.

(** An attempt on every route, all checked before any fails, and one more. *)
Definition guesses : list event :=
  imap (fun t route => EEnter t route bob) limited_routes
  ++ mbind (fun t => moves 6 t 0) (seq 0 6) ++ mbind (fun t => moves 3 t 401 ++ [ELeave t]) (seq 0 6)
  ++ [EEnter 6 "/pathql" bob] ++ moves 6 6 0.
Definition after_guesses : psystem := default (init_psystem 0) (run 60 1 guesses).

(** An instance of [lockout_interleaved]. *)
Lemma lockout_interleaved_witness :
  (total (denied (lockout_key "u:bob" minute)) (ps_calls after_guesses) <= 6)%Z
  /\ (1 <= total (recorded (lockout_key "u:bob" minute)) (ps_calls after_guesses))%Z.
Proof.
  destruct (lockout_interleaved (limits 60 1) [] eq_refl eq_refl eq_refl (minute * minute_ns) after_guesses
              "u:bob" minute) as [Hd Hl].
  - apply (schedule_reachable _ _ guesses). vm_compute. reflexivity.
  - split; vm_compute; [reflexivity|discriminate].
  - split; [exact Hd|]. eapply (Hl 6); vm_compute; reflexivity.
Defined.

(** The bound is reached: with max_auth_failures_per_min = 1 and one slot per
    route six passwords were tried. *)
Example six_guesses :
  total (denied (lockout_key "u:bob" minute)) (ps_calls after_guesses) = 6%Z
  /\ (pc_locked <$> ps_calls after_guesses !! 6) = Some (Some (lockout_key "u:bob" minute)).
Proof. vm_compute. auto. Qed.

(** After the minute, a request that was held up between the two operations of
    its Increment passes whatever the limit: the entry has expired. *)
Example straggler_passes :
  (pc_rate <$> ps_calls (default (init_psystem 0) (run 1 60
     ([EEnter 0 "/pathql" bob] ++ moves 3 0 0 ++ [EEnter 1 "/schema" bob] ++ moves 2 1 0
      ++ [ETime (9 * minute_ns)] ++ moves 1 1 0))) !! 1)
  = Some (Some (rate_key "192.0.2.1" minute, true)).
Proof. vm_compute. reflexivity. Qed.
End Witness.
