(* ===== verification/Answers.v ===== *)
(** * The answers of handlers

    What a handler may send, as a language of call sequences: header calls that
    leave the guarded keys alone, then at most one status and at most one body,
    in this order, of a given set of answers. The rules follow the monad and the
    middlewares; they are the hint database [answers]. *)

From S2P Require Import Prelude GoStrings GoNet Http GoHttp Cache Middleware Concurrency Auth Footprint.

Create HintDb answers.

(** The keys that [SecurityHeaders] sets. *)
Definition guarded_keys : list string := ["X-Content-Type-Options"; "Cache-Control"].

(** A call that adds to the header, at another key. *)
Definition plain_header (c : wcall) : bool :=
  match c with
  | HSet k _ | HAdd k _ => negb (bool_decide (CanonicalHeaderKey k ∈ guarded_keys))
  | _ => false
  end.

(** One reply. *)
Inductive replying (P : Z -> string -> Prop) : list wcall -> Prop :=
| replying_none : replying P []
| replying_status code : P code EmptyString -> replying P [WriteHeader code]
| replying_body code b : P code b -> replying P [WriteHeader code; Write b]
| replying_ok b : P 200%Z b -> replying P [Write b]
| replying_header c cs : plain_header c -> replying P cs -> replying P (c :: cs).
#[export] Hint Constructors replying : answers.

Lemma replying_app P cs cs' :
  Forall plain_header cs -> replying P cs' -> replying P (cs ++ cs').
Proof. induction 1; cbn; auto with answers. Qed.
Lemma replying_preamble P cs : Forall plain_header cs -> replying P cs.
Proof. intros Hcs. rewrite <- (app_nil_r cs). auto using replying_app with answers. Qed.

(** What was not committed is a header. *)
Lemma replying_uncommitted P cs :
  replying P cs -> wroteHeader cs = false -> Forall plain_header cs.
Proof.
  unfold wroteHeader. induction 1 as [|code Hc|code b Hc|b Hc|c cs Hc _ IH]; cbn; try done.
  intros [_ Hcs]%orb_false_iff. auto.
Qed.

(** ** What the client receives *)

Section received.
Context (P : Z -> string -> Prop).

Lemma plain_kept c h k : k ∈ guarded_keys -> plain_header c -> apply_call h c !! k = h !! k.
Proof.
  intros Hk Hc. destruct c as [k' v|k' v|code|b]; cbn in *; [| |done..];
    apply negb_prop_elim in Hc; rewrite bool_decide_spec in Hc;
    unfold header_set, header_add; apply lookup_insert_ne; by intros <-.
Qed.

(** The answer is one of the set, or the empty 200 of a handler that wrote
    nothing; the guarded keys are as they were. *)
Lemma replying_response h cs :
  replying P cs -> P 200%Z EmptyString ->
  let res := response_of h cs in
  P (status res) (body res) /\ forall k, k ∈ guarded_keys -> headers res !! k = h !! k.
Proof.
  intros Hcs H200. revert h. induction Hcs as [|code Hp|code b Hp|b Hp|c cs Hc Hcs IH]; intros h; cbn;
    [by rewrite ?str_app_nil_r..|].
  replace (response_of h (c :: cs)) with (response_of (apply_call h c) cs) by (by destruct c).
  destruct (IH (apply_call h c)) as [Ha Hk]. split; [done|].
  intros k Hin. by rewrite Hk, plain_kept.
Qed.
End received.

(** ** Computations *)

Section computations.
Context {W : Type} (P : Z -> string -> Prop).

Definition replies {A} (m : M W A) : Prop := forall h w, replying P (calls_of (m h w)).
(** [m] only adds to the header. *)
Definition preamble {A} (m : M W A) : Prop := forall h w, Forall plain_header (calls_of (m h w)).

Lemma preamble_silent {A} (m : M W A) : silent m -> preamble m.
Proof. intros Hm h w. by rewrite Hm. Qed.
Lemma replies_preamble {A} (m : M W A) : preamble m -> replies m.
Proof. intros Hm h w. apply replying_preamble, Hm. Qed.
Lemma replies_silent {A} (m : M W A) : silent m -> replies m.
Proof. intros Hm. by apply replies_preamble, preamble_silent. Qed.
Lemma preamble_call c : plain_header c -> preamble (call c).
Proof. intros Hc h w. by constructor. Qed.

(** A reply is made before or after the value: where [m] has committed one, the
    continuation is silent. *)
Lemma replies_bind_val {A B} (m : M W A) (f : A -> M W B) :
  replies m ->
  (forall a h w, (m h w).2 = Val a ->
     Forall plain_header (calls_of (m h w)) /\ replies (f a) \/ silent (f a)) ->
  replies (bind m f).
Proof.
  intros Hm Hf h w. specialize (Hm h w). unfold bind.
  destruct (m h w) as [[cs w'] [a|v]] eqn:E; [|done].
  destruct (Hf a h w) as [[Hcs Hr]|Hs]; [by rewrite E|..].
  - rewrite E in Hcs. specialize (Hr (apply_calls h cs) w').
    destruct (f a _ w') as [[cs' w''] r]. by apply replying_app.
  - specialize (Hs (apply_calls h cs) w'). destruct (f a _ w') as [[cs' w''] r].
    cbn in *. subst cs'. by rewrite app_nil_r.
Qed.
Lemma replies_bind {A B} (m : M W A) (f : A -> M W B) :
  preamble m -> (forall a, replies (f a)) -> replies (bind m f).
Proof. intros Hm Hf. apply replies_bind_val; [by apply replies_preamble|]. intros a h w _. left. auto. Qed.
Lemma replies_then {A B} (m : M W A) (f : A -> M W B) :
  replies m -> (forall a, silent (f a)) -> replies (bind m f).
Proof. intros Hm Hf. apply replies_bind_val; [done|]. auto. Qed.
Lemma preamble_bind {A B} (m : M W A) (f : A -> M W B) :
  preamble m -> (forall a, preamble (f a)) -> preamble (bind m f).
Proof.
  intros Hm Hf h w. specialize (Hm h w). unfold bind. destruct (m h w) as [[cs w'] [a|v]]; [|done].
  specialize (Hf a (apply_calls h cs) w'). destruct (f a _ w') as [[cs' w''] r]. by apply Forall_app.
Qed.
Lemma replies_finally {A} (m : M W A) f : replies m -> silent f -> replies (finally m f).
Proof.
  intros Hm Hf h w. specialize (Hm h w). unfold finally. destruct (m h w) as [[cs w'] r].
  specialize (Hf (apply_calls h cs) w'). destruct (f _ w') as [[cs' w''] r']. cbn in *. subst cs'.
  by rewrite app_nil_r.
Qed.
Lemma replies_listen {A} (m : M W A) : replies m -> replies (listen m).
Proof. intros Hm h w. specialize (Hm h w). unfold listen. by destruct (m h w) as [[cs w'] []]. Qed.
Lemma replies_if {A} (b : bool) (m1 m2 : M W A) : replies m1 -> replies m2 -> replies (if b then m1 else m2).
Proof. by destruct b. Qed.
Lemma preamble_if {A} (b : bool) (m1 m2 : M W A) : preamble m1 -> preamble m2 -> preamble (if b then m1 else m2).
Proof. by destruct b. Qed.

(** The two ways to answer at the end of a sequence of calls. *)
Lemma replies_write code b : P code b -> replies (call (WriteHeader code) ;; call (Write b)).
Proof. intros Hp h w. cbn. auto with answers. Qed.
Lemma replies_WriteHeader code : P code EmptyString -> replies (call (WriteHeader code)).
Proof. intros Hp h w. cbn. auto with answers. Qed.
Lemma replies_Write b : P 200%Z b -> replies (call (Write b)).
Proof. intros Hp h w. cbn. auto with answers. Qed.
End computations.

#[export] Hint Resolve preamble_silent preamble_call preamble_bind preamble_if replies_silent replies_bind
  replies_finally replies_listen replies_if replies_write replies_WriteHeader replies_Write : answers.
#[export] Hint Extern 1 (Is_true (plain_header _)) => exact I : answers.
#[export] Hint Extern 2 (silent _) => solve [auto 10 with footprint] : answers.

(** ** The middlewares *)

Section middlewares.
Context {W C : Type} (P : Z -> string -> Prop).

Definition answering (next : Handler W C) : Prop := forall c r, replies P (next c r).

Lemma replies_reject code b : P code b -> replies P (reject (W := W) code b).
Proof. unfold reject. auto 10 with answers. Qed.
Lemma replies_reject_retry code retry b : P code b -> replies P (reject_retry (W := W) code retry b).
Proof. unfold reject_retry. auto 10 with answers. Qed.

(** The panic of a handler that has answered is swallowed; one that has not is
    answered for. *)
Lemma answering_Recover (next : Handler W C) :
  P 500%Z genericInternalError -> answering next -> answering (Recover next).
Proof.
  intros H500 Hn c r h w. specialize (Hn c r h w). unfold Recover, bind at 1, try_.
  destruct (next c r h w) as [[cs w'] [a|v]]; [cbn in *; by rewrite app_nil_r|].
  cbn -[wroteHeader] in *. destruct (wroteHeader cs) eqn:Hcs; cbn; [by rewrite app_nil_r|].
  apply replying_app; [by eapply replying_uncommitted|]. auto 10 with answers.
Qed.
(** The two headers are set before anything that may panic. *)
Lemma Recover_SecurityHeaders (next : Handler W C) c r :
  handler_eq (Recover (SecurityHeaders next) c r) (SecurityHeaders (Recover next) c r).
Proof.
  intros h w. unfold Recover, SecurityHeaders, bind, try_, call. cbn.
  destruct (next c r _ w) as [[cs w'] [a|v]]; [done|]. cbn -[wroteHeader].
  replace (wroteHeader (_ :: _)) with (wroteHeader cs) by done.
  by destruct (wroteHeader cs).
Qed.

Lemma answering_BodyLimit n (next : Handler W C) : answering next -> answering (BodyLimit n next).
Proof. intros Hn c r. apply Hn. Qed.
Lemma answering_HSTS (next : Handler W C) : answering next -> answering (HSTS next).
Proof. intros Hn c r. unfold HSTS. auto 10 with answers. Qed.
Lemma answering_RequireContentTypeJSON `{UnicodeTables} (next : Handler W C) :
  P 415%Z genericUnsupportedMedia -> answering next -> answering (RequireContentTypeJSON next).
Proof.
  intros Hp Hn c r. unfold RequireContentTypeJSON. repeat case_match; auto using replies_reject.
Qed.
Lemma answering_CORS origins (next : Handler W C) :
  P 204%Z EmptyString -> answering next -> answering (CORS origins next).
Proof. intros Hp Hn c r. unfold CORS. auto 20 with answers. Qed.

Section random.
Context `{Rand W}.

Lemma silent_newRequestID : silent newRequestID.
Proof. apply silent_bind; [auto with footprint|]. intros []; auto with footprint. Qed.
Lemma answering_RequestID (next : Handler W C) : answering next -> answering (RequestID next).
Proof. intros Hn c r. unfold RequestID. auto 20 using silent_newRequestID with answers. Qed.
Lemma answering_XSRF on (next : Handler W C) :
  P 403%Z xsrfForbidden -> answering next -> answering (XSRF on next).
Proof.
  intros Hp Hn. unfold XSRF. destruct (negb on); [done|]. intros c r.
  apply replies_bind; [unfold setXSRFCookie; auto 20 using silent_newRequestID with answers|].
  intros tok. repeat case_match; auto using replies_reject.
Qed.
End random.

Lemma answering_RateLimitPerIP `{Clock W} `{Cache W} `{UnicodeTables} has n tp (next : Handler W C) :
  P 429%Z genericRateLimited -> answering next -> answering (RateLimitPerIP has n tp next).
Proof.
  intros Hp Hn. unfold RateLimitPerIP. case_match; [done|]. intros c r.
  apply replies_bind; [auto with answers|]. intros now. apply replies_bind; [auto with answers|].
  intros [count|e]; [|done]. case_match; auto using replies_reject_retry.
Qed.
Lemma answering_BruteForceLockout `{Clock W} `{Cache W} `{UnicodeTables} has n tp (next : Handler W C) :
  P 429%Z genericLockedOut -> answering next -> answering (BruteForceLockout has n tp next).
Proof.
  intros Hp Hn. unfold BruteForceLockout. case_match; [done|]. intros c r.
  apply replies_bind; [auto with answers|]. intros now. apply replies_bind; [auto with answers|].
  intros count. apply replies_if; [by apply replies_reject_retry|].
  apply replies_then; [by apply replies_listen|]. auto 10 with footprint.
Qed.
Lemma answering_GlobalInflight try_send receive n (next : Handler W C) :
  P 503%Z genericOverloaded -> answering next -> answering (GlobalInflight try_send receive n next).
Proof.
  intros Hp Hn. unfold GlobalInflight. case_match; [done|]. intros c r.
  apply replies_bind; [auto with answers|]. intros []; auto using replies_reject_retry with answers.
Qed.
Lemma answering_PerUserConcurrency acquire release n key (next : Handler W C) :
  P 429%Z genericConcurrencyLimited -> answering next ->
  answering (PerUserConcurrency acquire release n key next).
Proof.
  intros Hp Hn. unfold PerUserConcurrency. case_match; [done|]. intros c r. case_match; [done|].
  apply replies_bind; [auto with answers|]. intros []; auto using replies_reject_retry with answers.
Qed.
End middlewares.
