(* ===== verification/OuterChain.v ===== *)
(** * Around the metrics

    The middlewares between the router and the metrics touch nothing but the
    clock, the random source, the rate limit's counters and the global semaphore;
    they refuse a request with one of five answers, or hand it on once, as it is
    but for the bound on its body. *)

From S2P Require Import Prelude GoStrings GoNet Http GoHttp Cache Middleware Concurrency.
From S2P Require Import Auth Config Footprint Server Routes.

(** ** Calls that only touch the header *)

Definition header_calls (cs : list wcall) : Prop := Forall (fun c => commits c = false) cs.

Lemma header_calls_app cs cs' : header_calls cs -> header_calls cs' -> header_calls (cs ++ cs').
Proof. intros. by apply Forall_app. Qed.

Lemma response_after h pre cs :
  header_calls pre -> response_of h (pre ++ cs) = response_of (apply_calls h pre) cs.
Proof.
  intros Hpre. revert h. induction Hpre as [|c pre Hc _ IH]; intros h; [done|].
  cbn [app apply_calls foldl]. fold (apply_calls (apply_call h c) pre). rewrite <- IH. by destruct c.
Qed.

Lemma header_calls_unwritten cs : header_calls cs -> wroteHeader cs = false.
Proof. unfold wroteHeader. induction 1 as [|c cs Hc _ IH]; [done|]. cbn. by rewrite Hc. Qed.

(** ** Refusals *)

Definition refusals : list (Z * string) :=
  [(204, EmptyString); (403, xsrfForbidden); (415, genericUnsupportedMedia);
   (429, genericRateLimited); (503, genericOverloaded)]%Z.

(** The header, then one of the refusals. *)
Definition refused (cs : list wcall) : Prop :=
  exists pre code b, header_calls pre /\ (code, b) ∈ refusals
    /\ cs = pre ++ WriteHeader code :: (if String.eqb b EmptyString then [] else [Write b]).

Lemma refused_response h cs :
  refused cs -> (status (response_of h cs), body (response_of h cs)) ∈ refusals.
Proof.
  intros (pre & code & b & Hpre & Hin & ->). rewrite response_after by done.
  destruct (String.eqb_spec b EmptyString) as [->|]; cbn; [done|]. exact Hin.
Qed.

Lemma refused_after pre cs : header_calls pre -> refused cs -> refused (pre ++ cs).
Proof.
  intros Hpre (pre' & code & b & Hpre' & Hin & ->). exists (pre ++ pre'), code, b.
  rewrite app_assoc. auto using header_calls_app.
Qed.

(** ** Handing on *)

Section passing.
Context {W C : Type} `{Clock W} `{Rand W} `{Cache W} (lims : Limiters W).

Inductive outer_step : relation W :=
| os_Now w : outer_step w (snd (Now w))
| os_rand n w : outer_step w (snd (rand_Read n w))
| os_Increment key d ttl w : outer_step w (snd (Increment key d ttl w))
| os_send w : outer_step w (snd (global_try_send lims w))
| os_receive w : outer_step w (snd (global_receive lims w)).

Local Abbreviation outer := (rtc outer_step).

(** A run around one call [inner c r]: a refusal, a failure of the random source,
    or that run with calls to the header before it. *)
Inductive passes (inner : Handler W C) (c : C) (r : Request) (h : Header) (w : W) :
    list wcall * W * outcome unit -> Prop :=
| ps_refused cs w' : outer w w' -> refused cs -> passes inner c r h w (cs, w', Val tt)
| ps_random pre w' v : outer w w' -> header_calls pre -> passes inner c r h w (pre, w', Panic v)
| ps_inner pre w1 cs w2 res w' : outer w w1 -> header_calls pre ->
    inner c r (apply_calls h pre) w1 = (cs, w2, res) -> outer w2 w' ->
    passes inner c r h w (pre ++ cs, w', res).

Section inner.
Context (inner : Handler W C) (c : C) (r : Request).

Definition passing (m : M W unit) : Prop := forall h w, passes inner c r h w (m h w).

Lemma passes_before pre h w w0 x :
  outer w w0 -> header_calls pre -> passes inner c r (apply_calls h pre) w0 x ->
  passes inner c r h w (let '(cs, w', o) := x in (pre ++ cs, w', o)).
Proof.
  intros Hw Hpre [cs w' Hw' Hcs|pre' w' v Hw' Hcs|pre' w1 cs w2 res w' Hw1 Hpre' Hin Hw'].
  - apply ps_refused; [by transitivity w0|by apply refused_after].
  - apply ps_random; [by transitivity w0|by apply header_calls_app].
  - rewrite app_assoc. eapply ps_inner; [by transitivity w0|by apply header_calls_app| |done].
    by rewrite apply_calls_app.
Qed.

Lemma passing_inner : passing (inner c r).
Proof.
  intros h w. destruct (inner c r h w) as [[cs w'] res] eqn:E.
  by eapply (ps_inner inner c r h w []); [|constructor|exact E|].
Qed.

(** Before the call. *)
Lemma passing_bind {A} (m : M W A) (f : A -> M W unit) :
  (forall h w, header_calls (calls_of (m h w))) -> within outer m -> (forall a, passing (f a)) ->
  passing (bind m f).
Proof.
  intros Hh Hw Hf h w. specialize (Hh h w). specialize (Hw h w). unfold bind.
  destruct (m h w) as [[pre w0] [a|v]]; cbn in *; [|by apply ps_random].
  pose proof (passes_before pre h w w0 _ Hw Hh (Hf a (apply_calls h pre) w0)) as Hp.
  by destruct (f a _ w0) as [[cs w'] o].
Qed.
Lemma passing_lift {A} (f : W -> A * W) (k : A -> M W unit) :
  (forall w, outer w (snd (f w))) -> (forall a, passing (k a)) -> passing (bind (lift f) k).
Proof.
  intros Hf. apply passing_bind; [|by apply within_lift].
  intros h w. unfold lift. destruct (f w). constructor.
Qed.
Lemma passing_call cl (k : unit -> M W unit) :
  commits cl = false -> (forall a, passing (k a)) -> passing (bind (call cl) k).
Proof. intros Hc. apply passing_bind; [intros h w; by repeat constructor|apply within_call; apply _]. Qed.

(** After the call. *)
Lemma passing_finally m (f : W -> W) :
  passing m -> (forall w, outer w (f w)) -> passing (finally m (lift (fun w => (tt, f w)))).
Proof.
  intros Hm Hf h w. specialize (Hm h w). unfold finally, lift.
  destruct Hm as [cs w' Hw' Hcs|pre w' v Hw' Hcs|pre w1 cs w2 res w' Hw1 Hpre Hin Hw'];
    rewrite app_nil_r; [apply ps_refused|apply ps_random|eapply ps_inner]; try done; by etransitivity.
Qed.

Lemma passing_reject code b :
  (code, b) ∈ refusals -> b <> EmptyString -> passing (reject code b).
Proof.
  intros Hin Hb h w. apply ps_refused; [done|].
  exists [HSet "Content-Type" "application/json"], code, b. rewrite (proj2 (String.eqb_neq _ _)) by done.
  split_and!; [by repeat constructor|done|done].
Qed.
Lemma passing_reject_retry code retry b :
  (code, b) ∈ refusals -> b <> EmptyString -> passing (reject_retry code retry b).
Proof.
  intros Hin Hb h w. apply ps_refused; [done|].
  exists [HSet "Content-Type" "application/json"; HSet "Retry-After" retry], code, b.
  rewrite (proj2 (String.eqb_neq _ _)) by done. split_and!; [by repeat constructor|done|done].
Qed.
End inner.

(** ** The middlewares *)

(** [next] hands each request on to [inner] as [f] of it. *)
Definition wraps (inner : Handler W C) (f : Request -> Request) (next : Handler W C) : Prop :=
  forall c r, passing inner c (f r) (next c r).

(** [http.MaxBytesReader] around the body, as BodyLimit does it. *)
Definition limited (n : Z) (r : Request) : Request :=
  match r_Body r with Some _ => with_BodyLimit n r | None => r end.

Section middlewares.
Context (inner : Handler W C) (f : Request -> Request) `{UnicodeTables}.

Ltac refusal := apply (bool_decide_unpack _); vm_compute; exact I.

Lemma wraps_inner : wraps inner id inner.
Proof. intros c r. apply passing_inner. Qed.

Lemma outer_Now w : outer w (snd (Now w)).
Proof. apply rtc_once. constructor. Qed.
Lemma outer_send w : outer w (snd (global_try_send lims w)).
Proof. apply rtc_once. constructor. Qed.

Lemma wraps_RateLimitPerIP has n tp next :
  wraps inner f next -> wraps inner f (RateLimitPerIP has n tp next).
Proof.
  intros Hn. unfold RateLimitPerIP. case_match; [done|]. intros c r.
  apply passing_lift; [apply outer_Now|]. intros now.
  apply passing_lift; [intros w; apply rtc_once; constructor|]. intros [count|e]; [|apply Hn].
  case_match; [|apply Hn]. by apply passing_reject_retry; [refusal|].
Qed.

Lemma wraps_GlobalInflight n next :
  wraps inner f next -> wraps inner f (GlobalInflight (global_try_send lims) (global_receive lims) n next).
Proof.
  intros Hn. unfold GlobalInflight. case_match; [done|]. intros c r.
  apply passing_lift; [apply outer_send|]. intros [].
  - intros h w. pose proof (passing_finally inner c (f r) (next c r) (fun w => snd (global_receive lims w))
      (Hn c r) (fun w1 => rtc_once _ _ (os_receive w1)) h w) as Hp.
    unfold finally, lift in *. destruct (next c r h w) as [[cs w1] o].
    by destruct (global_receive lims w1) as [[] w2].
  - by apply passing_reject_retry; [refusal|].
Qed.

Lemma wraps_BodyLimit n next :
  wraps inner f next -> wraps inner (fun r => f (limited n r)) (BodyLimit n next).
Proof. intros Hn c r. apply Hn. Qed.

Lemma wraps_RequireContentTypeJSON next :
  wraps inner f next -> wraps inner f (RequireContentTypeJSON next).
Proof.
  intros Hn c r. unfold RequireContentTypeJSON.
  repeat case_match; try apply Hn; by apply passing_reject; [refusal|].
Qed.

Lemma newRequestID_outer : (forall h w, header_calls (calls_of (newRequestID h w))) /\ within outer newRequestID.
Proof.
  assert (forall w, outer w (snd (rand_Read 16 w))) as Hr by (intros w; apply rtc_once; constructor).
  split; intros h w; unfold newRequestID, bind, lift; specialize (Hr w);
    destruct (rand_Read 16 w) as [[b|e] w1]; by try constructor.
Qed.

Lemma wraps_XSRF on next : wraps inner f next -> wraps inner f (XSRF on next).
Proof.
  intros Hn. unfold XSRF. destruct (negb on); [done|]. intros c r. destruct newRequestID_outer as [Hh Hw].
  apply passing_bind.
  - case_match; [|constructor]. intros h w. specialize (Hh h w). unfold bind.
    destruct (newRequestID h w) as [[pre w1] [tok|v]]; [|done]. cbn.
    apply header_calls_app; [done|by repeat constructor].
  - apply within_if; [|by apply within_ret; apply _]. apply within_bind; [apply _|done|]. intros tok.
    apply within_bind; [apply _|apply within_call; apply _|]. intros _. by apply within_ret; apply _.
  - intros tok. repeat case_match; try apply Hn; by apply passing_reject; [refusal|].
Qed.

Lemma wraps_RequestID next : wraps inner f next -> wraps inner f (RequestID next).
Proof.
  intros Hn c r. destruct newRequestID_outer as [Hh Hw]. unfold RequestID. apply passing_bind.
  - case_match; [done|constructor].
  - apply within_if; [done|by apply within_ret; apply _].
  - intros id. apply passing_call; [done|]. intros _. apply Hn.
Qed.

Lemma wraps_CORS origins next : wraps inner f next -> wraps inner f (CORS origins next).
Proof.
  intros Hn c r. unfold CORS. apply passing_bind.
  - intros h w. case_match; by repeat constructor.
  - case_match; repeat (apply within_bind || apply within_call || apply within_ret || intros _ || apply _).
  - intros _. case_match; [|apply Hn]. intros h w. apply ps_refused; [done|].
    exists [], 204%Z, EmptyString. split_and!; [constructor|refusal|done].
Qed.

Lemma wraps_HSTS next : wraps inner f next -> wraps inner f (HSTS next).
Proof. intros Hn c r. apply passing_call; [done|]. intros _. apply Hn. Qed.
Lemma wraps_SecurityHeaders next : wraps inner f next -> wraps inner f (SecurityHeaders next).
Proof. intros Hn c r. do 2 (apply passing_call; [done|]; intros _). apply Hn. Qed.

(** Behind the recovery the failure of the random source is answered too. *)
Lemma Recover_wraps next c r h w :
  wraps inner f next ->
  let x := Recover next c r h w in
  let res := response_of h (calls_of x) in
  x.2 = Val tt /\
  ((outer w (world_of x) /\ (status res, body res) ∈ (500%Z, genericInternalError) :: refusals)
   \/ exists pre w1 cs w2 o, outer w w1 /\ header_calls pre
      /\ inner c (f r) (apply_calls h pre) w1 = (cs, w2, o) /\ outer w2 (world_of x)
      /\ (o = Val tt -> calls_of x = pre ++ cs)).
Proof.
  intros Hn. cbv zeta. unfold Recover, bind, try_. specialize (Hn c r h w).
  destruct Hn as [cs w' Hw' Hcs|pre w' v Hw' Hpre|pre w1 cs w2 o w' Hw1 Hpre Hin Hw']; cbn -[response_of wroteHeader].
  - rewrite app_nil_r. split; [done|left]. split; [done|]. right. by apply refused_response.
  - rewrite header_calls_unwritten by done. cbn -[response_of wroteHeader]. split; [done|left]. split; [done|].
    rewrite response_after by done. left.
  - destruct o as [[]|v]; cbn -[response_of wroteHeader].
    + rewrite app_nil_r. split; [done|right]. by exists pre, w1, cs, w2, (Val tt).
    + destruct (wroteHeader (pre ++ cs)); cbn -[response_of wroteHeader]; (split; [done|right]);
        by exists pre, w1, cs, w2, (Panic v).
Qed.
End middlewares.
End passing.

(** ** The two chains with metrics *)

Section chains.
Context {W : Type} `{Clock W} `{Rand W} `{Cache W} `{UnicodeTables} `{ServerState W} `{AuthCounters W}.
Context (c : Config) (chain : option (list (Authenticator W))) (tp : list IPNet) (lims : Limiters W).
Context (endpoint : Handler W (option Principal)).

Local Abbreviation counted := (metricsMiddleware (data_access c chain tp lims endpoint)).

Lemma publicHandler_wraps : exists next,
  publicHandler c chain tp lims endpoint = Recover next
  /\ wraps lims counted (limited (MaxBodyBytes (Lim c))) next.
Proof.
  eexists. split; [reflexivity|]. unfold hsts, when, globalInflight, rateLimit, xsrf.
  apply wraps_SecurityHeaders. case_match; [apply wraps_HSTS|];
    apply wraps_CORS, wraps_RequestID, wraps_XSRF, wraps_RequireContentTypeJSON;
    exact (wraps_BodyLimit lims counted id _ _
      (wraps_GlobalInflight lims counted id _ _ (wraps_RateLimitPerIP lims counted id _ _ _ _ (wraps_inner lims counted)))).
Qed.
Lemma schemaHandler_wraps : exists next,
  schemaHandler c chain tp lims endpoint = Recover next /\ wraps lims counted id next.
Proof.
  eexists. split; [reflexivity|]. unfold hsts, when, globalInflight, rateLimit.
  apply wraps_SecurityHeaders. case_match; [apply wraps_HSTS|];
    apply wraps_CORS, wraps_RequestID, wraps_GlobalInflight, wraps_RateLimitPerIP, wraps_inner.
Qed.
End chains.

(** Behind them the endpoint runs on the same request: two endpoints that agree on
    it make the same chain. *)
Section same_request.
Context {W : Type} `{Clock W} `{Rand W} `{Cache W} `{UnicodeTables} `{ServerState W} `{AuthCounters W}.
Context (c : Config) (chain : option (list (Authenticator W))) (tp : list IPNet) (lims : Limiters W).
Local Abbreviation handler := (Handler W (option Principal)).

Definition same_at (r : Request) (h1 h2 : handler) : Prop := forall ctx, handler_eq (h1 ctx r) (h2 ctx r).

Lemma listen_proper {A} : Proper (handler_eq ==> handler_eq) (listen (W := W) (A := A)).
Proof. intros m1 m2 E h w. unfold listen. by rewrite (E h w). Qed.
Lemma finally_proper {A} f : Proper (handler_eq ==> handler_eq) (fun m : M W A => finally m f).
Proof. intros m1 m2 E h w. unfold finally. by rewrite (E h w). Qed.

Lemma data_access_at r (e1 e2 : handler) :
  same_at r e1 e2 -> same_at r (data_access c chain tp lims e1) (data_access c chain tp lims e2).
Proof.
  intros He. unfold data_access.
  assert (same_at r (perUser c lims e1) (perUser c lims e2)) as Hp.
  { unfold perUser, PerUserConcurrency. case_match; [done|]. intros ctx. case_match; [apply He|].
    apply bind_proper; [done|]. intros []; [|done]. apply finally_proper, He. }
  assert (forall name h1 h2, same_at r h1 h2 -> same_at r (denyAppUser name h1) (denyAppUser name h2)) as Hdeny.
  { intros name h1 h2 Hh. unfold denyAppUser. case_match; [done|]. intros [p|]; [case_match; [done|]|]; apply Hh. }
  apply (Hdeny (MetricsUser (Sec c))), (Hdeny (AdminUser (Sec c))) in Hp.
  set (h1 := denyAppUser _ _) in Hp at 1. set (h2 := denyAppUser _ _) in Hp at 1.
  assert (same_at r (authenticated chain h1) (authenticated chain h2)) as Ha.
  { unfold authenticated. destruct chain as [auths|]; [|done]. intros ctx. unfold Chain_Middleware.
    apply bind_proper; [done|]. intros [p|e]; [|done]. apply bind_proper; [done|]. intros _. apply Hp. }
  unfold lockout, BruteForceLockout. case_match; [done|]. intros ctx.
  apply bind_proper; [done|]. intros now. apply bind_proper; [done|]. intros count. case_match; [done|].
  apply bind_proper; [|done]. apply listen_proper, Ha.
Qed.

Lemma metrics_at r (e1 e2 : handler) :
  same_at r e1 e2 ->
  forall h w, metricsMiddleware (data_access c chain tp lims e1) None r h w
              = metricsMiddleware (data_access c chain tp lims e2) None r h w.
Proof.
  intros He. unfold metricsMiddleware. apply bind_proper; [done|]. intros start.
  apply bind_proper; [|done]. apply listen_proper, data_access_at, He.
Qed.
End same_request.
