(* ===== verification/RootFootprint.v ===== *)
(** * The footprint of the whole server

    What one request may do to the world, at any route: if the operations of the
    parameters stay within a preorder, so does the root handler. The query and the
    schema endpoint run their body on a pool they hold, which may be within a
    finer preorder ([with_pool]); the three theorems of RootSpec are instances. *)

From S2P Require Import Prelude GoStrings GoNet Http GoHttp GoJson GoCrypto Cache Middleware Concurrency SqlGate.
From S2P Require Import Roles TopQueries Executor Auth Jwt Config Footprint Server ServerSpec Endpoints Routes RoutesSpec OuterChain.

(** ** The authentication methods *)

Section auth.
Context {W Tx : Type} `{Clock W} `{Cache W} `{AuthDB W Tx} `{Bcrypt W} `{JWTLib W} `{HTTPClient W} `{UnicodeTables}.
Context (R : relation W) `{!PreOrder R}.

(** What authentication does to the world: it reads the tables, notes the use of
    a key, and fetches and caches the provider's keys. *)
Record auth_within : Prop := {
  aw_Now w : R w (snd (Now w));
  aw_key t args w : R w (snd (Get_apiKeyRow (lookupKeyQuery t) args w));
  aw_user t args w : R w (snd (Get_userRow (lookupUserQuery t) args w));
  aw_touch t args w : R w (snd (Exec (touchKeyQuery t) args w));
  aw_Get key w : R w (snd (Get key w));
  aw_Set key v ttl w : R w (snd (Set_ key v ttl w));
  aw_HTTP url w : R w (snd (HTTP_Get url w));
  aw_Parse tok kf opts w : (* the key function is called at most once *)
    let w' := snd (ParseWithClaims tok kf opts w) in
    R w w' \/ exists t w1, R w w1 /\ R (snd (kf t w1)) w'
}.
Context (Haw : auth_within).

Lemma R_trans a b d : R a b -> R b d -> R a d.
Proof. apply transitivity. Qed.

Local Abbreviation stays auth := (forall (r : Request) (w : W), R w (snd (auth r w))).

Lemma touch_within t id prefix w : R w (touchAsync (H := sqlUserStore t) id prefix w).
Proof.
  unfold touchAsync. cbn. unfold sql_TouchAPIKey.
  pose proof (aw_touch Haw t [VString prefix; VInt id] w) as Hs. by destruct (Exec _ _ w) as [[] w1].
Qed.
Lemma key_within t prefix w : R w (snd (sql_LookupAPIKeyByPrefix t prefix w)).
Proof.
  unfold sql_LookupAPIKeyByPrefix. pose proof (aw_key Haw t [VString prefix] w) as Hs.
  by destruct (Get_apiKeyRow _ _ w) as [[|[]] w1].
Qed.
Lemma user_within t name w : R w (snd (sql_LookupUserByUsername t name w)).
Proof.
  unfold sql_LookupUserByUsername. pose proof (aw_user Haw t [VString name] w) as Hs.
  by destruct (Get_userRow _ _ w) as [[|[]] w1].
Qed.

Lemma APIKey_within t header : stays (APIKey_Authenticate (H := sqlUserStore t) header).
Proof.
  intros r w. unfold APIKey_Authenticate. do 2 (case_match; [done|]). cbn [LookupAPIKeyByPrefix sqlUserStore].
  match goal with |- context [sql_LookupAPIKeyByPrefix t ?p w] =>
    pose proof (key_within t p w) as Hk; destruct (sql_LookupAPIKeyByPrefix t p w) as [[rec|e] w1] end; [|done].
  do 2 (case_match; [done|]). cbn in Hk. destruct (ak_ExpiresAt rec) as [expiry|]; cbn.
  - pose proof (aw_Now Haw w1) as Hn. destruct (Now w1) as [now w2]. cbn in Hn.
    pose proof (R_trans _ _ _ Hk Hn) as Hkn. case_match; [done|]. eapply R_trans; [exact Hkn|apply touch_within].
  - eapply R_trans; [exact Hk|apply touch_within].
Qed.

Lemma Basic_within t dummy : stays (Basic_Authenticate (H := sqlUserStore t) dummy).
Proof.
  intros r w. unfold Basic_Authenticate. destruct (BasicAuth r) as [[u pw]|]; [|done].
  cbn. pose proof (user_within t u w) as Hu.
  destruct (sql_LookupUserByUsername t u w) as [[rec|e] w1]; [|done].
  by repeat case_match.
Qed.

Lemma keyFunc_within a tok w : R w (snd (keyFunc a tok w)).
Proof.
  assert (R w (snd (fetchJWKS a w))) as Hf.
  { unfold fetchJWKS.
    assert (forall w, R w (snd (match HTTP_Get (JWKSURL (cfg a)) w with
      | (Err e, w) => (Err e, w)
      | (Ok (status, (content, failure)), w) =>
          if negb (status =? 200)%Z then (Err "jwks fetch: unexpected status", w)
          else match (if (String.length content <? maxJWKSBytes)%nat then failure else None) with
          | Some e => (Err e, w)
          | None => (Ok (str_take maxJWKSBytes content),
              if has_cache a then snd (Set_ (jwksCacheKey (JWKSURL (cfg a))) (str_take maxJWKSBytes content) (JWKSTTL (cfg a)) w) else w)
          end end))) as Hfetch.
    { intros w'. pose proof (aw_HTTP Haw (JWKSURL (cfg a)) w') as Hh.
      destruct (HTTP_Get _ w') as [[[st [content failure]]|e] w1]; [|done].
      cbn [snd] in Hh. destruct (negb _); [done|]. destruct (if _ <? _ then _ else _)%nat; [done|]. cbn [snd].
      destruct (has_cache a); [|done]. eapply R_trans; [exact Hh|apply (aw_Set Haw)]. }
    destruct (has_cache a); [|apply Hfetch].
    pose proof (aw_Get Haw (jwksCacheKey (JWKSURL (cfg a))) w) as Hg.
    destruct (Get _ w) as [[[[|]|]|] w1]; try done; (eapply R_trans; [exact Hg|apply Hfetch]). }
  unfold keyFunc, publicKeyForKid. destruct (tok_method tok); try done; destruct (negb _); try done;
    by destruct (fetchJWKS a w) as [[] w1].
Qed.

Lemma Parse_within a tok w : R w (snd (ParseWithClaims tok (keyFunc a) (parserOpts a) w)).
Proof.
  destruct (aw_Parse Haw tok (keyFunc a) (parserOpts a) w) as [Hp|(tok' & w1 & Hw & Hp)]; [done|].
  eapply R_trans; [exact Hw|]. eapply R_trans; [apply keyFunc_within|exact Hp].
Qed.

Lemma JWT_within t a : stays (JWT_Authenticate (H2 := sqlUserStore t) a).
Proof.
  intros r w. unfold JWT_Authenticate. destruct (String.eqb _ _); [done|].
  pose proof (Parse_within a (extractBearer r) w) as Hp.
  destruct (ParseWithClaims _ _ _ w) as [[claims|e] w1]; [|done]. cbn in Hp.
  do 2 (destruct (_ && _); [done|]). destruct (stringClaim _ _) as [[|]|]; try done.
  destruct (RequireUserRow _); [|done]. cbn.
  match goal with |- context [sql_LookupUserByUsername t ?n w1] =>
    pose proof (user_within t n w1) as Hu; destruct (sql_LookupUserByUsername t n w1) as [[rec|e] w2] end;
    cbn in Hu; repeat case_match; by eapply R_trans.
Qed.

(** The chain a configuration builds. *)
Lemma buildAuthChain_within dummy c chain :
  buildAuthChain dummy c = Ok chain ->
  match chain with Some auths => Forall (fun a : Authenticator W => stays a) auths | None => True end.
Proof.
  unfold buildAuthChain. destruct (Methods (AuthC c)) as [|m ms]; [by intros [= <-]|].
  unfold NewSQLUserStore. destruct (tables_of _) as [t|e]; [|done]. cbn [mbind result_bind].
  generalize (m :: ms) as l. clear m ms. intros l (auths & Hl & [= <-])%result_bind_Ok. cbn.
  revert auths Hl. induction l as [|m l IH]; intros auths; cbn.
  - intros [= <-]. constructor.
  - intros (a & Ha & (rest & Hrest & [= <-])%result_bind_Ok)%result_bind_Ok. apply Forall_app. split; [|by apply IH].
    revert Ha. unfold method_auth. repeat case_match; try (by intros [= <-]; repeat constructor;
      auto using APIKey_within, Basic_within).
    intros (au & _ & [= <-])%result_bind_Ok. repeat constructor. apply JWT_within.
Qed.
End auth.

(** ** The executor *)

Section executor.
Context {W Pool Tx : Type} `{PathSqlx W Pool Tx} (R : relation W) `{!PreOrder R}.

Record sql_within : Prop := {
  sw_Begin pool ro w : R w (snd (BeginTxx pool ro w));
  sw_Exec tx q args w : R w (snd (ExecContext tx q args w));
  sw_Row tx q args w : R w (snd (QueryRowBytes tx q args w));
  sw_Query pool tx q params hints w : R w (snd (PathQueryTx pool tx q params hints w));
  sw_Commit tx w : R w (snd (Commit tx w));
  sw_Rollback tx w : R w (snd (Rollback tx w))
}.
Context (Hsql : sql_within).

Lemma within_bind_ok {E A B} (m : M W (result E A)) (f : A -> M W (result E B)) :
  within R m -> (forall a, within R (f a)) -> within R (bind_ok m f).
Proof. intros Hm Hf. apply within_bind; [done..|]. intros [a|e]; [apply Hf|by apply within_ret]. Qed.
Lemma within_lift_outcome {A} (f : W -> outcome A * W) :
  (forall w, R w (snd (f w))) -> within R (lift_outcome f).
Proof. intros Hf h w. unfold lift_outcome. specialize (Hf w). by destruct (f w). Qed.
Lemma within_db_call {A} (f : W -> result db_err A * W) :
  (forall w, R w (snd (f w))) -> within R (db_call f).
Proof.
  intros Hf. apply within_bind; [done|by apply within_lift|]. intros r. by apply within_ret.
Qed.
#[local] Hint Resolve within_bind_ok within_db_call within_lift_outcome : footprint.

Lemma within_settings tx opts : within R (applySessionSettings tx opts).
Proof. destruct Hsql. unfold applySessionSettings, set_setting. auto 20 with footprint. Qed.
Lemma within_ceiling tx query params maxCost maxRows :
  within R (enforceCostCeiling tx query params maxCost maxRows).
Proof. destruct Hsql. unfold enforceCostCeiling. auto 20 with footprint. Qed.
Lemma within_path_query pool tx query params hints : within R (path_query pool tx query params hints).
Proof. destruct Hsql. unfold path_query. auto 20 with footprint. Qed.
Lemma within_deferred {A} tx (m : M W (result exec_error A)) :
  within R m -> within R (deferred_rollback tx m).
Proof.
  intros Hm h w. unfold deferred_rollback. specialize (Hm h w). pose proof (sw_Rollback Hsql tx) as Hr.
  destruct (m h w) as [[cs w'] [[a|e]|v]]; cbn in *; [done| |];
    specialize (Hr w'); destruct (Rollback tx w'); by transitivity w'.
Qed.
#[local] Hint Resolve within_settings within_ceiling within_path_query : footprint.

Lemma within_RunQuery pool query params hints opts : within R (RunQuery pool query params hints opts).
Proof.
  apply within_bind_ok; [apply within_db_call, Hsql|]. intros tx. apply within_deferred.
  pose proof (sw_Commit Hsql tx). auto 20 with footprint.
Qed.
Lemma within_RunWrite pool query params hints opts hr : within R (RunWrite pool query params hints opts hr).
Proof.
  apply within_bind_ok; [apply within_db_call, Hsql|]. intros tx. apply within_deferred.
  pose proof (sw_Commit Hsql tx). pose proof (sw_Exec Hsql tx). unfold write_statement. auto 20 with footprint.
Qed.
End executor.

(** ** The endpoints *)

(** A body run on a pool of the caller, which is released whatever it does. *)
Definition with_pool {W Pool} `{Clock W} `{PoolManager W Pool} `{FloatFormat} (cfg : Config) (pool : Pool)
    (deadline : Z) (ctx : option Principal) (body : Pool -> M W unit) : M W unit :=
  let* sel := selectQueryPool cfg pool deadline ctx in
  match sel with
  | None => ret tt
  | Some (queryPool, release) => finally (body queryPool) release
  end.

Section data_endpoints.
Context {W Pool Engine Schema Tx : Type} `{Clock W} `{ServerState W} `{PathSqlx W Pool Tx} `{PoolManager W Pool}.
Context `{FloatFormat} `{UnicodeTables} `{MapOrder} `{Introspection W Pool Engine Schema}.
Context (R S : relation W) `{!PreOrder R, !PreOrder S} (c : Config) (pool : Pool).

(** What runs on a pool stays within [S], and with the pool within [R]. *)
Record pool_within : Prop := {
  pw_Now w : S w (snd (Now w));
  pw_sub w w' : S w w' -> R w w';
  pw_pool deadline ctx body : (forall qp, within S (body qp)) -> within R (with_pool c pool deadline ctx body)
}.
Context (Hpw : pool_within).

Lemma pw_Now_R w : R w (snd (Now w)).
Proof. apply (pw_sub Hpw), (pw_Now Hpw). Qed.

Lemma within_SchemaEndpoint ctx r :
  (forall p e s w, S w (snd (Introspect p e s w))) -> within R (SchemaEndpoint c pool ctx r).
Proof.
  intros Hintro. unfold SchemaEndpoint. destruct (schemaEngine _) as [[engine name]|]; [|by apply within_writeError].
  apply within_bind; [done|apply within_lift, pw_Now_R|]. intros now.
  apply (pw_pool Hpw _ ctx (fun qp => let* r := lift (Introspect qp engine name) in schema_answer c _ r)).
  intros qp. apply within_bind; [done|by apply within_lift|]. intros [schema|e]; unfold schema_answer.
  - case_match; [by apply within_writeError|auto 10 with footprint].
  - apply within_bind; [done|apply within_timed_out; [done|apply Hpw]|]. intros late.
    case_match; by apply within_writeError.
Qed.

(** What /pathql does besides. *)
Record pathql_within : Prop := {
  dw_sql : sql_within S;
  dw_topQueries t w : R w (set_topQueries t w);
  dw_topUsers t w : R w (set_topUsers t w)
}.
Context (Hdw : pathql_within).

Lemma within_run_request ctx request class hr : within R (run_request c pool ctx request class hr).
Proof.
  apply within_bind; [done|apply within_lift, pw_Now_R|]. intros now.
  apply (pw_pool Hpw _ ctx (fun qp => let* r := run_statement c qp request class hr in answer c _ r)).
  intros qp. apply within_bind; [done| |intros r; apply within_answer; [done|apply Hpw]].
  unfold run_statement. pose proof (dw_sql Hdw). case_match; auto using within_RunQuery, within_RunWrite.
Qed.

Lemma within_PathQlEndpoint ctx r : within R (PathQlEndpoint c pool ctx r).
Proof.
  unfold PathQlEndpoint. apply within_bind; [done|apply within_lift, pw_Now_R|]. intros start.
  destruct (decode_QLRequest r) as [request|]; [|by apply within_writeError].
  assert (within R (serve_request c pool start ctx request)) as Hs.
  { unfold serve_request. destruct (q_Params request); try (by apply within_writeError);
      (destruct (admission _ _) as [[class hr]|e]; [|by apply within_writeError]);
      (destruct ctx; [apply within_finally; [done|..]|];
      first [apply within_run_request|apply within_record_user; [done|apply pw_Now_R|apply (dw_topUsers Hdw)]]). }
  case_match; [|done]. apply within_finally; [done..|].
  apply within_record_query; [done|apply pw_Now_R|apply (dw_topQueries Hdw)].
Qed.

End data_endpoints.

(** Where taking and releasing a pool stays within the preorder too. *)
Section whole_pools.
Context {W Pool Tx : Type} `{Clock W} `{ServerState W} `{PathSqlx W Pool Tx} `{PoolManager W Pool}.
Context `{FloatFormat} `{UnicodeTables} `{MapOrder} (R : relation W) `{!PreOrder R} (c : Config) (pool : Pool).

Lemma aux_pool_within : (forall ctx w w', aux_step c ctx w w' -> R w w') -> pool_within R R c pool.
Proof.
  intros Haux. assert (forall ctx w w', rtc (aux_step c ctx) w w' -> R w w') as Hrtc.
  { intros ctx w w'. induction 1 as [|w w1 w2 Hs _ IH]; [done|]. etransitivity; [by eapply Haux|exact IH]. }
  split; [intros w; apply (Haux None), aux_Now|done|]. intros deadline ctx body Hbody. unfold with_pool.
  pose proof (selectQueryPool_own c pool ctx deadline) as Hown.
  apply within_bind_val; [done|intros h w; apply (Hrtc ctx), Hown|].
  intros [[qp release]|] h w Hsel h'; [|by apply (within_ret R)].
  destruct (Hown h w) as [_ Hp]. unfold pool_selected in Hp. rewrite Hsel in Hp.
  destruct Hp as (_ & _ & Hrel & _). apply (within_finally R); [done|eapply within_mono; eauto].
Qed.
End whole_pools.

(** ** The admin endpoints *)

Section admin_endpoints.
Context {W Tx Pool : Type} `{Rand W} `{AuthDB W Tx} `{Bcrypt W} `{RolesDB W} `{PoolManager W Pool}.
Context `{FloatFormat} `{PqQuote} `{MapOrder} (R : relation W) `{!PreOrder R} (cfg : Config) (tables : auth_tables).

Record admin_within : Prop := {
  dm_rand n w : R w (snd (rand_Read n w));
  dm_Generate pw w : R w (snd (GenerateFromPassword pw w));
  dm_id q args w : R w (snd (Get_id q args w));
  dm_Exec q args w : R w (snd (Exec q args w));
  dm_Begin w : R w (snd (Begin w));
  dm_Tx_Exec tx q args w : R w (snd (Tx_Exec tx q args w));
  dm_Commit tx w : R w (snd (Tx_Commit tx w));
  dm_Rollback tx w : R w (snd (Tx_Rollback tx w))
}.

Lemma within_adminAddUser ctx r : admin_within -> within R (adminAddUser cfg tables ctx r).
Proof.
  intros [Hrand Hgen Hid Hexec _ _ _ _]. unfold adminAddUser.
  destruct (decode_adminAddUserRequest r) as [body|]; [|by apply within_writeError].
  case_match; [by apply within_writeError|]. apply within_bind; [done| |].
  { unfold hash_password. case_match; [by apply within_ret|by apply within_lift]. }
  intros [hash|e]; [|by apply within_writeError]. apply within_bind; [done|apply within_lift|].
  { intros w. unfold AddUser. match goal with |- context [Get_id ?q ?l w] =>
      pose proof (Hid q l w); by destruct (Get_id q l w) as [[] w1] end. }
  intros [id|e]; [|by apply within_writeError]. case_match; [|by apply within_writeJSON].
  apply within_bind; [done| |intros [key|e]; [by apply within_writeJSON|by apply within_writeError]].
  unfold add_key, newAPIKey. apply within_bind; [done| |].
  { apply within_bind; [done|by apply within_lift|]. intros b. by apply within_ret. }
  intros [key|e]; [|by apply within_ret]. apply within_bind; [done|apply within_lift|intros x; by apply within_ret].
  intros w. unfold AddAPIKey. match goal with |- context [Exec ?q ?l w] =>
    pose proof (Hexec q l w); by destruct (Exec q l w) as [[] w1] end.
Qed.

Lemma DeleteUser_within id w : admin_within -> R w (snd (DeleteUser tables id w)).
Proof.
  intros [_ _ _ _ Hbegin Htx Hcommit Hroll]. unfold DeleteUser.
  specialize (Hbegin w). destruct (Begin w) as [[tx|e] w1]; [|done].
  match goal with |- context [Tx_Exec tx ?q ?l w1] =>
    pose proof (Htx tx q l w1) as Ha; destruct (Tx_Exec tx q l w1) as [[n|e] w2] end.
  2:{ pose proof (Hroll tx w2). destruct (Tx_Rollback tx w2). cbn in *. by do 2 (etransitivity; [eassumption|]). }
  match goal with |- context [Tx_Exec tx ?q ?l w2] =>
    pose proof (Htx tx q l w2) as Hb; destruct (Tx_Exec tx q l w2) as [[[m|e]|e] w3] end; cbn in *.
  2, 3: pose proof (Hroll tx w3); destruct (Tx_Rollback tx w3); cbn in *; by do 3 (etransitivity; [eassumption|]).
  pose proof (Hcommit tx w3). destruct (Tx_Commit tx w3) as [[] w4]; cbn in *;
    by do 3 (etransitivity; [eassumption|]).
Qed.

Lemma within_adminDeleteUser ctx r :
  admin_within -> (forall role w, R w (Evict role w)) -> within R (adminDeleteUser cfg tables ctx r).
Proof.
  intros Hadm Hevict. unfold adminDeleteUser. destruct (ParseInt _) as [id|]; [|by apply within_writeError].
  case_match; [by apply within_writeError|].
  apply within_bind; [done|apply within_lift; intros w; by apply DeleteUser_within|].
  intros [[]|e]; [|by apply within_writeError..].
  destruct (RoleName _ _); [|by apply within_writeJSON].
  apply within_bind; [done| |intros x; by apply within_writeJSON].
  unfold evict. case_match; [apply within_lift; intros w; apply Hevict|by apply within_ret].
Qed.

Lemma within_adminRolesSync ctx r :
  (forall q args w, R w (snd (select_strings q args w))) -> (forall q args w, R w (snd (select_ids q args w))) ->
  within R (adminRolesSync cfg ctx r).
Proof.
  intros Hs Hi. unfold adminRolesSync. apply within_bind; [done| |].
  - apply within_lift. intros w. unfold LoadAndCompute. case_match; [done|].
    match goal with |- context [select_strings ?q ?l w] =>
      pose proof (Hs q l w); destruct (select_strings q l w) as [[] w1] end; [|done].
    match goal with |- context [select_ids ?q ?l w1] =>
      pose proof (Hi q l w1); destruct (select_ids q l w1) as [[] w2] end; [|by etransitivity].
    match goal with |- context [select_strings ?q ?l w2] =>
      pose proof (Hs q l w2); destruct (select_strings q l w2) as [[] w3] end; by repeat (etransitivity; [eassumption|]).
  - intros [plan|e]; [by apply within_writeJSON|by apply within_writeError].
Qed.
End admin_endpoints.

(** ** The router *)

Section root.
Context {W Pool Engine Schema Tx : Type} `{Clock W} `{Rand W} `{Cache W} `{UnicodeTables}.
Context `{ServerState W} `{AuthCounters W} `{PathSqlx W Pool Tx} `{PoolManager W Pool} `{FloatFormat}.
Context `{MapOrder} `{Health W} `{Introspection W Pool Engine Schema} `{AuthDB W Tx} `{Bcrypt W}.
Context `{RolesDB W} `{PqQuote} `{ServeMux W} `{JWTLib W} `{HTTPClient W} (R : relation W) `{!PreOrder R}.

(** What the server does besides the endpoints that reach a pool or change users. *)
Record rest_within (lims : string -> Limiters W) : Prop := {
  rw_auth : auth_within R;
  rw_rand n w : R w (snd (rand_Read n w));
  rw_Increment key d ttl w : R w (snd (Increment key d ttl w));
  rw_counts n w : R w (setAuthCounts n w);
  rw_send name w : R w (snd (global_try_send (lims name) w));
  rw_receive name w : R w (snd (global_receive (lims name) w));
  rw_acquire name k w : R w (snd (user_acquire (lims name) k w));
  rw_release name k w : R w (snd (user_release (lims name) k w));
  rw_health hc w : R w (set_health hc w);
  rw_ping w : R w (snd (ping w));
  rw_strings q args w : R w (snd (select_strings q args w));
  rw_ids q args w : R w (snd (select_ids q args w));
  rw_mux patterns p r : within R (mux_other patterns p r)
}.

Context (dummyBcryptHash : string) (c : Config) (pool : Pool) (tables : auth_tables).
Context (chain : option (list (Authenticator W))) (tp allow deny : list IPNet) (lims : string -> Limiters W).
Context (Hrest : rest_within lims) (Hchain : buildAuthChain dummyBcryptHash c = Ok chain).
Context (Hmetrics : forall code ms w,
  R w (set_metrics (foldr bump (metrics w) (rev (status_counters code ++ [latency_counter ms]))) w)).

Local Abbreviation table := (route_table c pool tables chain tp lims).
Local Abbreviation root := (rootHandler c pool tables chain tp allow deny lims).

Lemma rest_outer name : outer_within R (lims name) chain.
Proof.
  pose proof (rw_auth _ Hrest) as Haw.
  split; [apply Haw|intros; by apply Hrest..|by eapply buildAuthChain_within].
Qed.

Lemma within_MetricsEndpoint ctx r : within R (MetricsEndpoint ctx r).
Proof.
  unfold MetricsEndpoint, encode_to. apply within_bind; [done|auto with footprint|]. intros v.
  apply within_bind; [done|auto with footprint|]. intros _. case_match; auto with footprint.
Qed.

Lemma within_HealthEndpoint ctx r : within R (HealthEndpoint (C := option Principal) ctx r).
Proof.
  pose proof (aw_Now _ (rw_auth _ Hrest)) as Hnow. pose proof (rw_health _ Hrest) as Hset.
  pose proof (rw_ping _ Hrest) as Hping. unfold HealthEndpoint, dbReachable, recent_result.
  apply within_bind; [done| |intros [e|]; by apply within_writeJSON].
  apply within_bind; [done| |].
  - apply within_bind; [done|auto with footprint|]. intros [hc|]; [|auto with footprint].
    apply within_bind; [done|by apply within_lift|auto with footprint].
  - intros [err|]; [auto with footprint|].
    apply within_bind; [done|by apply within_lift|]. intros err.
    apply within_bind; [done|by apply within_lift|]. intros now.
    apply within_bind; [done|apply within_lift; intros w; apply Hset|auto with footprint].
Qed.

Lemma outer_footprint name w w' : rtc (outer_step (lims name)) w w' -> R w w'.
Proof.
  pose proof (rest_outer name) as [Hnow Hrand Hinc _ Hsend Hrecv _ _ _].
  induction 1 as [|w1 w2 w3 Hstep _ IH]; [done|]. etransitivity; [|exact IH]. destruct Hstep; auto.
Qed.

(** What the public route does is up to its endpoint at this one request, its body
    bounded. *)
Lemma within_publicHandler_at (endpoint : Handler W (option Principal)) r :
  (forall ctx, within R (endpoint ctx (limited (MaxBodyBytes (Lim c)) r))) ->
  within R (publicHandler c chain tp (lims "/pathql") endpoint None r).
Proof.
  intros He h w. set (r' := limited _ r) in *.
  destruct (publicHandler_wraps c chain tp (lims "/pathql") endpoint) as (next & -> & Hwraps).
  destruct (Recover_wraps _ _ _ next None r h w Hwraps) as [_ [[Hw _]|(pre & w1 & cs & w2 & o & Hw1 & _ & Hrun & Hw2 & _)]];
    [by eapply outer_footprint|].
  etransitivity; [by eapply outer_footprint|]. etransitivity; [|by eapply outer_footprint].
  set (fixed := fun ctx (_ : Request) => endpoint ctx r').
  assert (within R (metricsMiddleware (data_access c chain tp (lims "/pathql") fixed) None r')) as Hm.
  { assert (within_for R (eq None) (data_access c chain tp (lims "/pathql") fixed)) as Hd
      by (apply within_data_access; [apply _|apply rest_outer|]; intros ctx r0 _; apply He).
    eapply within_metricsMiddleware; [apply _|apply (rest_outer "/pathql")|exact Hmetrics|exact Hd|reflexivity]. }
  specialize (Hm (apply_calls h pre) w1).
  assert (same_at r' endpoint fixed) as Hsame by (by intros ctx h0 w0).
  rewrite <- (metrics_at c chain tp (lims "/pathql") r' endpoint fixed Hsame) in Hm.
  fold r' in Hrun. rewrite Hrun in Hm. exact Hm.
Qed.

(** The routes whose answers are counted, and the others. *)
Definition data_routes : list string := ["POST /pathql"; "OPTIONS /pathql"; "GET /schema"; "OPTIONS /schema"].

Lemma within_other_route pattern h :
  route_of pattern table = Some h -> pattern ∉ data_routes ->
  (pattern = "POST /admin/users" ->
     within_for R (fun ctx => vouched_for chain ctx /\ is_user (AdminUser (Sec c)) ctx) (adminAddUser c tables)) ->
  (pattern = "DELETE /admin/users/{id}" ->
     within_for R (fun ctx => vouched_for chain ctx /\ is_user (AdminUser (Sec c)) ctx) (adminDeleteUser c tables)) ->
  within_for R (eq None) h.
Proof.
  intros Hh Hother Hadd Hdelete. revert Hh. unfold route_table, route_of.
  repeat case_match; intros [= <-]; breflect; subst;
    try (destruct Hother; apply (bool_decide_unpack _); vm_compute; exact I).
  - apply within_Recover; [done|]. apply within_SecurityHeaders; [done|].
    apply within_RequestID; [done|apply Hrest|]. intros ctx r' _. apply within_HealthEndpoint.
  - apply within_metricsHandler; [done|apply rest_outer|]. intros ctx r' _. apply within_MetricsEndpoint.
  - apply within_adminHandler; [done|apply rest_outer|by apply Hadd].
  - apply within_adminHandler; [done|apply rest_outer|by apply Hdelete].
  - apply within_adminHandler; [done|apply rest_outer|]. intros ctx r' _.
    apply within_adminRolesSync; [done|apply Hrest..].
Qed.

Lemma data_route_handler pattern h :
  pattern ∈ data_routes -> route_of pattern table = Some h ->
  h = publicHandler c chain tp (lims "/pathql") (PathQlEndpoint c pool)
  \/ h = schemaHandler c chain tp (lims "/schema") (SchemaEndpoint c pool).
Proof.
  unfold data_routes. intros Hin. repeat (apply elem_of_cons in Hin as [->|Hin]); [..|by apply elem_of_nil in Hin];
    cbn [route_of route_table]; intros [= <-]; auto.
Qed.

(** Where the router sends a request, its endpoint decides. *)
Lemma within_root r :
  (forall ctx, within R (PathQlEndpoint c pool ctx (limited (MaxBodyBytes (Lim c)) r))) ->
  (forall ctx r, within R (SchemaEndpoint c pool ctx r)) ->
  (mux_match (map fst table) r = Some "POST /admin/users" ->
     within_for R (fun ctx => vouched_for chain ctx /\ is_user (AdminUser (Sec c)) ctx) (adminAddUser c tables)) ->
  (mux_match (map fst table) r = Some "DELETE /admin/users/{id}" ->
     within_for R (fun ctx => vouched_for chain ctx /\ is_user (AdminUser (Sec c)) ctx) (adminDeleteUser c tables)) ->
  within R (root None r).
Proof.
  intros Hpathql Hschema Hadd Hdelete.
  assert (within R (router c pool tables chain tp lims None r)) as Hrouter.
  { unfold router. destruct (mux_match (map fst table) r) as [pattern|] eqn:Hp; [|apply Hrest].
    cbn [mbind option_bind]. destruct (route_of pattern table) as [h|] eqn:Hh; [|apply Hrest].
    destruct (decide (pattern ∈ data_routes)) as [Hd|Hd].
    - destruct (data_route_handler _ _ Hd Hh) as [->| ->]; [by apply within_publicHandler_at|].
      apply within_schemaHandler; [done|apply rest_outer|exact Hmetrics| |done]. intros ctx r' _. apply Hschema.
    - eapply within_other_route; [exact Hh|exact Hd| | |reflexivity]; intros ->; auto. }
  unfold rootHandler, Firewall. repeat case_match; first [exact Hrouter|by apply within_reject].
Qed.

(** Requests served one after the other: the world they leave. *)
Definition served_all (rs : list Request) (w : W) : W :=
  foldl (fun w r => world_of (root None r ∅ w)) w rs.

Lemma within_served_all rs w :
  Forall (fun r => within R (root None r)) rs -> R w (served_all rs w).
Proof.
  intros Hrs. revert w. induction Hrs as [|r rs Hr _ IH]; intros w; [done|].
  etransitivity; [apply (Hr ∅ w)|apply IH].
Qed.
End root.

(** Coarser preorders are easier to stay within. *)
Section mono.
Context {W : Type} (R S : relation W) (HRS : forall w w', R w w' -> S w w').

Lemma auth_within_mono {Tx} `{Clock W} `{Cache W} `{AuthDB W Tx} `{JWTLib W} `{HTTPClient W} :
  auth_within R -> auth_within S.
Proof.
  intros [? ? ? ? ? ? ? Hparse]. split; auto. intros tok kf opts w.
  destruct (Hparse tok kf opts w) as [?|(t & w1 & ? & ?)]; [left; auto|right; exists t, w1; auto].
Qed.

Lemma rest_within_mono {Tx} `{Clock W} `{Rand W} `{Cache W} `{AuthCounters W} `{Health W} `{AuthDB W Tx}
    `{RolesDB W} `{ServeMux W} `{JWTLib W} `{HTTPClient W} lims :
  rest_within R lims -> rest_within S lims.
Proof. intros []. split; eauto using auth_within_mono, within_mono. Qed.

Lemma sql_within_mono {Pool Tx} `{PathSqlx W Pool Tx} : sql_within R -> sql_within S.
Proof. intros []. split; auto. Qed.
Lemma admin_within_mono {Tx} `{Rand W} `{AuthDB W Tx} `{Bcrypt W} :
  admin_within R -> admin_within S.
Proof. intros []. split; auto. Qed.
End mono.
