(* ===== verification/ManagerSpec.v ===== *)
(** * What a request logs in as

    The endpoint over the role pools themselves, behind the interface it is proved
    against: whatever other requests do to the pools meanwhile, the statement runs
    on a connection pool of the caller's own role. *)

From S2P Require Import Prelude GoStrings GoCrypto Http GoJson SqlGate RolePool RolePoolSpec Roles.
From S2P Require Import TopQueries Executor Auth Config Server Endpoints Startup ServerSpec.
From S2P Require Import Manager IdentitySpec.

Section logins.
Context {W Tx : Type} `{MapOrder} `{Opener} `{Clock W} `{!PoolHost W} `{ServerState W}.
Context `{!PathSqlx W nat Tx} `{FloatFormat} `{UnicodeTables}.
(** A process started with identity_kind "login_role". *)
Context (cfg : Config) (pool : nat) (p : RolePools) (h0 : heap).
Hypothesis (Hpools : open_rolePools cfg = Ok (Some p)).
(** Recording in the toplists leaves the pools alone. *)
Hypothesis (Hqueries : forall t w, host (set_topQueries t w) = host w)
           (Husers : forall t w, host (set_topUsers t w) = host w).

Local Abbreviation reachable w := (rtc step (init_system p h0) (host w)).

Lemma aux_host principal w w' :
  aux_step cfg principal w w' -> rtc step (host w) (host w').
Proof.
  intros [w1|t w1|t w1|role w1 _|role w1 w2 w3 qp rel _ Hacq].
  - by rewrite host_Now.
  - by rewrite Hqueries.
  - by rewrite Husers.
  - apply Acquire_steps.
  - pose proof (Acquire_steps role w1) as [_ Hrel]. simpl in Hacq. rewrite Hacq in Hrel.
    destruct Hrel as (t & _ & ->). apply release_steps.
Qed.

Lemma aux_reachable principal w w' :
  reachable w -> rtc (aux_step cfg principal) w w' -> reachable w'.
Proof.
  intros Hw. induction 1 as [|w1 w2 w3 Hs _ IH]; [done|]. apply IH. etrans; [exact Hw|].
  by eapply aux_host.
Qed.

(** At [w] the pool [qp] is one of the caller's own role, logged in as it. *)
Definition logged_in (principal : option Principal) (w : W) (qp : nat) : Prop :=
  exists caller role d, principal = Some caller
    /\ RoleName (Prefix (Config.Roles cfg)) (UserID caller) = Ok role
    /\ sys_heap (host w) !! qp = Some d
    /\ sd_dsn d = BaseDSN (Config.Roles cfg) +:+ " user=" +:+ role +:+ " password="
                    +:+ rolePasswordFunc cfg role.

Lemma own_pool_logged_in principal w0 w qp :
  IdentityKind (Sec cfg) = "login_role" -> reachable w0 ->
  own_pool cfg pool principal w0 w qp -> reachable w /\ logged_in principal w qp.
Proof.
  intros Hk Hw0 [[Hno _]|(role & w1 & rel & [_ (caller & Hp & Hrole)] & Hw1 & Hacq)]; [done|].
  pose proof (Acquire_steps role w1) as [Hs Hheld]. simpl in Hacq. rewrite Hacq in Hs, Hheld.
  cbn [fst snd] in Hs, Hheld. destruct Hheld as (t & Ht & _).
  assert (reachable w) as Hw by (etrans; [by eapply aux_reachable|exact Hs]).
  split; [done|]. destruct (held_dsn cfg p h0 _ Hpools Hw _ _ _ Ht) as (d & Hd & Hdsn).
  by exists caller, role, d.
Qed.

(** The statement of a request on the pool [qp]. *)
Definition statement_on (qp : nat) (request : QLRequest) (h : Header) (w : W)
    (x : list wcall * W * outcome (result exec_error value)) : Prop :=
  let params := named_params (q_Params request) in
  let paths := default [] (q_Paths request) in
  (exists opts, x = RunQuery qp (q_Query request) params paths opts h w)
  \/ x = RunWrite qp (q_Query request) params paths (query_options cfg) (HasReturning (q_Query request)) h w.

Lemma ran_on principal request w0 h w x :
  ran cfg pool principal request w0 h w x ->
  exists qp, own_pool cfg pool principal w0 w qp /\ statement_on qp request h w x.
Proof. intros [qp opts Hown|qp Hown]; exists qp; (split; [done|]); [left; by eexists|by right]. Qed.

(** C6: end to end, the statement of a request runs as its caller. Started from any
    state the role pools can reach, and whatever other requests do to them while
    this one waits, a request on /pathql either runs no statement, or runs it on a
    pool opened with the base connection string, the role of the caller's own user
    id and that role's password; never without a caller. *)
Theorem pathql_logs_in (principal : option Principal) (req : Request) (h : Header) (w : W)
  (Hlogin : IdentityKind (Sec cfg) = "login_role") (Hreach : reachable w) :
  let x := PathQlEndpoint cfg pool principal req h w in
  rtc (aux_step cfg principal) w (world_of x) \/
  exists request h1 w1 w2 r qp,
    decode_QLRequest req = Some request /\ rtc (aux_step cfg principal) w w1
    /\ statement_on qp request h1 w1 ([], w2, r) /\ rtc (aux_step cfg principal) w2 (world_of x)
    /\ reachable w1 /\ logged_in principal w1 qp.
Proof.
  destruct (serves_PathQlEndpoint cfg pool principal req h w)
    as [Hw|request h1 w1 w2 r Hq Ha1 Hr Ha2 _]; [by left|right].
  destruct (ran_on _ _ _ _ _ _ Hr) as (qp & Hown & Hst).
  destruct (own_pool_logged_in _ _ _ _ Hlogin Hreach Hown) as [Hw1 Hlog].
  by exists request, h1, w1, w2, r, qp.
Qed.
End logins.

(** ** A concrete server over the role pools *)

Module Witness.
#[local] Existing Instance elements_order.
#[local] Existing Instance ascii_tables.
#[local] Existing Instance RolePoolSpec.Witness.opener.
#[local] Existing Instance ServerSpec.Witness.no_floats.

(** The pools, the time, and the pools statements ran on. *)
Record site := Site { si_system : system; si_time : Z; si_used : list nat }.

#[local] Instance site_clock : Clock site :=
  {| Now w := (si_time w, Site (si_system w) (si_time w + 1000000) (si_used w)) |}.
#[local] Program Instance site_host : PoolHost site := {|
  host := si_system;
  set_host s w := Site s (si_time w) (si_used w);
  others _ w := w;
  ctx_done _ _ := None
|}.
Solve All Obligations with done.
#[local] Instance site_state : ServerState site := {|
  metrics _ _ := 0%Z; set_metrics _ w := w; topQueries _ := NewTopQueries 10; set_topQueries _ w := w;
  topUsers _ := NewTopQueries 10; set_topUsers _ w := w
|}.
#[local] Instance site_sql : PathSqlx site nat unit := {|
  BeginTxx pool _ w := (Ok tt, Site (si_system w) (si_time w) (pool :: si_used w));
  ExecContext _ _ _ w := (Ok 0%Z, w); QueryRowBytes _ _ _ w := (Err (DbErr false "none"), w);
  PathQueryTx _ _ _ _ _ w := (Val (Ok VNil), w); Commit _ w := (Ok tt, w); Rollback _ w := (Ok tt, w);
  Named q _ := Ok (q, []); Rebind _ q := q
|}.

Definition conf : Config := IdentitySpec.Witness.conf.
Definition site0 : site := Site (init_system IdentitySpec.Witness.pools ∅) 0 [].
Definition user2 : option Principal := Some {| AppUser := "bob"; UserID := 2; Scopes := [] |}.
Definition select_1 : Request := ServerSpec.Witness.post (js "{`query`: `SELECT 1`}").
Definition run : site := world_of (PathQlEndpoint conf 99 user2 select_1 ∅ site0).

(** The statement runs on pool 0, the only one, opened as r_2; its slot is back. *)
Example select_as_r_2 :
  match si_used run, sys_heap (host run) !! 0 with
  | [0], Some d => HasPrefix (sd_dsn d) "host=db user=r_2 password="
  | _, _ => false
  end && (p_sem (sys_p (host run)) =? 0)%Z = true.
Proof. vm_compute. reflexivity. Qed.

(** An instance of [pathql_logs_in]. *)
Lemma pathql_logs_in_witness :
  rtc (aux_step conf user2) site0 run \/
  exists w qp d, sys_heap (host w) !! qp = Some d
    /\ sd_dsn d = "host=db user=r_2 password=" +:+ rolePasswordFunc conf "r_2".
Proof.
  assert (open_rolePools conf = Ok (Some IdentitySpec.Witness.pools)) as Hp by reflexivity.
  assert (forall t (w : site), host (set_topQueries t w) = host w) as Hq by reflexivity.
  assert (forall t (w : site), host (set_topUsers t w) = host w) as Hu by reflexivity.
  destruct (pathql_logs_in conf 99 IdentitySpec.Witness.pools ∅ Hp Hq Hu
    user2 select_1 ∅ site0 eq_refl (rtc_refl _ _))
    as [Hl|(request & h1 & w1 & w2 & r & qp & _ & _ & _ & _ & _ & caller & role & d & Hc & Hr & Hd & Hdsn)];
    [by left|right].
  exists w1, qp, d. split; [exact Hd|]. injection Hc as <-. injection Hr as <-. exact Hdsn.
Defined.
End Witness.
