(* ===== verification/RootSlots.v ===== *)
(** * Every request gives back its slot

    The whole server over the role pools themselves: whatever requests arrive at
    whatever routes, and however their endpoints end, by an answer, an error or a
    panic, the semaphore that bounds the database connections is empty again once
    they are served. *)

From S2P Require Import Prelude GoStrings GoNet Http GoHttp GoJson GoCrypto Cache Middleware Concurrency SqlGate.
From S2P Require Import RolePool RolePoolSpec Roles RolesSpec TopQueries Executor Auth Jwt Config.
From S2P Require Import Footprint Server ServerSpec Endpoints Routes Startup Manager IdentitySpec ManagerSpec RootFootprint.

(** ** The manager's calls *)

Section calls.
Context {W : Type} `{MapOrder} `{Opener} `{Clock W} `{!PoolHost W}.

Lemma acquire_locked_sem role now (p : RolePools) h r p' h' :
  acquire_locked role now p h = (r, p', h') -> p_sem p' = p_sem p.
Proof.
  unfold acquire_locked, getOrCreatePool, reconcileWarm. intros E.
  repeat (case_match; simplify_eq/=; try done).
Qed.

Lemma slots_move t ph n w : slots_used (move t ph n w) = n.
Proof. unfold slots_used, move. by rewrite host_set. Qed.

(** The other requests, while one waits, give back what they take. *)
Context (Hothers : forall t w, slots_used (others t w) = slots_used w).

Lemma Acquire_slots role w :
  let x := Acquire_ role w in
  match fst x with
  | Ok (db, rel) => slots_used (snd x) = (slots_used w + 1)%Z
  | Err _ => slots_used (snd x) = slots_used w
  end.
Proof.
  cbv zeta. unfold Acquire_. set (t := fresh _). destruct (negb _); [apply slots_move|].
  set (w1 := move t (Waiting role) (slots_used w) w).
  assert (slots_used (others t w1) = slots_used w) as E1 by (rewrite Hothers; apply slots_move).
  assert (slots_used (move t (Returned ContextDone) (slots_used (others t w1)) (others t w1)) = slots_used w)
    as Hcancel by (by rewrite slots_move).
  destruct (ctx_done t _); [exact Hcancel|]. destruct (_ <? _)%Z; [|exact Hcancel].
  rewrite E1. unfold acquire_with_slot. set (w3 := move t (HasSlot role) _ _).
  assert (slots_used (others t w3) = slots_used w + 1)%Z as E3 by (rewrite Hothers; apply slots_move).
  pose proof (host_Now (others t w3)) as Hn. destruct (Now (others t w3)) as [now w4]. cbn in Hn.
  destruct (acquire_locked role now (sys_p (host w4)) (sys_heap (host w4))) as [[r p] h] eqn:Ha.
  apply acquire_locked_sem in Ha. unfold slots_used in E3. rewrite <- Hn in E3.
  destruct r as [db|e]; cbn [fst snd].
  - unfold slots_used. rewrite host_set. cbn. congruence.
  - rewrite slots_move, Hothers. unfold slots_used. rewrite host_set. cbn. lia.
Qed.

Lemma release_slots t role db w :
  sys_calls (host w) !! t = Some (Holding role db) -> slots_used (release_slot t w) = (slots_used w - 1)%Z.
Proof. intros Ht. unfold release_slot. rewrite Ht. apply slots_move. Qed.

Lemma Evict_slots role w : slots_used (Evict_ role w) = slots_used w.
Proof.
  unfold Evict_, Evict_locked, slots_used. repeat case_match; simplify_eq/=; by rewrite host_set.
Qed.
End calls.

(** ** The endpoints *)

Section slots.
Context {W Engine Schema Tx : Type} `{MapOrder} `{Opener} `{Clock W} `{!PoolHost W} `{Rand W} `{Cache W}.
Context `{UnicodeTables} `{ServerState W} `{AuthCounters W} `{!PathSqlx W nat Tx} `{FloatFormat}.
Context `{Health W} `{!Introspection W nat Engine Schema} `{!AuthDB W Tx} `{Bcrypt W} `{RolesDB W} `{PqQuote}.
Context `{ServeMux W} `{JWTLib W} `{HTTPClient W}.

(** What leaves the pools alone; what runs them and gives back what it took. *)
Definition same_host (w w' : W) : Prop := host w' = host w.
Definition slots_kept (w w' : W) : Prop := rtc step (host w) (host w') /\ slots_used w' = slots_used w.
#[export] Instance same_host_preorder : PreOrder same_host.
Proof. split; [by intros w|]. intros w1 w2 w3 E1 E2. unfold same_host in *. congruence. Qed.
#[export] Instance slots_kept_preorder : PreOrder slots_kept.
Proof.
  split; [by intros w|]. intros w1 w2 w3 [S1 E1] [S2 E2]. split; [by etrans|congruence].
Qed.
Lemma same_host_kept w w' : same_host w w' -> slots_kept w w'.
Proof. unfold same_host, slots_kept, slots_used. by intros ->. Qed.

Context (Hothers : forall t (w : W), slots_used (others t w) = slots_used w).
Context (c : Config) (pool : nat).

(** A pool is taken, used and released. *)
Lemma with_pool_kept deadline ctx body :
  (forall qp, within same_host (body qp)) -> within slots_kept (with_pool c pool deadline ctx body).
Proof.
  intros Hbody.
  assert (forall {A} (m : M W A), within same_host m -> within slots_kept m) as Hsub
    by (intros A m Hm; eapply within_mono; [exact Hm|apply same_host_kept]).
  assert (forall code msg (k : option (nat * M W unit) -> M W unit), within same_host (k None) ->
    within slots_kept (bind (writeError code msg ;; ret None) k)) as Herr.
  { intros code msg k Hk. rewrite bind_assoc. apply Hsub, within_bind; [apply _|apply (within_writeError same_host)|].
    intros _. by rewrite bind_ret_l. }
  unfold with_pool, selectQueryPool. destruct (negb _).
  { rewrite bind_ret_l. apply Hsub, within_finally; [apply _|apply Hbody|by apply (within_ret same_host)]. }
  destruct ctx as [p|]; [|by apply Herr, (within_ret same_host)].
  destruct (RoleName _ _) as [role|e]; [|by apply Herr, (within_ret same_host)].
  rewrite bind_assoc. intros h w. rewrite world_bind_lift. cbn [Acquire role_pools].
  pose proof (Acquire_steps role w) as [Hs Hheld]. pose proof (Acquire_slots Hothers role w) as Hn. cbv zeta in Hs, Hheld, Hn.
  destruct (Acquire_ role w) as [[[db rel]|e] w1]; cbn [fst snd] in *.
  - destruct Hheld as (t & Ht & ->). rewrite (bind_ret_l _ _ h w1), world_finally_lift.
    pose proof (Hbody db h w1) as Hb. unfold same_host in Hb. rewrite <- Hb in Ht.
    split; [etrans; [exact Hs|]; rewrite <- Hb; apply release_steps|].
    rewrite (release_slots t role db) by done. unfold slots_used in *. rewrite Hb. lia.
  - transitivity w1; [by split|].
    match goal with |- slots_kept _ (world_of (?m h _)) => enough (within slots_kept m) as Hm by apply Hm end.
    rewrite bind_assoc. apply within_bind; [apply _|apply Hsub, within_timed_out; [apply _|apply host_Now]|].
    intros late. by destruct late; apply Herr, (within_ret same_host).
Qed.

Lemma pools_kept : pool_within slots_kept same_host c pool.
Proof. split; [apply host_Now|apply same_host_kept|apply with_pool_kept]. Qed.

Context (dummyBcryptHash : string) (tables : auth_tables) (chain : option (list (Authenticator W))).
Context (tp allow deny : list IPNet) (lims : string -> Limiters W).
Context (Hchain : buildAuthChain dummyBcryptHash c = Ok chain).
(** Nothing but the manager's own calls changes the pools. *)
Context (Hrest : rest_within same_host lims) (Hpathql : pathql_within same_host same_host).
Context (Hintrospect : forall p e s (w : W), same_host w (snd (Introspect p e s w))).
Context (Hmetrics : forall m (w : W), same_host w (set_metrics m w)).
Context (Hadm : admin_within same_host).

Local Abbreviation serve := (served_all c pool tables chain tp allow deny lims).

Lemma root_kept rs w : slots_kept w (serve rs w).
Proof.
  apply within_served_all; [apply _|]. apply Forall_true. intros r.
  pose proof (rest_within_mono _ _ same_host_kept _ Hrest) as Hr.
  eapply within_root; [apply _|exact Hr|exact Hchain| | | | |].
  - intros code ms w1. apply same_host_kept, Hmetrics.
  - intros ctx. apply (within_PathQlEndpoint slots_kept same_host c pool pools_kept).
    destruct Hpathql. split; [done|intros; by apply same_host_kept..].
  - intros ctx r'. by apply (within_SchemaEndpoint slots_kept same_host c pool pools_kept).
  - intros _ ctx r' _. apply within_adminAddUser; [apply _|]. exact (admin_within_mono _ _ same_host_kept Hadm).
  - intros _ ctx r' _. apply within_adminDeleteUser; [apply _|exact (admin_within_mono _ _ same_host_kept Hadm)|].
    intros role w1. split; [apply Evict_steps|apply Evict_slots].
Qed.

(** C9: no request keeps a slot. From the start of a process with role pools,
    whatever requests are served at whatever routes, with the other requests giving
    back what they take meanwhile: the pools have come by the steps of their system
    to a state where no slot is in use, no call still holds one, and every pool
    that is registered is open and logs in as its own role. *)
Theorem server_returns_slots (p : RolePools) (h0 : heap) (rs : list Request) (w : W)
  (Hpools : open_rolePools c = Ok (Some p)) (Hstart : host w = init_system p h0) :
  let s := host (serve rs w) in
  rtc step (init_system p h0) s /\ p_sem (sys_p s) = 0%Z
  /\ (forall t ph, sys_calls s !! t = Some ph -> holds_slot ph = false)
  /\ forall role rp, p_pools (sys_p s) !! role = Some rp ->
       exists d, sys_heap s !! rp_db rp = Some d /\ sd_closed d = false /\ sd_dsn d = conn_string p role.
Proof.
  destruct (root_kept rs w) as [Hs Hn]. unfold slots_used in Hn. rewrite Hstart in Hs, Hn. cbv zeta.
  split; [done|].
  assert (sys_inv p (init_system p h0)) as Hinit.
  { unfold open_rolePools in Hpools. destruct (String.eqb _ _); [|done].
    destruct (NewRolePools _ _ _ _ _) as [p1|e] eqn:En; [|done]. injection Hpools as <-. by eapply sys_inv_init. }
  assert (sys_inv p (host (serve rs w))) as Hinv.
  { eapply (rtc_invariant step (sys_inv p)); [exact Hinit| |exact Hs]. intros a b Hab Ha. by eapply sys_inv_step. }
  assert (p_sem (sys_p (host (serve rs w))) = 0%Z) as Hzero.
  { rewrite Hn. cbn. pose proof (inv_sem _ _ Hinit) as Hi. cbn in Hi. rewrite Hi. unfold slots.
    by rewrite count_if_empty. }
  split; [done|]. split.
  - apply count_if_0. pose proof (inv_sem _ _ Hinv) as Hi. rewrite Hzero in Hi. unfold slots in Hi. lia.
  - intros role rp Hrp. destruct (pk_obj _ _ _ (inv_pools _ _ Hinv) role rp Hrp) as (d & Hd & Hok).
    exists d. split; [done|]. split; [apply Hok|]. rewrite (po_dsn _ _ _ _ Hok).
    apply conn_string_config, (inv_config _ _ Hinv).
Qed.
End slots.

(** ** A concrete site over role pools *)

Module Witness.
Import ManagerSpec.Witness.
#[local] Existing Instances elements_order ascii_tables RolePoolSpec.Witness.opener RolesSpec.Witness.quote.
#[local] Existing Instances ServerSpec.Witness.no_floats site_clock site_host site_state site_sql.

#[local] Instance site_rand : Rand site := {| rand_Read n w := (Ok (str_concat (replicate n "r")), w) |}.
#[local] Instance site_cache : Cache site :=
  {| Increment _ d _ w := (Ok d, w); Get _ w := (Ok None, w); Set_ _ _ _ w := (Ok tt, w) |}.
#[local] Instance site_counters : AuthCounters site := {| authCounts _ := (0, 0)%Z; setAuthCounts _ w := w |}.
#[local] Instance site_health : Health site :=
  {| health _ := None; set_health _ w := w; ping w := (None, w) |}.
#[local] Instance site_schema : Introspection site nat unit unit :=
  {| EnginePostgres := tt; Introspect _ _ _ w := (Ok tt, w); GenerateDBML _ _ _ := "Table t {}" |}.
(** One key, that of user 2. *)
#[local] Instance site_auth : AuthDB site unit := {|
  Get_apiKeyRow _ _ w := (Ok {| akr_UserID := 2; akr_AppUser := "bob"; akr_KeyHash := Sum256 "0123456789";
                                akr_Enabled := true; akr_ExpiresAt := None |}, w);
  Get_userRow _ _ w := (Err ErrNoRows, w);
  Get_id _ _ w := (Ok 1%Z, w); Exec _ _ w := (Ok tt, w); Begin w := (Ok tt, w);
  Tx_Exec _ _ _ w := (Ok (Ok 1%Z), w); Tx_Commit _ w := (Ok tt, w); Tx_Rollback _ w := (Ok tt, w)
|}.
#[local] Instance site_bcrypt : Bcrypt site :=
  {| CompareHashAndPassword _ _ := false; GenerateFromPassword _ w := (Ok "hash", w) |}.
#[local] Instance site_roles : RolesDB site :=
  {| select_strings _ _ w := (Ok [], w); select_ids _ _ w := (Ok [], w) |}.
#[local] Instance site_mux : ServeMux site := {|
  mux_match patterns r :=
    let p := r_Method r +:+ " " +:+ r_Path r in if decide (p ∈ patterns) then Some p else None;
  mux_other _ _ _ := call (WriteHeader 404)
|}.
#[local] Instance site_jwt : JWTLib site :=
  {| ParseWithClaims _ _ _ w := (Err "malformed", w); GetIssuer _ := EmptyString; GetAudience _ := [] |}.
#[local] Instance site_client : HTTPClient site := {| HTTP_Get _ w := (Err "offline", w) |}.

Definition limiters (_ : string) : Limiters site := {|
  global_try_send w := (true, w); global_receive w := (tt, w);
  user_acquire _ w := (true, w); user_release _ w := (tt, w)
|}.

(** The schema, asked for with the key. *)
Definition get_schema : Request :=
  {| r_Method := "GET"; r_Path := "/schema"; r_RequestURI := "/schema"; r_Host := "api";
     r_RemoteAddr := "192.0.2.1:1"; r_Header := {["X-Api-Key" := ["0123456789"]]}; r_TLS := false;
     r_Body := None; r_BodyLimit := None; r_PathValue := EmptyString |}.

Definition tables : auth_tables := {| usersTable := "users"; keysTable := "keys" |}.
Definition chain : list (Authenticator site) := [APIKey_Authenticate (H := sqlUserStore
  {| usersTable := "pathql_auth_users"; keysTable := "pathql_auth_api_keys" |}) "X-API-Key"].
Definition served (rs : list Request) : site :=
  served_all conf 99 tables (Some chain) [] [] [] limiters rs site0.

(** The request is let in, and takes the pool of r_2. *)
Example takes_the_pool :
  bool_decide (dom (p_pools (sys_p (host (served [get_schema; get_schema])))) = {["r_2"]}) = true.
Proof. vm_compute. reflexivity. Qed.

Lemma slots_others t (w : site) : slots_used (others t w) = slots_used w.
Proof. done. Qed.
Lemma slots_metrics m (w : site) : same_host w (set_metrics m w).
Proof. done. Qed.
Lemma slots_rest : rest_within (W := site) same_host limiters.
Proof. split; try done. split; try done. by left. Qed.
Lemma slots_pathql : pathql_within (W := site) same_host same_host.
Proof. split; [by split|done..]. Qed.
Lemma slots_admin : admin_within (W := site) same_host.
Proof. by split. Qed.
Lemma slots_introspect p e s (w : site) : same_host w (snd (Introspect p e s w)).
Proof. done. Qed.

(** An instance of [server_returns_slots]. *)
Lemma server_returns_slots_witness :
  p_sem (sys_p (host (served [get_schema; get_schema]))) = 0%Z
  /\ exists d, sys_heap (host (served [get_schema; get_schema])) !! 0 = Some d /\ sd_closed d = false.
Proof.
  assert (buildAuthChain "" conf = Ok (Some chain)) as Hchain by reflexivity.
  destruct (server_returns_slots slots_others conf 99 "" tables (Some chain) [] [] [] limiters
    Hchain slots_rest slots_pathql slots_introspect slots_metrics slots_admin
    IdentitySpec.Witness.pools ∅ [get_schema; get_schema] site0 eq_refl eq_refl) as (_ & Hn & _ & Hp).
  split; [exact Hn|].
  assert (exists rp, p_pools (sys_p (host (served [get_schema; get_schema]))) !! "r_2" = Some rp
    /\ rp_db rp = 0) as (rp & Hrp & Hdb) by (eexists; split; vm_compute; reflexivity).
  destruct (Hp "r_2" rp Hrp) as (d & Hd & Hc & _). rewrite Hdb in Hd. exists d. split; [exact Hd|exact Hc].
Defined.
End Witness.
