(* ===== verification/UsersSpec.v ===== *)
(** * What the admin endpoints promise about users

    Against the two tables the queries of the user store and of the admin are
    about (internal/auth/schema.sql): the key a new user is given authenticates
    that user, and a deleted user is locked out, whole or not at all. *)

From S2P Require Import Prelude GoStrings Http GoHttp GoJson GoCrypto Cache Roles RolesSpec Executor Auth Jwt Config.
From S2P Require Import Footprint Server ServerSpec Endpoints Routes Startup IdentitySpec RootFootprint.

(** ** The tables *)

Record user_row := UserRow {
  u_id : Z; u_name : string; u_hash : value; u_app : string; u_enabled : bool
}.
Record key_row := KeyRow {
  k_user : Z; k_prefix : string; k_hash : string; k_enabled : bool; k_expires : option Z
}.
Record user_db := UserDB { db_users : list user_row; db_keys : list key_row }.

Definition key_join (k : key_row) (u : user_row) : apiKeyRow :=
  {| akr_UserID := k_user k; akr_AppUser := u_app u; akr_KeyHash := k_hash k;
     akr_Enabled := k_enabled k && u_enabled u; akr_ExpiresAt := k_expires k |}.
(** The answer of the key look-up: the keys of the prefix with their users. *)
Definition joined (prefix : string) (d : user_db) : list apiKeyRow :=
  concat (map (fun k => map (key_join k) (filter (fun u => u_id u = k_user k) (db_users d)))
              (filter (fun k => k_prefix k = prefix) (db_keys d))).

Definition put_user (u : user_row) (d : user_db) : user_db := UserDB (u :: db_users d) (db_keys d).
Definition put_key (k : key_row) (d : user_db) : user_db := UserDB (db_users d) (k :: db_keys d).
Definition drop_keys (id : Z) (d : user_db) : user_db :=
  UserDB (db_users d) (filter (fun k => k_user k <> id) (db_keys d)).
Definition drop_user (id : Z) (d : user_db) : user_db :=
  UserDB (filter (fun u => u_id u <> id) (db_users d)) (db_keys d).
Definition users_with (id : Z) (d : user_db) : nat := length (filter (fun u => u_id u = id) (db_users d)).

(** No user, no key of that id. *)
Definition no_user (id : Z) (d : user_db) : Prop :=
  (forall u, u ∈ db_users d -> u_id u <> id) /\ forall k, k ∈ db_keys d -> k_user k <> id.

(** What PostgreSQL documents of the queries: an INSERT keeps id and key_prefix
    unique; the look-ups answer from the tables; a transaction sees its own
    statements, which become durable when it commits, or not, where Commit fails. *)
Record users_documented (W Tx : Type) `{AuthDB W Tx} (t : auth_tables) := {
  rows : W -> user_db;
  tx_rows : Tx -> W -> option user_db;
  ud_add_user name hash app w :
    match Get_id (addUserQuery t) [VString name; hash; VString app] w with
    | (Ok id, w') => (forall u, u ∈ db_users (rows w) -> u_id u <> id)
                     /\ rows w' = put_user (UserRow id name hash app true) (rows w)
    | (Err _, w') => rows w' = rows w
    end;
  ud_add_key id prefix hash name w :
    match Exec (addAPIKeyQuery t) [VInt id; VString prefix; VString hash; VString name] w with
    | (Ok _, w') => (forall k, k ∈ db_keys (rows w) -> k_prefix k <> prefix)
                    /\ rows w' = put_key (KeyRow id prefix hash true None) (rows w)
    | (Err _, w') => rows w' = rows w
    end;
  ud_key prefix w :
    match fst (Get_apiKeyRow (lookupKeyQuery t) [VString prefix] w) with
    | Ok row => row ∈ joined prefix (rows w)
    | Err ErrNoRows => joined prefix (rows w) = []
    | Err (ErrGet _) => True
    end;
  ud_user name w :
    match fst (Get_userRow (lookupUserQuery t) [VString name] w) with
    | Ok row => exists u, u ∈ db_users (rows w) /\ u_name u = name /\ u_id u = usr_UserID row
    | Err _ => True
    end;
  ud_begin w : match Begin w with
    | (Ok tx, w') => rows w' = rows w /\ tx_rows tx w' = Some (rows w)
    | (Err _, w') => rows w' = rows w
    end;
  ud_drop_keys tx id w d : tx_rows tx w = Some d ->
    match Tx_Exec tx (deleteKeysQuery t) [VInt id] w with
    | (Ok _, w') => rows w' = rows w /\ tx_rows tx w' = Some (drop_keys id d)
    | (Err _, w') => rows w' = rows w
    end;
  ud_drop_user tx id w d : tx_rows tx w = Some d ->
    match Tx_Exec tx (deleteUserQuery t) [VInt id] w with
    | (Ok n, w') => rows w' = rows w /\ tx_rows tx w' = Some (drop_user id d)
                    /\ (forall m, n = Ok m -> m = Z.of_nat (users_with id d))
    | (Err _, w') => rows w' = rows w
    end;
  ud_commit tx w d : tx_rows tx w = Some d ->
    match Tx_Commit tx w with
    | (Ok _, w') => rows w' = d
    | (Err _, w') => rows w' = rows w \/ rows w' = d
    end;
  ud_rollback tx w : rows (snd (Tx_Rollback tx w)) = rows w
}.

(** ** Deleting *)

Lemma drop_no_user id d : no_user id (drop_user id (drop_keys id d)).
Proof. split; intros x [? _]%list_elem_of_filter; done. Qed.
Lemma joined_elem prefix d row :
  row ∈ joined prefix d <->
  exists k u, k ∈ db_keys d /\ u ∈ db_users d /\ k_prefix k = prefix /\ u_id u = k_user k /\ row = key_join k u.
Proof.
  unfold joined. rewrite list_elem_of_In, in_concat. setoid_rewrite <- list_elem_of_In. setoid_rewrite list_elem_of_fmap.
  split.
  - intros (l & (k & -> & [Hp Hk]%list_elem_of_filter) & Hrow).
    apply list_elem_of_fmap in Hrow as (u & -> & [Hu Hin]%list_elem_of_filter). by exists k, u.
  - intros (k & u & Hk & Hu & Hp & Hid & ->). eexists. split.
    + exists k. split; [done|]. by apply list_elem_of_filter.
    + apply list_elem_of_fmap. exists u. split; [done|]. by apply list_elem_of_filter.
Qed.

Section users.
Context {W Tx : Type} `{AuthDB W Tx} (t : auth_tables) (doc : users_documented W Tx t).
Local Abbreviation rows := (rows W Tx t doc).

Definition same_rows (w w' : W) : Prop := rows w' = rows w.
#[export] Instance same_rows_preorder : PreOrder same_rows.
Proof. split; [by intros w|]. intros w1 w2 w3 E1 E2. unfold same_rows in *. congruence. Qed.

(** A deletion is of the keys and the user, or of nothing; where it reports
    success, of both. *)
Lemma DeleteUser_rows id w :
  let '(r, w') := DeleteUser t id w in
  let gone := drop_user id (drop_keys id (rows w)) in
  match r with
  | Ok b => rows w' = gone /\ b = bool_decide (users_with id (rows w) <> 0)
  | Err _ => rows w' = rows w \/ rows w' = gone
  end.
Proof.
  unfold DeleteUser. pose proof (ud_begin _ _ _ doc w) as Hb.
  destruct (Begin w) as [[tx|e] w1]; [destruct Hb as [E1 V1]|by left].
  pose proof (ud_drop_keys _ _ _ doc tx id w1 _ V1) as Hk.
  destruct (Tx_Exec tx (deleteKeysQuery t) [VInt id] w1) as [[n|e] w2].
  2:{ pose proof (ud_rollback _ _ _ doc tx w2) as Hr. destruct (Tx_Rollback tx w2). cbn in Hr. left. congruence. }
  destruct Hk as [E2 V2]. pose proof (ud_drop_user _ _ _ doc tx id w2 _ V2) as Hu.
  destruct (Tx_Exec tx (deleteUserQuery t) [VInt id] w2) as [[n'|e] w3].
  2:{ pose proof (ud_rollback _ _ _ doc tx w3) as Hr. destruct (Tx_Rollback tx w3). cbn in Hr. left. congruence. }
  destruct Hu as (E3 & V3 & Hn). destruct n' as [m|e].
  2:{ pose proof (ud_rollback _ _ _ doc tx w3) as Hr. destruct (Tx_Rollback tx w3). cbn in Hr. left. congruence. }
  pose proof (ud_commit _ _ _ doc tx w3 _ V3) as Hc. destruct (Tx_Commit tx w3) as [[[]|e] w4].
  - split; [done|]. rewrite (Hn m eq_refl). change (users_with id (drop_keys id (rows w))) with (users_with id (rows w)).
    destruct (Z.ltb_spec 0 (Z.of_nat (users_with id (rows w)))); symmetry;
      [apply bool_decide_eq_true|apply bool_decide_eq_false]; lia.
  - destruct Hc; [left|right]; congruence.
Qed.

(** ** Authentication after a deletion *)

Context `{Clock W} `{Cache W} `{Bcrypt W} `{JWTLib W} `{HTTPClient W} `{UnicodeTables}.
Context (Hauth : auth_within same_rows).

(** An authenticator that gives no principal of a user who is not there. *)
Definition knows_not (id : Z) (a : Authenticator W) : Prop :=
  forall r w p w', no_user id (rows w) -> a r w = (Ok p, w') -> UserID p <> id.

Lemma key_knows_not id prefix w rec w1 :
  no_user id (rows w) -> sql_LookupAPIKeyByPrefix t prefix w = (Ok rec, w1) -> ak_UserID rec <> id.
Proof.
  intros [Hu _] E. unfold sql_LookupAPIKeyByPrefix in E. pose proof (ud_key _ _ _ doc prefix w) as Hk.
  destruct (Get_apiKeyRow _ _ w) as [[row|[|msg]] w2]; simplify_eq/=.
  apply joined_elem in Hk as (k & u & _ & Hin & _ & Hid & ->). cbn. rewrite <- Hid. by apply Hu.
Qed.
Lemma name_knows_not id name w rec w1 :
  no_user id (rows w) -> sql_LookupUserByUsername t name w = (Ok rec, w1) -> ur_UserID rec <> id.
Proof.
  intros [Hu _] E. unfold sql_LookupUserByUsername in E. pose proof (ud_user _ _ _ doc name w) as Hk.
  destruct (Get_userRow _ _ w) as [[row|[|msg]] w2]; simplify_eq/=.
  destruct Hk as (u & Hin & _ & <-). by apply Hu.
Qed.

Lemma APIKey_knows_not id header : knows_not id (APIKey_Authenticate (H := sqlUserStore t) header).
Proof.
  intros r w p w' Hno. unfold APIKey_Authenticate. do 2 (case_match; [done|]).
  cbn [LookupAPIKeyByPrefix sqlUserStore].
  match goal with |- context [sql_LookupAPIKeyByPrefix t ?p w] =>
    destruct (sql_LookupAPIKeyByPrefix t p w) as [[rec|e] w1] eqn:E end; [|done].
  apply (key_knows_not id) in E; [|done].
  do 2 (case_match; [done|]). destruct (ak_ExpiresAt rec); [destruct (Now w1); case_match; [done|]|];
    by intros [= <- _].
Qed.
Lemma Basic_knows_not id dummy : knows_not id (Basic_Authenticate (H := sqlUserStore t) dummy).
Proof.
  intros r w p w' Hno. unfold Basic_Authenticate. destruct (BasicAuth r) as [[u pw]|]; [|done].
  cbn [LookupUserByUsername sqlUserStore].
  destruct (sql_LookupUserByUsername t u w) as [[rec|e] w1] eqn:E; [|done].
  apply (name_knows_not id) in E; [|done]. do 3 (case_match; [done|]). by intros [= <- _].
Qed.
Lemma JWT_knows_not id a : id <> 0%Z -> knows_not id (JWT_Authenticate (H2 := sqlUserStore t) a).
Proof.
  intros Hz r w p w' Hno. unfold JWT_Authenticate. destruct (String.eqb _ _); [done|].
  pose proof (Parse_within _ Hauth a (extractBearer r) w) as Hp.
  destruct (ParseWithClaims _ _ _ w) as [[claims|e] w1]; [|done]. cbn in Hp. unfold same_rows in Hp.
  do 2 (destruct (_ && _); [done|]). destruct (stringClaim _ _) as [[|c s]|]; try done.
  destruct (RequireUserRow _); [|by intros [= <- _] <-]. cbn [LookupUserByUsername sqlUserStore].
  destruct (sql_LookupUserByUsername t _ w1) as [[rec|e] w2] eqn:E; [|done].
  apply (name_knows_not id) in E; [|by rewrite Hp]. case_match; [done|]. by intros [= <- _].
Qed.

Lemma chain_knows_not id dummy c auths :
  id <> 0%Z -> tables_of (AuthTablePrefix (Sec c)) = Ok t -> buildAuthChain dummy c = Ok (Some auths) ->
  knows_not id (Chain_Authenticate auths).
Proof.
  intros Hz Ht Hc. pose proof (buildAuthChain_within same_rows Hauth dummy c _ Hc) as Hw.
  assert (Forall (knows_not id) auths) as Hall.
  { unfold buildAuthChain in Hc. destruct (Methods (AuthC c)) as [|m ms]; [done|].
    unfold NewSQLUserStore in Hc. rewrite Ht in Hc. cbn [mbind result_bind] in Hc.
    apply result_bind_Ok in Hc as (auths' & Hl & [= <-]). revert Hl. generalize (m :: ms) as l. clear Hw.
    intros l. revert auths'. induction l as [|m' l IH]; intros auths'; cbn; [intros [= <-]; constructor|].
    intros (a & Ha & (rest & Hrest & [= <-])%result_bind_Ok)%result_bind_Ok. apply Forall_app. split; [|by apply IH].
    revert Ha. unfold method_auth. repeat case_match; try (by intros [= <-]; repeat constructor;
      auto using APIKey_knows_not, Basic_knows_not).
    intros (au & _ & [= <-])%result_bind_Ok. repeat constructor. by apply JWT_knows_not. }
  unfold Chain_Authenticate. generalize false as saw. clear Hc.
  induction Hall as [|a auths Ha _ IH]; intros saw r w p w' Hno; [by destruct saw|]. cbn.
  apply Forall_cons in Hw as [Hwa Hw]. specialize (Hwa r w). unfold same_rows in Hwa.
  destruct (a r w) as [[q|[]] w1] eqn:Ea; cbn in Hwa; [intros [= <- _]; by eapply Ha|..];
    apply (IH Hw); by rewrite Hwa.
Qed.
End users.

(** ** The endpoints *)

Section endpoints.
Context {W Tx Pool : Type} `{AuthDB W Tx} `{Rand W} `{Bcrypt W} `{PoolManager W Pool} `{FloatFormat}.
Context (cfg : Config) (t : auth_tables) (doc : users_documented W Tx t).
Local Abbreviation rows := (rows W Tx t doc).
Local Abbreviation status_of h x := (status (response_of h (calls_of x))).

Lemma writeJSON_status code v h (w : W) : status_of h (writeJSON code v h w) = code.
Proof. rewrite status_first. unfold writeJSON, encode_to. by destruct (Encode v). Qed.
Lemma writeError_answer code msg h (w : W) : status_of h (writeError code msg h w) = code.
Proof. apply writeJSON_status. Qed.
Lemma writeJSON_world code v h (w : W) : world_of (writeJSON code v h w) = w.
Proof. unfold writeJSON, encode_to. by destruct (Encode v). Qed.
Lemma writeError_world code msg h (w : W) : world_of (writeError code msg h w) = w.
Proof. apply writeJSON_world. Qed.

Lemma bind_lift_run {A B} (f : W -> A * W) (k : A -> M W B) h w :
  bind (lift f) k h w = k (fst (f w)) h (snd (f w)).
Proof. unfold bind, lift. destruct (f w) as [a w1]. cbn. by destruct (k a h w1) as [[]]. Qed.

Lemma adminDeleteUser_rows ctx r h w :
  (forall role w, rows (Evict role w) = rows w) ->
  let x := adminDeleteUser cfg t ctx r h w in
  let gone id := drop_user id (drop_keys id (rows w)) in
  match ParseInt (r_PathValue r) with
  | Some id =>
      if (0 <? id)%Z then
        status_of h x = (if decide (users_with id (rows w) <> 0%nat) then 200 else 404)%Z /\ rows (world_of x) = gone id
        \/ status_of h x = 500%Z /\ (rows (world_of x) = rows w \/ rows (world_of x) = gone id)
      else status_of h x = 400%Z /\ rows (world_of x) = rows w
  | None => status_of h x = 400%Z /\ rows (world_of x) = rows w
  end.
Proof.
  intros Hevict. cbv zeta. unfold adminDeleteUser. destruct (ParseInt (r_PathValue r)) as [id|].
  2:{ by rewrite writeError_answer, writeError_world. }
  rewrite Z.leb_antisym. destruct (0 <? id)%Z; cbn [negb].
  2:{ by rewrite writeError_answer, writeError_world. }
  rewrite bind_lift_run. pose proof (DeleteUser_rows t doc id w) as Hd.
  destruct (DeleteUser t id w) as [[b|e] w1]; cbn [fst snd].
  2:{ right. by rewrite writeError_answer, writeError_world. }
  destruct Hd as [Hgone Hb]. left. destruct (decide (users_with id (rows w) <> 0)) as [Hn|Hn].
  - rewrite bool_decide_eq_true_2 in Hb by done. subst b. case_match.
    2:{ by rewrite writeJSON_status, writeJSON_world. }
    unfold evict. destruct (String.eqb _ _).
    + rewrite bind_lift_run. cbn [fst snd]. by rewrite writeJSON_status, writeJSON_world, Hevict.
    + rewrite (bind_ret_l _ _ h w1). by rewrite writeJSON_status, writeJSON_world.
  - rewrite bool_decide_eq_false_2 in Hb by done. subst b. by rewrite writeError_answer, writeError_world.
Qed.

Context `{Clock W} `{Cache W} `{JWTLib W} `{HTTPClient W} `{UnicodeTables}.

(** C11: a deleted user is locked out, whole or not at all. A request to delete
    either takes the user and all its keys, or leaves the tables as they are, and
    only a 500 leaves open which; a 200 says there was such a user, a 404 that there
    was none. From a 200 or 404 on, while the tables stay that way, no credential of
    any kind, through any of the configured methods, authenticates as that id. *)
Theorem deleted_user_locked_out (dummyBcryptHash : string) (auths : list (Authenticator W))
    (ctx : option Principal) (r : Request) (h : Header) (w : W) (id : Z)
  (Ht : tables_of (AuthTablePrefix (Sec cfg)) = Ok t)
  (Hchain : buildAuthChain dummyBcryptHash cfg = Ok (Some auths))
  (Hauth : auth_within (same_rows t doc))
  (Hevict : forall role w, rows (Evict role w) = rows w)
  (Hid : ParseInt (r_PathValue r) = Some id) (Hpos : (0 < id)%Z) :
  let x := adminDeleteUser cfg t ctx r h w in
  (rows (world_of x) = rows w \/ rows (world_of x) = drop_user id (drop_keys id (rows w)))
  /\ status_of h x ∈ [200; 404; 500]%Z
  /\ (status_of h x <> 500%Z ->
       (status_of h x = 200%Z <-> exists u, u ∈ db_users (rows w) /\ u_id u = id)
       /\ no_user id (rows (world_of x))
       /\ forall r2 w2 p w3, rows w2 = rows (world_of x) ->
            Chain_Authenticate auths r2 w2 = (Ok p, w3) -> UserID p <> id).
Proof.
  cbv zeta. pose proof (adminDeleteUser_rows ctx r h w Hevict) as Hx. cbv zeta in Hx.
  rewrite Hid, (proj2 (Z.ltb_lt 0 id) Hpos) in Hx.
  assert (users_with id (rows w) <> 0 <-> exists u, u ∈ db_users (rows w) /\ u_id u = id) as Hex.
  { unfold users_with. split.
    - destruct (filter _ _) as [|u l] eqn:E; [done|]. intros _. exists u.
      assert (u ∈ filter (fun u => u_id u = id) (db_users (rows w))) as [??]%list_elem_of_filter by (rewrite E; left).
      done.
    - intros (u & Hu & Hi) E. apply length_zero_iff_nil in E.
      assert (u ∈ filter (fun u => u_id u = id) (db_users (rows w))) as Hf by (by apply list_elem_of_filter).
      rewrite E in Hf. by apply elem_of_nil in Hf. }
  destruct Hx as [[Hs Hr]|[Hs Hr]]; rewrite Hs; [|split_and!; [done|set_solver|done]].
  split_and!; [by right|case_decide; set_solver|]. intros _. rewrite <- Hex. split_and!.
  - case_decide; split; done.
  - rewrite Hr. apply drop_no_user.
  - intros r2 w2 p w3 Hw2. eapply (chain_knows_not t doc Hauth id); [lia|done..|].
    rewrite Hw2, Hr. apply drop_no_user.
Qed.

(** The user the request asks for, and the row of its key. *)
Definition asked_user (b : adminAddUserRequest) (id : Z) (hash : value) : user_row :=
  UserRow id (au_Username b) hash
    (if String.eqb (au_AppUser b) EmptyString then au_Username b else au_AppUser b) true.
Definition issued_key (id : Z) (key : string) : key_row := KeyRow id (str_take 8 key) (Sum256 key) true None.

Lemma filter_none {A} (P : A -> Prop) `{!forall x, Decision (P x)} (l : list A) :
  (forall x, x ∈ l -> ~ P x) -> filter P l = [].
Proof.
  intros Hl. induction l as [|x l IH]; [done|]. rewrite filter_cons_False by (apply Hl; left).
  apply IH. intros y Hy. apply Hl. by right.
Qed.

(** The key just added is found alone, with the user just added. *)
Lemma joined_issued d u key :
  (forall v, v ∈ db_users d -> u_id v <> u_id u) -> (forall k, k ∈ db_keys d -> k_prefix k <> str_take 8 key) ->
  u_enabled u = true ->
  joined (str_take 8 key) (put_key (issued_key (u_id u) key) (put_user u d))
    = [{| akr_UserID := u_id u; akr_AppUser := u_app u; akr_KeyHash := Sum256 key; akr_Enabled := true;
          akr_ExpiresAt := None |}].
Proof.
  intros Hu Hk He. unfold joined, put_key, put_user, issued_key. cbn [db_keys db_users].
  rewrite filter_cons_True, (filter_none _ (db_keys d)) by done.
  cbn [map concat k_user]. rewrite filter_cons_True, (filter_none _ (db_users d)) by done.
  cbn. unfold key_join. cbn. by rewrite He.
Qed.

(** The random bytes of a key, and what leaves the tables alone. *)
Context (Hbytes : forall n w b w', rand_Read n w = (Ok b, w') -> String.length b = n).
Context (Hrand : forall n w, rows (snd (rand_Read n w)) = rows w).
Context (Hbcrypt : forall pw w, rows (snd (GenerateFromPassword pw w)) = rows w).

(** A key made and stored, for whatever comes next. *)
Lemma add_key_run id w h :
  exists r w', (forall k : result string string -> M W unit, bind (add_key t id) k h w = k r h w') /\
  match r with
  | Ok key => String.length key = 48 /\ (forall k, k ∈ db_keys (rows w) -> k_prefix k <> str_take 8 key)
              /\ rows w' = put_key (issued_key id key) (rows w)
  | Err _ => True
  end.
Proof.
  destruct (rand_Read 24 w) as [[b|e] w1] eqn:Er.
  - pose proof (Hbytes _ _ _ _ Er) as Hb. pose proof (Hrand 24 w) as Ew1. rewrite Er in Ew1. cbn in Ew1.
    set (key := hex_encode b).
    assert (String.length key = 48) as Hlen by (unfold key; by rewrite hex_encode_length, Hb).
    pose proof (ud_add_key _ _ _ doc id (str_take 8 key) (Sum256 key) "admin-created" w1) as Hk.
    destruct (AddAPIKey t id (str_take 8 key) (Sum256 key) "admin-created" w1) as [r w2] eqn:Ea.
    exists (match r with Ok _ => Ok key | Err _ => Err "auth: add api key" end), w2. split.
    + intros k. unfold add_key, newAPIKey. rewrite (bind_assoc _ _ _ h w).
      rewrite (bind_assoc _ _ _ h w), bind_lift_run, Er. cbn [fst snd]. rewrite (bind_ret_l _ _ h w1). cbn iota.
      fold key. rewrite (bind_assoc _ _ _ h w1), bind_lift_run, Ea. apply bind_ret_l.
    + unfold AddAPIKey in Ea. destruct (Exec _ _ w1) as [[[]|e] w3]; injection Ea as <- <-; [|done].
      rewrite <- Ew1. by destruct Hk.
  - exists (Err e), w1. split; [|done]. intros k. unfold add_key, newAPIKey. rewrite (bind_assoc _ _ _ h w).
    rewrite (bind_assoc _ _ _ h w), bind_lift_run, Er. cbn [fst snd]. rewrite (bind_ret_l _ _ h w1). cbn iota.
    apply bind_ret_l.
Qed.

Lemma adminAddUser_rows ctx req h w body :
  decode_adminAddUserRequest req = Some body -> au_GenerateAPIKey body = true ->
  let x := adminAddUser cfg t ctx req h w in
  status_of h x = 201%Z ->
  exists id hash key h' w1,
    x = writeJSON 201 (adminAddUserResponse id (role_or_empty cfg id) key) h' w1
    /\ String.length key = 48
    /\ (forall v, v ∈ db_users (rows w) -> u_id v <> id)
    /\ (forall k, k ∈ db_keys (rows w) -> k_prefix k <> str_take 8 key)
    /\ rows w1 = put_key (issued_key id key) (put_user (asked_user body id hash) (rows w)).
Proof.
  intros Hbody Hgen. cbv zeta. unfold adminAddUser. rewrite Hbody.
  assert (forall code msg h0 (w0 : W) (P : Prop), (code =? 201)%Z = false ->
    status_of h0 (writeError code msg h0 w0) = 201%Z -> P) as Herr.
  { intros code msg h0 w0 P Hc Hs. rewrite writeError_answer in Hs. subst code. done. }
  destruct (String.eqb _ _); [by apply Herr|].
  assert (exists r w1, rows w1 = rows w /\
    forall k : result string string -> M W unit, bind (hash_password (au_Password body)) k h w = k r h w1) as (r & w1 & Ew1 & Hhash).
  { unfold hash_password. destruct (String.eqb _ _).
    - exists (Ok EmptyString), w. split; [done|]. intros k. apply bind_ret_l.
    - do 2 eexists. split; [apply (Hbcrypt (au_Password body))|]. intros k. apply bind_lift_run. }
  rewrite Hhash. destruct r as [hash|e]; [|by apply Herr]. rewrite bind_lift_run. unfold AddUser.
  set (value := if String.eqb hash EmptyString then VNil else VString hash).
  pose proof (ud_add_user _ _ _ doc (au_Username body) value
    (if String.eqb (au_AppUser body) EmptyString then au_Username body else au_AppUser body) w1) as Hu.
  destruct (Get_id _ _ w1) as [[id|e] w2]; cbn [fst snd]; [|by apply Herr]. destruct Hu as [Hfresh Ew2].
  rewrite Hgen. destruct (add_key_run id w2 h) as (rk & w3 & Hrun & Hkey). rewrite Hrun.
  destruct rk as [key|e]; [|by apply Herr]. destruct Hkey as (Hlen & Hprefix & Ew3). intros _.
  exists id, value, key, h, w3. rewrite Ew2 in Hprefix. rewrite Ew3, Ew2, <- Ew1.
  by split_and!.
Qed.

(** C12: the key a new user is given is theirs. A request to add a user with a key
    that is answered 201 is answered with an id and a key of 48 characters, and
    whoever presents that key, in whatever header and request, is authenticated as
    that user, under the app_user asked for or else the username, as long as the
    tables stay as they are and the database answers. *)
Theorem issued_key_authenticates (ctx : option Principal) (req : Request) (h : Header) (w : W)
    (body : adminAddUserRequest)
  (Hbody : decode_adminAddUserRequest req = Some body) (Hgen : au_GenerateAPIKey body = true)
  (Hstatus : status_of h (adminAddUser cfg t ctx req h w) = 201%Z) :
  let x := adminAddUser cfg t ctx req h w in
  exists id key h' (w1 : W),
    calls_of x = calls_of (writeJSON 201 (adminAddUserResponse id (role_or_empty cfg id) key) h' w1)
    /\ String.length key = 48
    /\ forall header r w2, extractKey header r = key -> rows w2 = rows (world_of x) ->
         (forall msg, fst (Get_apiKeyRow (lookupKeyQuery t) [VString (str_take 8 key)] w2) <> Err (ErrGet msg)) ->
         fst (APIKey_Authenticate (H := sqlUserStore t) header r w2) =
           Ok {| AppUser := if String.eqb (au_AppUser body) EmptyString then au_Username body else au_AppUser body;
                 UserID := id; Scopes := [] |}.
Proof.
  cbv zeta. destruct (adminAddUser_rows ctx req h w body Hbody Hgen Hstatus)
    as (id & hash & key & h' & w1 & -> & Hlen & Hu & Hk & Hrows).
  exists id, key, h', w1. split_and!; [done|done|]. intros header r w2 Hr Hw2 Hup.
  rewrite writeJSON_world, Hrows in Hw2. pose proof (joined_issued _ (asked_user body id hash) key Hu Hk eq_refl) as Hj.
  cbn [u_id asked_user] in Hj. rewrite <- Hw2 in Hj. pose proof (ud_key _ _ _ doc (str_take 8 key) w2) as Hrow.
  unfold APIKey_Authenticate. rewrite Hr. destruct (String.eqb_spec key EmptyString) as [->|_]; [done|].
  unfold apiKeyPrefixLen. rewrite (proj2 (Nat.ltb_ge _ _)) by lia. cbn [LookupAPIKeyByPrefix sqlUserStore].
  unfold sql_LookupAPIKeyByPrefix. destruct (Get_apiKeyRow _ _ w2) as [[row|[|msg]] w3]; cbn [fst] in *.
  - rewrite Hj in Hrow. apply list_elem_of_singleton in Hrow as ->.
    cbn [akr_KeyHash ak_KeyHash]. by rewrite String.eqb_refl.
  - by rewrite Hj in Hrow.
  - by destruct (Hup msg).
Qed.
End endpoints.

(** ** A user database *)

Module Witness.
#[local] Existing Instances elements_order ascii_tables ServerSpec.Witness.no_floats.

Record site := Site { si_rows : user_db; si_tx : option user_db; si_evicted : list string }.
Definition with_rows (d : user_db) (w : site) : site := Site d (si_tx w) (si_evicted w).

Definition tables : auth_tables := {| usersTable := "pathql_auth_users"; keysTable := "pathql_auth_api_keys" |}.
Definition next_id (d : user_db) : Z := foldr (fun u n => Z.max (u_id u + 1) n) 1%Z (db_users d).

#[local] Instance site_db : AuthDB site unit := {|
  Get_apiKeyRow q args w :=
    match args with
    | [VString prefix] =>
        (match joined prefix (si_rows w) with row :: _ => Ok row | [] => Err ErrNoRows end, w)
    | _ => (Err (ErrGet "arguments"), w)
    end;
  Get_userRow q args w :=
    match args with
    | [VString name] =>
        (match filter (fun u => u_name u = name) (db_users (si_rows w)) with
         | u :: _ => Ok {| usr_UserID := u_id u; usr_Username := u_name u;
                           usr_PasswordHash := match u_hash u with VString s => s | _ => EmptyString end;
                           usr_AppUser := u_app u; usr_Enabled := u_enabled u |}
         | [] => Err ErrNoRows
         end, w)
    | _ => (Err (ErrGet "arguments"), w)
    end;
  Get_id q args w :=
    match args with
    | [VString name; hash; VString app] =>
        let id := next_id (si_rows w) in
        (Ok id, with_rows (put_user (UserRow id name hash app true) (si_rows w)) w)
    | _ => (Err (ErrGet "arguments"), w)
    end;
  Exec q args w :=
    if negb (HasPrefix q (nl +:+ "INSERT")) then (Ok tt, w)
    else match args with
    | [VInt id; VString prefix; VString hash; VString _] =>
        if decide (filter (fun k => k_prefix k = prefix) (db_keys (si_rows w)) = [])
        then (Ok tt, with_rows (put_key (KeyRow id prefix hash true None) (si_rows w)) w)
        else (Err "duplicate key value", w)
    | _ => (Ok tt, w)
    end;
  Begin w := (Ok tt, Site (si_rows w) (Some (si_rows w)) (si_evicted w));
  Tx_Exec _ q args w :=
    match args, si_tx w with
    | [VInt id], Some d =>
        if String.eqb q (deleteKeysQuery tables)
        then (Ok (Ok 0%Z), Site (si_rows w) (Some (drop_keys id d)) (si_evicted w))
        else (Ok (Ok (Z.of_nat (users_with id d))), Site (si_rows w) (Some (drop_user id d)) (si_evicted w))
    | _, _ => (Err "no transaction", w)
    end;
  Tx_Commit _ w := (Ok tt, with_rows (default (si_rows w) (si_tx w)) w);
  Tx_Rollback _ w := (Ok tt, w)
|}.

Lemma next_id_fresh d u : u ∈ db_users d -> u_id u <> next_id d.
Proof.
  unfold next_id. intros Hu. assert (u_id u < foldr (fun u n => Z.max (u_id u + 1) n) 1 (db_users d))%Z; [|lia].
  revert Hu. induction (db_users d) as [|v l IH]; [by intros ?%elem_of_nil|]. cbn.
  intros [->|Hu]%elem_of_cons; [lia|]. specialize (IH Hu). lia.
Qed.

Definition site_doc : users_documented site unit tables.
Proof.
  refine {| rows := si_rows; tx_rows _ := si_tx |}.
  - intros name hash app w. split; [|done]. intros u Hu. by apply next_id_fresh.
  - intros id prefix hash name w. simpl. destruct (decide _) as [He|]; [|done]. split; [|done].
    intros k Hk Hp. assert (k ∈ filter (fun k => k_prefix k = prefix) (db_keys (si_rows w))) as Hf
      by (by apply list_elem_of_filter).
    rewrite He in Hf. by apply elem_of_nil in Hf.
  - intros prefix w. simpl. destruct (joined prefix (si_rows w)); [done|left].
  - intros name w. simpl. destruct (filter _ _) as [|u l] eqn:E; [done|]. exists u.
    assert (u ∈ filter (fun u => u_name u = name) (db_users (si_rows w))) as [? ?]%list_elem_of_filter
      by (rewrite E; left). done.
  - done.
  - intros tx id w d Hd. simpl. by rewrite Hd.
  - intros tx id w d Hd. simpl. rewrite Hd.
    split_and!; [done|done|]. by intros m [= <-].
  - intros tx w d Hd. simpl. by rewrite Hd.
  - done.
Defined.

#[local] Instance site_clock : Clock site := {| Now w := (0%Z, w) |}.
#[local] Instance site_rand : Rand site := {| rand_Read n w := (Ok (str_concat (replicate n "r")), w) |}.
#[local] Instance site_bcrypt : Bcrypt site :=
  {| CompareHashAndPassword _ _ := false; GenerateFromPassword pw w := (Ok ("hash of " +:+ pw), w) |}.
#[local] Instance site_pools : PoolManager site unit :=
  {| Acquire _ w := (Ok (tt, fun w => w), w);
     Evict role w := Site (si_rows w) (si_tx w) (role :: si_evicted w) |}.
#[local] Instance site_cache : Cache site :=
  {| Increment _ d _ w := (Ok d, w); Get _ w := (Ok None, w); Set_ _ _ _ w := (Ok tt, w) |}.
#[local] Instance site_jwt : JWTLib site :=
  {| ParseWithClaims _ _ _ w := (Err "malformed", w); GetIssuer _ := EmptyString; GetAudience _ := [] |}.
#[local] Instance site_client : HTTPClient site := {| HTTP_Get _ w := (Err "offline", w) |}.

Definition conf : Config := IdentitySpec.Witness.conf.
Definition site0 : site := Site (UserDB [] []) None [].
Definition request (method path id : string) (body : option string) (key : string) : Request :=
  {| r_Method := method; r_Path := path; r_RequestURI := path; r_Host := "api";
     r_RemoteAddr := "192.0.2.1:1"; r_Header := {["X-Api-Key" := [key]]}; r_TLS := false;
     r_Body := body; r_BodyLimit := None; r_PathValue := id |}.

(** Bob, with a key. *)
Definition add_bob : Request :=
  request "POST" "/admin/users" "" (Some (js "{`username`: `bob`, `generate_api_key`: true}")) "".
Definition with_bob : site := world_of (adminAddUser conf tables None add_bob ∅ site0).
Definition bobs_key : string := hex_encode (str_concat (replicate 24 "r")).

(** An instance of [issued_key_authenticates]. *)
Lemma issued_key_authenticates_witness :
  exists id key, String.length key = 48 /\
    forall w2, si_rows w2 = si_rows with_bob -> forall r, extractKey "X-API-Key" r = key ->
      fst (APIKey_Authenticate (H := sqlUserStore tables) "X-API-Key" r w2) =
        Ok {| AppUser := "bob"; UserID := id; Scopes := [] |}.
Proof.
  assert (forall n (w : site) b w', rand_Read n w = (Ok b, w') -> String.length b = n) as Hbytes.
  { intros n w b w' [= <- _]. induction n as [|n IH]; [reflexivity|].
    change (S (String.length (str_concat (replicate n "r"))) = S n). f_equal. exact IH. }
  assert (forall n w, rows _ _ _ site_doc (snd (rand_Read n w)) = rows _ _ _ site_doc w) as Hrand by done.
  assert (forall pw w, rows _ _ _ site_doc (snd (GenerateFromPassword pw w)) = rows _ _ _ site_doc w) as Hgen by done.
  destruct (issued_key_authenticates conf tables site_doc Hbytes Hrand Hgen None add_bob ∅ site0
    (Build_adminAddUserRequest "bob" "" "" true) ltac:(vm_compute; reflexivity) eq_refl
    ltac:(vm_compute; reflexivity)) as (id & key & h' & w1 & _ & Hlen & Hkey).
  exists id, key. split; [exact Hlen|]. intros w2 Hw2 r Hr. apply (Hkey "X-API-Key" r w2 Hr Hw2).
  intros msg. cbn. by destruct (joined _ _).
Defined.

(** And that key it is. *)
Example bob_comes_in :
  fst (APIKey_Authenticate (H := sqlUserStore tables) "X-API-Key" (request "POST" "/pathql" "" None bobs_key) with_bob)
  = Ok {| AppUser := "bob"; UserID := 1; Scopes := [] |}.
Proof. vm_compute. reflexivity. Qed.

Definition chain : list (Authenticator site) :=
  [APIKey_Authenticate (H := sqlUserStore tables) "X-API-Key"].
Lemma users_evict role w : rows _ _ _ site_doc (Evict role w) = rows _ _ _ site_doc w.
Proof. done. Qed.
Lemma users_auth : auth_within (same_rows tables site_doc).
Proof.
  split; try done; [intros t' [|[] []] w; done..|by left].
Qed.

(** Bob, deleted. *)
Definition without_bob : list wcall * site * outcome unit :=
  adminDeleteUser conf tables None (request "DELETE" "/admin/users/1" "1" None "") ∅ with_bob.

(** An instance of [deleted_user_locked_out]. *)
Lemma deleted_user_locked_out_witness :
  status (response_of ∅ (calls_of without_bob)) = 200%Z /\
  forall r p w3, Chain_Authenticate chain r (world_of without_bob) = (Ok p, w3) -> UserID p <> 1%Z.
Proof.
  split; [vm_compute; reflexivity|].
  destruct (deleted_user_locked_out conf tables site_doc "" chain None
    (request "DELETE" "/admin/users/1" "1" None "") ∅ with_bob 1 eq_refl eq_refl users_auth users_evict
    eq_refl eq_refl) as (_ & _ & Hout).
  destruct Hout as (_ & _ & Hno); [vm_compute; discriminate|].
  intros r p w3. apply Hno. reflexivity.
Defined.

Example bob_is_out :
  fst (Chain_Authenticate chain (request "POST" "/pathql" "" None bobs_key)
    (world_of without_bob))
  = Err ErrUnauthorized.
Proof. vm_compute. reflexivity. Qed.
End Witness.
