(* ===== verification/RootAnswers.v ===== *)
(** * What the server tells its clients

    Every route answers once, with the security headers, and never by a panic; an
    answer that is not a success is one of a fixed list, whatever the database,
    the authentication tables or the key provider said. *)

From S2P Require Import Prelude GoStrings GoNet Http GoHttp GoJson GoCrypto Cache Middleware Concurrency SqlGate.
From S2P Require Import Roles TopQueries Executor Auth Jwt Config Footprint Server ServerSpec Endpoints Routes.
From S2P Require Import RoutesSpec Answers RootFootprint RootSpec.

(** ** The answers *)

(** What [writeError] sends, by status and message. *)
Definition error_messages : list (Z * string) :=
  [(400, "invalid request body"); (400, "params must be an object, not an array");
   (400, "query rejected: estimated cost or row count exceeds the configured limit");
   (400, "write rejected: affected row count exceeds the configured limit");
   (400, "username is required"); (400, "could not create user"); (400, "invalid user id");
   (401, "authentication required"); (404, "no such user"); (413, "response too large");
   (500, genericInternalErrorMsg);
   (501, "schema reflection is only available for the postgres driver");
   (503, "server busy"); (503, "query timed out")]%Z
  ++ map (fun e => (400%Z, gate_error_text e)) [errEmpty; errNotRead; errMultiple; errCatalog; errNotAllowed].
Definition error_body (msg : string) : string :=
  js "{`type`:`Error`,`message`:`" +:+ msg +:+ js "`}" +:+ GoJson.newline.

Definition error_answers : list (Z * string) :=
  [(204, EmptyString); (401, unauthorizedBody); (403, forbiddenBody); (403, xsrfForbidden);
   (415, genericUnsupportedMedia); (429, genericRateLimited); (429, genericLockedOut);
   (429, genericConcurrencyLimited); (500, genericInternalError); (503, genericOverloaded);
   (503, js "{`database`:`down`,`status`:`unavailable`}" +:+ GoJson.newline)]%Z
  ++ map (fun cm => (cm.1, error_body cm.2)) error_messages.

Definition sendable (code : Z) (b : string) : Prop :=
  code = 200%Z \/ code = 201%Z \/ (code, b) ∈ error_answers.

Ltac listed := apply (bool_decide_unpack _); vm_compute; exact I.
#[local] Hint Extern 1 (_ ∈ error_messages) => listed : answers.
#[local] Hint Extern 1 (sendable _ _) => first [by left|by right; left|right; right; listed] : answers.

Section bodies.
Context {W : Type} `{FloatFormat}.

Lemma Encode_error cm : cm ∈ error_messages -> Encode (ErrorResponse cm.2) = Some (error_body cm.2).
Proof. revert cm. apply Forall_forall. repeat constructor. Qed.
Lemma message_sendable cm : cm ∈ error_messages -> sendable cm.1 (error_body cm.2).
Proof. intros Hin. right; right. apply elem_of_app; right. apply list_elem_of_fmap. by exists cm. Qed.

Lemma replies_writeError code msg :
  (code, msg) ∈ error_messages -> replies sendable (writeError (W := W) code msg).
Proof.
  intros Hin. unfold writeError, writeJSON, encode_to.
  assert (Encode (ErrorResponse msg) = Some (error_body msg)) as -> by exact (Encode_error (code, msg) Hin).
  apply replies_bind; [auto with answers|]. intros _. apply replies_write.
  by apply (message_sendable (code, msg)).
Qed.
Lemma replies_success code v : code = 200%Z \/ code = 201%Z -> replies sendable (writeJSON (W := W) code v).
Proof.
  intros Hc. assert (forall b, sendable code b) by (destruct Hc; [by left|by right; left]).
  unfold writeJSON, encode_to. case_match; [auto 10 with answers|].
  apply replies_bind; [auto with answers|]. intros _. apply replies_then; auto with answers footprint.
Qed.
Lemma replies_writeForbidden : replies sendable (writeForbidden (W := W)).
Proof. unfold writeForbidden. auto 10 with answers. Qed.
End bodies.
#[local] Hint Resolve replies_writeError replies_success replies_writeForbidden : answers.

(** ** The endpoints *)

Section endpoints.
Context {W Pool Engine Schema Tx : Type} `{Clock W} `{ServerState W} `{AuthCounters W}.
Context `{PathSqlx W Pool Tx} `{PoolManager W Pool} `{FloatFormat} `{UnicodeTables} `{MapOrder}.
Context `{Health W} `{Introspection W Pool Engine Schema} `{AuthDB W Tx} `{Rand W} `{Bcrypt W}.
Context `{RolesDB W} `{PqQuote} (c : Config) (pool : Pool) (tables : auth_tables).

Local Abbreviation sends := (replies (W := W) sendable).

Lemma silent_timed_out b deadline : silent (timed_out (W := W) b deadline).
Proof. unfold timed_out. auto with footprint. Qed.

(** An error is answered, then there is no pool. *)
Lemma sends_no_pool code msg : (code, msg) ∈ error_messages ->
  sends (writeError code msg ;; ret (None : option (Pool * M W unit))).
Proof. intros Hin. apply replies_then; auto with answers footprint. Qed.
Lemma sends_selectQueryPool deadline ctx : sends (selectQueryPool c pool deadline ctx).
Proof.
  unfold selectQueryPool. case_match; [auto with answers footprint|].
  destruct ctx as [p|]; [|apply sends_no_pool; listed].
  destruct (RoleName _ _); [|apply sends_no_pool; listed].
  apply replies_bind; [auto with answers|]. intros [[rp rel]|e]; [auto with answers footprint|].
  apply replies_bind; [auto using silent_timed_out with answers|]. intros []; apply sends_no_pool; listed.
Qed.
Lemma sends_with_pool deadline ctx body :
  (forall qp, sends (body qp)) -> sends (with_pool c pool deadline ctx body).
Proof.
  intros Hbody. apply replies_bind_val; [apply sends_selectQueryPool|].
  intros [[qp release]|] h w Hsel; [left|right; apply silent_ret].
  destruct (selectQueryPool_own c pool ctx deadline h w) as [_ Hp]. unfold pool_selected in Hp.
  rewrite Hsel in Hp. destruct Hp as (-> & _ & _ & Hrel). split; [constructor|by apply replies_finally].
Qed.

Lemma sends_answer deadline r : sends (answer c deadline r).
Proof.
  unfold answer. destruct r as [v|e].
  - repeat case_match; auto 10 with answers.
  - apply replies_bind; [auto using silent_timed_out with answers|].
    intros []; repeat case_match; auto with answers.
Qed.
Lemma sends_run_request ctx request class hr : sends (run_request c pool ctx request class hr).
Proof.
  apply replies_bind; [auto with answers|]. intros now.
  apply (sends_with_pool _ ctx (fun qp => let* r := run_statement c qp request class hr in answer c _ r)).
  intros qp. apply replies_bind; [apply preamble_silent, silent_run_statement|]. intros r. apply sends_answer.
Qed.
Lemma sends_serve_request start ctx request : sends (serve_request c pool start ctx request).
Proof.
  unfold serve_request. destruct (q_Params request); auto with answers;
    (destruct (admission _ _) as [[class hr]|e]; [|destruct e; auto with answers]);
    (destruct ctx; [apply replies_finally; [|apply silent_record_user]|]; apply sends_run_request).
Qed.
Lemma sends_PathQlEndpoint : answering sendable (PathQlEndpoint c pool).
Proof.
  intros ctx r. unfold PathQlEndpoint. apply replies_bind; [auto with answers|]. intros start.
  destruct (decode_QLRequest r); [|auto with answers].
  case_match; [apply replies_finally; [|apply silent_record_query]|]; apply sends_serve_request.
Qed.

Lemma sends_SchemaEndpoint : answering sendable (SchemaEndpoint c pool).
Proof.
  intros ctx r. unfold SchemaEndpoint. destruct (schemaEngine _) as [[engine name]|]; [|auto with answers].
  apply replies_bind; [auto with answers|]. intros now.
  apply (sends_with_pool _ ctx (fun qp => let* r := lift (Introspect qp engine name) in schema_answer c _ r)).
  intros qp. apply replies_bind; [auto with answers|]. intros [schema|e]; unfold schema_answer.
  - case_match; auto 10 with answers.
  - apply replies_bind; [auto using silent_timed_out with answers|]. intros []; auto with answers.
Qed.

Lemma sends_MetricsEndpoint : answering sendable MetricsEndpoint.
Proof.
  intros ctx r. unfold MetricsEndpoint, encode_to. apply replies_bind; [auto with answers|]. intros v.
  apply replies_bind; [auto with answers|]. intros _. case_match; auto with answers footprint.
Qed.

Lemma silent_dbReachable : silent (dbReachable (W := W)).
Proof.
  unfold dbReachable, recent_result. apply silent_bind.
  - apply silent_bind; [auto with footprint|]. intros []; auto with footprint.
  - intros []; auto 10 with footprint.
Qed.
Lemma sends_HealthEndpoint : answering sendable (HealthEndpoint (C := option Principal)).
Proof.
  intros ctx r. unfold HealthEndpoint. apply replies_bind; [apply preamble_silent, silent_dbReachable|].
  intros [e|]; [|auto with answers]. apply replies_bind; [auto with answers|]. intros _.
  apply replies_write. right; right; listed.
Qed.

Lemma silent_hash_password pw : silent (hash_password (W := W) pw).
Proof. unfold hash_password. auto with footprint. Qed.
Lemma silent_add_key id : silent (add_key tables id).
Proof.
  unfold add_key, newAPIKey. apply silent_bind; [auto with footprint|]. intros []; auto with footprint.
Qed.
Lemma sends_adminAddUser : answering sendable (adminAddUser c tables).
Proof.
  intros ctx r. unfold adminAddUser. destruct (decode_adminAddUserRequest r); [|auto with answers].
  case_match; [auto with answers|].
  apply replies_bind; [apply preamble_silent, silent_hash_password|]. intros []; [|auto with answers].
  apply replies_bind; [auto with answers|]. intros []; [|auto with answers].
  case_match; [|auto with answers].
  apply replies_bind; [apply preamble_silent, silent_add_key|]. intros []; auto with answers.
Qed.
Lemma sends_adminDeleteUser : answering sendable (adminDeleteUser c tables).
Proof.
  intros ctx r. unfold adminDeleteUser. destruct (ParseInt _); [|auto with answers].
  case_match; [auto with answers|].
  apply replies_bind; [auto with answers|]. intros [[]|]; [|auto with answers..].
  destruct (RoleName _ _); [|auto with answers]. unfold evict. auto with answers.
Qed.
Lemma sends_adminRolesSync : answering sendable (adminRolesSync c).
Proof.
  intros ctx r. unfold adminRolesSync. apply replies_bind; [auto with answers|]. intros []; auto with answers.
Qed.
End endpoints.

(** ** The routes *)

Section routes.
Context {W Pool Engine Schema Tx : Type} `{Clock W} `{Rand W} `{Cache W} `{UnicodeTables}.
Context `{ServerState W} `{AuthCounters W} `{PathSqlx W Pool Tx} `{PoolManager W Pool} `{FloatFormat}.
Context `{MapOrder} `{Health W} `{Introspection W Pool Engine Schema} `{AuthDB W Tx} `{Bcrypt W}.
Context `{RolesDB W} `{PqQuote} `{ServeMux W}.
Context (c : Config) (pool : Pool) (tables : auth_tables) (chain : option (list (Authenticator W))).
Context (tp allow deny : list IPNet) (lims : string -> Limiters W).

Local Abbreviation answers := (answering (W := W) (C := option Principal) sendable).
Local Abbreviation table := (route_table c pool tables chain tp lims).

Lemma answers_authenticated h : answers h -> answers (authenticated chain h).
Proof.
  intros Hh. unfold authenticated. destruct chain as [auths|]; [|done]. intros ctx r.
  assert (forall b, silent (count_auth b)) as Hcount by (intros b; apply silent_lift).
  apply replies_bind; [auto with answers|]. intros [p|e];
    (apply replies_bind; [by apply preamble_silent|]); intros _; [apply Hh|].
  unfold writeUnauthorized. auto 10 with answers.
Qed.
Lemma answers_denyAppUser name h : answers h -> answers (denyAppUser name h).
Proof. intros Hh. unfold denyAppUser. case_match; [done|]. intros ctx r. repeat case_match; auto with answers. Qed.
Lemma answers_requireAppUser name h : answers h -> answers (requireAppUser name h).
Proof. intros Hh ctx r. unfold requireAppUser. repeat case_match; auto with answers. Qed.
Lemma answers_when b mw h : (answers h -> answers (mw h)) -> answers h -> answers (when b mw h).
Proof. by destruct b; auto. Qed.
Lemma answers_metrics h : answers h -> answers (metricsMiddleware h).
Proof.
  intros Hh ctx r. unfold metricsMiddleware, count. apply replies_bind; [auto with answers|]. intros start.
  apply replies_then; [by apply replies_listen|]. intros a.
  apply silent_bind; [apply silent_since|]. auto with footprint.
Qed.

#[local] Hint Resolve answering_Recover answering_BodyLimit answering_HSTS answering_RequireContentTypeJSON
  answering_CORS answering_RequestID answering_XSRF answering_RateLimitPerIP answering_BruteForceLockout
  answering_GlobalInflight answering_PerUserConcurrency answers_authenticated answers_denyAppUser
  answers_requireAppUser answers_when answers_metrics sends_PathQlEndpoint sends_SchemaEndpoint
  sends_MetricsEndpoint sends_HealthEndpoint sends_adminAddUser sends_adminDeleteUser
  sends_adminRolesSync : answers.

Lemma answers_data_access lim h : answers h -> answers (data_access c chain tp lim h).
Proof. unfold data_access, perUser, lockout. auto 30 with answers. Qed.

(** Outermost in every chain: recovery, then the security headers. *)
Lemma routes_answer pattern h : route_of pattern table = Some h ->
  exists h', h = Recover (SecurityHeaders h') /\ answers h'.
Proof.
  unfold route_table, route_of. repeat case_match; intros [= <-]; eexists; (split; [reflexivity|]);
    unfold data_access, perUser, lockout, rateLimit, globalInflight, xsrf, hsts; auto 30 with answers.
Qed.

Lemma Recover_returns (h : Handler W (option Principal)) ctx r hd w : (Recover h ctx r hd w).2 = Val tt.
Proof.
  unfold Recover, bind, try_. destruct (h ctx r hd w) as [[cs w'] [[]|v]]; [done|].
  cbn -[wroteHeader]. by destruct (wroteHeader cs).
Qed.

Lemma route_response pattern h r hd w : route_of pattern table = Some h ->
  let x := h None r hd w in
  let res := response_of hd (calls_of x) in
  x.2 = Val tt /\ sendable (status res) (body res)
  /\ headers res !! "X-Content-Type-Options" = Some ["nosniff"]
  /\ headers res !! "Cache-Control" = Some ["no-store"].
Proof.
  intros Hh. destruct (routes_answer pattern h Hh) as (h' & -> & Hans). cbv zeta.
  split; [apply Recover_returns|]. rewrite (Recover_SecurityHeaders h' None r hd w).
  pose proof (answering_Recover sendable h' ltac:(auto with answers) Hans None r) as Hr.
  set (hd' := <["Cache-Control" := ["no-store"]]> (<["X-Content-Type-Options" := ["nosniff"]]> hd)).
  assert (response_of hd (calls_of (SecurityHeaders (Recover h') None r hd w))
          = response_of hd' (calls_of (Recover h' None r hd' w))) as ->.
  { unfold SecurityHeaders, bind at 1 2, call. cbn -[Recover]. by destruct (Recover h' None r _ w) as [[]]. }
  destruct (replying_response sendable hd' _ (Hr hd' w)) as [Ha Hk]; [auto with answers|].
  split; [done|]. split; rewrite Hk by (unfold guarded_keys; set_solver); unfold hd'.
  - by rewrite lookup_insert_ne, lookup_insert by done.
  - by rewrite lookup_insert.
Qed.

Lemma route_of_pattern pattern (l : list (string * Handler W (option Principal))) :
  pattern ∈ map fst l -> exists h, route_of pattern l = Some h.
Proof.
  induction l as [|[p h] l IH]; [by intros ?%not_elem_of_nil|]. cbn.
  intros [->|Hin]%elem_of_cons; [rewrite String.eqb_refl; by eexists|]. case_match; [by eexists|auto].
Qed.

(** C10: whatever request reaches whatever route, and whatever the database, the
    authentication tables, the key provider or a panic inside the endpoint say,
    the client gets one answer: a success, or a status and body of the fixed list
    [error_answers], whose texts are constants. The handler returns, and every
    answer that is not the firewall's own 403 forbids sniffing and caching. *)
Theorem errors_are_generic pattern r w :
  mux_match (map fst table) r = Some pattern -> pattern ∈ map fst table ->
  let x := rootHandler c pool tables chain tp allow deny lims None r ∅ w in
  let res := response_of ∅ (calls_of x) in
  x.2 = Val tt
  /\ (status res = 200%Z \/ status res = 201%Z \/ (status res, body res) ∈ error_answers)
  /\ if firewallBlocks (ClientIP r tp) allow deny then status res = 403%Z
     else headers res !! "X-Content-Type-Options" = Some ["nosniff"]
          /\ headers res !! "Cache-Control" = Some ["no-store"].
Proof.
  intros Hp (h & Hh)%route_of_pattern.
  destruct (route_response pattern h r ∅ w Hh) as (Hval & Hsend & Hheaders).
  assert (router c pool tables chain tp lims None r = h None r) as Hrouter
    by (unfold router; by rewrite Hp; cbn [mbind option_bind]; rewrite Hh).
  unfold rootHandler, Firewall. destruct allow as [|n allow'], deny as [|n' deny'];
    [rewrite Hrouter; auto|..]; (destruct (firewallBlocks _ _ _);
      [split; [done|]; split; [|done]; right; right; listed|rewrite Hrouter; auto]).
Qed.
End routes.

(** ** A concrete site *)

Module Witness.
Import ServerSpec.Witness RootSpec.Witness.
#[local] Existing Instance ascii_tables.
#[local] Existing Instance elements_order.
#[local] Existing Instances site_rand site_cache site_counters site_health site_schema site_auth site_bcrypt
  site_roles site_quote site_mux.

Definition json_post (text : string) : Request :=
  {| r_Method := "POST"; r_Path := "/pathql"; r_RequestURI := "/pathql"; r_Host := "api";
     r_RemoteAddr := "192.0.2.1:1"; r_Header := {["Content-Type" := ["application/json"]]}; r_TLS := false;
     r_Body := Some text; r_BodyLimit := None; r_PathValue := EmptyString |}.
Definition site_response (r : Request) : response :=
  response_of ∅ (calls_of (rootHandler (config false "on" 1000) tt tables None [] [] [] limiters None r ∅ w0)).

(** An instance of [errors_are_generic]. *)
Lemma errors_are_generic_witness :
  let res := site_response (json_post (js "{`query`: `DROP TABLE t`}")) in
  status res = 400%Z /\ (status res, body res) ∈ error_answers
  /\ headers res !! "Cache-Control" = Some ["no-store"].
Proof.
  cbv zeta. destruct (errors_are_generic (config false "on" 1000) tt tables None [] [] [] limiters
    "POST /pathql" (json_post (js "{`query`: `DROP TABLE t`}")) w0) as (_ & Ha & _ & Hc).
  - vm_compute; reflexivity.
  - apply (bool_decide_unpack _); vm_compute; exact I.
  - split; [vm_compute; reflexivity|]. split; [|exact Hc].
    destruct Ha as [Ha|[Ha|Ha]]; [vm_compute in Ha; discriminate Ha..|exact Ha].
Defined.

Example gate_answer :
  body (site_response (json_post (js "{`query`: `DROP TABLE t`}"))) = error_body (gate_error_text errNotAllowed).
Proof. vm_compute. reflexivity. Qed.
End Witness.
