(* ===== verification/RootMetrics.v ===== *)
(** * What the metrics say

    The counters are an account of the requests that were served: each request at
    a counted route whose handler returned adds its answer, the status its client
    got and the time the handler took, and no other request adds anything. *)

From S2P Require Import Prelude GoStrings GoNet Http GoHttp GoJson GoCrypto Cache Middleware Concurrency SqlGate.
From S2P Require Import Roles TopQueries Executor Auth Jwt Config Footprint Server ServerSpec Endpoints Routes.
From S2P Require Import RoutesSpec Answers OuterChain RootFootprint RootSpec RootAnswers.

(** ** Counting answers *)

(** The answers, of a status and a latency in milliseconds, that a counter counts. *)
Definition in_class (k : counter) (a : Z * Z) : Prop :=
  match k with
  | status200 => a.1 = 200
  | status400 => a.1 = 400
  | status500 => a.1 = 500
  | statusOther => a.1 <> 200 /\ a.1 <> 400 /\ a.1 <> 500
  | reject429 => a.1 = 429
  | reject503 => a.1 = 503
  | latencyLt1ms => a.2 < 1
  | latencyLt5ms => 1 <= a.2 < 5
  | latencyLt10ms => 5 <= a.2 < 10
  | latencyLt50ms => 10 <= a.2 < 50
  | latencyLt100ms => 50 <= a.2 < 100
  | latencyLt500ms => 100 <= a.2 < 500
  | latencyLt1000ms => 500 <= a.2 < 1000
  | latencyLt5000ms => 1000 <= a.2 < 5000
  | latencyLt10000ms => 5000 <= a.2 < 10000
  | latencyGte10000ms => 10000 <= a.2
  end%Z.
#[export] Instance in_class_dec k a : Decision (in_class k a).
Proof. destruct k; simpl; apply _. Defined.

Definition hits (l : list (Z * Z)) (k : counter) : nat := length (filter (in_class k) l).

(** The counters the middleware adds one to. *)
Definition counted (a : Z * Z) : list counter := status_counters a.1 ++ [latency_counter a.2].
Definition count_answer (m : Metrics) (a : Z * Z) : Metrics := foldr bump m (rev (counted a)).

(** Some counters are of the status, the others of the latency. *)
Definition of_status (k : counter) : bool :=
  match k with
  | status200 | status400 | status500 | statusOther | reject429 | reject503 => true
  | _ => false
  end.

Lemma status_class k code ms : k ∈ status_counters code <-> of_status k = true /\ in_class k (code, ms).
Proof.
  unfold status_counters.
  repeat match goal with |- context [(code =? ?n)%Z] => destruct (Z.eqb_spec code n); [subst|] end;
    destruct k; cbn [of_status in_class fst]; rewrite ?elem_of_cons, elem_of_nil; intuition (discriminate || lia).
Qed.
Lemma latency_class k code ms : k = latency_counter ms <-> of_status k = false /\ in_class k (code, ms).
Proof.
  unfold latency_counter.
  repeat match goal with |- context [(ms <? ?n)%Z] => destruct (Z.ltb_spec ms n) end;
    destruct k; cbn [of_status in_class snd];
    (split; [intros E; first [discriminate E|split; [done|lia]]|
             intros [E ?]; first [discriminate E|reflexivity|exfalso; lia]]).
Qed.

Lemma counted_class k a : k ∈ counted a <-> in_class k a.
Proof.
  destruct a as [code ms]. unfold counted. cbn [fst snd].
  rewrite elem_of_app, elem_of_cons, elem_of_nil, (status_class k code ms), (latency_class k code ms).
  destruct (of_status k); naive_solver.
Qed.

Lemma bump_all cs m k :
  NoDup cs -> foldr bump m cs k = if decide (k ∈ cs) then wrap_u64 (m k + 1) else m k.
Proof.
  induction 1 as [|c cs Hc _ IH]; [done|]. cbn [foldr]. unfold bump at 1.
  destruct (decide (k = c)) as [->|Hne].
  - rewrite decide_True by (left). by rewrite IH, decide_False.
  - rewrite IH. destruct (decide (k ∈ cs)); [rewrite decide_True by (by right)|rewrite decide_False by set_solver]; done.
Qed.

Lemma counted_NoDup a : NoDup (rev (counted a)).
Proof.
  rewrite <- Permutation_rev. unfold counted, status_counters, latency_counter.
  repeat case_match; repeat constructor; set_solver.
Qed.

Lemma count_answer_spec m a k :
  count_answer m a k = if decide (in_class k a) then wrap_u64 (m k + 1) else m k.
Proof.
  unfold count_answer. rewrite bump_all by apply counted_NoDup.
  assert (k ∈ rev (counted a) <-> in_class k a) as E by (by rewrite <- Permutation_rev, counted_class).
  destruct (decide (in_class k a)); [rewrite decide_True by tauto|rewrite decide_False by tauto]; done.
Qed.

Lemma count_answers l m k :
  is_u64 (m k) -> foldl count_answer m l k = wrap_u64 (m k + Z.of_nat (hits l k)).
Proof.
  unfold wrap_u64. revert m. induction l as [|a l IH]; intros m Hm.
  - cbn. rewrite Z.add_0_r. symmetry. by apply wrap_u64_id.
  - cbn [foldl]. rewrite IH; unfold hits; rewrite count_answer_spec, ?filter_cons;
      destruct (decide (in_class k a)); cbn [length].
    + unfold wrap_u64. rewrite Zplus_mod_idemp_l. f_equal. lia.
    + done.
    + apply wrap_u64_range.
    + done.
Qed.

(** Of a handler that replies once, the middleware saw the status the client gets. *)
Lemma replying_status P cs h : replying P cs -> rw_status cs = status (response_of h cs).
Proof.
  intros Hcs. revert h. induction Hcs as [|code|code b|b|c cs Hc _ IH]; intros h; [done..|].
  replace (response_of h (c :: cs)) with (response_of (apply_call h c) cs) by (by destruct c).
  rewrite <- IH. by destruct c.
Qed.

(** ** One request *)

Section metrics.
Context {W Pool Engine Schema Tx : Type} `{Clock W} `{Rand W} `{Cache W} `{UnicodeTables}.
Context `{ServerState W} `{AuthCounters W} `{PathSqlx W Pool Tx} `{PoolManager W Pool} `{FloatFormat}.
Context `{MapOrder} `{Health W} `{Introspection W Pool Engine Schema} `{AuthDB W Tx} `{Bcrypt W}.
Context `{RolesDB W} `{PqQuote} `{ServeMux W} `{JWTLib W} `{HTTPClient W}.
Context (dummyBcryptHash : string) (c : Config) (pool : Pool) (tables : auth_tables).
Context (chain : option (list (Authenticator W))) (tp allow deny : list IPNet) (lims : string -> Limiters W).

Local Abbreviation table := (route_table c pool tables chain tp lims).
Local Abbreviation root := (rootHandler c pool tables chain tp allow deny lims).
Local Abbreviation serve := (served_all c pool tables chain tp allow deny lims).

(** The two counted routes: the name of their limiters, what becomes of the
    request on the way, and the handler whose answers are counted, the
    authentication included. *)
Inductive counted_route : string -> string -> (Request -> Request) -> Handler W (option Principal) -> Prop :=
| on_pathql pattern : pattern ∈ ["POST /pathql"; "OPTIONS /pathql"] ->
    counted_route pattern "/pathql" (limited (MaxBodyBytes (Lim c)))
      (data_access c chain tp (lims "/pathql") (PathQlEndpoint c pool))
| on_schema pattern : pattern ∈ ["GET /schema"; "OPTIONS /schema"] ->
    counted_route pattern "/schema" id
      (data_access c chain tp (lims "/schema") (SchemaEndpoint c pool)).

(** The answers of the firewall, of the recovery and of the middlewares before the
    metrics. *)
Definition uncounted_answers : list (Z * string) :=
  (403%Z, forbiddenJSON) :: (500%Z, genericInternalError) :: refusals.

(** What a request that left the world [w'] and the calls [cs] adds to the
    account: nothing on another route; nothing if it was turned away, which shows
    in its answer; nothing if the counted handler ran and panicked; else the status
    of its response, and the time from one reading of the clock, right before the
    handler ran, to the next, right after. *)
Inductive entry (r : Request) (w : W) (cs : list wcall) (w' : W) : option (Z * Z) -> Prop :=
| en_elsewhere :
    (forall pattern, mux_match (map fst table) r = Some pattern -> pattern ∉ data_routes) ->
    entry r w cs w' None
| en_refused name :
    rtc (outer_step (lims name)) w w' ->
    (status (response_of ∅ cs), body (response_of ∅ cs)) ∈ uncounted_answers ->
    entry r w cs w' None
| en_panicked pattern name f handler pre w1 cs1 w2 v :
    mux_match (map fst table) r = Some pattern -> counted_route pattern name f handler ->
    rtc (outer_step (lims name)) w w1 ->
    handler None (f r) (apply_calls ∅ pre) (snd (Now w1)) = (cs1, w2, Panic v) ->
    rtc (outer_step (lims name)) w2 w' ->
    entry r w cs w' None
| en_answered pattern name f handler pre w1 cs1 w2 ms m :
    mux_match (map fst table) r = Some pattern -> counted_route pattern name f handler ->
    rtc (outer_step (lims name)) w w1 -> header_calls pre ->
    handler None (f r) (apply_calls ∅ pre) (snd (Now w1)) = (cs1, w2, Val tt) ->
    cs = pre ++ cs1 -> ms = Z.quot (fst (Now w2) - fst (Now w1)) 1000000 ->
    rtc (outer_step (lims name)) (set_metrics m (snd (Now w2))) w' ->
    entry r w cs w' (Some (status (response_of ∅ cs), ms)).

(** The account of requests served one after the other. *)
Fixpoint account (rs : list Request) (w : W) (entries : list (option (Z * Z))) : Prop :=
  match rs, entries with
  | [], [] => True
  | r :: rs, e :: entries =>
      let x := root None r ∅ w in
      entry r w (calls_of x) (world_of x) e /\ account rs (world_of x) entries
  | _, _ => False
  end.

Context (Hchain : buildAuthChain dummyBcryptHash c = Ok chain).
(** The metrics are a variable of their own. *)
Context (Hset : forall m w, metrics (set_metrics m w) = m) (Hrest : rest_within same_metrics lims).
Context (Haux : forall ctx w w', aux_step c ctx w w' -> same_metrics w w') (Hsql : sql_within same_metrics).
Context (Hintrospect : forall p e s w, same_metrics w (snd (Introspect p e s w))) (Hadm : admin_within same_metrics).
Context (Hevict : forall role w, same_metrics w (Evict role w)).

(** What an entry does to the metrics. *)
Definition noted (m : Metrics) (e : option (Z * Z)) : Metrics :=
  match e with Some a => count_answer m a | None => m end.

Lemma outer_same name w w' : rtc (outer_step (lims name)) w w' -> same_metrics w w'.
Proof. exact (outer_footprint same_metrics dummyBcryptHash c chain lims Hrest Hchain name w w'). Qed.

Lemma handler_same pattern name f handler :
  counted_route pattern name f handler ->
  within_for same_metrics (eq None) handler /\ answering sendable handler.
Proof.
  assert (forall name, outer_within same_metrics (lims name) chain) as Houter
    by (exact (rest_outer same_metrics dummyBcryptHash c chain lims Hrest Hchain)).
  assert (pool_within same_metrics same_metrics c pool) as Hpw by (apply aux_pool_within; [apply _|]; exact Haux).
  intros [p _|p _]; (split; [apply within_data_access; [apply _|apply Houter|]; intros ctx r' _|]).
  - apply (within_PathQlEndpoint same_metrics same_metrics c pool Hpw).
    split; [exact Hsql|intros t w1; apply (Haux None); constructor..].
  - apply answers_data_access, sends_PathQlEndpoint.
  - by apply (within_SchemaEndpoint same_metrics same_metrics c pool Hpw).
  - apply answers_data_access, sends_SchemaEndpoint.
Qed.

(** The middleware: a run of the handler between two readings of the clock. *)
Lemma metricsMiddleware_run (handler : Handler W (option Principal)) ctx r h w1 cs w2 o :
  metricsMiddleware handler ctx r h w1 = (cs, w2, o) ->
  exists w3 o', handler ctx r h (snd (Now w1)) = (cs, w3, o') /\
    match o' with
    | Val _ => o = Val tt /\ exists ms, ms = Z.quot (fst (Now w3) - fst (Now w1)) 1000000
        /\ w2 = set_metrics (count_answer (metrics (snd (Now w3))) (rw_status cs, ms)) (snd (Now w3))
    | Panic v => o = Panic v /\ w2 = w3
    end.
Proof.
  unfold metricsMiddleware, since_ms, count, bind, lift, listen, ret. destruct (Now w1) as [t1 w1'].
  cbn. destruct (handler ctx r h w1') as [[cs1 w3] [[]|v]]; cbn.
  - destruct (Now w3) as [t2 w4] eqn:E. cbn. rewrite app_nil_r. intros [= <- <- <-].
    exists w3, (Val tt). rewrite E. cbn. eauto.
  - intros [= <- <- <-]. by exists w3, (Panic v).
Qed.

(** A request at a counted route. *)
Lemma wrapped_entry pattern name f handler next r w :
  mux_match (map fst table) r = Some pattern -> counted_route pattern name f handler ->
  wraps (lims name) (metricsMiddleware handler) f next ->
  let x := Recover next None r ∅ w in
  exists e, entry r w (calls_of x) (world_of x) e /\ metrics (world_of x) = noted (metrics w) e.
Proof.
  intros Hp Hc Hwraps. cbv zeta. destruct (handler_same _ _ _ _ Hc) as [Hsame Hans].
  destruct (Recover_wraps _ _ _ next None r ∅ w Hwraps)
    as [_ [[Hw Hres]|(pre & w1 & cs & w2 & o & Hw1 & Hpre & Hrun & Hw2 & Hcalls)]];
    set (x := Recover next None r ∅ w) in *.
  { exists None. split; [|by eapply outer_same].
    eapply en_refused; [exact Hw|]. apply elem_of_cons. by right. }
  apply metricsMiddleware_run in Hrun as (w3 & o' & Hh & Ho).
  pose proof (outer_same _ _ _ Hw1) as Hm1. pose proof (outer_same _ _ _ Hw2) as Hm2.
  assert (same_metrics w1 (snd (Now w1))) as Hn1 by apply Hrest.
  assert (same_metrics (snd (Now w1)) w3) as Hs.
  { pose proof (Hsame None (f r) eq_refl (apply_calls ∅ pre) (snd (Now w1))) as Hs. by rewrite Hh in Hs. }
  assert (same_metrics w3 (snd (Now w3))) as Hn3 by apply Hrest. unfold same_metrics in *.
  destruct o' as [[]|v].
  - destruct Ho as (-> & ms & Hms & ->). specialize (Hcalls eq_refl).
    assert (rw_status cs = status (response_of ∅ (calls_of x))) as Hstatus.
    { rewrite Hcalls, response_after by done. eapply replying_status.
      pose proof (Hans None (f r) (apply_calls ∅ pre) (snd (Now w1))) as Hr. rewrite Hh in Hr. exact Hr. }
    rewrite Hstatus in *. exists (Some (status (response_of ∅ (calls_of x)), ms)). split.
    + by eapply en_answered.
    + rewrite Hm2, Hset. cbn [noted]. congruence.
  - destruct Ho as [-> ->]. exists None. split; [by eapply en_panicked|]. cbn [noted]. congruence.
Qed.

Lemma root_entry r w :
  let x := root None r ∅ w in
  exists e, entry r w (calls_of x) (world_of x) e /\ metrics (world_of x) = noted (metrics w) e.
Proof.
  assert (exists e, entry r w (calls_of (router c pool tables chain tp lims None r ∅ w))
            (world_of (router c pool tables chain tp lims None r ∅ w)) e
          /\ metrics (world_of (router c pool tables chain tp lims None r ∅ w)) = noted (metrics w) e) as Hrouter.
  { unfold router. destruct (mux_match (map fst table) r) as [pattern|] eqn:Hp; cbn [mbind option_bind].
    2:{ exists None. split; [apply en_elsewhere; congruence|apply (rw_mux _ _ Hrest)]. }
    destruct (decide (pattern ∈ data_routes)) as [Hd|Hd].
    2:{ exists None. split; [apply en_elsewhere; congruence|].
        destruct (route_of pattern table) as [h|] eqn:Hh; [|apply (rw_mux _ _ Hrest)].
        assert (within_for same_metrics (eq None) h) as Hw; [|exact (Hw None r eq_refl ∅ w)].
        refine (within_other_route same_metrics dummyBcryptHash c pool tables chain tp lims Hrest Hchain
          pattern h Hh Hd _ _); intros _ ctx r' _.
        - by apply within_adminAddUser; [apply _|].
        - by apply within_adminDeleteUser; [apply _|..]. }
    unfold data_routes in Hd. repeat (apply elem_of_cons in Hd as [->|Hd]); [..|by apply elem_of_nil in Hd];
      cbn [route_of route_table String.eqb Ascii.eqb Bool.eqb].
    1, 2: destruct (publicHandler_wraps c chain tp (lims "/pathql") (PathQlEndpoint c pool)) as (next & Hnext & Hw).
    3, 4: destruct (schemaHandler_wraps c chain tp (lims "/schema") (SchemaEndpoint c pool)) as (next & Hnext & Hw).
    all: rewrite Hnext; eapply wrapped_entry; [exact Hp| |exact Hw]; constructor; set_solver. }
  unfold rootHandler, Firewall. cbv zeta. repeat case_match; try exact Hrouter;
    (exists None; split; [eapply (en_refused _ _ _ _ "/pathql"); [done|by left]|done]).
Qed.

(** C21: the metrics are an account of the answers. After any requests at any
    routes, from counters at zero, every counter is the number of answers of its
    class, modulo 2^64, and the answers are the requests' own: [account] pairs each
    request with what it adds, the status of its response and the duration of its
    handler, or nothing where it went to another route, was turned away before the
    metrics, which shows in its answer, or its handler panicked. *)
Theorem metrics_account (rs : list Request) (w : W) (Hzero : forall k, metrics w k = 0%Z) :
  exists entries, account rs w entries
    /\ forall k, metrics (serve rs w) k = wrap_u64 (Z.of_nat (hits (omap id entries) k)).
Proof.
  assert (exists entries, account rs w entries
    /\ metrics (serve rs w) = foldl count_answer (metrics w) (omap id entries)) as (entries & Ha & Hm).
  { clear Hzero. revert w. induction rs as [|r rs IH]; intros w; [by exists []|].
    destruct (root_entry r w) as (e & He & Hme). destruct (IH (world_of (root None r ∅ w))) as (l & Hl & Hml).
    exists (e :: l). split; [done|].
    change (serve (r :: rs) w) with (serve rs (world_of (root None r ∅ w))).
    rewrite Hml, Hme. by destruct e. }
  exists entries. split; [done|]. intros k. rewrite Hm, count_answers; rewrite Hzero; done.
Qed.
End metrics.

(** ** A concrete site *)

Module Witness.
Import ServerSpec.Witness RootSpec.Witness.
#[local] Existing Instance ascii_tables.
#[local] Existing Instance elements_order.
#[local] Existing Instances site_rand site_cache site_counters site_health site_schema site_auth site_bcrypt
  site_roles site_quote site_mux site_jwt site_client.

Lemma site_same_metrics : rest_within same_metrics limiters.
Proof. split; try done. split; try done. by left. Qed.
Lemma site_set m (w : server) : metrics (set_metrics m w) = m.
Proof. done. Qed.
Lemma site_introspect p e s (w : server) : same_metrics w (snd (Introspect p e s w)).
Proof. done. Qed.
Lemma site_evict role (w : server) : same_metrics w (Evict role w).
Proof. done. Qed.
Lemma site_admin : admin_within (W := server) same_metrics.
Proof. by split. Qed.
Lemma site_sql : sql_within (W := server) same_metrics.
Proof.
  assert (forall A (f : ExecutorSpec.Witness.sample_db -> A * ExecutorSpec.Witness.sample_db) w,
    same_metrics w (snd (on_db f w))) as Hon
    by (intros A f w; unfold on_db; by destruct (f (sv_db w))).
  split; intros; apply Hon.
Qed.
Lemma site_aux c ctx w w' : aux_step c ctx w w' -> same_metrics w w'.
Proof. intros [w1|t w1|t w1|role w1|role w1 w2 w3 qp rel _ [= <- <- <-]]; done. Qed.

Definition get_health : Request :=
  {| r_Method := "GET"; r_Path := "/health"; r_RequestURI := "/health"; r_Host := "api";
     r_RemoteAddr := "192.0.2.1:1"; r_Header := ∅; r_TLS := false;
     r_Body := None; r_BodyLimit := None; r_PathValue := EmptyString |}.
(* no JSON content type *)
Definition form_post : Request := post "query=SELECT+1".
Definition requests : list Request := [json_delete; get_health; form_post; get_schema].

(** An instance of [metrics_account]: a query, a probe, a request turned away for
    its content type, and the schema of a driver without one. *)
Lemma metrics_account_witness :
  exists entries, length entries = 4
    /\ forall k, metrics (site (config true "off" 1000) requests) k
       = wrap_u64 (Z.of_nat (hits (omap id entries) k)).
Proof.
  destruct (metrics_account "" (config true "off" 1000) tt tables None [] [] [] limiters eq_refl
    site_set site_same_metrics (site_aux _) site_sql
    site_introspect site_admin site_evict requests w0 (fun _ => eq_refl)) as (entries & Ha & Hk).
  exists entries. split; [|exact Hk].
  destruct entries as [|e1 [|e2 [|e3 [|e4 [|e5 entries]]]]]; cbn in Ha; tauto || reflexivity.
Defined.

(** Of the four, one 200 and one 501 are counted. *)
Example two_answers :
  map (metrics (site (config true "off" 1000) requests)) [status200; status400; status500; statusOther]
  = [1; 0; 0; 1]%Z.
Proof. vm_compute. reflexivity. Qed.
End Witness.
